(* ===== verification/_CoqProject ===== *)
-Q . S2P
Prelude.v
GoIO.v
GoStrings.v
GoEncoding.v
GoCrypto.v
Json.v
JsonFuel.v
Frame.v
Kube.v
KubeClient.v
DeepCopy.v
DeepCopySpec.v
Operator.v
Legacy.v
Cluster.v
Demo.v
LegacyCluster.v
OperatorHash.v
OperatorPods.v
OperatorReconcile.v
OperatorSafety.v
OperatorSync.v
LegacySpec.v
LegacySafety.v
GoFloat.v
GoDuration.v
GoPath.v
Errors.v
Config.v
DurationSpec.v
Token.v
Password.v
Protocol.v
Sniff.v
Store.v
Seed.v
SeedSpec.v
Service.v
ServiceSpec.v
Memory.v
Pictures.v
Redis.v
RedisSpec.v
RedisPictures.v
TcpServer.v
Calls.v
CallsSpec.v
Concurrent.v
ConcurrentAnswers.v
ConcurrentSafety.v
Startup.v
Deployment.v
TcpClient.v
HttpApi.v
EndToEnd.v
EndToEndAuth.v
OperatorMain.v
Commands.v
E2eUtils.v
