(* ===== verification/Prelude.v ===== *)
(** * go-entry-task: a verification library

    ** The program

    The repository is a user management service and the software that runs it
    on Kubernetes.

    - The _application_ ([src/internal], [src/cmd]): browsers talk to an HTTP
      gateway ([httpapi/server.go]); the gateway makes one call per request to a
      TCP backend over length-prefixed JSON frames ([httpapi/tcp_client.go],
      [protocol]); the backend ([service/tcp_server.go]) queues requests to
      workers that run the user service ([service/service.go]): login, profile,
      nickname, picture, logout.  The service keeps users in MySQL
      ([store/mysqlstore]), sessions and pictures in Redis
      ([store/redisstore]), and authenticates requests by signed tokens
      ([service/token.go]) and password hashes ([service/password.go]).
      Everything is configured by a file and the environment
      ([config/config.go]).
    - The _operator_ ([src/operator]): a Kubernetes controller that turns a
      [DbcpEntryService] resource into a ConfigMap, a Service and pods that run
      the application, and removes them when the resource is deleted.
    - A _polling controller_ ([src/cloud_native_entry_task/controllers]), the
      operator's predecessor, which does the same by listing all resources every
      few seconds.
    - The _commands_ ([src/cmd]): [tcpd], [httpd], [migrate], and [seed], which
      inserts users with a pool of goroutines.
    - The _helpers of the end-to-end tests_ ([src/operator/test/utils]).

    ** How it is modelled

    Go code is a shallow embedding.  A function that cannot fail is a Rocq
    function; one that returns [(A, error)] or can panic returns an [outcome];
    one that reads or changes something outside returns [eff W E A], a function
    of the world [W].  Interfaces of the Go code and code outside the repository
    (Kubernetes, MySQL, Redis, the network, the clock, the file system) are
    type classes or records of operations, and a second class states what the
    program relies on; each such class has an instance in memory, on which the
    definitions are evaluated and the hypotheses of the theorems are met.
    Integers are [Z] with the wrap-around of their width written out, bytes are
    [Byte.byte], strings are byte strings.  The parts of Go's library whose
    results matter are computed, not assumed: SHA-256, HMAC and PBKDF2, base64
    and hexadecimal, JSON, UTF-8, decimal numbers, durations, paths and content
    sniffing.

    ** Files

    - [Prelude]: outcomes, effects and [wp], bytes, machine integers, tactics.
    - [GoIO] (readers and writers), [GoStrings] ([strings], [unicode/utf8],
      [strconv]), [GoEncoding] ([encoding/hex], [encoding/base64]), [GoCrypto]
      ([crypto/sha256], [crypto/hmac], [crypto/pbkdf2]), [Json]
      ([encoding/json]), [JsonFuel] (the parser's fuel is enough for every text),
      [GoFloat] ([float64]), [GoDuration] ([time.ParseDuration] and
      [Duration.String]), [GoPath] ([path/filepath]), [Sniff]
      ([http.DetectContentType]).
    - [Frame]: [protocol/frame.go].  [Protocol]: [protocol/protocol.go].
    - [Kube]: the Kubernetes objects and API the operator uses, and the resource
      of [operator/api/v1alpha1].  [Operator]:
      [operator/internal/controller/dbcpentryservice_controller.go], one
      definition per function.  [Cluster]: an API server in memory.  [Demo]:
      concrete clusters.  [DeepCopy]: [zz_generated.deepcopy.go] over a memory with
      pointers, slices that share arrays, and maps.  [DeepCopySpec]: its theorem.
    - [OperatorHash], [OperatorPods], [OperatorReconcile], [OperatorSafety]: the
      theorems on the operator.  [OperatorSync]: the periodic full sync of
      [SetupWithManager].  [OperatorMain]: [operator/cmd/main.go], with Go slices
      that share their arrays.
    - [KubeClient]: the typed and the untyped client of client-go.  [Legacy]
      (Module [Legacy]): [controller.go], [resources.go] and [spec.go] of the
      polling controller, one definition per function.  [LegacyCluster]: its API
      server in memory.  [LegacySpec], [LegacySafety]: its theorems, and the
      comparison with the operator.
    - [Errors], [Token], [Password], [Config]: the files of the same names.
      [DurationSpec]: durations in JSON.
    - [Store]: [store/mysqlstore/store.go], its SQL statements and their laws.
    - [Service]: [service/service.go].  [ServiceSpec]: its theorems, against the
      interfaces of its stores.  [Memory]: a host in memory, and the witnesses.
      [Pictures]: uploads and reads of pictures over table, files and cache.
    - [Seed]: [cmd/seed/main.go], goroutines and channel as a state machine.
      [SeedSpec]: its theorems.
    - [Redis]: [store/redisstore/session.go].  [RedisSpec]: RESP, the laws of a
      Redis server, and the refinement of the service's session interface.
      [RedisPictures]: the refinement of the interface of the picture cache.
    - [TcpServer]: [service/tcp_server.go] as a state machine, for any handler.
    - [Calls]: the service one call of its stores at a time: what a request does
      next is computed from the answers it has had, by running the definitions of
      [Service].  [CallsSpec]: left undisturbed, this is [Handle].  [Concurrent]:
      the server with every such call a step of its own, so that requests
      interleave inside [Handle].  [ConcurrentAnswers], [ConcurrentSafety]: its
      theorems.
    - [Startup]: [service.New] and [cmd/tcpd/main.go].  [Deployment]: the
      operator's output as the application's input.
    - [TcpClient]: [httpapi/tcp_client.go].  [HttpApi]: [httpapi/server.go].
    - [EndToEnd]: the client against the server of [Concurrent] behind a network
      that may break a connection anywhere, and such a network in memory.
      [EndToEndAuth]: browser requests through the gateway, the frames, the workers
      and the service to the stores, with other clients at work.
    - [Commands]: the [main] functions of [httpd], [migrate], [seed] and
      [dbcp-controller].  [E2eUtils]: [operator/test/utils/utils.go].

    ** What the theorems show

    - _Operator._  The operator reads through the cache of its manager, which may be
      behind the cluster; each theorem says what it needs of the cache, and
      evaluated examples show what an old one does.  A successful run of
      [Reconcile] on a cache that has caught up leaves what the resource asks for:
      ConfigMap, Service and the right number of current pods
      ([Reconcile_achieves_spec]); it gets there from every state when calls
      succeed ([Reconcile_live]); whatever the cache shows, it touches nothing
      that belongs to another resource ([Reconcile_isolated]); nothing is created
      before the finalizer is in place ([finalizer_first]), the finalizer goes
      only after the clean-up of what the cache shows
      ([finalizer_released_after_cleanup], [Reconcile_deletes]), so that no object
      outlives its resource in any interleaving with users and the rest of the
      cluster in which the cache shows a resource, and when it is deleted its
      pods, as they are ([no_orphans]).  Scaling down keeps the oldest of the pods
      it sees, pods that fit are left alone, and the template hash is taken of a
      text that determines exactly what a pod depends on.  A full sync serves
      every resource whose own run succeeds, in any order
      ([full_sync_serves_each]).
      [main] gives each of its two TLS servers its own options and certificate,
      although their slices start as one ([main_separates_servers]).  A deep copy
      of a resource or a list has the same content and shares no memory with the
      original: writing to one never shows in the other ([DeepCopy_isolates]).
    - _Polling controller._  A pass serves every resource it does not log an error
      about ([reconcileAll_serves_each]); nothing is orphaned
      ([legacy_no_orphans]); exactly the well-formed resources are accepted
      ([parseSpec_accepts_exactly]); on pods, clean-up and configuration it is the
      same computation as the operator, up to the owner reference, for names that
      are label values, and it refuses the others ([controllers_equivalent]).  A replica count beyond 32 bits is accepted and
      ends the controller ([replicas_overflow_panics]).
    - _Seeding._  Every schedule of the goroutines ends ([seed_terminates]), and
      success means that all users are in the table ([seed_complete]).
    - _From the operator to the application._  The rendered environment makes
      [tcpd] start ([operator_config_starts]).
    - _Transport._  Frames and RESP are read back as written and cannot be
      confused; in every interleaving each connection gets its own responses in
      order ([responses_in_order]), no request is lost and the server does not
      block ([requests_answered]) or panic while it serves
      ([serving_is_safe]).  With requests interleaved call by call, every answer is
      that of a run of [Handle] for that very request, made after it was sent,
      and the shared state changes only by the calls of such runs
      ([interleaved_answers]; nothing more holds in general: two uploads of one
      user can leave what no order of the two does).  Over a network that can
      break, a call of the gateway returns the result of its own request or an
      error ([call_end_to_end]).
    - _Authentication._  Tokens are accepted exactly when signed and not
      expired, an issued token is accepted until it expires, protected
      operations need one, refusals of a login are uniform; the Redis store
      provides the sessions this relies on ([redis_refines_sessions],
      [RedisSpec.perform_signed_out]).  With requests interleaved call by call,
      the server writes a user's row only for a request that it had authenticated
      as that user ([updates_authorized]), and where sessions are kept, once a
      logout has finished, requests with its token fail and touch nothing until a
      session is saved again for that very token ([logout_effective]).  Through
      the whole stack, a cookie is only given for a password
      ([login_end_to_end]), and a protected route answers with 200 only for a
      token that the service accepted while it served the request
      ([gateway_authenticates]).  A server that runs without a session store, as
      [tcpd] does when Redis cannot be reached, asks for the token only, and a
      logout then revokes nothing: the theorems say where they need the store.
    - _Data._  Nickname and picture updates change the row of their user and
      nothing else, uploads are validated and stay in their directory.  The cache never shows anything but the picture the
      row points to, whatever calls fail ([cache_is_transparent]); Redis is such a
      cache ([redis_refines_pictures]).
      This is for operations that run one after the other: two uploads of one
      user that overlap can leave the wrong picture in the cache, as an evaluated
      schedule in [Pictures] shows.  Configuration has the documented precedence
      and is complete when it is accepted; durations are read back as they were
      written, to the nanosecond ([Duration_json_round_trip]).
    - _Test helpers._  [UncommentCode] takes the prefix from the lines of its target
      and leaves the rest of the file ([UncommentCode_undoes_comments]).

    ** Bounds

    Loops that are not structural have fuel, with a bound that is proved or
    evident to be enough: scaling down runs at most once per pod and scaling up
    once per missing replica, in both controllers; the JSON parser never runs out
    on any text ([JsonFuel.parse_value_fuel]); decimal digits are bounded by the binary
    logarithm; trimming and durations by the length of the text.  The workers of
    the TCP server and the goroutines of [seed] have a measure instead
    ([TcpServer.work], [SeedSpec.work]).  [Legacy.Run] takes the number of ticks
    before it is stopped.  A request makes at most eleven calls of its stores
    ([CallsSpec.next_done]), whatever it is answered.

    ** What is not modelled

    Time outs and deadlines appear as errors of reads and writes at any point;
    logging, metrics and signals are left out; garbage collection of dependents
    by Kubernetes is not relied upon.  In [TcpServer] a call of [Service.Handle] is
    one step of a worker with any result it may have; in [Concurrent] and the
    theorems through the whole stack it is as many steps as it makes calls, and what
    is one step there is a statement
    of the database, an operation of the session store or the picture cache, a
    reading of the clock or an operation on a file.  [Duration.Seconds]
    (a [float64]) is exact below 194 days.  Flags are arguments of the [main]
    functions.  controller-runtime, client-go, [net/http] and the database driver
    are interfaces with laws; registering the API types with a scheme is a call of
    controller-runtime.  The browser code, and the manifests of the deployment but
    for the table of users and the example configuration, are not modelled: they
    are not Go.

    ** Next

    Logout through the gateway; the round trip of a picture through the gateway
    under interleaving; an invariant of the picture cache under overlapping uploads (the
    schedule in [Pictures] shows that it is weaker than the sequential one).
*)

From stdpp Require Export base gmap strings list sorting.
From Stdlib Require Export ZArith Lia.
From Stdlib Require Import Strings.Byte.

#[export] Set Warnings "-clear-no-such-hyp,-register-all".

#[global] Open Scope Z_scope.

(** ** Outcomes of Go code

    A Go function of type [(A, error)] returns a value or an error; an index
    or slice expression out of range, or [make] with a negative length,
    panics.  The three cases are kept apart. *)

Inductive outcome (E A : Type) : Type :=
  | Ok (a : A)
  | Err (e : E)
  | Panic.

Arguments Ok {E A} a.
Arguments Err {E A} e.
Arguments Panic {E A}.

#[global] Instance outcome_ret (E : Type) : MRet (outcome E) := fun A => Ok.
#[global] Instance outcome_bind (E : Type) : MBind (outcome E) :=
  fun A B f m => match m with Ok a => f a | Err e => Err e | Panic => Panic end.
#[global] Instance outcome_map (E : Type) : FMap (outcome E) :=
  fun A B f m => match m with Ok a => Ok (f a) | Err e => Err e | Panic => Panic end.

Definition is_ok {E A} (r : outcome E A) : bool :=
  match r with Ok _ => true | _ => false end.

Definition of_option {E A} (e : E) (o : option A) : outcome E A :=
  match o with Some a => Ok a | None => Err e end.

Lemma outcome_bind_Ok {E A B} (m : outcome E A) (f : A → outcome E B) b :
  m ≫= f = Ok b ↔ ∃ a, m = Ok a ∧ f a = Ok b.
Proof. destruct m; split; [eauto|by intros (? & [= <-] & ?)|done|by intros (? & ? & ?)|done|by intros (? & ? & ?)]. Qed.

(** ** Effectful Go code

    [eff W E A] is a computation that reads and writes a world [W] (a stream, a
    cluster, a database) and ends in an outcome.  [wp m Q w] says that running
    [m] from [w] ends in an outcome and a world that satisfy [Q]. *)

Definition eff (W E A : Type) : Type := W → outcome E A * W.

#[global] Instance eff_ret (W E : Type) : MRet (eff W E) := fun A a w => (Ok a, w).
#[global] Instance eff_bind (W E : Type) : MBind (eff W E) :=
  fun A B f m w =>
    match m w with
    | (Ok a, w') => f a w'
    | (Err e, w') => (Err e, w')
    | (Panic, w') => (Panic, w')
    end.

Definition throw {W E A} (e : E) : eff W E A := fun w => (Err e, w).
Definition panic {W E A} : eff W E A := fun w => (Panic, w).
Definition lift {W E A} (r : outcome E A) : eff W E A := fun w => (r, w).

Definition wp {W E A} (m : eff W E A) (Q : outcome E A → W → Prop) (w : W) : Prop :=
  Q (m w).1 (m w).2.

Section wp.
Context {W E : Type}.
Implicit Types w : W.

Lemma wp_ret {A} (a : A) (Q : outcome E A → W → Prop) w :
  Q (Ok a) w → wp (mret a) Q w.
Proof. done. Qed.

Lemma wp_bind {A B} (m : eff W E A) (f : A → eff W E B) Q w :
  wp m (λ r w', match r with
                | Ok a => wp (f a) Q w'
                | Err e => Q (Err e) w'
                | Panic => Q Panic w' end) w →
  wp (m ≫= f) Q w.
Proof.
  unfold wp, mbind, eff_bind. destruct (m w) as [[a|e|] w'] eqn:E1; simpl; done.
Qed.

Lemma wp_mono {A} (m : eff W E A) (P Q : outcome E A → W → Prop) w :
  (∀ r w', P r w' → Q r w') → wp m P w → wp m Q w.
Proof. unfold wp. auto. Qed.

Lemma wp_conj {A} (m : eff W E A) (P Q : outcome E A → W → Prop) w :
  wp m P w → wp m Q w → wp m (λ r w', P r w' ∧ Q r w') w.
Proof. unfold wp. auto. Qed.

Lemma wp_run {A} (m : eff W E A) Q w r w' :
  wp m Q w → m w = (r, w') → Q r w'.
Proof. unfold wp. intros H Hr. by rewrite Hr in H. Qed.

(** The run of a computation whose outcome is known. *)
Lemma run_eq {A} (m : eff W E A) w r : (m w).1 = r → m w = (r, (m w).2).
Proof. intros <-. by destruct (m w). Qed.

Lemma eff_bind_run {A B} (m : eff W E A) (f : A → eff W E B) w b w2 :
  (m ≫= f) w = (Ok b, w2) ↔ ∃ a w1, m w = (Ok a, w1) ∧ f a w1 = (Ok b, w2).
Proof.
  unfold mbind, eff_bind. destruct (m w) as [[a|e|] w']; split; try done; [eauto| |..];
    by intros (? & ? & [= <- <-] & ?).
Qed.

Lemma lift_run {A} (r : outcome E A) w a w' : lift r w = (Ok a, w') → r = Ok a ∧ w' = w.
Proof. unfold lift. intros Hrun. by apply pair_eq in Hrun as [-> ->]. Qed.

Lemma bind_ext {A B} (m m' : eff W E A) (f g : A → eff W E B) w :
  m w = m' w → (∀ a w', f a w' = g a w') → (m ≫= f) w = (m' ≫= g) w.
Proof.
  intros Hm Hf. unfold mbind, eff_bind. rewrite Hm. by destruct (m' w) as [[a|e|] w'].
Qed.

Lemma eff_bind_step {A B} (m : eff W E A) (f : A → eff W E B) w a w1 :
  m w = (Ok a, w1) → (m ≫= f) w = f a w1.
Proof. unfold mbind, eff_bind. by intros ->. Qed.
End wp.

(** A computation that leaves a part of the world as it is, whatever its
    outcome. *)
Definition keeps {W E A X : Type} (f : W → X) (m : eff W E A) : Prop := ∀ w, f (m w).2 = f w.

Lemma keeps_ret {W E A X} (f : W → X) (a : A) : keeps f (mret a : eff W E A).
Proof. done. Qed.
Lemma keeps_lift {W E A X} (f : W → X) (r : outcome E A) : keeps f (lift r).
Proof. done. Qed.
Lemma keeps_bind {W E A B X} (f : W → X) (m : eff W E A) (g : A → eff W E B) :
  keeps f m → (∀ a, keeps f (g a)) → keeps f (m ≫= g).
Proof.
  intros Hm Hg w. unfold mbind, eff_bind. specialize (Hm w).
  destruct (m w) as [[a|e|] w']; cbn in *; [|done..]. by rewrite Hg.
Qed.

Create HintDb keeps.
#[export] Hint Resolve keeps_ret keeps_lift keeps_bind : keeps.

(** ** Automation *)

(** One step of a run whose outcome computes. *)
Ltac run_step := erewrite eff_bind_step by reflexivity.

(** Decide a closed decidable proposition by evaluation. *)
Ltac decide_by_vm := refine (bool_decide_unpack _ _); vm_compute; exact I.

(** Conversions between numbers, bytes and strings cancel out. *)
Create Rewrite HintDb gobytes.

(** ** Bytes

    Go's [byte] is [Byte.byte]; [[]byte] is a list of them; a Go [string] is a
    sequence of bytes, [String.string]. *)

Abbreviation byte := Byte.byte.
Abbreviation bytes := (list byte).

#[global] Instance byte_eq_dec : EqDecision byte := Byte.byte_eq_dec.

Definition byteZ (b : byte) : Z := Z.of_N (Byte.to_N b).
Definition Zbyte (z : Z) : byte :=
  default x00 (Byte.of_N (Z.to_N (z mod 256))).

Lemma byteZ_range b : 0 ≤ byteZ b < 256.
Proof. unfold byteZ. pose proof (Byte.to_N_bounded b). lia. Qed.

Lemma byteZ_Zbyte z : byteZ (Zbyte z) = z mod 256.
Proof.
  unfold byteZ, Zbyte. pose proof (Z.mod_pos_bound z 256).
  destruct (Byte.of_N (Z.to_N (z mod 256))) as [b|] eqn:Hb; simpl.
  - apply Byte.to_of_N in Hb. rewrite Hb. lia.
  - apply Byte.of_N_None_iff in Hb. lia.
Qed.

Lemma byteZ_inj b1 b2 : byteZ b1 = byteZ b2 → b1 = b2.
Proof.
  unfold byteZ. intros H%N2Z.inj.
  pose proof (Byte.of_to_N b1). pose proof (Byte.of_to_N b2). congruence.
Qed.

Lemma Zbyte_byteZ b : Zbyte (byteZ b) = b.
Proof.
  apply byteZ_inj. rewrite byteZ_Zbyte. apply Z.mod_small, byteZ_range.
Qed.

(** ** Machine integers *)

Definition wrapu (w z : Z) : Z := z mod 2 ^ w.
Definition wraps (w z : Z) : Z := (z + 2 ^ (w - 1)) mod 2 ^ w - 2 ^ (w - 1).

Lemma wrapu_id w z : 0 ≤ z < 2 ^ w → wrapu w z = z.
Proof. apply Z.mod_small. Qed.

Lemma wraps_id w z : 0 < w → - 2 ^ (w - 1) ≤ z < 2 ^ (w - 1) → wraps w z = z.
Proof.
  intros Hw Hz. unfold wraps.
  assert (2 ^ w = 2 * 2 ^ (w - 1)) by (rewrite <- Z.pow_succ_r by lia; f_equal; lia).
  rewrite Z.mod_small; lia.
Qed.

(** A number below [2^n] has no bit at [n] or above. *)
Lemma testbit_above a n i : 0 ≤ a < 2 ^ n → n ≤ i → Z.testbit a i = false.
Proof.
  intros Ha Hi. assert (0 ≤ n) by (destruct (Z.neg_nonneg_cases n);
    [rewrite Z.pow_neg_r in Ha by lia; lia | done]).
  rewrite <- (Z.mod_small a (2 ^ n)) by lia. by apply Z.mod_pow2_bits_high.
Qed.

(** [a | b << n] is [a + b * 2^n] when [a] fits in [n] bits. *)
Lemma lor_shiftl_add a b n :
  0 ≤ a < 2 ^ n → 0 ≤ n → Z.lor a (Z.shiftl b n) = a + b * 2 ^ n.
Proof.
  intros Ha Hn. rewrite <- Z.shiftl_mul_pow2 by lia.
  rewrite <- (Z.add_lor_land a).
  cut (Z.land a (Z.shiftl b n) = 0); [lia|].
  apply Z.bits_inj'. intros i Hi.
  rewrite Z.land_spec, Z.bits_0, Z.shiftl_spec by lia.
  destruct (decide (i < n)).
  - rewrite (Z.testbit_neg_r b) by lia. apply andb_false_r.
  - by rewrite (testbit_above a n) by lia.
Qed.

#[export] Hint Rewrite byteZ_Zbyte Zbyte_byteZ : gobytes.
