(* ===== verification/GoIO.v ===== *)
(** * Byte streams: the parts of [io] that the repository uses

    A reader is the bytes the peer has sent and the error the next read
    returns once they are used up ([io.EOF] after an orderly close).  A writer
    is the bytes accepted so far and, when the connection is about to break,
    how many more it accepts. *)

From S2P Require Import Prelude.

Inductive io_error :=
  | EOF
  | ErrUnexpectedEOF
  | IOOther (msg : string).

#[global] Instance io_error_eq_dec : EqDecision io_error.
Proof. solve_decision. Defined.

Record reader := Reader { r_data : bytes; r_fin : io_error }.
Record writer := Writer { w_out : bytes; w_room : option nat }.

(** [io.ReadFull(r, buf)] with [len(buf) = n]. *)
Definition ReadFull (n : Z) : eff reader io_error bytes := λ r,
  if n <=? Z.of_nat (length (r_data r)) then
    (Ok (take (Z.to_nat n) (r_data r)), Reader (drop (Z.to_nat n) (r_data r)) (r_fin r))
  else
    (Err (match r_data r, r_fin r with
          | _ :: _, EOF => ErrUnexpectedEOF
          | _, e => e
          end), Reader [] (r_fin r)).

(** [w.Write(p)]: all of [p], or a prefix and an error. *)
Definition Write (p : bytes) : eff writer io_error unit := λ w,
  match w_room w with
  | None => (Ok tt, Writer (w_out w ++ p) None)
  | Some k =>
      if (length p <=? k)%nat then (Ok tt, Writer (w_out w ++ p) (Some (k - length p)%nat))
      else (Err (IOOther "short write"), Writer (w_out w ++ take k p) (Some 0%nat))
  end.

Lemma ReadFull_app p rest fin :
  ReadFull (Z.of_nat (length p)) (Reader (p ++ rest) fin) = (Ok p, Reader rest fin).
Proof.
  unfold ReadFull; simpl. rewrite length_app, Nat2Z.id.
  rewrite (proj2 (Z.leb_le _ _)) by lia.
  by rewrite take_app_length, drop_app_length.
Qed.

Lemma ReadFull_Ok n r p r' :
  0 ≤ n → ReadFull n r = (Ok p, r') →
  Z.of_nat (length p) = n ∧ r_data r = p ++ r_data r' ∧ r_fin r' = r_fin r.
Proof.
  intros Hn. unfold ReadFull. destruct (Z.leb_spec n (Z.of_nat (length (r_data r)))); [|done].
  intros [= <- <-]; simpl. rewrite length_take, take_drop. split; [lia|done].
Qed.

Lemma ReadFull_short n r :
  Z.of_nat (length (r_data r)) < n →
  ∃ e, ReadFull n r = (Err e, Reader [] (r_fin r)) ∧
       (e = EOF → r_data r = [] ∧ r_fin r = EOF).
Proof.
  intros Hn. unfold ReadFull. rewrite (proj2 (Z.leb_gt _ _)) by lia.
  eexists; split; [done|]. destruct (r_data r), (r_fin r); naive_solver.
Qed.

