(* ===== verification/GoStrings.v ===== *)
(** * The parts of [strings], [unicode/utf8] and [strconv] that are used

    Go strings are byte sequences; the functions below work on [bytes] and
    [string] values are converted at the boundary. *)

From S2P Require Import Prelude.
From Stdlib Require Import Strings.Byte.

Abbreviation bytes_of := String.list_byte_of_string.
Abbreviation string_of := String.string_of_list_byte.

Lemma bytes_of_string_of b : bytes_of (string_of b) = b.
Proof. apply String.list_byte_of_string_of_list_byte. Qed.
Lemma string_of_bytes_of s : string_of (bytes_of s) = s.
Proof. apply String.string_of_list_byte_of_string. Qed.

Lemma bytes_of_app s t : bytes_of (s +:+ t) = bytes_of s ++ bytes_of t.
Proof.
  unfold String.list_byte_of_string.
  induction s as [|c s IH]; simpl; [done | by f_equal].
Qed.
Lemma string_of_app a b : string_of (a ++ b) = string_of a +:+ string_of b.
Proof.
  unfold String.string_of_list_byte.
  induction a as [|c a IH]; simpl; [done | by rewrite IH].
Qed.

#[export] Hint Rewrite bytes_of_string_of string_of_bytes_of bytes_of_app : gobytes.

#[global] Instance bytes_of_inj : Inj (=) (=) bytes_of.
Proof. intros s t H. rewrite <- (string_of_bytes_of s), H. apply string_of_bytes_of. Qed.
#[global] Instance string_of_inj : Inj (=) (=) string_of.
Proof. intros s t H. rewrite <- (bytes_of_string_of s), H. apply bytes_of_string_of. Qed.

(** [len(s)] for a string. *)
Definition slen (s : string) : Z := Z.of_nat (String.length s).

Lemma length_bytes_of s : length (bytes_of s) = String.length s.
Proof.
  unfold String.list_byte_of_string.
  induction s as [|c s IH]; simpl; [done | by f_equal].
Qed.

(** ** [unicode/utf8]

    A byte string is cut into the UTF-8 encodings it contains and the single
    bytes that belong to none; this is the sequence of runes that
    [utf8.DecodeRune] yields, with their sizes ([Bad] is [RuneError, 1]). *)

Inductive chunk := Good (enc : bytes) | Bad (b : byte).

Definition inr (lo hi : Z) (b : byte) : bool := (lo <=? byteZ b) && (byteZ b <=? hi).

Definition utf8_two (b0 b1 : byte) : bool := inr 0xC2 0xDF b0 && inr 0x80 0xBF b1.
Definition utf8_three (b0 b1 b2 : byte) : bool :=
  (inr 0xE0 0xE0 b0 && inr 0xA0 0xBF b1 || inr 0xE1 0xEC b0 && inr 0x80 0xBF b1
   || inr 0xED 0xED b0 && inr 0x80 0x9F b1 || inr 0xEE 0xEF b0 && inr 0x80 0xBF b1)
  && inr 0x80 0xBF b2.
Definition utf8_four (b0 b1 b2 b3 : byte) : bool :=
  (inr 0xF0 0xF0 b0 && inr 0x90 0xBF b1 || inr 0xF1 0xF3 b0 && inr 0x80 0xBF b1
   || inr 0xF4 0xF4 b0 && inr 0x80 0x8F b1)
  && inr 0x80 0xBF b2 && inr 0x80 0xBF b3.

Fixpoint chunks (s : bytes) : list chunk :=
  match s with
  | [] => []
  | b0 :: s1 =>
      if byteZ b0 <? 128 then Good [b0] :: chunks s1 else
      match s1 with
      | [] => [Bad b0]
      | b1 :: s2 =>
          if utf8_two b0 b1 then Good [b0; b1] :: chunks s2 else
          match s2 with
          | [] => Bad b0 :: chunks s1
          | b2 :: s3 =>
              if utf8_three b0 b1 b2 then Good [b0; b1; b2] :: chunks s3 else
              match s3 with
              | [] => Bad b0 :: chunks s1
              | b3 :: s4 =>
                  if utf8_four b0 b1 b2 b3 then Good [b0; b1; b2; b3] :: chunks s4
                  else Bad b0 :: chunks s1
              end
          end
      end
  end.

Definition chunk_bytes (c : chunk) : bytes :=
  match c with Good e => e | Bad b => [b] end.
Definition chunk_good (c : chunk) : bool :=
  match c with Good _ => true | Bad _ => false end.

(** [utf8.ValidString]. *)
Definition ValidUTF8 (s : bytes) : bool := forallb chunk_good (chunks s).
Definition ValidString (s : string) : bool := ValidUTF8 (bytes_of s).

(** ** [strings] *)

(** The UTF-8 encodings of the runes for which [unicode.IsSpace] holds: tab to
    carriage return, space, U+0085, U+00A0, U+1680, U+2000 to U+200A, U+2028,
    U+2029, U+202F, U+205F and U+3000. *)
Definition space_encodings : list bytes :=
  [[x09]; [x0a]; [x0b]; [x0c]; [x0d]; [x20]; [xc2; x85]; [xc2; xa0]; [xe1; x9a; x80];
   [xe2; x80; x80]; [xe2; x80; x81]; [xe2; x80; x82]; [xe2; x80; x83]; [xe2; x80; x84];
   [xe2; x80; x85]; [xe2; x80; x86]; [xe2; x80; x87]; [xe2; x80; x88]; [xe2; x80; x89];
   [xe2; x80; x8a]; [xe2; x80; xa8]; [xe2; x80; xa9]; [xe2; x80; xaf]; [xe2; x81; x9f];
   [xe3; x80; x80]].

(** What is left of [s] after the prefix [p], if [s] starts with it. *)
Fixpoint strip_prefix (p s : bytes) : option bytes :=
  match p, s with
  | [], _ => Some s
  | a :: p, b :: s => if decide (a = b) then strip_prefix p s else None
  | _ :: _, [] => None
  end.

Fixpoint strip_first (ps : list bytes) (s : bytes) : option bytes :=
  match ps with
  | [] => None
  | p :: ps => match strip_prefix p s with Some r => Some r | None => strip_first ps s end
  end.

Fixpoint strip_all (fuel : nat) (ps : list bytes) (s : bytes) : bytes :=
  match fuel with
  | O => s
  | S fuel => match strip_first ps s with Some r => strip_all fuel ps r | None => s end
  end.

(** No encoding of a space is a suffix of another rune's encoding, so trimming
    from the right is trimming reversed encodings from the reversed string. *)
Definition trim_left (ps : list bytes) (s : bytes) : bytes := strip_all (length s) ps s.
Definition trim_right (ps : list bytes) (s : bytes) : bytes :=
  rev (strip_all (length s) (map (@rev byte) ps) (rev s)).

Definition trim_space (s : bytes) : bytes :=
  trim_right space_encodings (trim_left space_encodings s).

Definition TrimSpace (s : string) : string := string_of (trim_space (bytes_of s)).

(** [strings.TrimRight(s, "/")] for a single-byte cutset. *)
Definition TrimRightByte (b : byte) (s : string) : string :=
  string_of (trim_right [[b]] (bytes_of s)).

(** [strings.TrimSuffix(s, suffix)]. *)
Definition trim_suffix (suffix s : bytes) : bytes :=
  match strip_prefix (rev suffix) (rev s) with Some r => rev r | None => s end.

(** [strings.Split(s, sep)] for a one-byte separator. *)
Fixpoint split_byte (sep : byte) (s : bytes) : list bytes :=
  match s with
  | [] => [[]]
  | b :: s =>
      if decide (b = sep) then [] :: split_byte sep s
      else match split_byte sep s with
           | [] => [[b]]
           | w :: ws => (b :: w) :: ws
           end
  end.

(** [strings.Join(parts, sep)]. *)
Fixpoint Join (parts : list string) (sep : string) : string :=
  match parts with
  | [] => ""
  | [p] => p
  | p :: ps => p +:+ sep +:+ Join ps sep
  end.

(** ** [strconv] *)

Fixpoint dec_digits (fuel : nat) (n : Z) (acc : bytes) : bytes :=
  match fuel with
  | O => acc
  | S fuel =>
      let acc := Zbyte (48 + n mod 10) :: acc in
      if n <? 10 then acc else dec_digits fuel (n / 10) acc
  end.

(** [strconv.FormatUint(n, 10)]; the base-two length of [n] bounds its number of
    decimal digits. *)
Definition format_uint (n : Z) : bytes := dec_digits (S (Z.to_nat (Z.log2 n))) n [].
Definition format_int (z : Z) : bytes :=
  if z <? 0 then x2d :: format_uint (- z) else format_uint z.

Definition FormatUint (n : Z) : string := string_of (format_uint n).
Definition Itoa (z : Z) : string := string_of (format_int z).

Definition is_digit (b : byte) : bool := inr 48 57 b.

Fixpoint parse_digits (acc : Z) (s : bytes) : option Z :=
  match s with
  | [] => Some acc
  | b :: s => if is_digit b then parse_digits (acc * 10 + (byteZ b - 48)) s else None
  end.

(** [strconv.ParseUint(s, 10, bits)]; both of its errors are [None]. *)
Definition parse_uint (bits : Z) (s : bytes) : option Z :=
  match s with
  | [] => None
  | _ => match parse_digits 0 s with
         | Some n => if n <? 2 ^ bits then Some n else None
         | None => None
         end
  end.

Lemma parse_digits_nonneg acc s n : 0 ≤ acc → parse_digits acc s = Some n → 0 ≤ n.
Proof.
  revert acc. induction s as [|b s IH]; cbn; intros acc Hacc H; [congruence|].
  destruct (is_digit b) eqn:Hb; [|done]. eapply IH, H. unfold is_digit, inr in Hb. lia.
Qed.

Lemma parse_uint_range bits s n : parse_uint bits s = Some n → 0 ≤ n < 2 ^ bits.
Proof.
  unfold parse_uint. destruct s as [|b s]; [done|].
  destruct (parse_digits 0 (b :: s)) as [m|] eqn:Hm; [|done].
  destruct (Z.ltb_spec m (2 ^ bits)); [|done]. intros [= <-].
  split; [|done]. by apply (parse_digits_nonneg 0 (b :: s)).
Qed.

(** [strconv.ParseInt(s, 10, bits)]; [Atoi] is [ParseInt] at 64 bits. *)
Definition parse_int (bits : Z) (s : bytes) : option Z :=
  let '(neg, digits) :=
    match s with
    | b :: r => if decide (b = x2b) then (false, r) else if decide (b = x2d) then (true, r)
                else (false, s)
    | [] => (false, [])
    end in
  match parse_uint bits digits with
  | None => None
  | Some un =>
      if neg then (if 2 ^ (bits - 1) <? un then None else Some (- un))
      else (if 2 ^ (bits - 1) <=? un then None else Some un)
  end.

Definition ParseUint (s : string) (bits : Z) : option Z := parse_uint bits (bytes_of s).
Definition ParseInt (s : string) (bits : Z) : option Z := parse_int bits (bytes_of s).
Definition Atoi (s : string) : option Z := ParseInt s 64.

(** ** Lemmas *)

Lemma is_digit_Zbyte d : 0 ≤ d < 10 → is_digit (Zbyte (48 + d)) = true ∧ byteZ (Zbyte (48 + d)) = 48 + d.
Proof.
  intros Hd. unfold is_digit, inr. rewrite byteZ_Zbyte, Z.mod_small by lia.
  split; [|done]. apply andb_true_iff. rewrite !Z.leb_le. lia.
Qed.

(** The digits of [n] parse back to [n] in front of whatever follows. *)
Lemma parse_dec_digits fuel n a acc :
  0 ≤ n < 2 ^ Z.of_nat fuel →
  ∃ k, 0 ≤ k ∧ parse_digits a (dec_digits fuel n acc) = parse_digits (a * 10 ^ k + n) acc.
Proof.
  revert n a acc. induction fuel as [|fuel IH]; intros n a acc Hn.
  { exists 0. simpl in *. split; [lia|]. f_equal. lia. }
  pose proof (is_digit_Zbyte (n mod 10) ltac:(pose proof (Z.mod_pos_bound n 10); lia)) as [Hd Hv].
  simpl. destruct (Z.ltb_spec n 10).
  - exists 1. split; [lia|]. simpl. rewrite Hd, Hv. f_equal.
    rewrite Z.mod_small by lia. lia.
  - destruct (IH (n / 10) a (Zbyte (48 + n mod 10) :: acc)) as (k & Hk & E).
    { rewrite Nat2Z.inj_succ, Z.pow_succ_r in Hn by lia.
      split; [apply Z.div_pos; lia|]. apply Z.div_lt_upper_bound; lia. }
    exists (k + 1). split; [lia|]. rewrite E. simpl. rewrite Hd, Hv. f_equal.
    rewrite Z.pow_add_r by lia. pose proof (Z.div_mod n 10). lia.
Qed.

Lemma dec_digits_cons fuel n acc :
  ∃ b s, dec_digits (S fuel) n acc = b :: s ++ acc ∧ is_digit b = true.
Proof.
  revert n acc. induction fuel as [|fuel IH]; intros n acc;
    (pose proof (is_digit_Zbyte (n mod 10) ltac:(pose proof (Z.mod_pos_bound n 10); lia)) as [Hd Hv]).
  - exists (Zbyte (48 + n mod 10)), []. simpl. by destruct (n <? 10).
  - change (dec_digits (S (S fuel)) n acc) with
      (if n <? 10 then Zbyte (48 + n mod 10) :: acc
       else dec_digits (S fuel) (n / 10) (Zbyte (48 + n mod 10) :: acc)).
    destruct (n <? 10); [by exists (Zbyte (48 + n mod 10)), []|].
    destruct (IH (n / 10) (Zbyte (48 + n mod 10) :: acc)) as (b & s & E & Hb).
    exists b, (s ++ [Zbyte (48 + n mod 10)]). rewrite E, <- app_assoc. done.
Qed.

Lemma format_uint_cons n : ∃ b s, format_uint n = b :: s ∧ is_digit b = true.
Proof.
  destruct (dec_digits_cons (Z.to_nat (Z.log2 n)) n []) as (b & s & E & Hb).
  exists b, s. unfold format_uint. by rewrite E, app_nil_r.
Qed.

Lemma parse_digits_format n : 0 ≤ n → parse_digits 0 (format_uint n) = Some n.
Proof.
  intros Hn. unfold format_uint.
  destruct (parse_dec_digits (S (Z.to_nat (Z.log2 n))) n 0 []) as (k & Hk & ->); [|done].
  split; [lia|]. rewrite Nat2Z.inj_succ, Z2Nat.id by apply Z.log2_nonneg.
  destruct (decide (n = 0)) as [->|]; [done|]. apply Z.log2_spec. lia.
Qed.

Lemma parse_format_uint bits n : 0 ≤ n < 2 ^ bits → parse_uint bits (format_uint n) = Some n.
Proof.
  intros Hn. unfold parse_uint. destruct (format_uint_cons n) as (b & s & E & _).
  pose proof (parse_digits_format n ltac:(lia)) as P. rewrite E in *. rewrite P.
  by rewrite (proj2 (Z.ltb_lt _ _)) by lia.
Qed.

Lemma digit_not_sign b : is_digit b = true → b ≠ x2b ∧ b ≠ x2d.
Proof. intros H. split; intros ->; by vm_compute in H. Qed.

Lemma parse_format_int bits z :
  0 < bits → - 2 ^ (bits - 1) ≤ z < 2 ^ (bits - 1) → parse_int bits (format_int z) = Some z.
Proof.
  intros Hb Hz. unfold parse_int, format_int.
  assert (2 ^ bits = 2 * 2 ^ (bits - 1)) as Hp
    by (rewrite <- Z.pow_succ_r by lia; f_equal; lia).
  destruct (Z.ltb_spec z 0).
  - rewrite decide_False, decide_True by done. rewrite parse_format_uint by lia.
    rewrite (proj2 (Z.ltb_ge _ _)) by lia. f_equal. lia.
  - destruct (format_uint_cons z) as (b & s & E & Hd).
    rewrite E. apply digit_not_sign in Hd as [? ?]. rewrite !decide_False by done.
    rewrite <- E, parse_format_uint by lia. by rewrite (proj2 (Z.leb_gt _ _)) by lia.
Qed.

Lemma format_uint_inj m n : 0 ≤ m → 0 ≤ n → format_uint m = format_uint n → m = n.
Proof.
  intros Hm Hn E. pose proof (parse_digits_format m Hm) as P.
  rewrite E, parse_digits_format in P by done. congruence.
Qed.

Lemma format_uint_digits n : Forall (λ b, is_digit b = true) (format_uint n).
Proof.
  unfold format_uint. generalize (S (Z.to_nat (Z.log2 n))) as fuel. intros fuel.
  assert (∀ acc, Forall (λ b, is_digit b = true) acc →
    Forall (λ b, is_digit b = true) (dec_digits fuel n acc)) as H; [|by apply H].
  revert n. induction fuel as [|fuel IH]; simpl; intros n acc Hacc; [done|].
  pose proof (is_digit_Zbyte (n mod 10) ltac:(pose proof (Z.mod_pos_bound n 10); lia)) as [Hd _].
  destruct (n <? 10); [by constructor|]. apply IH. by constructor.
Qed.

Lemma strip_prefix_Some p s r : strip_prefix p s = Some r ↔ s = p ++ r.
Proof.
  revert s. induction p as [|a p IH]; intros [|b s]; simpl; try naive_solver.
  case_decide; naive_solver.
Qed.

Lemma strip_prefix_app p r : strip_prefix p (p ++ r) = Some r.
Proof. by apply strip_prefix_Some. Qed.

Lemma strip_first_Some ps s r : strip_first ps s = Some r → ∃ p, p ∈ ps ∧ s = p ++ r.
Proof.
  induction ps as [|p ps IH]; simpl; [done|].
  destruct (strip_prefix p s) as [r'|] eqn:E.
  - intros [= <-]. apply strip_prefix_Some in E. exists p. set_solver.
  - intros (q & ? & ?)%IH. exists q. set_solver.
Qed.

Lemma strip_first_None ps s p r : strip_first ps s = None → p ∈ ps → s ≠ p ++ r.
Proof.
  induction ps as [|q ps IH]; simpl; [set_solver|].
  destruct (strip_prefix q s) as [r'|] eqn:E; [done|].
  intros H [->|Hp]%elem_of_cons; [|by apply IH].
  intros ->. by rewrite strip_prefix_app in E.
Qed.

(** [strip_all] stops only when nothing more can be stripped. *)
Lemma strip_all_done ps fuel s :
  [] ∉ ps → (length s ≤ fuel)%nat → strip_first ps (strip_all fuel ps s) = None.
Proof.
  intros Hne. revert s. induction fuel as [|fuel IH]; simpl; intros s Hs.
  { destruct s; simpl in *; [|lia]. destruct (strip_first ps []) as [r|] eqn:E; [|done].
    apply strip_first_Some in E as (p & Hp & E). symmetry in E.
    apply app_eq_nil in E as [-> _]. done. }
  destruct (strip_first ps s) as [r|] eqn:E; [|done]. apply IH.
  apply strip_first_Some in E as (p & Hp & ->). rewrite length_app in Hs.
  destruct p; [done|]. simpl in *. lia.
Qed.

Lemma strip_all_suffix ps fuel s : strip_all fuel ps s `suffix_of` s.
Proof.
  revert s. induction fuel as [|fuel IH]; simpl; intros s; [done|].
  destruct (strip_first ps s) as [r|] eqn:E; [|done].
  apply strip_first_Some in E as (p & Hp & ->). etrans; [apply IH|]. by exists p.
Qed.

(** The encodings of one rune. *)
Definition enc_ok (e : bytes) : bool :=
  match e with
  | [b] => byteZ b <? 128
  | [b0; b1] => utf8_two b0 b1
  | [b0; b1; b2] => utf8_three b0 b1 b2
  | [b0; b1; b2; b3] => utf8_four b0 b1 b2 b3
  | _ => false
  end.

(** Case analysis that follows the branches of [chunks]. *)
Lemma chunks_case (P : bytes → list chunk → Prop) :
  P [] [] →
  (∀ e s, enc_ok e = true → P s (chunks s) → P (e ++ s) (Good e :: chunks s)) →
  (∀ b s, 128 ≤ byteZ b → P s (chunks s) → P (b :: s) (Bad b :: chunks s)) →
  ∀ s, P s (chunks s).
Proof.
  intros Hnil Hgood Hbad s. induction s as [s IH] using (induction_ltof1 _ (@length byte)).
  unfold ltof in IH.
  destruct s as [|b0 s1]; [apply Hnil|]. cbn [chunks].
  destruct (byteZ b0 <? 128) eqn:E1; [apply (Hgood [b0]); [done|apply IH; simpl; lia]|].
  assert (128 ≤ byteZ b0) by lia.
  assert (P (b0 :: s1) (Bad b0 :: chunks s1)) by (apply Hbad; [lia|apply IH; simpl; lia]).
  destruct s1 as [|b1 s2]; [done|].
  destruct (utf8_two b0 b1) eqn:E2; [apply (Hgood [b0; b1]); [done|apply IH; simpl; lia]|].
  destruct s2 as [|b2 s3]; [done|].
  destruct (utf8_three b0 b1 b2) eqn:E3; [apply (Hgood [b0; b1; b2]); [done|apply IH; simpl; lia]|].
  destruct s3 as [|b3 s4]; [done|].
  destruct (utf8_four b0 b1 b2 b3) eqn:E4; [apply (Hgood [b0; b1; b2; b3]); [done|apply IH; simpl; lia]|].
  done.
Qed.

Lemma chunks_bytes s : concat (map chunk_bytes (chunks s)) = s.
Proof.
  apply (chunks_case (λ s cs, concat (map chunk_bytes cs) = s)); [done|..];
    intros; simpl; congruence.
Qed.

Lemma chunks_enc_ok s : Forall (λ c, ∀ e, c = Good e → enc_ok e = true) (chunks s).
Proof.
  apply (chunks_case (λ _ cs, Forall _ cs)); [done|..]; intros; constructor; naive_solver.
Qed.

(** The first byte of a one-, two-, three- or four-byte encoding tells which. *)
Lemma enc_ok_app e s : enc_ok e = true → chunks (e ++ s) = Good e :: chunks s.
Proof.
  destruct e as [|b0 [|b1 [|b2 [|b3 [|]]]]]; cbn [enc_ok app]; intros H; try done.
  - cbn [chunks]. by rewrite H.
  - cbn [chunks]. rewrite H. unfold utf8_two, inr in H.
    destruct (Z.ltb_spec (byteZ b0) 128); [lia|done].
  - cbn [chunks]. rewrite H. destruct (utf8_two b0 b1) eqn:E2;
      unfold utf8_three, utf8_two, inr in *; [lia|].
    destruct (Z.ltb_spec (byteZ b0) 128); [lia|done].
  - cbn [chunks]. rewrite H.
    destruct (utf8_two b0 b1) eqn:E2; [unfold utf8_four, utf8_two, inr in *; lia|].
    destruct (utf8_three b0 b1 b2) eqn:E3; [unfold utf8_four, utf8_three, inr in *; lia|].
    destruct (Z.ltb_spec (byteZ b0) 128); [unfold utf8_four, inr in *; lia|done].
Qed.

Lemma chunks_good es : Forall (λ e, enc_ok e = true) es → chunks (concat es) = map Good es.
Proof.
  induction 1 as [|e es He _ IH]; [done|]. cbn [concat map]. by rewrite enc_ok_app, IH.
Qed.

(** A valid string is a sequence of encodings. *)
Lemma ValidUTF8_encs s :
  ValidUTF8 s = true → ∃ es, chunks s = map Good es ∧ s = concat es ∧
    Forall (λ e, enc_ok e = true) es.
Proof.
  intros H. exists (map chunk_bytes (chunks s)). split; [|split].
  - unfold ValidUTF8 in H. induction (chunks s) as [|[e|b] cs IH]; simpl in *; [done| |done].
    by rewrite <- IH.
  - by rewrite chunks_bytes.
  - unfold ValidUTF8 in H. pose proof (chunks_enc_ok s) as Hok.
    induction Hok as [|[e|b] cs Hc _ IH]; simpl in *; [done| |done]. constructor; auto.
Qed.

(** No number but zero is written with a leading zero. *)
Lemma dec_digits_nonzero fuel n acc :
  0 < n < 2 ^ Z.of_nat fuel → ∃ b s, dec_digits fuel n acc = b :: s ∧ b ≠ x30.
Proof.
  revert n acc. induction fuel as [|fuel IH]; intros n acc Hn; [simpl in Hn; lia|].
  cbn [dec_digits]. destruct (Z.ltb_spec n 10).
  - eexists _, _. split; [done|]. intros E%(f_equal byteZ).
    rewrite byteZ_Zbyte in E. change (byteZ x30) with 48 in E.
    rewrite !Z.mod_small in E by (rewrite ?Z.mod_small; lia). lia.
  - apply IH. rewrite Nat2Z.inj_succ, Z.pow_succ_r in Hn by lia.
    split; [apply Z.div_str_pos; lia|]. apply Z.div_lt_upper_bound; lia.
Qed.

Lemma format_uint_nonzero n : 0 < n → ∃ b s, format_uint n = b :: s ∧ b ≠ x30.
Proof.
  intros Hn. apply dec_digits_nonzero. split; [done|].
  rewrite Nat2Z.inj_succ, Z2Nat.id by apply Z.log2_nonneg. apply Z.log2_spec. lia.
Qed.

(** ** ASCII text *)

Definition is_ascii (b : byte) : Prop := byteZ b < 128.

Lemma ValidUTF8_ascii s : Forall is_ascii s → ValidUTF8 s = true.
Proof.
  intros Hs. unfold ValidUTF8.
  assert (E : s = concat (map (λ b, [b]) s)) by (clear Hs; induction s; cbn; congruence).
  rewrite E, chunks_good; [clear; by induction s|].
  clear E. induction Hs as [|b s Hb _ IH]; constructor; [|done]. by apply Z.ltb_lt.
Qed.

Lemma ValidString_ascii s : Forall is_ascii s → ValidString (string_of s) = true.
Proof. intros Hs. unfold ValidString. rewrite bytes_of_string_of. by apply ValidUTF8_ascii. Qed.

Lemma is_digit_ascii b : is_digit b = true → is_ascii b.
Proof. unfold is_digit, inr, is_ascii. lia. Qed.

Lemma format_int_ascii z : Forall is_ascii (format_int z).
Proof.
  assert (Hd : ∀ n, Forall is_ascii (format_uint n)).
  { intros n. eapply Forall_impl; [apply format_uint_digits|]. apply is_digit_ascii. }
  unfold format_int. destruct (z <? 0); [|done]. by constructor.
Qed.

Lemma format_int_inj y z : format_int y = format_int z → y = z.
Proof.
  unfold format_int.
  assert (Hne : ∀ m n, x2d :: format_uint m ≠ format_uint n).
  { intros m n E. destruct (format_uint_cons n) as (b & s & E2 & Hb). rewrite E2 in E.
    injection E as <- _. by apply digit_not_sign in Hb as [_ ?]. }
  destruct (Z.ltb_spec y 0), (Z.ltb_spec z 0); intros E.
  - injection E as E%format_uint_inj; lia.
  - by apply Hne in E.
  - by symmetry in E; apply Hne in E.
  - apply format_uint_inj in E; lia.
Qed.

(** ** Splitting at a byte *)

Lemma split_byte_none sep s : sep ∉ s → split_byte sep s = [s].
Proof.
  induction s as [|b s IH]; cbn; [done|]. intros Hn.
  rewrite decide_False by set_solver. by rewrite IH by set_solver.
Qed.

Lemma split_byte_app sep p s : sep ∉ p → split_byte sep (p ++ sep :: s) = p :: split_byte sep s.
Proof.
  induction p as [|b p IH]; cbn; intros Hn.
  - by rewrite decide_True.
  - rewrite decide_False by set_solver. by rewrite IH by set_solver.
Qed.

Lemma split_byte_cons sep s : ∃ w ws, split_byte sep s = w :: ws.
Proof.
  destruct s as [|b s]; cbn; [by eauto|]. destruct (decide (b = sep)); [by eauto|].
  destruct (split_byte sep s); eauto.
Qed.

Lemma split_byte_one sep s u : split_byte sep s = [u] → s = u ∧ (sep ∉ u).
Proof.
  revert u. induction s as [|b s IH]; intros u; cbn; [intros [= <-]; set_solver|].
  destruct (split_byte_cons sep s) as (w & ws & E). rewrite E.
  destruct (decide (b = sep)); [done|]. intros [= <- ->].
  destruct (IH w E) as [-> ?]. set_solver.
Qed.

Lemma split_byte_two sep s a b :
  split_byte sep s = [a; b] ↔ s = a ++ sep :: b ∧ (sep ∉ a) ∧ (sep ∉ b).
Proof.
  split; [|intros (-> & Ha & Hb); by rewrite split_byte_app, split_byte_none].
  revert a b. induction s as [|c s IH]; intros a b; cbn; [done|].
  destruct (split_byte_cons sep s) as (w & ws & E). rewrite E.
  destruct (decide (c = sep)) as [->|Hc].
  - intros [= <- <- ->]. apply split_byte_one in E as [-> ?]. set_solver.
  - intros [= <- ->]. destruct (IH w b E) as (-> & ? & ?). set_solver.
Qed.

(** ** Trimming *)

(** Neither starts nor ends with the encoding of a space. *)
Definition trimmed (s : bytes) : Prop :=
  strip_first space_encodings s = None ∧
  strip_first (map (@rev byte) space_encodings) (rev s) = None.

Lemma space_encodings_nonempty :
  ([] ∉ space_encodings) ∧ ([] ∉ map (@rev byte) space_encodings).
Proof. split; decide_by_vm. Qed.

Lemma strip_first_prefix ps s t : strip_first ps (s ++ t) = None → strip_first ps s = None.
Proof.
  intros H. destruct (strip_first ps s) as [r|] eqn:E; [|done].
  apply strip_first_Some in E as (p & Hp & ->). exfalso.
  rewrite <- app_assoc in H. by apply (strip_first_None _ _ p (r ++ t) H Hp).
Qed.

Lemma trim_space_trimmed s : trimmed (trim_space s).
Proof.
  unfold trim_space, trim_right. set (l := trim_left space_encodings s).
  assert (Hl : strip_first space_encodings l = None).
  { apply strip_all_done; [apply space_encodings_nonempty|done]. }
  set (r := strip_all (length l) (map (@rev byte) space_encodings) (rev l)).
  split; [|rewrite rev_involutive].
  - destruct (strip_all_suffix (map (@rev byte) space_encodings) (length l) (rev l)) as [k Hk].
    fold r in Hk. apply (f_equal (@rev byte)) in Hk. rewrite rev_involutive, rev_app_distr in Hk.
    rewrite Hk in Hl. by eapply strip_first_prefix.
  - apply strip_all_done; [apply space_encodings_nonempty|by rewrite length_rev].
Qed.

Lemma elem_of_reverse_rev {A} (x : A) l : x ∈ rev l ↔ x ∈ l.
Proof. rewrite !list_elem_of_In. symmetry. apply in_rev. Qed.

(** Trimming removes nothing but spaces. *)
Lemma strip_all_keeps ps fuel s b :
  Forall (λ p, b ∉ p) ps → b ∈ s → b ∈ strip_all fuel ps s.
Proof.
  intros Hps. revert s. induction fuel as [|fuel IH]; intros s Hb; cbn; [done|].
  destruct (strip_first ps s) as [r|] eqn:E; [|done].
  apply strip_first_Some in E as (p & Hp & ->). apply IH.
  rewrite Forall_forall in Hps. specialize (Hps p Hp). set_solver.
Qed.

Lemma TrimSpace_dot s : x2e ∈ bytes_of s → TrimSpace s ≠ "".
Proof.
  intros Hd E. enough (x2e ∈ trim_space (bytes_of s)) as Hin.
  { apply (f_equal bytes_of) in E. unfold TrimSpace in E. rewrite bytes_of_string_of in E.
    rewrite E in Hin. by apply not_elem_of_nil in Hin. }
  unfold trim_space, trim_right, trim_left.
  assert (Hdots : Forall (λ p, x2e ∉ p) space_encodings ∧
    Forall (λ p, x2e ∉ p) (map (@rev byte) space_encodings))
    by (split; decide_by_vm).
  rewrite elem_of_reverse_rev. apply strip_all_keeps; [apply Hdots|].
  rewrite elem_of_reverse_rev. apply strip_all_keeps; [apply Hdots|done].
Qed.
