(* ===== verification/GoEncoding.v ===== *)
(** * [encoding/hex] and [encoding/base64]

    The standard alphabet with padding ([base64.StdEncoding]) carries uploads
    and pictures; the URL alphabet without padding ([base64.RawURLEncoding])
    carries session tokens; hexadecimal carries digests and secrets. *)

From S2P Require Import Prelude GoStrings.
From Stdlib Require Import Strings.Byte.

(** ** Alphabets *)

Fixpoint index_of (b : byte) (l : bytes) : option Z :=
  match l with
  | [] => None
  | a :: l => if decide (a = b) then Some 0 else Z.succ <$> index_of b l
  end.

Definition char_at (l : bytes) (v : Z) : byte := nth (Z.to_nat v) l x00.

Definition hex_alphabet : bytes := bytes_of "0123456789abcdef".
Definition std_alphabet : bytes :=
  bytes_of "ABCDEFGHIJKLMNOPQRSTUVWXYZabcdefghijklmnopqrstuvwxyz0123456789+/".
Definition url_alphabet : bytes :=
  bytes_of "ABCDEFGHIJKLMNOPQRSTUVWXYZabcdefghijklmnopqrstuvwxyz0123456789-_".

(** ** [encoding/hex] *)

Fixpoint hex_encode (s : bytes) : bytes :=
  match s with
  | [] => []
  | b :: s => char_at hex_alphabet (Z.shiftr (byteZ b) 4)
              :: char_at hex_alphabet (Z.land (byteZ b) 15) :: hex_encode s
  end.

(** A digit, a lower-case or an upper-case letter. *)
Definition hex_val (b : byte) : option Z :=
  if inr 48 57 b then Some (byteZ b - 48)
  else if inr 97 102 b then Some (byteZ b - 87)
  else if inr 65 70 b then Some (byteZ b - 55)
  else None.

Fixpoint hex_decode (s : bytes) : option bytes :=
  match s with
  | [] => Some []
  | [_] => None
  | a :: b :: s =>
      hi ← hex_val a; lo ← hex_val b; r ← hex_decode s;
      Some (Zbyte (Z.lor (Z.shiftl hi 4) lo) :: r)
  end.

(** ** [encoding/base64] *)

Record b64 := B64 { b64_alphabet : bytes; b64_pad : bool }.

Definition StdEncoding : b64 := B64 std_alphabet true.
Definition RawURLEncoding : b64 := B64 url_alphabet false.

Section base64.
Context (enc : b64).

Definition b64_char (v : Z) : byte := char_at (b64_alphabet enc) v.
Definition b64_val (b : byte) : option Z := index_of b (b64_alphabet enc).

Fixpoint b64_encode (s : bytes) : bytes :=
  match s with
  | [] => []
  | [a] =>
      let v := Z.shiftl (byteZ a) 16 in
      b64_char (Z.land (Z.shiftr v 18) 63) :: b64_char (Z.land (Z.shiftr v 12) 63)
        :: (if b64_pad enc then [x3d; x3d] else [])
  | [a; b] =>
      let v := Z.lor (Z.shiftl (byteZ b) 8) (Z.shiftl (byteZ a) 16) in
      b64_char (Z.land (Z.shiftr v 18) 63) :: b64_char (Z.land (Z.shiftr v 12) 63)
        :: b64_char (Z.land (Z.shiftr v 6) 63) :: (if b64_pad enc then [x3d] else [])
  | a :: b :: c :: s =>
      let v := Z.lor (Z.lor (byteZ c) (Z.shiftl (byteZ b) 8)) (Z.shiftl (byteZ a) 16) in
      b64_char (Z.land (Z.shiftr v 18) 63) :: b64_char (Z.land (Z.shiftr v 12) 63)
        :: b64_char (Z.land (Z.shiftr v 6) 63) :: b64_char (Z.land v 63) :: b64_encode s
  end.

(** The bytes of a quantum of which the first [n] characters are given. *)
Definition quantum (v0 v1 v2 v3 : Z) (n : nat) : bytes :=
  let v := Z.lor (Z.lor (Z.lor v3 (Z.shiftl v2 6)) (Z.shiftl v1 12)) (Z.shiftl v0 18) in
  take n [Zbyte (Z.shiftr v 16); Zbyte (Z.shiftr v 8); Zbyte v].

(** Decoding once line breaks are dropped: padding only ends the input, and
    the bits a short quantum leaves over are ignored. *)
Fixpoint b64_quanta (s : bytes) : option bytes :=
  match s with
  | [] => Some []
  | [_] => None
  | [a; b] =>
      if b64_pad enc then None else
      v0 ← b64_val a; v1 ← b64_val b; Some (quantum v0 v1 0 0 1)
  | [a; b; c] =>
      if b64_pad enc then None else
      v0 ← b64_val a; v1 ← b64_val b; v2 ← b64_val c; Some (quantum v0 v1 v2 0 2)
  | a :: b :: c :: d :: s =>
      v0 ← b64_val a; v1 ← b64_val b;
      match b64_val c with
      | None =>
          if b64_pad enc && bool_decide (c = x3d) && bool_decide (d = x3d)
             && bool_decide (s = [])
          then Some (quantum v0 v1 0 0 1) else None
      | Some v2 =>
          match b64_val d with
          | None =>
              if b64_pad enc && bool_decide (d = x3d) && bool_decide (s = [])
              then Some (quantum v0 v1 v2 0 2) else None
          | Some v3 => r ← b64_quanta s; Some (quantum v0 v1 v2 v3 3 ++ r)
          end
      end
  end.

Definition is_newline (b : byte) : bool := bool_decide (b = x0a) || bool_decide (b = x0d).

Definition b64_decode (s : bytes) : option bytes :=
  b64_quanta (List.filter (λ b, negb (is_newline b)) s).
End base64.

(** ** Lemmas *)

Lemma hex_val_char v : 0 ≤ v < 16 → hex_val (char_at hex_alphabet v) = Some v.
Proof.
  intros Hv. assert (H : forallb (λ n, bool_decide (hex_val (char_at hex_alphabet (Z.of_nat n)) =
    Some (Z.of_nat n))) (seq 0 16) = true) by (vm_compute; reflexivity).
  rewrite forallb_forall in H. specialize (H (Z.to_nat v)).
  rewrite in_seq, Z2Nat.id in H by lia. by apply bool_decide_eq_true in H; [|lia].
Qed.

Lemma land_low z n : 0 ≤ n → Z.land z (Z.ones n) = z mod 2 ^ n.
Proof. apply Z.land_ones. Qed.

Lemma hex_decode_encode s : hex_decode (hex_encode s) = Some s.
Proof.
  induction s as [|b s IH]; [done|]. pose proof (byteZ_range b).
  cbn [hex_encode hex_decode]. change 15 with (Z.ones 4). rewrite land_low, Z.shiftr_div_pow2 by lia.
  change (2 ^ 4) with 16.
  rewrite !hex_val_char by (Z.to_euclidean_division_equations; lia). simpl. rewrite IH. simpl.
  repeat f_equal. apply byteZ_inj. rewrite byteZ_Zbyte, Z.lor_comm.
  rewrite lor_shiftl_add; change (2 ^ 4) with 16; Z.to_euclidean_division_equations; lia.
Qed.

Lemma length_hex_encode s : length (hex_encode s) = (2 * length s)%nat.
Proof. induction s; simpl; lia. Qed.

#[global] Instance hex_encode_inj : Inj (=) (=) hex_encode.
Proof.
  intros s t E. pose proof (hex_decode_encode s) as P. rewrite E, hex_decode_encode in P.
  congruence.
Qed.

(** What the round trip needs of an alphabet. *)
Class B64Ok (enc : b64) : Prop := {
  b64_val_char v : 0 ≤ v < 64 → b64_val enc (b64_char enc v) = Some v;
  b64_char_not_newline v : 0 ≤ v < 64 → is_newline (b64_char enc v) = false;
  b64_pad_val : b64_pad enc = true → b64_val enc x3d = None;
}.

Ltac check_64 v Hv :=
  match goal with
  | |- ?P =>
    let F := eval pattern v in P in
    match F with
    | ?f v =>
      let H := fresh in
      assert (H : Forall (λ n, f (Z.of_nat n)) (seq 0 64));
      [ repeat first [constructor; [vm_compute; reflexivity|] | constructor]
      | rewrite List.Forall_forall in H; specialize (H (Z.to_nat v));
        rewrite in_seq, Z2Nat.id in H by lia; apply H; lia ]
    end
  end.

#[global] Instance StdEncoding_ok : B64Ok StdEncoding.
Proof. split; [intros v Hv; check_64 v Hv.. | done]. Qed.
#[global] Instance RawURLEncoding_ok : B64Ok RawURLEncoding.
Proof. split; [intros v Hv; check_64 v Hv.. | done]. Qed.

Lemma quantum_sum v0 v1 v2 v3 :
  0 ≤ v0 < 64 → 0 ≤ v1 < 64 → 0 ≤ v2 < 64 → 0 ≤ v3 < 64 →
  Z.lor (Z.lor (Z.lor v3 (Z.shiftl v2 6)) (Z.shiftl v1 12)) (Z.shiftl v0 18) =
  v3 + v2 * 64 + v1 * 4096 + v0 * 262144.
Proof.
  intros. rewrite (lor_shiftl_add v3 v2 6) by lia.
  rewrite (lor_shiftl_add _ v1 12) by lia. by rewrite (lor_shiftl_add _ v0 18) by lia.
Qed.

Lemma group_sum a b c :
  0 ≤ a < 256 → 0 ≤ b < 256 → 0 ≤ c < 256 →
  Z.lor (Z.lor c (Z.shiftl b 8)) (Z.shiftl a 16) = c + b * 256 + a * 65536.
Proof.
  intros. rewrite (lor_shiftl_add c b 8) by lia. by rewrite (lor_shiftl_add _ a 16) by lia.
Qed.

(** Six-bit fields of a 24-bit group, as arithmetic. *)
Lemma field_div v k : 0 ≤ k → Z.land (Z.shiftr v k) 63 = (v / 2 ^ k) mod 64.
Proof. intros. change 63 with (Z.ones 6). by rewrite land_low, Z.shiftr_div_pow2. Qed.
Lemma field_0 v : Z.land v 63 = v mod 64.
Proof. change 63 with (Z.ones 6). by rewrite land_low. Qed.

Ltac b64_arith :=
  change (2 ^ 6) with 64 in *; change (2 ^ 8) with 256 in *; change (2 ^ 12) with 4096 in *;
  change (2 ^ 16) with 65536 in *; change (2 ^ 18) with 262144 in *;
  Z.to_euclidean_division_equations; lia.

Section base64_lemmas.
Context (enc : b64) `{!B64Ok enc}.

Lemma field_range v k : 0 ≤ (v / k) mod 64 < 64.
Proof. apply Z.mod_pos_bound. lia. Qed.

Lemma b64_char_clean v k :
  is_newline (b64_char enc ((v / k) mod 64)) = false.
Proof. apply b64_char_not_newline, field_range. Qed.

Lemma b64_encode_clean s :
  List.filter (λ b, negb (is_newline b)) (b64_encode enc s) = b64_encode enc s.
Proof.
  revert s. fix IH 1. intros [|a [|b [|c s]]]; [done|..]; cbn [b64_encode];
    rewrite !field_div, ?field_0 by lia; cbn [List.filter];
    rewrite !b64_char_clean; cbn [negb]; repeat f_equal.
  - by destruct (b64_pad enc).
  - by destruct (b64_pad enc).
  - rewrite b64_char_not_newline by (apply Z.mod_pos_bound; lia). cbn [negb].
    f_equal. apply IH.
Qed.

Lemma b64_quanta_encode s : b64_quanta enc (b64_encode enc s) = Some s.
Proof.
  revert s. fix IH 1. intros [|a [|b [|c s]]]; [done|..]; cbn [b64_encode];
    pose proof (byteZ_range a); try pose proof (byteZ_range b); try pose proof (byteZ_range c);
    rewrite !field_div, ?field_0 by lia.
  - set (v := Z.shiftl (byteZ a) 16).
    assert (v = byteZ a * 65536) as Hv by (unfold v; by rewrite Z.shiftl_mul_pow2 by lia).
    destruct (b64_pad enc) eqn:Hp; cbn [b64_quanta]; rewrite Hp;
      rewrite !b64_val_char by apply field_range; cbn;
      rewrite ?b64_pad_val by done; cbn; f_equal; unfold quantum; rewrite quantum_sum
        by (apply field_range || lia); cbn [take]; f_equal; apply byteZ_inj;
      rewrite byteZ_Zbyte, Z.shiftr_div_pow2 by lia; b64_arith.
  - replace (Z.lor (Z.shiftl (byteZ b) 8) (Z.shiftl (byteZ a) 16))
      with (byteZ b * 256 + byteZ a * 65536)
      by (rewrite <- (Z.lor_0_l (Z.shiftl (byteZ b) 8)), group_sum; lia).
    set (v := byteZ b * 256 + byteZ a * 65536).
    destruct (b64_pad enc) eqn:Hp; cbn [b64_quanta]; rewrite Hp;
      rewrite !b64_val_char by apply field_range; cbn;
      rewrite ?b64_pad_val by done; cbn; f_equal; unfold quantum; rewrite quantum_sum
        by (apply field_range || lia); cbn [take]; repeat f_equal; apply byteZ_inj;
      rewrite byteZ_Zbyte, Z.shiftr_div_pow2 by lia; unfold v; b64_arith.
  - rewrite group_sum by done. cbn [b64_quanta].
    set (v := byteZ c + byteZ b * 256 + byteZ a * 65536).
    rewrite !b64_val_char by (apply Z.mod_pos_bound; lia). cbn. rewrite IH. cbn. f_equal.
    unfold quantum; rewrite quantum_sum by (apply Z.mod_pos_bound; lia).
    cbn [take app]; repeat f_equal; apply byteZ_inj;
      rewrite byteZ_Zbyte, ?Z.shiftr_div_pow2 by lia; unfold v; b64_arith.
Qed.

Lemma b64_decode_encode s : b64_decode enc (b64_encode enc s) = Some s.
Proof. unfold b64_decode. by rewrite b64_encode_clean, b64_quanta_encode. Qed.
End base64_lemmas.

(** ** The text of a hexadecimal encoding *)

Definition is_lower_hex (b : byte) : Prop := 48 ≤ byteZ b ≤ 57 ∨ 97 ≤ byteZ b ≤ 102.

Lemma hex_char_lower v : 0 ≤ v < 16 → is_lower_hex (char_at hex_alphabet v).
Proof.
  intros Hv. assert (H : Forall is_lower_hex hex_alphabet)
    by (repeat constructor; unfold is_lower_hex; vm_compute; by intuition).
  unfold char_at. rewrite nth_lookup.
  destruct (hex_alphabet !! Z.to_nat v) as [b|] eqn:Hb; cbn.
  - by eapply Forall_lookup_1.
  - apply lookup_ge_None in Hb. cbn in Hb. lia.
Qed.

Lemma hex_encode_lower s : Forall is_lower_hex (hex_encode s).
Proof.
  induction s as [|b s IH]; cbn [hex_encode]; [constructor|].
  pose proof (byteZ_range b). apply Forall_cons. split; [|apply Forall_cons; split; [|done]]; apply hex_char_lower.
  - rewrite Z.shiftr_div_pow2 by lia. split; [apply Z.div_pos|apply Z.div_lt_upper_bound]; lia.
  - change 15 with (Z.ones 4). rewrite land_low by lia. apply Z.mod_pos_bound. lia.
Qed.

Lemma is_lower_hex_ascii b : is_lower_hex b → is_ascii b.
Proof. unfold is_lower_hex, is_ascii. lia. Qed.

(** Every character of an encoding is in the alphabet or padding. *)
Lemma b64_encode_chars enc (P : byte → Prop) s :
  (∀ v, 0 ≤ v < 64 → P (b64_char enc v)) → (b64_pad enc = true → P x3d) →
  Forall P (b64_encode enc s).
Proof.
  intros Hc Hp. assert (Hf : ∀ v k, 0 ≤ k → P (b64_char enc (Z.land (Z.shiftr v k) 63))).
  { intros v k Hk. rewrite field_div by done. apply Hc, Z.mod_pos_bound. lia. }
  assert (H0 : ∀ v, P (b64_char enc (Z.land v 63))).
  { intros v. rewrite field_0. apply Hc, Z.mod_pos_bound. lia. }
  revert s. fix IH 1. intros [|a [|b [|c s]]]; cbn [b64_encode]; [constructor|..];
    repeat (apply Forall_cons; split; [by auto with lia|]).
  - destruct (b64_pad enc); auto.
  - destruct (b64_pad enc); auto.
  - apply IH.
Qed.

Lemma RawURL_no_dot s : x2e ∉ b64_encode RawURLEncoding s.
Proof.
  assert (H : Forall (λ b, b ≠ x2e) (b64_encode RawURLEncoding s)).
  { apply b64_encode_chars; [|done]. intros v Hv. apply (bool_decide_unpack _). check_64 v Hv. }
  rewrite Forall_forall in H. intros Hin. by destruct (H _ Hin).
Qed.

Lemma b64_encode_ascii enc s :
  Forall is_ascii (b64_alphabet enc) → Forall is_ascii (b64_encode enc s).
Proof.
  intros Ha. apply b64_encode_chars; [|done]. intros v Hv. unfold b64_char, char_at.
  rewrite nth_lookup. destruct (_ !! _) as [b|] eqn:Hb; cbn; [|done].
  by eapply Forall_lookup_1.
Qed.
