(* ===== verification/GoCrypto.v ===== *)
(** * [crypto/sha256], [crypto/hmac], [crypto/pbkdf2]

    The digests are computed, not assumed: the token signature, the session
    key, the pod template hash and the password hash of a concrete input can be
    evaluated.  Words are 32-bit integers kept in [0, 2^32). *)

From S2P Require Import Prelude GoStrings GoEncoding.
From Stdlib Require Import Strings.Byte.

Definition add32 (a b : Z) : Z := Z.land (a + b) 0xFFFFFFFF.
Definition rotr (x n : Z) : Z :=
  Z.lor (Z.shiftr x n) (Z.land (Z.shiftl x (32 - n)) 0xFFFFFFFF).

Definition Sigma0 x := Z.lxor (Z.lxor (rotr x 2) (rotr x 13)) (rotr x 22).
Definition Sigma1 x := Z.lxor (Z.lxor (rotr x 6) (rotr x 11)) (rotr x 25).
Definition sigma0 x := Z.lxor (Z.lxor (rotr x 7) (rotr x 18)) (Z.shiftr x 3).
Definition sigma1 x := Z.lxor (Z.lxor (rotr x 17) (rotr x 19)) (Z.shiftr x 10).
Definition Ch e f g := Z.lxor (Z.land e f) (Z.land (Z.lxor e 0xFFFFFFFF) g).
Definition Maj a b c := Z.lxor (Z.lxor (Z.land a b) (Z.land a c)) (Z.land b c).

(** The constants of FIPS 180-4: the first 32 bits of the fractional parts of the
    cube roots of the first 64 primes and of the square roots of the first 8. *)
Definition is_prime (n : nat) : bool :=
  forallb (λ d, negb (Nat.eqb (n mod d) 0)) (seq 2 (n - 2)).
Definition primes : list Z := map Z.of_nat (List.filter is_prime (seq 2 310)).

(** The largest number below [2^bits] whose cube is at most [x]. *)
Fixpoint cube_root (bits : nat) (acc x : Z) : Z :=
  match bits with
  | O => acc
  | S bits =>
      let next := acc + 2 ^ Z.of_nat bits in
      cube_root bits (if next ^ 3 <=? x then next else acc) x
  end.

Definition K256 : list Z :=
  Eval vm_compute in map (λ q, cube_root 36 0 (q * 2 ^ 96) mod 2 ^ 32) primes.
Definition H256 : list Z :=
  Eval vm_compute in map (λ q, Z.sqrt (q * 2 ^ 64) mod 2 ^ 32) (take 8 primes).

Record sha_state := ShaState { sa : Z; sb : Z; sc : Z; sd : Z; se : Z; sf : Z; sg : Z; sh : Z }.

Definition sha_init : sha_state :=
  match H256 with
  | [a; b; c; d; e; f; g; h] => ShaState a b c d e f g h
  | _ => ShaState 0 0 0 0 0 0 0 0
  end.

(** The message schedule, most recent word first. *)
Fixpoint sha_schedule (n : nat) (ws : list Z) : list Z :=
  match n with
  | O => ws
  | S n =>
      let w := add32 (add32 (sigma1 (nth 1 ws 0)) (nth 6 ws 0))
                     (add32 (sigma0 (nth 14 ws 0)) (nth 15 ws 0)) in
      sha_schedule n (w :: ws)
  end.

Fixpoint be_words (n : nat) (s : bytes) : list Z :=
  match n, s with
  | S n, a :: b :: c :: d :: s =>
      (byteZ a * 16777216 + byteZ b * 65536 + byteZ c * 256 + byteZ d) :: be_words n s
  | _, _ => []
  end.

Fixpoint sha_rounds (kws : list (Z * Z)) (s : sha_state) : sha_state :=
  match kws with
  | [] => s
  | (k, w) :: kws =>
      let t1 := add32 (sh s) (add32 (Sigma1 (se s))
                  (add32 (Ch (se s) (sf s) (sg s)) (add32 k w))) in
      let t2 := add32 (Sigma0 (sa s)) (Maj (sa s) (sb s) (sc s)) in
      sha_rounds kws (ShaState (add32 t1 t2) (sa s) (sb s) (sc s)
                               (add32 (sd s) t1) (se s) (sf s) (sg s))
  end.

Definition sha_block (s : sha_state) (block : bytes) : sha_state :=
  let ws := rev (sha_schedule 48 (rev (be_words 16 block))) in
  let t := sha_rounds (combine K256 ws) s in
  ShaState (add32 (sa s) (sa t)) (add32 (sb s) (sb t)) (add32 (sc s) (sc t)) (add32 (sd s) (sd t))
           (add32 (se s) (se t)) (add32 (sf s) (sf t)) (add32 (sg s) (sg t)) (add32 (sh s) (sh t)).

Fixpoint sha_blocks (n : nat) (s : sha_state) (m : bytes) : sha_state :=
  match n with
  | O => s
  | S n => sha_blocks n (sha_block s (take 64 m)) (drop 64 m)
  end.

Definition be_bytes (n : nat) (z : Z) : bytes :=
  map (λ i, Zbyte (Z.shiftr z (8 * Z.of_nat i))) (rev (seq 0 n)).

(** The message, a one bit, zeros, and the bit length in 64 bits. *)
Definition sha_pad (m : bytes) : bytes :=
  let n := length m in
  m ++ x80 :: replicate ((119 - n mod 64) mod 64) x00 ++ be_bytes 8 (8 * Z.of_nat n).

Definition sha_digest (s : sha_state) : bytes :=
  concat (map (be_bytes 4) [sa s; sb s; sc s; sd s; se s; sf s; sg s; sh s]).

Definition Sum256 (m : bytes) : bytes :=
  let p := sha_pad m in
  sha_digest (sha_blocks (length p / 64) sha_init p).

(** [hmac.New(sha256.New, key)] after [Write msg], [Sum(nil)]. *)
Definition xor_pad (c : Z) (key : bytes) : bytes :=
  map (λ b, Zbyte (Z.lxor (byteZ b) c)) key.

Definition hmac_key (key : bytes) : bytes :=
  let k := if (64 <? length key)%nat then Sum256 key else key in
  k ++ replicate (64 - length k) x00.

Definition HMAC (key msg : bytes) : bytes :=
  let k := hmac_key key in
  Sum256 (xor_pad 0x5c k ++ Sum256 (xor_pad 0x36 k ++ msg)).

(** [pbkdf2.Key(sha256.New, password, salt, iter, keyLength)]. *)
Definition xor_bytes (a b : bytes) : bytes :=
  zip_with (λ x y, Zbyte (Z.lxor (byteZ x) (byteZ y))) a b.

Fixpoint pbkdf2_iter (n : nat) (pw u t : bytes) : bytes :=
  match n with
  | O => t
  | S n => let u' := HMAC pw u in pbkdf2_iter n pw u' (xor_bytes t u')
  end.

Definition pbkdf2_block (pw salt : bytes) (iter : Z) (i : Z) : bytes :=
  let u := HMAC pw (salt ++ be_bytes 4 i) in
  pbkdf2_iter (Z.to_nat (iter - 1)) pw u u.

Definition pbkdf2_Key (pw salt : bytes) (iter keyLength : Z) : outcome string bytes :=
  let numBlocks := (keyLength + 31) / 32 in
  if keyLength <=? 0 then Err "pbkdf2: keyLength must be larger than 0"
  else if 2 ^ 32 - 1 <? numBlocks then Err "pbkdf2: keyLength too long"
  else Ok (take (Z.to_nat keyLength)
             (concat (map (λ i, pbkdf2_block pw salt iter (Z.of_nat i))
                          (seq 1 (Z.to_nat numBlocks))))).

(** ** Published test vectors *)

Definition hex_of (b : bytes) : string := string_of (hex_encode b).

Example sha256_abc :
  hex_of (Sum256 (bytes_of "abc")) =
  "ba7816bf8f01cfea414140de5dae2223b00361a396177a9cb410ff61f20015ad".
Proof. vm_compute. reflexivity. Qed.

Example sha256_two_blocks :
  hex_of (Sum256 (bytes_of "abcdbcdecdefdefgefghfghighijhijkijkljklmklmnlmnomnopnopq")) =
  "248d6a61d20638b8e5c026930c3e6039a33ce45964ff2167f6ecedd419db06c1".
Proof. vm_compute. reflexivity. Qed.

Example hmac_rfc4231_2 :
  hex_of (HMAC (bytes_of "Jefe") (bytes_of "what do ya want for nothing?")) =
  "5bdcc146bf60754e6a042426089575c75a003f089d2739839dec58b964ec3843".
Proof. vm_compute. reflexivity. Qed.

Example pbkdf2_rfc7914 :
  pbkdf2_Key (bytes_of "passwd") (bytes_of "salt") 1 64 ≫= (λ k, Ok (hex_of k)) =
  Ok ("55ac046e56e3089fec1691c22544b605f94185216dde0465e68b9d57c20dacbc" +:+
      "49ca9cccf179b645991664b39d77ef317c71b845b1e30bd509112041d3a19783").
Proof. vm_compute. reflexivity. Qed.

(** ** Lengths *)

Lemma length_be_bytes n z : length (be_bytes n z) = n.
Proof. unfold be_bytes. by rewrite length_map, length_rev, length_seq. Qed.

Lemma length_sha_digest s : length (sha_digest s) = 32%nat.
Proof. destruct s. unfold sha_digest. cbn [map concat]. by rewrite !length_app, !length_be_bytes. Qed.

Lemma length_Sum256 m : length (Sum256 m) = 32%nat.
Proof. apply length_sha_digest. Qed.

Lemma length_HMAC k m : length (HMAC k m) = 32%nat.
Proof. unfold HMAC. apply length_Sum256. Qed.

#[global] Opaque Sum256 HMAC.

Lemma length_pbkdf2_block pw salt iter i : length (pbkdf2_block pw salt iter i) = 32%nat.
Proof.
  unfold pbkdf2_block. set (u := HMAC pw _).
  assert (Hu : length u = 32%nat) by apply length_HMAC.
  generalize (Z.to_nat (iter - 1)) as n. intros n.
  assert (∀ t, length t = 32%nat → length (pbkdf2_iter n pw u t) = 32%nat); [|by auto].
  clearbody u. revert u Hu. induction n as [|n IH]; intros u Hu t Ht; cbn; [done|].
  apply IH; [apply length_HMAC|]. unfold xor_bytes.
  rewrite length_zip_with, Ht, length_HMAC. done.
Qed.

Lemma length_pbkdf2_Key pw salt iter n k :
  pbkdf2_Key pw salt iter n = Ok k → Z.of_nat (length k) = n.
Proof.
  unfold pbkdf2_Key. destruct (Z.leb_spec n 0); [done|]. destruct (_ <? _); [done|].
  intros [= <-]. rewrite length_take.
  assert (∀ l, length (concat (map (λ i, pbkdf2_block pw salt iter (Z.of_nat i)) l)) =
    (32 * length l)%nat) as ->.
  { induction l as [|i l IH]; cbn; [done|]. rewrite length_app, length_pbkdf2_block, IH. lia. }
  rewrite length_seq. pose proof (Z.div_mod (n + 31) 32). 
  pose proof (Z.mod_pos_bound (n + 31) 32). lia.
Qed.

Lemma pbkdf2_Key_total pw salt iter n :
  0 < n ≤ 2 ^ 32 → ∃ k, pbkdf2_Key pw salt iter n = Ok k.
Proof.
  intros Hn. unfold pbkdf2_Key. rewrite (proj2 (Z.leb_gt _ _)) by lia.
  rewrite (proj2 (Z.ltb_ge _ _)); [eauto|]. Z.to_euclidean_division_equations; lia.
Qed.
