(* ===== verification/Json.v ===== *)
(** * [encoding/json]: values, the encoder, the decoder

    A JSON text is read into a tree and structs are read from the tree.  The
    encoder is the one behind [json.Marshal] (compact, HTML-safe escapes, bytes
    that are not UTF-8 replaced by U+FFFD); the decoder accepts the grammar of
    [json.Unmarshal] (its white space, its escapes with surrogate pairs, its
    number syntax, its nesting limit of 10000). *)

From S2P Require Import Prelude GoStrings GoEncoding.
From Stdlib Require Import Strings.Byte.

Inductive json :=
  | JNull
  | JBool (b : bool)
  | JNum (lit : bytes)
  | JStr (s : string)
  | JArr (l : list json)
  | JObj (m : list (string * json)).

Definition JInt (z : Z) : json := JNum (format_int z).

(** ** Encoder *)

Definition hex4 (z : Z) : bytes :=
  map (λ k, char_at hex_alphabet (Z.land (Z.shiftr z k) 15)) [12; 8; 4; 0].

Definition u_escape (z : Z) : bytes := x5c :: x75 :: hex4 z.

(** The bytes [json.Marshal] does not copy: quote, backslash, control
    characters and, since it escapes HTML, the characters [<], [>] and [&]. *)
Definition json_safe (b : byte) : bool :=
  (32 <=? byteZ b) && negb (bool_decide (b ∈ [x22; x5c; x3c; x3e; x26])).

Definition esc_byte (b : byte) : bytes :=
  if json_safe b then [b]
  else if decide (b ∈ [x22; x5c]) then [x5c; b]
  else if decide (b = x08) then [x5c; x62]
  else if decide (b = x0c) then [x5c; x66]
  else if decide (b = x0a) then [x5c; x6e]
  else if decide (b = x0d) then [x5c; x72]
  else if decide (b = x09) then [x5c; x74]
  else u_escape (byteZ b).

Definition enc_chunk (c : chunk) : bytes :=
  match c with
  | Bad _ => u_escape 0xFFFD
  | Good [b] => esc_byte b
  | Good e =>
      if decide (e = [xe2; x80; xa8]) then u_escape 0x2028
      else if decide (e = [xe2; x80; xa9]) then u_escape 0x2029
      else e
  end.

Definition enc_string (s : string) : bytes :=
  x22 :: concat (map enc_chunk (chunks (bytes_of s))) ++ [x22].

Fixpoint sep_by (sep : byte) (l : list bytes) : bytes :=
  match l with
  | [] => []
  | [a] => a
  | a :: l => a ++ sep :: sep_by sep l
  end.

Fixpoint encode (v : json) : bytes :=
  match v with
  | JNull => bytes_of "null"
  | JBool true => bytes_of "true"
  | JBool false => bytes_of "false"
  | JNum lit => lit
  | JStr s => enc_string s
  | JArr l => x5b :: sep_by x2c (map encode l) ++ [x5d]
  | JObj m => x7b :: sep_by x2c (map (λ '(k, v), enc_string k ++ x3a :: encode v) m) ++ [x7d]
  end.

(** ** Decoder *)

Fixpoint skip_ws (s : bytes) : bytes :=
  match s with
  | b :: r => if decide (b ∈ [x20; x09; x0a; x0d]) then skip_ws r else s
  | [] => []
  end.

(** A string body as the scanner sees it: bytes copied from the text, and code
    units written as escapes. *)
Inductive sitem := Raw (b : byte) | Unit (u : Z).

Definition simple_escape (b : byte) : option Z :=
  if decide (b ∈ [x22; x5c; x2f]) then Some (byteZ b)
  else if decide (b = x62) then Some 8
  else if decide (b = x66) then Some 12
  else if decide (b = x6e) then Some 10
  else if decide (b = x72) then Some 13
  else if decide (b = x74) then Some 9
  else None.

Definition unhex4 (a b c d : byte) : option Z :=
  va ← hex_val a; vb ← hex_val b; vc ← hex_val c; vd ← hex_val d;
  Some (va * 4096 + vb * 256 + vc * 16 + vd).

(** The items of a string body up to its closing quote, and what follows. *)
Fixpoint scan_string (s : bytes) : option (list sitem * bytes) :=
  match s with
  | [] => None
  | b :: s1 =>
      if decide (b = x22) then Some ([], s1)
      else if byteZ b <? 32 then None
      else if decide (b = x5c) then
        match s1 with
        | [] => None
        | e :: s2 =>
            if decide (e = x75) then
              match s2 with
              | h0 :: h1 :: h2 :: h3 :: s3 =>
                  u ← unhex4 h0 h1 h2 h3;
                  '(items, r) ← scan_string s3; Some (Unit u :: items, r)
              | _ => None
              end
            else
              u ← simple_escape e;
              '(items, r) ← scan_string s2; Some (Unit u :: items, r)
        end
      else '(items, r) ← scan_string s1; Some (Raw b :: items, r)
  end.

(** [utf8.AppendRune]. *)
Definition encode_rune (r : Z) : bytes :=
  if r <? 0x80 then [Zbyte r]
  else if r <? 0x800 then
    [Zbyte (0xC0 + Z.shiftr r 6); Zbyte (0x80 + Z.land r 63)]
  else if r <? 0x10000 then
    [Zbyte (0xE0 + Z.shiftr r 12); Zbyte (0x80 + Z.land (Z.shiftr r 6) 63);
     Zbyte (0x80 + Z.land r 63)]
  else
    [Zbyte (0xF0 + Z.shiftr r 18); Zbyte (0x80 + Z.land (Z.shiftr r 12) 63);
     Zbyte (0x80 + Z.land (Z.shiftr r 6) 63); Zbyte (0x80 + Z.land r 63)].

Definition replacement : bytes := [xef; xbf; xbd].

(** Bytes that are not UTF-8 become U+FFFD, one for each. *)
Definition chunk_good (c : chunk) : bytes :=
  match c with Good e => e | Bad _ => replacement end.

Definition coerce (s : bytes) : bytes := concat (map chunk_good (chunks s)).

Definition is_high (u : Z) : bool := (0xD800 <=? u) && (u <? 0xDC00).
Definition is_low (u : Z) : bool := (0xDC00 <=? u) && (u <? 0xE000).

(** [raw] holds, reversed, the copied bytes since the last escape. *)
Fixpoint unquote (raw : bytes) (items : list sitem) : bytes :=
  match items with
  | [] => coerce (rev raw)
  | Raw b :: t => unquote (b :: raw) t
  | Unit u :: t =>
      coerce (rev raw) ++
      (if is_high u || is_low u then
         match t with
         | Unit u2 :: t2 =>
             if is_high u && is_low u2 then
               encode_rune (0x10000 + (u - 0xD800) * 1024 + (u2 - 0xDC00)) ++ unquote [] t2
             else replacement ++ unquote [] t
         | _ => replacement ++ unquote [] t
         end
       else encode_rune u ++ unquote [] t)
  end.

Fixpoint span_digits (s : bytes) : bytes * bytes :=
  match s with
  | b :: r => if is_digit b then let '(d, t) := span_digits r in (b :: d, t) else ([], s)
  | [] => ([], [])
  end.

(** The integer part, the fraction and the exponent of a number. *)
Definition scan_int (s : bytes) : option (bytes * bytes) :=
  match s with
  | b :: r => if decide (b = x30) then Some ([b], r)
              else if is_digit b then Some (span_digits s) else None
  | [] => None
  end.

Definition scan_frac (s : bytes) : option (bytes * bytes) :=
  match s with
  | b :: r =>
      if decide (b = x2e) then
        match span_digits r with ([], _) => None | (d, t) => Some (b :: d, t) end
      else Some ([], s)
  | [] => Some ([], [])
  end.

Definition scan_exp (s : bytes) : option (bytes * bytes) :=
  match s with
  | b :: r =>
      if decide (b ∈ [x65; x45]) then
        let '(sign, r') := match r with
                           | c :: r2 => if decide (c ∈ [x2b; x2d]) then ([c], r2) else ([], r)
                           | [] => ([], [])
                           end in
        match span_digits r' with ([], _) => None | (d, t) => Some (b :: sign ++ d, t) end
      else Some ([], s)
  | [] => Some ([], [])
  end.

Definition scan_number (s : bytes) : option (bytes * bytes) :=
  let '(sign, s0) := match s with
                     | b :: r => if decide (b = x2d) then ([b], r) else ([], s)
                     | [] => ([], [])
                     end in
  '(i, s1) ← scan_int s0; '(f, s2) ← scan_frac s1; '(e, s3) ← scan_exp s2;
  Some (sign ++ i ++ f ++ e, s3).

Definition max_depth : Z := 10000.

(** [parse_value] reads one value; [parse_elems] and [parse_members] read the
    rest of an array or object after its opening bracket and at least one
    element is known to follow. *)
Fixpoint parse_value (fuel : nat) (depth : Z) (s : bytes) : option (json * bytes) :=
  match fuel with
  | O => None
  | S fuel =>
      match skip_ws s with
      | [] => None
      | b :: r =>
          if decide (b = x22) then
            '(items, t) ← scan_string r; Some (JStr (string_of (unquote [] items)), t)
          else if decide (b = x5b) then
            if max_depth <? depth + 1 then None else
            match skip_ws r with
            | c :: t => if decide (c = x5d) then Some (JArr [], t)
                        else '(l, t) ← parse_elems fuel (depth + 1) r; Some (JArr l, t)
            | [] => None
            end
          else if decide (b = x7b) then
            if max_depth <? depth + 1 then None else
            match skip_ws r with
            | c :: t => if decide (c = x7d) then Some (JObj [], t)
                        else '(m, t) ← parse_members fuel (depth + 1) r; Some (JObj m, t)
            | [] => None
            end
          else match strip_prefix (bytes_of "null") (b :: r) with
          | Some t => Some (JNull, t)
          | None =>
          match strip_prefix (bytes_of "true") (b :: r) with
          | Some t => Some (JBool true, t)
          | None =>
          match strip_prefix (bytes_of "false") (b :: r) with
          | Some t => Some (JBool false, t)
          | None => '(lit, t) ← scan_number (b :: r); Some (JNum lit, t)
          end end end
      end
  end
with parse_elems (fuel : nat) (depth : Z) (s : bytes) : option (list json * bytes) :=
  match fuel with
  | O => None
  | S fuel =>
      '(v, r) ← parse_value fuel depth s;
      match skip_ws r with
      | c :: t =>
          if decide (c = x2c) then '(l, t) ← parse_elems fuel depth t; Some (v :: l, t)
          else if decide (c = x5d) then Some ([v], t) else None
      | [] => None
      end
  end
with parse_members (fuel : nat) (depth : Z) (s : bytes) : option (list (string * json) * bytes) :=
  match fuel with
  | O => None
  | S fuel =>
      match skip_ws s with
      | q :: r =>
          if decide (q = x22) then
            '(items, r1) ← scan_string r;
            match skip_ws r1 with
            | c :: r2 =>
                if decide (c = x3a) then
                  '(v, r3) ← parse_value fuel depth r2;
                  match skip_ws r3 with
                  | d :: t =>
                      let k := string_of (unquote [] items) in
                      if decide (d = x2c) then
                        '(m, t) ← parse_members fuel depth t; Some ((k, v) :: m, t)
                      else if decide (d = x7d) then Some ([(k, v)], t) else None
                  | [] => None
                  end
                else None
            | [] => None
            end
          else None
      | [] => None
      end
  end.

(** A whole text.  A call of the three functions above either reads a byte or
    is [parse_elems] or [parse_members] calling [parse_value] at the same place,
    so twice the length of the text is fuel enough. *)
Definition parse (s : bytes) : option json :=
  '(v, r) ← parse_value (S (2 * length s)) 0 s;
  match skip_ws r with [] => Some v | _ => None end.

(** ** The encoding of a string is read back *)

Definition items_of (e : bytes) : list sitem :=
  match e with
  | [b] => if json_safe b then [Raw b] else [Unit (byteZ b)]
  | _ =>
      if decide (e = [xe2; x80; xa8]) then [Unit 0x2028]
      else if decide (e = [xe2; x80; xa9]) then [Unit 0x2029]
      else map Raw e
  end.

Definition prepend (items : list sitem) (r : option (list sitem * bytes)) :=
  '(its, t) ← r; Some (items ++ its, t).

Lemma scan_ascii b t :
  byteZ b < 128 → scan_string (esc_byte b ++ t) = prepend (items_of [b]) (scan_string t).
Proof.
  intros Hb. destruct b; try (vm_compute in Hb; discriminate Hb); reflexivity.
Qed.

Lemma scan_raw b t : 128 ≤ byteZ b → scan_string (b :: t) = prepend [Raw b] (scan_string t).
Proof.
  intros Hb. cbn [scan_string].
  rewrite decide_False by (intros ->; exact (Hb eq_refl)).
  destruct (Z.ltb_spec (byteZ b) 32); [lia|].
  rewrite decide_False by (intros ->; exact (Hb eq_refl)). done.
Qed.

Lemma prepend_app a b r : prepend a (prepend b r) = prepend (a ++ b) r.
Proof. destruct r as [[? ?]|]; [|done]. simpl. by rewrite app_assoc. Qed.

Lemma scan_raws e t :
  Forall (λ b, 128 ≤ byteZ b) e →
  scan_string (e ++ t) = prepend (map Raw e) (scan_string t).
Proof.
  induction 1 as [|b e Hb _ IH]; cbn [app map].
  - by destruct (scan_string t) as [[? ?]|].
  - by rewrite scan_raw, IH, prepend_app.
Qed.

Lemma enc_ok_cases e :
  enc_ok e = true →
  (∃ b, e = [b] ∧ byteZ b < 128) ∨ (2 ≤ length e)%nat ∧ Forall (λ b, 128 ≤ byteZ b) e.
Proof.
  destruct e as [|b0 [|b1 [|b2 [|b3 [|]]]]]; cbn [enc_ok]; intros H; try done.
  - left. exists b0. split; [done|lia].
  - right. split; [simpl; lia|]. unfold utf8_two, inr in H. repeat constructor; lia.
  - right. split; [simpl; lia|]. unfold utf8_three, inr in H. repeat constructor; lia.
  - right. split; [simpl; lia|]. unfold utf8_four, inr in H. repeat constructor; lia.
Qed.

Lemma scan_chunk e t :
  enc_ok e = true →
  scan_string (enc_chunk (Good e) ++ t) = prepend (items_of e) (scan_string t).
Proof.
  intros H. destruct (enc_ok_cases e H) as [(b & -> & Hb)|[Hlen Hall]].
  - by apply scan_ascii.
  - destruct e as [|b0 [|b1 e]]; simpl in Hlen; [lia..|].
    unfold enc_chunk, items_of. repeat case_decide; [by simplify_eq..|by apply scan_raws].
Qed.

(** What a chunk is read back as: bytes that are not UTF-8 come back as U+FFFD. *)
Definition chunk_items (c : chunk) : list sitem :=
  match c with Good e => items_of e | Bad _ => [Unit 0xFFFD] end.

Definition chunk_ok (c : chunk) : Prop := ∀ e, c = Good e → enc_ok e = true.

Lemma scan_bad b t : scan_string (enc_chunk (Bad b) ++ t) = prepend [Unit 0xFFFD] (scan_string t).
Proof. reflexivity. Qed.

Lemma scan_enc_string cs rest :
  Forall chunk_ok cs →
  scan_string (concat (map enc_chunk cs) ++ x22 :: rest) = Some (concat (map chunk_items cs), rest).
Proof.
  induction 1 as [|c cs Hc _ IH]; [done|]. cbn [map concat]. rewrite <- app_assoc.
  destruct c as [e|b]; [rewrite scan_chunk by (by apply Hc)|rewrite scan_bad]; by rewrite IH.
Qed.

Lemma items_of_cases e :
  enc_ok e = true →
  items_of e = map Raw e ∨
  ∃ u, items_of e = [Unit u] ∧ is_high u || is_low u = false ∧ encode_rune u = e.
Proof.
  intros H. destruct (enc_ok_cases e H) as [(b & -> & Hb)|[Hlen Hall]].
  - unfold items_of. destruct (json_safe b); [by left|right].
    pose proof (byteZ_range b). exists (byteZ b). split; [done|]. unfold is_high, is_low.
    split; [lia|]. unfold encode_rune. rewrite (proj2 (Z.ltb_lt _ _)) by lia.
    by rewrite Zbyte_byteZ.
  - destruct e as [|b0 [|b1 e]]; simpl in Hlen; [lia..|]. unfold items_of.
    repeat case_decide; simplify_eq.
    + right. by exists 0x2028.
    + right. by exists 0x2029.
    + by left.
Qed.

Lemma coerce_good es : Forall (λ e, enc_ok e = true) es → coerce (concat es) = concat es.
Proof.
  intros H. unfold coerce. rewrite chunks_good by done. rewrite map_map, map_id. done.
Qed.

Lemma unquote_raws e raw t : unquote raw (map Raw e ++ t) = unquote (rev e ++ raw) t.
Proof.
  revert raw. induction e as [|b e IH]; intros raw; [done|].
  cbn [map app unquote rev]. by rewrite IH, <- app_assoc.
Qed.

Lemma chunk_items_cases c :
  chunk_ok c → enc_ok (chunk_good c) = true ∧
  (chunk_items c = map Raw (chunk_good c) ∨
   ∃ u, chunk_items c = [Unit u] ∧ is_high u || is_low u = false ∧ encode_rune u = chunk_good c).
Proof.
  intros Hc. destruct c as [e|b]; [split; [|apply items_of_cases]; by apply Hc|].
  split; [done|]. right. by exists 0xFFFD.
Qed.

Lemma unquote_items pre cs :
  Forall (λ e, enc_ok e = true) pre → Forall chunk_ok cs →
  unquote (rev (concat pre)) (concat (map chunk_items cs)) =
  concat pre ++ concat (map chunk_good cs).
Proof.
  intros Hpre Hcs. revert pre Hpre. induction Hcs as [|c cs Hc _ IH]; intros pre Hpre.
  - cbn. by rewrite rev_involutive, coerce_good, app_nil_r.
  - cbn [map concat]. destruct (chunk_items_cases c Hc) as [He [->|(u & -> & Hu & Henc)]].
    + rewrite unquote_raws, <- rev_app_distr.
      replace (concat pre ++ chunk_good c) with (concat (pre ++ [chunk_good c]))
        by (rewrite concat_app; cbn; by rewrite app_nil_r).
      rewrite IH by (apply Forall_app; auto). rewrite concat_app. cbn.
      by rewrite app_nil_r, app_assoc.
    + cbn [app unquote]. rewrite rev_involutive, coerce_good, Hu, Henc by done.
      f_equal. f_equal. by apply (IH []).
Qed.

(** A string after it was sent as JSON. *)
Definition sent (s : string) : string := string_of (coerce (bytes_of s)).

Lemma sent_valid s : ValidString s = true → sent s = s.
Proof.
  intros (es & Hc & Hs & Hok)%ValidUTF8_encs. unfold sent.
  rewrite Hs, coerce_good, <- Hs by done. apply string_of_bytes_of.
Qed.

Lemma coerce_nil s : coerce s = [] → s = [].
Proof.
  unfold coerce. pose proof (chunks_enc_ok s) as Hok. rewrite <- (chunks_bytes s) at 2.
  destruct (chunks s) as [|c cs]; [done|]. apply Forall_cons in Hok as [Hc _].
  cbn. intros [H _]%app_eq_nil. destruct c as [e|b]; [|done]. cbn in H. subst e.
  by specialize (Hc [] eq_refl).
Qed.

Lemma sent_empty s : sent s = "" ↔ s = "".
Proof.
  split; [|by intros ->]. intros H%(f_equal bytes_of). unfold sent in H.
  rewrite bytes_of_string_of in H. apply coerce_nil in H.
  by rewrite <- (string_of_bytes_of s), H.
Qed.

Lemma scan_unquote s rest :
  ∃ items, scan_string (concat (map enc_chunk (chunks (bytes_of s))) ++ x22 :: rest) =
             Some (items, rest) ∧ string_of (unquote [] items) = sent s.
Proof.
  pose proof (chunks_enc_ok (bytes_of s)) as Hok.
  exists (concat (map chunk_items (chunks (bytes_of s)))). split; [by apply scan_enc_string|].
  pose proof (unquote_items [] _ (Forall_nil_2 _) Hok) as E. cbn [concat rev app] in E.
  by rewrite E.
Qed.

(** ** The encoding of a value is read back *)

Section json_ind.
Context (P : json → Prop).
Context (Hnull : P JNull) (Hbool : ∀ b, P (JBool b)) (Hnum : ∀ lit, P (JNum lit))
  (Hstr : ∀ s, P (JStr s)) (Harr : ∀ l, Forall P l → P (JArr l))
  (Hobj : ∀ m, Forall (λ kv, P kv.2) m → P (JObj m)).

Fixpoint json_ind' (v : json) : P v :=
  match v with
  | JNull => Hnull
  | JBool b => Hbool b
  | JNum lit => Hnum lit
  | JStr s => Hstr s
  | JArr l => Harr l ((fix go l := match l return Forall P l with
                                   | [] => Forall_nil_2 P
                                   | v :: l => Forall_cons_2 P v l (json_ind' v) (go l)
                                   end) l)
  | JObj m => Hobj m ((fix go m := match m return Forall (λ kv, P kv.2) m with
                                   | [] => Forall_nil_2 _
                                   | kv :: m => Forall_cons_2 _ kv m (json_ind' kv.2) (go m)
                                   end) m)
  end.
End json_ind.

(** Values [json.Marshal] produces: integers in decimal, strings that are UTF-8. *)
Inductive json_wf : json → Prop :=
  | wf_null : json_wf JNull
  | wf_bool b : json_wf (JBool b)
  | wf_int z : json_wf (JInt z)
  | wf_str s : ValidString s = true → json_wf (JStr s)
  | wf_arr l : Forall json_wf l → json_wf (JArr l)
  | wf_obj m : Forall (λ kv, ValidString kv.1 = true ∧ json_wf kv.2) m → json_wf (JObj m).

(** The same without the condition on strings. *)
Inductive json_out : json → Prop :=
  | out_null : json_out JNull
  | out_bool b : json_out (JBool b)
  | out_int z : json_out (JInt z)
  | out_str s : json_out (JStr s)
  | out_arr l : Forall json_out l → json_out (JArr l)
  | out_obj m : Forall (λ kv, json_out kv.2) m → json_out (JObj m).

(** A value after it was sent. *)
Fixpoint jsent (v : json) : json :=
  match v with
  | JStr s => JStr (sent s)
  | JArr l => JArr (map jsent l)
  | JObj m => JObj (map (λ '(k, v), (sent k, jsent v)) m)
  | v => v
  end.

Lemma json_wf_out v : json_wf v → json_out v ∧ jsent v = v.
Proof.
  induction v as [|b|lit|s|l IH|m IH] using json_ind'; intros Hwf.
  - split; [constructor|done].
  - split; [constructor|done].
  - inversion Hwf; subst. split; [constructor|done].
  - inversion Hwf; subst. split; [constructor|]. cbn. by rewrite sent_valid.
  - inversion Hwf as [| | | |l' Hl|]; subst. clear Hwf. rewrite Forall_forall in *. split.
    + constructor. rewrite Forall_forall. intros v Hv. by apply IH, Hl.
    + cbn. f_equal. rewrite <- (map_id l) at 2. apply map_ext_in. intros v Hv%list_elem_of_In.
      by apply IH, Hl.
  - inversion Hwf as [| | | | |m' Hl]; subst. clear Hwf. rewrite Forall_forall in *. split.
    + constructor. rewrite Forall_forall. intros kv Hkv. by apply IH, Hl.
    + cbn. f_equal. rewrite <- (map_id m) at 2. apply map_ext_in. intros [k v] Hv%list_elem_of_In.
      destruct (Hl _ Hv) as [Hk Hw]. rewrite (sent_valid k Hk). f_equal. by apply (IH _ Hv).
Qed.

Fixpoint jdepth (v : json) : Z :=
  match v with
  | JArr l => 1 + foldr (λ v d, Z.max (jdepth v) d) 0 l
  | JObj m => 1 + foldr (λ '(_, v) d, Z.max (jdepth v) d) 0 m
  | _ => 0
  end.

Fixpoint jfuel (v : json) : nat :=
  match v with
  | JArr l => S (foldr (λ v n, S (jfuel v + n)) 0 l)
  | JObj m => S (foldr (λ '(_, v) n, S (jfuel v + n)) 0 m)
  | _ => 1
  end%nat.

(** What may follow a value inside a document. *)
Definition ends (rest : bytes) : Prop :=
  match rest with [] => True | b :: _ => b ∈ [x2c; x5d; x7d] end.

Lemma span_digits_app d rest :
  Forall (λ b, is_digit b = true) d → ends rest → span_digits (d ++ rest) = (d, rest).
Proof.
  intros Hd Hr. induction Hd as [|b d Hb _ IH]; cbn [app span_digits].
  - destruct rest as [|c rest]; [done|]. cbn in Hr |- *.
    rewrite !elem_of_cons, elem_of_nil in Hr.
    by destruct Hr as [->|[->|[->|[]]]].
  - by rewrite Hb, IH.
Qed.

Lemma scan_frac_ends rest : ends rest → scan_frac rest = Some ([], rest).
Proof.
  destruct rest as [|c rest]; [done|]. cbn. rewrite !elem_of_cons, elem_of_nil.
  by intros [->|[->|[->|[]]]].
Qed.
Lemma scan_exp_ends rest : ends rest → scan_exp rest = Some ([], rest).
Proof.
  destruct rest as [|c rest]; [done|]. cbn [ends]. rewrite !elem_of_cons, elem_of_nil.
  by intros [->|[->|[->|[]]]].
Qed.

Lemma scan_int_format n rest :
  0 ≤ n → ends rest → scan_int (format_uint n ++ rest) = Some (format_uint n, rest).
Proof.
  intros Hn Hr. destruct (decide (n = 0)) as [->|Hne]; [done|].
  destruct (format_uint_nonzero n) as (b & s & E & Hb); [lia|].
  pose proof (format_uint_digits n) as Hd. rewrite E in *.
  cbn [app scan_int]. rewrite decide_False by done.
  pose proof (Forall_inv Hd) as Hb0. cbn in Hb0. rewrite Hb0.
  change (b :: s ++ rest) with ((b :: s) ++ rest). by rewrite span_digits_app.
Qed.

Lemma scan_number_format z rest :
  ends rest → scan_number (format_int z ++ rest) = Some (format_int z, rest).
Proof.
  intros Hr. unfold scan_number, format_int. destruct (Z.ltb_spec z 0).
  - cbn [app]. rewrite decide_True by done.
    rewrite scan_int_format by (done || lia). cbn [mbind option_bind].
    rewrite scan_frac_ends by done. cbn [mbind option_bind]. rewrite scan_exp_ends by done.
    cbn [mbind option_bind]. by rewrite !app_nil_r.
  - destruct (format_uint_cons z) as (b & s & E & Hd).
    assert (b ≠ x2d) by (intros ->; by vm_compute in Hd).
    pose proof (scan_int_format z rest ltac:(lia) Hr) as Hi. rewrite E in *. cbn [app] in *.
    rewrite decide_False by done. rewrite Hi. cbn [mbind option_bind].
    rewrite scan_frac_ends by done. cbn [mbind option_bind]. rewrite scan_exp_ends by done.
    cbn [mbind option_bind]. by rewrite !app_nil_r.
Qed.

Definition plain_head (s : bytes) : Prop :=
  ∃ b t, s = b :: t ∧ b ∉ [x20; x09; x0a; x0d; x5d; x7d].

Lemma skip_ws_plain s rest : plain_head s → skip_ws (s ++ rest) = s ++ rest.
Proof. intros (b & t & -> & Hb). cbn. rewrite decide_False by set_solver. done. Qed.

Lemma skip_ws_cons b r : b ∉ [x20; x09; x0a; x0d] → skip_ws (b :: r) = b :: r.
Proof. intros Hb. cbn. by rewrite decide_False. Qed.

Lemma number_head z :
  ∃ b t, format_int z = b :: t ∧
    (b ∉ [x20; x09; x0a; x0d; x5d; x7d]) ∧ (b ∉ [x22; x5b; x7b; x6e; x74; x66]).
Proof.
  unfold format_int. destruct (z <? 0).
  - exists x2d, (format_uint (- z)). split; [done|]. set_solver.
  - destruct (format_uint_cons z) as (b & t & -> & Hd). exists b, t. split; [done|].
    assert (Hne : ∀ c, is_digit c = false → b ≠ c) by (intros c Hc ->; congruence).
    rewrite !not_elem_of_cons. repeat split; try (by apply Hne); apply not_elem_of_nil.
Qed.

Lemma encode_head v : json_out v → plain_head (encode v).
Proof.
  destruct 1; try (eexists _, _; split; [reflexivity|set_solver]).
  - destruct b; eexists _, _; (split; [reflexivity|set_solver]).
  - destruct (number_head z) as (b & t & E & Hb & _). by exists b, t.
Qed.

Lemma parse_number_value fuel d z rest :
  ends rest → parse_value (S fuel) d (format_int z ++ rest) = Some (JInt z, rest).
Proof.
  intros Hr. pose proof (scan_number_format z rest Hr) as Hn.
  destruct (number_head z) as (b & t & E & Hws & Hb). unfold JInt. rewrite E in *.
  cbn [app] in *. cbn [parse_value].
  rewrite skip_ws_cons by set_solver. rewrite !decide_False by set_solver.
  change (bytes_of "null") with (x6e :: bytes_of "ull").
  change (bytes_of "true") with (x74 :: bytes_of "rue").
  change (bytes_of "false") with (x66 :: bytes_of "alse").
  cbn [strip_prefix]. rewrite !decide_False by set_solver. by rewrite Hn.
Qed.

Lemma parse_string_value fuel d s rest :
  parse_value (S fuel) d (enc_string s ++ rest) = Some (JStr (sent s), rest).
Proof.
  destruct (scan_unquote s rest) as (items & Hscan & Hun).
  unfold enc_string. cbn [app parse_value skip_ws].
  rewrite (decide_False (P := x22 ∈ _)) by set_solver. rewrite decide_True by done.
  rewrite <- app_assoc. cbn [app]. rewrite Hscan. cbn. by rewrite Hun.
Qed.

Definition reads (v : json) : Prop :=
  ∀ fuel d rest, (jfuel v ≤ fuel)%nat → d + jdepth v ≤ max_depth → ends rest →
  parse_value fuel d (encode v ++ rest) = Some (jsent v, rest).

Lemma parse_elems_read l fuel d rest :
  l ≠ [] → Forall reads l →
  (foldr (λ v n, S (jfuel v + n)) 0 l ≤ fuel)%nat →
  d + foldr (λ v d, Z.max (jdepth v) d) 0 l ≤ max_depth →
  parse_elems fuel d (sep_by x2c (map encode l) ++ x5d :: rest) = Some (map jsent l, rest).
Proof.
  intros Hne Hl. revert fuel. induction Hl as [|v l Hv Hl IH]; [done|].
  intros fuel Hf Hd. cbn [foldr] in *. destruct fuel as [|fuel]; [lia|].
  destruct l as [|v2 l].
  - cbn [map sep_by parse_elems]. rewrite Hv; [|lia|lia|cbn; set_solver]. done.
  - cbn [map]. change (sep_by x2c (encode v :: encode v2 :: map encode l))
      with (encode v ++ x2c :: sep_by x2c (map encode (v2 :: l))).
    rewrite <- app_assoc. cbn [app parse_elems].
    rewrite Hv; [|lia|lia|cbn; set_solver]. cbn [mbind option_bind skip_ws].
    rewrite (decide_False (P := x2c ∈ _)) by set_solver. rewrite decide_True by done.
    rewrite IH; [done|done|lia|lia].
Qed.

Lemma parse_members_read m fuel d rest :
  m ≠ [] → Forall (λ kv, plain_head (encode kv.2) ∧ reads kv.2) m →
  (foldr (λ '(_, v) n, S (jfuel v + n)) 0 m ≤ fuel)%nat →
  d + foldr (λ '(_, v) d, Z.max (jdepth v) d) 0 m ≤ max_depth →
  parse_members fuel d
    (sep_by x2c (map (λ '(k, v), enc_string k ++ x3a :: encode v) m) ++ x7d :: rest) =
  Some (map (λ '(k, v), (sent k, jsent v)) m, rest).
Proof.
  intros Hne Hl. revert fuel. induction Hl as [|[k v] l (Hp & Hv) Hl IH]; [done|].
  intros fuel Hf Hd. cbn [foldr fst snd] in *. destruct fuel as [|fuel]; [lia|].
  assert (∀ tail, ends tail →
    parse_members (S fuel) d ((enc_string k ++ x3a :: encode v) ++ tail) =
    match skip_ws tail with
    | c :: t => if decide (c = x2c) then '(m, t) ← parse_members fuel d t; Some ((sent k, jsent v) :: m, t)
                else if decide (c = x7d) then Some ([(sent k, jsent v)], t) else None
    | [] => None
    end) as Hstep.
  { intros tail Htail.
    destruct (scan_unquote k (x3a :: encode v ++ tail)) as (items & Hscan & Hun).
    unfold enc_string. cbn [app parse_members skip_ws].
    rewrite (decide_False (P := x22 ∈ _)) by set_solver. rewrite decide_True by done.
    rewrite <- !app_assoc. cbn [app]. rewrite Hscan. cbn [mbind option_bind skip_ws].
    rewrite (decide_False (P := x3a ∈ _)) by set_solver. rewrite decide_True by done.
    rewrite Hv by (done || lia). cbn [mbind option_bind]. by rewrite Hun. }
  destruct l as [|kv2 l].
  - cbn [map sep_by]. rewrite Hstep by (cbn; set_solver). done.
  - cbn [map]. match goal with |- context [sep_by x2c (?a :: ?b :: ?c)] =>
      change (sep_by x2c (a :: b :: c)) with (a ++ x2c :: sep_by x2c (b :: c)) end.
    rewrite <- app_assoc. cbn [app]. rewrite Hstep by (cbn; set_solver).
    cbn [skip_ws]. rewrite (decide_False (P := x2c ∈ _)) by set_solver.
    rewrite decide_True by done. cbn [map] in IH. rewrite IH; [done|done|lia|lia].
Qed.

Lemma jdepth_elems_nonneg l : 0 ≤ foldr (λ v d, Z.max (jdepth v) d) 0 l.
Proof. induction l; cbn; lia. Qed.
Lemma jdepth_members_nonneg (m : list (string * json)) :
  0 ≤ foldr (λ '(_, v) d, Z.max (jdepth v) d) 0 m.
Proof. induction m as [|[k v] m]; cbn; lia. Qed.

Lemma encode_reads v : json_out v → reads v.
Proof.
  induction v as [|b|lit|s|l IH|m IH] using json_ind'; intros Hwf fuel d rest Hf Hd Hr;
    (destruct fuel as [|fuel]; [cbn in Hf; lia|]).
  - done.
  - by destruct b.
  - inversion Hwf; subst. by apply parse_number_value.
  - inversion Hwf; subst. by apply parse_string_value.
  - inversion Hwf as [| | | |l' Hl|]; subst. cbn [jfuel jdepth] in Hf, Hd.
    pose proof (jdepth_elems_nonneg l).
    destruct l as [|v l].
    { cbn in *. by rewrite (proj2 (Z.ltb_ge _ _)) by lia. }
    assert (Hp : plain_head (sep_by x2c (map encode (v :: l)))).
    { destruct (encode_head v) as (b & t & E & Hb); [by inversion Hl|].
      cbn [map]. destruct l; cbn [map sep_by]; rewrite E; eexists _, _; split; done. }
    cbn [encode app parse_value skip_ws]. rewrite (decide_False (P := x5b ∈ _)) by set_solver.
    rewrite decide_False, decide_True by done. rewrite (proj2 (Z.ltb_ge _ _)) by lia.
    rewrite <- app_assoc, skip_ws_plain by done. destruct Hp as (b & t & E & Hb).
    rewrite E. cbn [app]. rewrite decide_False by set_solver.
    change (b :: t ++ ?x) with ((b :: t) ++ x). rewrite <- E. cbn [app].
    rewrite parse_elems_read; [done|done| |lia|lia].
    rewrite Forall_forall in *. naive_solver.
  - inversion Hwf as [| | | | |m' Hl]; subst. cbn [jfuel jdepth] in Hf, Hd.
    pose proof (jdepth_members_nonneg m).
    destruct m as [|[k v] m].
    { cbn in *. by rewrite (proj2 (Z.ltb_ge _ _)) by lia. }
    set (body := map (λ '(k, v), enc_string k ++ x3a :: encode v) ((k, v) :: m)).
    assert (Hp : ∃ t, sep_by x2c body = x22 :: t).
    { unfold body. cbn [map]. destruct m; cbn [map sep_by]; unfold enc_string; by eexists. }
    cbn [encode app parse_value skip_ws]. rewrite (decide_False (P := x7b ∈ _)) by set_solver.
    rewrite !decide_False by done. rewrite decide_True by done.
    rewrite (proj2 (Z.ltb_ge _ _)) by lia. fold body.
    rewrite <- app_assoc. destruct Hp as (t & E). 
    rewrite (skip_ws_plain (sep_by x2c body)) by (exists x22, t; set_solver).
    rewrite E. cbn [app]. rewrite decide_False by done.
    change (x22 :: t ++ ?x) with ((x22 :: t) ++ x). rewrite <- E. cbn [app]. unfold body.
    rewrite parse_members_read; [done|done| |lia|lia].
    rewrite Forall_forall in *. intros kv Hkv. specialize (Hl _ Hkv).
    split; [by apply encode_head|by apply IH].
Qed.

Lemma length_sep_by sep l :
  (foldr (λ s n, length s + n) 0 l + (length l - 1) = length (sep_by sep l))%nat.
Proof.
  induction l as [|a l IH]; [done|]. destruct l as [|b l]; cbn [foldr sep_by length] in *; [lia|].
  rewrite length_app. cbn [length]. rewrite <- IH. lia.
Qed.

Lemma jfuel_length v : json_out v → (jfuel v ≤ 2 * length (encode v))%nat.
Proof.
  induction v as [|b|lit|s|l IH|m IH] using json_ind'; intros Hwf; cbn [jfuel].
  - cbn. lia.
  - destruct b; cbn; lia.
  - destruct (encode_head _ Hwf) as (b & t & E & _). rewrite E. cbn. lia.
  - unfold encode, enc_string. cbn [length]. rewrite length_app. cbn. lia.
  - inversion Hwf as [| | | |l' Hl|]; subst.
    cbn [encode length]. rewrite length_app, <- (length_sep_by x2c), length_map. cbn [length].
    enough (foldr (λ v n, S (jfuel v + n)) 0 l ≤
      2 * foldr (λ s n, length s + n) 0 (map encode l) + length l)%nat by lia.
    clear Hwf. induction l as [|v l IHl]; cbn; [lia|].
    inversion IH; inversion Hl; subst. specialize (IHl ltac:(done) ltac:(done)).
    assert (jfuel v ≤ 2 * length (encode v))%nat by auto. lia.
  - inversion Hwf as [| | | | |m' Hl]; subst.
    cbn [encode length]. rewrite length_app, <- (length_sep_by x2c), length_map. cbn [length].
    set (f := λ '(k, v), enc_string k ++ x3a :: encode v).
    enough (foldr (λ '(_, v) n, S (jfuel v + n)) 0 m ≤
      2 * foldr (λ s n, length s + n) 0 (map f m) + length m)%nat by lia.
    clear Hwf. induction m as [|[k v] m IHm]; cbn; [lia|].
    inversion IH; inversion Hl; subst. specialize (IHm ltac:(done) ltac:(done)).
    assert (jfuel v ≤ 2 * length (encode v))%nat by auto.
    rewrite length_app. cbn [length]. lia.
Qed.

(** Encoding a value and decoding the text yields the value, up to bytes of its
    strings that are not UTF-8. *)
Lemma parse_encode_sent v : json_out v → jdepth v ≤ max_depth → parse (encode v) = Some (jsent v).
Proof.
  intros Hwf Hd. unfold parse. pose proof (jfuel_length v Hwf).
  pose proof (encode_reads v Hwf (S (2 * length (encode v))) 0 [] ltac:(lia) ltac:(lia) I) as E.
  rewrite app_nil_r in E. by rewrite E.
Qed.

Lemma parse_encode v : json_wf v → jdepth v ≤ max_depth → parse (encode v) = Some v.
Proof.
  intros [Hout Hsent]%json_wf_out Hd. rewrite parse_encode_sent by done. by rewrite Hsent.
Qed.

Lemma encode_inj v1 v2 :
  json_wf v1 → json_wf v2 → jdepth v1 ≤ max_depth → jdepth v2 ≤ max_depth →
  encode v1 = encode v2 → v1 = v2.
Proof.
  intros H1 H2 D1 D2 E. pose proof (parse_encode v1 H1 D1) as P.
  rewrite E, parse_encode in P by done. congruence.
Qed.

(** ** Reading structs from a value

    [json.Unmarshal] goes through the members of an object in order and stores
    those whose key names a field, comparing keys without case (Unicode simple
    folding: U+017F folds to [s], U+212A to [k]).  [null] leaves a field as it
    is; a value of the wrong type is an error. *)

Definition lower (b : byte) : byte := if inr 65 90 b then Zbyte (byteZ b + 32) else b.

Fixpoint fold_key (s : bytes) : bytes :=
  match s with
  | b :: r =>
      match s with
      | xc5 :: xbf :: t => x73 :: fold_key t
      | xe2 :: x84 :: xaa :: t => x6b :: fold_key t
      | _ => lower b :: fold_key r
      end
  | [] => []
  end.

Definition key_is (name key : string) : bool :=
  bool_decide (fold_key (bytes_of key) = fold_key (bytes_of name)).

Definition get_string (old : string) (v : json) : option string :=
  match v with JStr s => Some s | JNull => Some old | _ => None end.
Definition get_int (bits : Z) (old : Z) (v : json) : option Z :=
  match v with JNum lit => parse_int bits lit | JNull => Some old | _ => None end.
Definition get_uint (bits : Z) (old : Z) (v : json) : option Z :=
  match v with JNum lit => parse_uint bits lit | JNull => Some old | _ => None end.
Definition get_bool (old : bool) (v : json) : option bool :=
  match v with JBool b => Some b | JNull => Some old | _ => None end.

Section struct.
Context {S : Type} (field : string → json → S → option S).

Fixpoint get_members (m : list (string * json)) (st : S) : option S :=
  match m with
  | [] => Some st
  | (k, v) :: m => st ← field k v st; get_members m st
  end.

Definition get_struct (old : S) (v : json) : option S :=
  match v with JObj m => get_members m old | JNull => Some old | _ => None end.

(** What every field keeps, the struct keeps. *)
Lemma get_struct_keeps (P : S → Prop) old v st :
  (∀ k v st st', field k v st = Some st' → P st → P st') →
  get_struct old v = Some st → P old → P st.
Proof.
  intros Hf Hget Hold. destruct v as [| | | | |m]; cbn in Hget; try done; [congruence|].
  revert old Hold Hget. induction m as [|[k v] m IH]; cbn; intros old Hold Hget; [congruence|].
  apply bind_Some in Hget as (st1 & H1 & H2). eauto.
Qed.
End struct.
