(* ===== verification/JsonFuel.v ===== *)
(** * The fuel of the JSON parser

    [Json.parse_value] and its companions recurse on fuel.  Every value takes at
    least a byte of the text, so two calls per byte are enough for any text,
    well-formed or not: with more fuel the answer is the same. *)

From S2P Require Import Prelude GoStrings GoEncoding Json.
From Stdlib Require Import Strings.Byte Wf_nat.

Lemma skip_ws_length s : (length (skip_ws s) ≤ length s)%nat.
Proof. induction s as [|b s IH]; cbn [skip_ws]; [done|]. case_decide; cbn [length]; lia. Qed.

Lemma scan_string_length s its r : scan_string s = Some (its, r) → (length r < length s)%nat.
Proof.
  revert its. induction s as [s IH] using (induction_ltof1 _ (@length byte)). unfold ltof in IH.
  intros its. destruct s as [|b s1]; cbn [scan_string]; [done|].
  assert (Hrec : ∀ s' (f : list sitem → list sitem), (length s' ≤ length s1)%nat →
    ('(items, t) ← scan_string s'; Some (f items, t)) = Some (its, r) →
    (length r < length (b :: s1))%nat).
  { intros s' f Hle. destruct (scan_string s') as [[its' t]|] eqn:E; [|done]. cbn. intros [= _ ->].
    specialize (IH s' ltac:(cbn; lia) its' E). lia. }
  case_decide; [intros [= _ <-]; cbn; lia|]. destruct (_ <? 32); [done|]. case_decide.
  - destruct s1 as [|e s2]; [done|]. case_decide.
    + destruct s2 as [|h0 [|h1 [|h2 [|h3 s3]]]]; try done.
      destruct (unhex4 h0 h1 h2 h3) as [u|]; [|done]. cbn [mbind option_bind].
      apply (Hrec s3 (cons (Unit u))). cbn. lia.
    + destruct (simple_escape e) as [u|]; [|done]. cbn [mbind option_bind].
      apply (Hrec s2 (cons (Unit u))). cbn. lia.
  - by apply (Hrec s1 (cons (Raw b))).
Qed.

Lemma span_digits_length s d t : span_digits s = (d, t) → (length d + length t = length s)%nat.
Proof.
  revert d. induction s as [|b s IH]; intros d; cbn [span_digits]; [by intros [= <- <-]|].
  destruct (is_digit b); [|by intros [= <- <-]]. destruct (span_digits s) as [d' t'] eqn:E.
  intros [= <- ->]. specialize (IH d' eq_refl). cbn. lia.
Qed.

Lemma scan_number_length s lit r : scan_number s = Some (lit, r) → (length r < length s)%nat.
Proof.
  unfold scan_number.
  set (sg := match s with b :: r => if decide (b = x2d) then ([b], r) else ([], s) | [] => ([], []) end).
  assert (Hsg : (length sg.2 ≤ length s)%nat).
  { subst sg. destruct s as [|b s]; [done|]. case_decide; cbn; lia. }
  destruct sg as [sign s0]. cbn [snd] in Hsg.
  destruct (scan_int s0) as [[i s1]|] eqn:Hi; [|done].
  assert (H1 : (length s1 < length s0)%nat).
  { unfold scan_int in Hi. destruct s0 as [|b t]; [done|].
    case_decide; [injection Hi as <- <-; cbn; lia|]. destruct (is_digit b) eqn:Hb; [|done].
    assert (span_digits (b :: t) = (i, s1)) as Hi' by congruence. clear Hi. rename Hi' into Hi.
    pose proof (span_digits_length _ _ _ Hi). cbn [span_digits] in Hi. rewrite Hb in Hi. destruct (span_digits t) as [d' t']. injection Hi as <- <-. cbn in *. lia. }
  cbn [mbind option_bind]. destruct (scan_frac s1) as [[f s2]|] eqn:Hf; [|done].
  assert (H2 : (length s2 ≤ length s1)%nat).
  { unfold scan_frac in Hf. destruct s1 as [|b t]; [by injection Hf as <- <-|].
    case_decide; [|by injection Hf as <- <-]. destruct (span_digits t) as [[|d0 d] t'] eqn:E; [done|].
    injection Hf as <- <-. pose proof (span_digits_length _ _ _ E). cbn in *. lia. }
  cbn [mbind option_bind]. destruct (scan_exp s2) as [[e s3]|] eqn:He; [|done].
  assert (H3 : (length s3 ≤ length s2)%nat).
  { unfold scan_exp in He. destruct s2 as [|b t]; [by injection He as <- <-|].
    case_decide; [|by injection He as <- <-].
    set (q := match t with c :: r2 => _ | [] => _ end) in He.
    assert (Hq : (length q.2 ≤ length t)%nat).
    { subst q. destruct t as [|c t]; [done|]. case_decide; cbn; lia. }
    destruct q as [sg r']. destruct (span_digits r') as [[|d0 d] t'] eqn:E; [done|].
    injection He as <- <-. pose proof (span_digits_length _ _ _ E). cbn in *. lia. }
  cbn [mbind option_bind]. intros [= _ <-]. lia.
Qed.

(** Every value takes at least a byte. *)
Lemma parse_consumes fuel :
  (∀ d s v r, parse_value fuel d s = Some (v, r) → (length r < length s)%nat) ∧
  (∀ d s l r, parse_elems fuel d s = Some (l, r) → (length r < length s)%nat) ∧
  (∀ d s m r, parse_members fuel d s = Some (m, r) → (length r < length s)%nat).
Proof.
  induction fuel as [|fuel (IHv & IHe & IHm)]; [done|]. split; [|split].
  - intros d s v r. cbn [parse_value]. pose proof (skip_ws_length s) as Hs.
    destruct (skip_ws s) as [|b t]; [done|]. cbn [length] in Hs.
    repeat case_decide.
    + destruct (scan_string t) as [[its t']|] eqn:E; [|done]. intros [= _ <-].
      apply scan_string_length in E. lia.
    + destruct (_ <? _); [done|]. pose proof (skip_ws_length t). destruct (skip_ws t) as [|c t']; [done|].
      cbn [length] in *. case_decide; [intros [= _ <-]; lia|].
      destruct (parse_elems fuel (d + 1) t) as [[l t'']|] eqn:E; [|done]. intros [= _ <-].
      apply IHe in E. lia.
    + destruct (_ <? _); [done|]. pose proof (skip_ws_length t). destruct (skip_ws t) as [|c t']; [done|].
      cbn [length] in *. case_decide; [intros [= _ <-]; lia|].
      destruct (parse_members fuel (d + 1) t) as [[l t'']|] eqn:E; [|done]. intros [= _ <-].
      apply IHm in E. lia.
    + assert (Hlit : ∀ p t', strip_prefix p (b :: t) = Some t' → p ≠ [] → (length t' < length s)%nat).
      { intros p t' Hp%strip_prefix_Some Hne. destruct p; [done|].
        apply (f_equal length) in Hp. rewrite length_app in Hp. cbn in *. lia. }
      destruct (strip_prefix (bytes_of "null") _) eqn:E1; [intros [= _ <-]; by eapply Hlit|].
      destruct (strip_prefix (bytes_of "true") _) eqn:E2; [intros [= _ <-]; by eapply Hlit|].
      destruct (strip_prefix (bytes_of "false") _) eqn:E3; [intros [= _ <-]; by eapply Hlit|].
      destruct (scan_number (b :: t)) as [[lit t']|] eqn:E; [|done]. intros [= _ <-].
      apply scan_number_length in E. cbn [length] in *. lia.
  - intros d s l r. cbn [parse_elems].
    destruct (parse_value fuel d s) as [[v t]|] eqn:Ev; [|done]. apply IHv in Ev. cbn [mbind option_bind].
    pose proof (skip_ws_length t). destruct (skip_ws t) as [|c t']; [done|]. cbn [length] in *.
    case_decide.
    + destruct (parse_elems fuel d t') as [[l' t'']|] eqn:E; [|done]. intros [= _ <-]. apply IHe in E. lia.
    + case_decide; [|done]. intros [= _ <-]. lia.
  - intros d s m r. cbn [parse_members]. pose proof (skip_ws_length s).
    destruct (skip_ws s) as [|q t]; [done|]. cbn [length] in *. case_decide; [|done].
    destruct (scan_string t) as [[its r1]|] eqn:Es; [|done]. apply scan_string_length in Es.
    cbn [mbind option_bind]. pose proof (skip_ws_length r1). destruct (skip_ws r1) as [|c r2]; [done|].
    cbn [length] in *. case_decide; [|done].
    destruct (parse_value fuel d r2) as [[v r3]|] eqn:Ev; [|done]. apply IHv in Ev.
    cbn [mbind option_bind]. pose proof (skip_ws_length r3). destruct (skip_ws r3) as [|e t']; [done|].
    cbn [length] in *. case_decide.
    + destruct (parse_members fuel d t') as [[l' t'']|] eqn:E; [|done]. intros [= _ <-]. apply IHm in E. lia.
    + case_decide; [|done]. intros [= _ <-]. lia.
Qed.

(** More fuel changes nothing once there are two calls for each byte. *)
Lemma parse_more_fuel fuel fuel' :
  (fuel ≤ fuel')%nat →
  (∀ d s, (2 * length s < fuel)%nat → parse_value fuel' d s = parse_value fuel d s) ∧
  (∀ d s, (2 * length s + 1 < fuel)%nat → parse_elems fuel' d s = parse_elems fuel d s) ∧
  (∀ d s, (2 * length s + 1 < fuel)%nat → parse_members fuel' d s = parse_members fuel d s).
Proof.
  revert fuel'. induction fuel as [|fuel IH]; intros fuel' Hle; [split; [|split]; intros; lia|].
  destruct fuel' as [|fuel']; [lia|]. destruct (IH fuel' ltac:(lia)) as (IHv & IHe & IHm).
  destruct (parse_consumes fuel) as (Hcv & _ & _). split; [|split].
  - intros d s Hf. cbn [parse_value]. pose proof (skip_ws_length s).
    destruct (skip_ws s) as [|b t]; [done|]. cbn [length] in *.
    rewrite IHe, IHm by lia. done.
  - intros d s Hf. cbn [parse_elems]. rewrite IHv by lia.
    destruct (parse_value fuel d s) as [[v t]|] eqn:Ev; [|done]. apply Hcv in Ev.
    cbn [mbind option_bind]. pose proof (skip_ws_length t). destruct (skip_ws t) as [|c t']; [done|].
    cbn [length] in *. by rewrite IHe by lia.
  - intros d s Hf. cbn [parse_members]. pose proof (skip_ws_length s).
    destruct (skip_ws s) as [|q t]; [done|]. cbn [length] in *. case_decide; [|done].
    destruct (scan_string t) as [[its r1]|] eqn:Es; [|done]. apply scan_string_length in Es.
    cbn [mbind option_bind]. pose proof (skip_ws_length r1). destruct (skip_ws r1) as [|c r2]; [done|].
    cbn [length] in *. case_decide; [|done]. rewrite IHv by lia.
    destruct (parse_value fuel d r2) as [[v r3]|] eqn:Ev; [|done]. apply Hcv in Ev.
    cbn [mbind option_bind]. pose proof (skip_ws_length r3). destruct (skip_ws r3) as [|e t']; [done|].
    cbn [length] in *. by rewrite IHm by lia.
Qed.

(** So the fuel [parse] and its like start with never runs out: an answer of
    [None] is a syntax error. *)
Lemma parse_value_fuel fuel d s :
  (2 * length s < fuel)%nat → parse_value fuel d s = parse_value (S (2 * length s)) d s.
Proof.
  intros Hf. destruct (parse_more_fuel (S (2 * length s)) fuel ltac:(lia)) as [Hv _].
  apply Hv. lia.
Qed.
