(* ===== verification/Frame.v ===== *)
(** * Length-prefixed frames ([src/internal/protocol/frame.go])

    The HTTP gateway and the TCP backend exchange frames: a four-byte
    big-endian length and that many bytes of JSON. *)

From S2P Require Import Prelude GoIO.
From Stdlib Require Import Strings.Byte.

Definition headerBytes : Z := 4.

Inductive frame_error :=
  | FrameIO (e : io_error)
  | FrameEmpty
  | ErrFrameTooLarge (detail : option (Z * Z)).

(** [binary.BigEndian.Uint32] and [binary.BigEndian.PutUint32]. *)
Definition BigEndian_Uint32 (h : bytes) : outcome frame_error Z :=
  match h with
  | b0 :: b1 :: b2 :: b3 :: _ =>
      Ok (Z.lor (Z.lor (Z.lor (byteZ b3) (Z.shiftl (byteZ b2) 8))
            (Z.shiftl (byteZ b1) 16)) (Z.shiftl (byteZ b0) 24))
  | _ => Panic
  end.

Definition BigEndian_PutUint32 (v : Z) : bytes :=
  [Zbyte (Z.shiftr v 24); Zbyte (Z.shiftr v 16); Zbyte (Z.shiftr v 8); Zbyte v].

(** Run an [io] operation inside frame code: its error is passed up. *)
Definition io {W A} (m : eff W io_error A) : eff W frame_error A := λ w,
  match m w with
  | (Ok a, w') => (Ok a, w')
  | (Err e, w') => (Err (FrameIO e), w')
  | (Panic, w') => (Panic, w')
  end.

Definition ReadFrame (maxBytes : Z) : eff reader frame_error bytes :=
  header ← io (ReadFull headerBytes);
  n ← lift (BigEndian_Uint32 header);
  if n =? 0 then throw FrameEmpty
  else if (0 <? maxBytes) && (maxBytes <? n) then
    throw (ErrFrameTooLarge (Some (n, maxBytes)))
  else io (ReadFull n).

Definition WriteFrame (payload : bytes) (maxBytes : Z) : eff writer frame_error unit :=
  let len := Z.of_nat (length payload) in
  if len =? 0 then throw FrameEmpty
  else if (0 <? maxBytes) && (maxBytes <? wrapu 64 len) then
    throw (ErrFrameTooLarge (Some (len, maxBytes)))
  else if 4294967295 <? len then throw (ErrFrameTooLarge None)
  else
    _ ← io (Write (BigEndian_PutUint32 (wrapu 32 len)));
    io (Write payload).

(** What a payload must satisfy to be sent under a limit ([0] is no limit). *)
Definition frameable (maxBytes : Z) (p : bytes) : Prop :=
  0 < Z.of_nat (length p) ≤ 4294967295 ∧
  (0 < maxBytes → Z.of_nat (length p) ≤ maxBytes).

(** The bytes of one frame on the wire. *)
Definition frame_bytes (p : bytes) : bytes :=
  BigEndian_PutUint32 (Z.of_nat (length p)) ++ p.

(** Receive [n] frames in a row, as the loop of [handleConn] does. *)
Fixpoint recv_frames (n : nat) (maxBytes : Z) : eff reader frame_error (list bytes) :=
  match n with
  | O => mret []
  | S n => p ← ReadFrame maxBytes; ps ← recv_frames n maxBytes; mret (p :: ps)
  end.

Lemma be_sum b0 b1 b2 b3 :
  0 ≤ b0 < 256 → 0 ≤ b1 < 256 → 0 ≤ b2 < 256 → 0 ≤ b3 < 256 →
  Z.lor (Z.lor (Z.lor b3 (Z.shiftl b2 8)) (Z.shiftl b1 16)) (Z.shiftl b0 24) =
  b3 + b2 * 256 + b1 * 65536 + b0 * 16777216.
Proof.
  intros. rewrite (lor_shiftl_add b3 b2 8) by lia.
  rewrite (lor_shiftl_add _ b1 16) by lia. by rewrite (lor_shiftl_add _ b0 24) by lia.
Qed.

Lemma Uint32_PutUint32 v rest :
  0 ≤ v < 2 ^ 32 → BigEndian_Uint32 (BigEndian_PutUint32 v ++ rest) = Ok v.
Proof.
  intros Hv. unfold BigEndian_PutUint32, BigEndian_Uint32; cbn [app]. f_equal.
  rewrite be_sum by apply byteZ_range.
  rewrite !byteZ_Zbyte, !Z.shiftr_div_pow2 by lia.
  change (2 ^ 8) with 256; change (2 ^ 16) with 65536; change (2 ^ 24) with 16777216.
  Z.to_euclidean_division_equations; lia.
Qed.

Lemma Uint32_range h n : BigEndian_Uint32 h = Ok n → 0 ≤ n < 2 ^ 32.
Proof.
  destruct h as [|b0 [|b1 [|b2 [|b3 ?]]]]; simpl; try done. intros [= <-].
  pose proof (byteZ_range b0). pose proof (byteZ_range b1).
  pose proof (byteZ_range b2). pose proof (byteZ_range b3).
  rewrite be_sum by done. lia.
Qed.

Lemma Uint32_total h : (4 ≤ length h)%nat → ∃ n, BigEndian_Uint32 h = Ok n.
Proof. destruct h as [|? [|? [|? [|? ?]]]]; simpl; try lia. eauto. Qed.

Lemma ReadFrame_frame maxBytes p rest fin :
  frameable maxBytes p →
  ReadFrame maxBytes (Reader (frame_bytes p ++ rest) fin) = (Ok p, Reader rest fin).
Proof.
  intros [[Hp0 Hp] Hmax]. unfold ReadFrame, frame_bytes, headerBytes.
  rewrite <- app_assoc.
  erewrite eff_bind_step; [|unfold io; change 4 with (Z.of_nat (length
    (BigEndian_PutUint32 (Z.of_nat (length p))))); by rewrite ReadFull_app].
  erewrite eff_bind_step; [|unfold lift; by rewrite <- (app_nil_r (BigEndian_PutUint32 _)),
    Uint32_PutUint32 by lia].
  rewrite (proj2 (Z.eqb_neq _ _)) by lia.
  replace ((0 <? maxBytes) && (maxBytes <? Z.of_nat (length p))) with false.
  - unfold io. by rewrite ReadFull_app.
  - symmetry. apply andb_false_iff. rewrite !Z.ltb_ge. lia.
Qed.

Lemma WriteFrame_frame maxBytes p out :
  frameable maxBytes p →
  WriteFrame p maxBytes (Writer out None) = (Ok tt, Writer (out ++ frame_bytes p) None).
Proof.
  intros [[Hp0 Hp] Hmax]. unfold WriteFrame.
  rewrite !wrapu_id by lia.
  rewrite (proj2 (Z.eqb_neq _ _)) by lia.
  replace ((0 <? maxBytes) && (maxBytes <? Z.of_nat (length p))) with false
    by (symmetry; apply andb_false_iff; rewrite !Z.ltb_ge; lia).
  rewrite (proj2 (Z.ltb_ge _ _)) by lia.
  unfold frame_bytes. by rewrite app_assoc.
Qed.

(** A payload like that of the package's test. *)
Definition login_payload : bytes :=
  String.list_byte_of_string "{'op':'Login'}".

Fixpoint send_frames (ps : list bytes) (maxBytes : Z) : eff writer frame_error unit :=
  match ps with
  | [] => mret tt
  | p :: ps => _ ← WriteFrame p maxBytes; send_frames ps maxBytes
  end.

Lemma send_frames_wire ps maxBytes out :
  Forall (frameable maxBytes) ps →
  send_frames ps maxBytes (Writer out None) =
  (Ok tt, Writer (out ++ concat (map frame_bytes ps)) None).
Proof.
  intros Hps. revert out. induction Hps as [|p ps Hp _ IH]; intros out; simpl.
  - by rewrite app_nil_r.
  - erewrite eff_bind_step by (by apply WriteFrame_frame). by rewrite IH, <- app_assoc.
Qed.

Lemma recv_frames_wire ps maxBytes rest fin :
  Forall (frameable maxBytes) ps →
  recv_frames (length ps) maxBytes (Reader (concat (map frame_bytes ps) ++ rest) fin) =
  (Ok ps, Reader rest fin).
Proof.
  intros Hps. induction Hps as [|p ps Hp _ IH]; simpl; [done|].
  rewrite <- app_assoc. erewrite eff_bind_step by (by apply ReadFrame_frame).
  by erewrite eff_bind_step by exact IH.
Qed.

(** C34: frames do not run into each other. Any sequence of sendable payloads
    written one after the other on a connection is received as the same
    sequence, in the same order, with the same number of reads. *)
Theorem frame_stream_round_trip maxBytes ps rest fin :
  Forall (frameable maxBytes) ps →
  ∃ wire, send_frames ps maxBytes (Writer [] None) = (Ok tt, Writer wire None) ∧
    recv_frames (length ps) maxBytes (Reader (wire ++ rest) fin) = (Ok ps, Reader rest fin).
Proof.
  intros Hps. exists (concat (map frame_bytes ps)).
  split; [by rewrite send_frames_wire | by apply recv_frames_wire].
Qed.

Lemma frame_stream_round_trip_witness :
  Forall (frameable 16) [login_payload; [x61]; [x62; x63]] ∧
  ∃ wire, send_frames [login_payload; [x61]; [x62; x63]] 16 (Writer [] None) =
            (Ok tt, Writer wire None) ∧
    recv_frames 3 16 (Reader (wire ++ []) EOF) =
      (Ok [login_payload; [x61]; [x62; x63]], Reader [] EOF).
Proof.
  assert (H : Forall (frameable 16) [login_payload; [x61]; [x62; x63]])
    by (repeat constructor; by vm_compute).
  split; [exact H|]. exact (frame_stream_round_trip 16 _ [] EOF H).
Defined.

Lemma PutUint32_Uint32 h n :
  length h = 4%nat → BigEndian_Uint32 h = Ok n → BigEndian_PutUint32 n = h.
Proof.
  destruct h as [|b0 [|b1 [|b2 [|b3 [|]]]]]; simpl; try done. intros _ [= <-].
  pose proof (byteZ_range b0). pose proof (byteZ_range b1).
  pose proof (byteZ_range b2). pose proof (byteZ_range b3).
  rewrite be_sum by done. unfold BigEndian_PutUint32.
  rewrite !Z.shiftr_div_pow2 by lia.
  repeat f_equal; apply byteZ_inj; rewrite byteZ_Zbyte;
    change (2 ^ 8) with 256; change (2 ^ 16) with 65536; change (2 ^ 24) with 16777216;
    Z.to_euclidean_division_equations; lia.
Qed.

Lemma io_inv {W A} (m : eff W io_error A) w r w' :
  io m w = (r, w') →
  match r with
  | Ok a => m w = (Ok a, w')
  | Err (FrameIO e) => m w = (Err e, w')
  | Err _ => False
  | Panic => m w = (Panic, w')
  end.
Proof. unfold io. destruct (m w) as [[a|e|] w2]; by intros [= <- <-]. Qed.

Lemma ReadFrame_inv maxBytes r res r' :
  ReadFrame maxBytes r = (res, r') →
  res ≠ Panic ∧
  ∀ p, res = Ok p → frameable maxBytes p ∧ r_data r = frame_bytes p ++ r_data r'.
Proof.
  unfold ReadFrame, mbind, eff_bind, headerBytes.
  destruct (io (ReadFull 4) r) as [[h|e|] r1] eqn:Eh; apply io_inv in Eh.
  2: by intros [= <- <-].
  2: by unfold ReadFull in Eh; case_match.
  apply ReadFull_Ok in Eh as (Hh & Hd & _); [|lia].
  unfold lift. destruct (Uint32_total h) as [n Hn]; [lia|]. rewrite Hn.
  pose proof (Uint32_range _ _ Hn). apply PutUint32_Uint32 in Hn; [|lia].
  destruct (Z.eqb_spec n 0); [by intros [= <- <-]|].
  destruct ((0 <? maxBytes) && (maxBytes <? n)) eqn:Hlim; [by intros [= <- <-]|].
  apply andb_false_iff in Hlim. rewrite !Z.ltb_ge in Hlim.
  intros Hp. apply io_inv in Hp. destruct res as [p|e|]; [|by split|].
  - apply ReadFull_Ok in Hp as (Hlen & Hd' & _); [|lia]. split; [done|].
    intros ? [= <-]. unfold frameable, frame_bytes. split; [lia|].
    by rewrite Hlen, Hn, Hd, Hd', app_assoc.
  - unfold ReadFull in Hp. by case_match.
Qed.

(** [ReadFrame] never panics, and it accepts nothing but frames: when it
    returns a payload, the payload is not empty, is within the limit, and the
    bytes it took from the stream are exactly the header [WriteFrame] would
    have written for that payload followed by the payload. *)
Lemma ReadFrame_accepts_only_frames maxBytes r res r' :
  ReadFrame maxBytes r = (res, r') →
  res ≠ Panic ∧
  ∀ p, res = Ok p → frameable maxBytes p ∧ r_data r = frame_bytes p ++ r_data r'.
Proof. apply ReadFrame_inv. Qed.

(** A payload [WriteFrame] cannot send under its limit (empty, over the
    limit, or longer than a 32-bit length) is refused with nothing written, so
    a refused response never leaves half a frame on the connection. *)
Lemma WriteFrame_refuses maxBytes p w :
  0 ≤ maxBytes < 2 ^ 32 → Z.of_nat (length p) < 2 ^ 63 →
  (∃ e, WriteFrame p maxBytes w = (Err e, w) ∧ ∀ io, e ≠ FrameIO io) ↔ ¬ frameable maxBytes p.
Proof.
  intros Hmax Hlen. unfold WriteFrame, frameable. rewrite (wrapu_id 64) by lia.
  destruct (Z.eqb_spec (Z.of_nat (length p)) 0); [split; [lia|by eexists]|].
  destruct ((0 <? maxBytes) && (maxBytes <? Z.of_nat (length p))) eqn:Hlim.
  { apply andb_true_iff in Hlim. rewrite !Z.ltb_lt in Hlim. split; [lia|by eexists]. }
  apply andb_false_iff in Hlim. rewrite !Z.ltb_ge in Hlim.
  destruct (Z.ltb_spec 4294967295 (Z.of_nat (length p))); [split; [lia|by eexists]|].
  split; [|intros []; lia]. intros (e & He & Hio). exfalso.
  unfold mbind, eff_bind in He.
  destruct (io (Write _) w) as [[[]|e1|] w1] eqn:E1; apply io_inv in E1.
  - apply io_inv in He. destruct e; naive_solver.
  - destruct e1; naive_solver.
  - done.
Qed.


(** A write that succeeds has put a whole frame on the stream. *)
Lemma WriteFrame_Ok maxBytes p w wr :
  WriteFrame p maxBytes w = (Ok tt, wr) →
  frameable maxBytes p ∧ w_out wr = w_out w ++ frame_bytes p.
Proof.
  unfold WriteFrame. destruct (Z.eqb_spec (Z.of_nat (length p)) 0); [done|].
  destruct (_ && _) eqn:Hlim; [done|]. destruct (Z.ltb_spec 4294967295 (Z.of_nat (length p))); [done|].
  rewrite (wrapu_id 64) in Hlim by lia. rewrite (wrapu_id 32) by lia.
  apply andb_false_iff in Hlim. rewrite !Z.ltb_ge in Hlim. unfold mbind, eff_bind.
  assert (Hw : ∀ q w1 w2, io (Write q) w1 = (Ok tt, w2) → w_out w2 = w_out w1 ++ q).
  { intros q w1 w2 E%io_inv. unfold Write in E. repeat case_match; by simplify_eq. }
  destruct (io (Write (BigEndian_PutUint32 _)) w) as [[[]|e|] w1] eqn:E1; [|done..].
  intros E2. split; [split; lia|]. unfold frame_bytes. apply Hw in E1, E2. by rewrite E2, E1, app_assoc.
Qed.

Lemma WriteFrame_no_panic maxBytes p w : (WriteFrame p maxBytes w).1 ≠ Panic.
Proof.
  unfold WriteFrame. repeat (case_match; [done|]). unfold mbind, eff_bind.
  assert (Hw : ∀ q w1, (io (Write q) w1).1 ≠ Panic).
  { intros q w1. unfold io, Write. by repeat case_match. }
  pose proof (Hw (BigEndian_PutUint32 (wrapu 32 (Z.of_nat (length p)))) w) as Hio.
  destruct (io (Write _) w) as [[[]|e|] w1]; [apply Hw|done..].
Qed.

(** A write puts a beginning of the frame on the connection, and nothing when the
    payload is refused. *)
Lemma WriteFrame_begins maxBytes p w :
  ∃ k, w_out (WriteFrame p maxBytes w).2 = w_out w ++ take k (frame_bytes p) ∧
    (k ≠ 0%nat → frameable maxBytes p).
Proof.
  unfold WriteFrame. destruct (Z.eqb_spec (Z.of_nat (length p)) 0); [exists 0%nat; by rewrite app_nil_r|].
  destruct (_ && _) eqn:Hlim; [exists 0%nat; by rewrite app_nil_r|].
  destruct (Z.ltb_spec 4294967295 (Z.of_nat (length p))); [exists 0%nat; by rewrite app_nil_r|].
  rewrite (wrapu_id 64) in Hlim by lia. rewrite (wrapu_id 32) by lia.
  apply andb_false_iff in Hlim. rewrite !Z.ltb_ge in Hlim.
  assert (Hf : frameable maxBytes p) by (split; lia).
  assert (Hw : ∀ q w1, ∃ k, w_out (io (Write q) w1).2 = w_out w1 ++ take k q ∧
    ((io (Write q) w1).1 = Ok tt → take k q = q)).
  { intros q [out [room|]]; unfold io, Write; cbn.
    - destruct (length q <=? room)%nat; cbn; [exists (length q)|exists room]; by rewrite ?firstn_all.
    - exists (length q). by rewrite firstn_all. }
  unfold mbind, eff_bind. set (head := BigEndian_PutUint32 _).
  destruct (Hw head w) as (k1 & E1 & H1). destruct (io (Write head) w) as [[[]|e|] w1]; cbn [fst snd] in *.
  - destruct (Hw p w1) as (k2 & E2 & _). exists (length head + k2)%nat. split; [|done].
    rewrite E2, E1, (H1 eq_refl), <- app_assoc. unfold frame_bytes. fold head. by rewrite take_app_add.
  - exists (k1 `min` length head)%nat. split; [|done]. rewrite E1. unfold frame_bytes. fold head.
    rewrite take_app_le by lia. by rewrite <- take_take, firstn_all.
  - exists (k1 `min` length head)%nat. split; [|done]. rewrite E1. unfold frame_bytes. fold head.
    rewrite take_app_le by lia. by rewrite <- take_take, firstn_all.
Qed.

(** A beginning of a frame holds no other frame. *)
Lemma frame_bytes_begins p q rest k :
  Z.of_nat (length p) ≤ 4294967295 → take k (frame_bytes p) = frame_bytes q ++ rest → q = p ∧ rest = [].
Proof.
  intros Hp Hk.
  assert (E : frame_bytes p = frame_bytes q ++ (rest ++ drop k (frame_bytes p))).
  { by rewrite app_assoc, <- Hk, take_drop. }
  unfold frame_bytes in E. rewrite <- !app_assoc in E.
  apply app_inj_1 in E as [Ehead Etail]; [|done].
  pose proof (f_equal length Etail) as El. rewrite length_app in El.
  assert (Hlen : length q = length p).
  { apply (f_equal (λ h, BigEndian_Uint32 (h ++ []))) in Ehead.
    rewrite !Uint32_PutUint32 in Ehead by lia. injection Ehead. lia. }
  destruct (rest ++ _) eqn:Erest; [|cbn [length] in El; lia].
  apply app_eq_nil in Erest as [-> _]. split; [by rewrite Etail, app_nil_r|done].
Qed.

(** What is read from a beginning of a frame is the frame or an error. *)
Lemma ReadFrame_prefix maxBytes p k fin q rd :
  frameable maxBytes p →
  ReadFrame maxBytes (Reader (take k (frame_bytes p)) fin) = (Ok q, rd) → q = p.
Proof.
  intros [[_ Hp] _] Hread. destruct (ReadFrame_inv _ _ _ _ Hread) as [_ Hq].
  destruct (Hq q eq_refl) as [_ Hd]. by apply frame_bytes_begins in Hd as [? _].
Qed.
