(* ===== verification/Kube.v ===== *)
(** * Kubernetes objects and the API the controllers call

    The API server and its client libraries are outside the repository.  The
    controllers see them through the operations of [KubeAPI]; what they rely on
    is stated by [KubeLaws] as documented behaviour of the API (a read changes
    nothing, a delete either removes a pod or marks it as terminating, a create
    with [generateName] picks a fresh name, an update of an outdated version is
    refused, ...).  The operator's client ([mgr.GetClient()]) writes to the API
    server but reads from a cache that follows it: a world has both, the contents
    of the cluster and what the cache shows of them, and every read is of the
    latter.  The polling controller's client has no cache ([LiveReads]).
    Theorems about the controllers are proved for every implementation of the
    classes; [Cluster.v] gives one. *)

From S2P Require Import Prelude GoStrings.

Abbreviation key := (string * string)%type.   (* namespace, name *)
Abbreviation labels := (gmap string string).

Record OwnerReference := {
  or_apiVersion : string;
  or_kind : string;
  or_name : string;
  or_uid : string;
  or_controller : option bool;
  or_blockOwnerDeletion : option bool;
}.

Record ObjectMeta := {
  om_name : string;
  om_generateName : string;
  om_namespace : string;
  om_uid : string;
  om_labels : labels;
  om_annotations : labels;
  om_ownerReferences : list OwnerReference;
  om_finalizers : list string;
  om_creationTimestamp : Z;
  om_deletionTimestamp : option Z;
}.

Definition named (ns name : string) : ObjectMeta :=
  {| om_name := name; om_generateName := ""; om_namespace := ns; om_uid := "";
     om_labels := ∅; om_annotations := ∅; om_ownerReferences := []; om_finalizers := [];
     om_creationTimestamp := 0; om_deletionTimestamp := None |}.

Definition with_labels (l : labels) (m : ObjectMeta) : ObjectMeta :=
  {| om_name := om_name m; om_generateName := om_generateName m;
     om_namespace := om_namespace m; om_uid := om_uid m; om_labels := l;
     om_annotations := om_annotations m; om_ownerReferences := om_ownerReferences m;
     om_finalizers := om_finalizers m; om_creationTimestamp := om_creationTimestamp m;
     om_deletionTimestamp := om_deletionTimestamp m |}.

Definition with_owners (o : list OwnerReference) (m : ObjectMeta) : ObjectMeta :=
  {| om_name := om_name m; om_generateName := om_generateName m;
     om_namespace := om_namespace m; om_uid := om_uid m; om_labels := om_labels m;
     om_annotations := om_annotations m; om_ownerReferences := o;
     om_finalizers := om_finalizers m; om_creationTimestamp := om_creationTimestamp m;
     om_deletionTimestamp := om_deletionTimestamp m |}.

Definition with_finalizers (f : list string) (m : ObjectMeta) : ObjectMeta :=
  {| om_name := om_name m; om_generateName := om_generateName m;
     om_namespace := om_namespace m; om_uid := om_uid m; om_labels := om_labels m;
     om_annotations := om_annotations m; om_ownerReferences := om_ownerReferences m;
     om_finalizers := f; om_creationTimestamp := om_creationTimestamp m;
     om_deletionTimestamp := om_deletionTimestamp m |}.

Definition meta_key (m : ObjectMeta) : key := (om_namespace m, om_name m).

#[global] Instance OwnerReference_eq_dec : EqDecision OwnerReference.
Proof. solve_decision. Defined.

(** ** Pods *)

(** The last constructor is the empty phase of a pod that has not been sent yet. *)
Inductive PodPhase :=
  | PodPending | PodRunning | PodSucceeded | PodFailed | PodUnknown | PodPhaseUnset.
#[global] Instance PodPhase_eq_dec : EqDecision PodPhase.
Proof. solve_decision. Defined.

Record ContainerPort := { cp_name : string; cp_containerPort : Z; cp_protocol : string }.

Record Probe := {
  pr_path : string;
  pr_port : string;
  pr_initialDelaySeconds : Z;
  pr_periodSeconds : Z;
}.

Record Container (R : Type) := {
  c_name : string;
  c_image : string;
  c_imagePullPolicy : string;
  c_ports : list ContainerPort;
  c_envFrom : list string;        (* names of the ConfigMaps *)
  c_readinessProbe : Probe;
  c_livenessProbe : Probe;
  c_resources : R;
}.

Record PodSpec (R : Type) := { ps_restartPolicy : string; ps_containers : list (Container R) }.

(** [corev1.ResourceRequirements]; a nil map is [None]. [Q] is
    [resource.Quantity]. *)
Record ResourceRequirements (Q : Type) := {
  Requests : option (gmap string Q);
  Limits : option (gmap string Q);
}.
Arguments Requests {Q}. Arguments Limits {Q}. Arguments Build_ResourceRequirements {Q}.

(** [R] is [corev1.ResourceRequirements]. *)
Record Pod (R : Type) := {
  pod_meta : ObjectMeta;
  pod_spec : PodSpec R;
  pod_phase : PodPhase;
}.

Arguments c_name {R}. Arguments c_image {R}. Arguments c_imagePullPolicy {R}.
Arguments c_ports {R}. Arguments c_envFrom {R}. Arguments c_readinessProbe {R}.
Arguments c_livenessProbe {R}. Arguments c_resources {R}. Arguments ps_restartPolicy {R}.
Arguments ps_containers {R}. Arguments pod_meta {R}. Arguments pod_spec {R}.
Arguments pod_phase {R}.

Definition pod_key {R} (p : Pod R) : key := meta_key (pod_meta p).
Definition pod_labels {R} (p : Pod R) : labels := om_labels (pod_meta p).
Definition pod_deleting {R} (p : Pod R) : Prop := om_deletionTimestamp (pod_meta p) ≠ None.
Definition pod_created {R} (p : Pod R) : Z := om_creationTimestamp (pod_meta p).

#[global] Instance pod_deleting_dec {R} (p : Pod R) : Decision (pod_deleting p).
Proof. unfold pod_deleting. apply _. Defined.

(** ** Services and ConfigMaps *)

Record ServicePort := {
  sp_name : string; sp_protocol : string; sp_port : Z; sp_targetPort : string }.

(** [ss_clusterIP] stands for the fields the API server allocates. *)
Record ServiceSpec := {
  ss_type : string;
  ss_selector : labels;
  ss_ports : list ServicePort;
  ss_clusterIP : string;
}.

Record Service := { svc_meta : ObjectMeta; svc_spec : ServiceSpec }.
Record ConfigMap := { cm_meta : ObjectMeta; cm_data : labels }.

#[global] Instance ServicePort_eq_dec : EqDecision ServicePort.
Proof. solve_decision. Defined.
#[global] Instance ServiceSpec_eq_dec : EqDecision ServiceSpec.
Proof. solve_decision. Defined.
#[global] Instance ObjectMeta_eq_dec : EqDecision ObjectMeta.
Proof. solve_decision. Defined.
#[global] Instance Service_eq_dec : EqDecision Service.
Proof. solve_decision. Defined.
#[global] Instance ConfigMap_eq_dec : EqDecision ConfigMap.
Proof. solve_decision. Defined.

(** ** The custom resource ([src/operator/api/v1alpha1/dbcpentryservice_types.go]) *)

(** [schema.GroupVersion] of [groupversion_info.go], and its [String]. *)
Definition GroupVersion : string * string := ("dbcp.shopee.io", "v1alpha1").
Definition GroupVersion_String (gv : string * string) : string := gv.1 +:+ "/" +:+ gv.2.

Record EntryConfig := {
  TargetDB : string;
  TargetRedis : string;
  ServiceExportPort : Z;   (* int32 *)
}.

Record EntryService (R : Type) := {
  Image : string;
  Replicas : Z;            (* int32 *)
  Resources : R;
}.
Arguments Image {R}. Arguments Replicas {R}. Arguments Resources {R}.

Record DbcpEntryServiceSpec (R : Type) := {
  spec_Config : EntryConfig;
  spec_Service : EntryService R;
}.
Arguments spec_Config {R}. Arguments spec_Service {R}.

(** [e_version] is [metadata.resourceVersion], kept beside the other metadata
    because only updates of a resource depend on it. *)
Record DbcpEntryService (R : Type) := {
  e_meta : ObjectMeta;
  e_version : string;
  e_spec : DbcpEntryServiceSpec R;
}.
Arguments e_meta {R}. Arguments e_version {R}. Arguments e_spec {R}.

Definition with_version {R} (v : string) (e : DbcpEntryService R) : DbcpEntryService R :=
  {| e_meta := e_meta e; e_version := v; e_spec := e_spec e |}.

(** What the CRD schema enforces on the resources the server stores (the
    kubebuilder markers of the type). *)
Definition crd_valid {R} (s : DbcpEntryServiceSpec R) : Prop :=
  1 ≤ ServiceExportPort (spec_Config s) ≤ 65535 ∧
  1 ≤ Replicas (spec_Service s) < 2 ^ 31.

(** ** Label selectors *)

(** [labels.SelectorFromSet(sel)]: every pair of [sel] is a label. *)
Definition selects (sel l : labels) : Prop := sel ⊆ l.

(** ** The API *)

Inductive api_error := NotFound | AlreadyExists | ApiOther (msg : string).
#[global] Instance api_error_eq_dec : EqDecision api_error.
Proof. solve_decision. Defined.

Abbreviation api W A := (eff W api_error A).

(** The contents of the cluster, as far as they concern the controllers, and
    what the client's cache shows of them. *)
Class ClusterView (R W : Type) := {
  pods : W → gmap key (Pod R);
  services : W → gmap key Service;
  configmaps : W → gmap key ConfigMap;
  entries : W → gmap key (DbcpEntryService R);
  cached_pods : W → gmap key (Pod R);
  cached_services : W → gmap key Service;
  cached_configmaps : W → gmap key ConfigMap;
  cached_entries : W → gmap key (DbcpEntryService R);
}.

Class KubeAPI (R W : Type) := {
  get_entry : key → api W (DbcpEntryService R);
  update_entry : DbcpEntryService R → api W (DbcpEntryService R);
  list_pods : string → labels → api W (list (Pod R));
  create_pod : Pod R → api W (Pod R);
  delete_pod : key → api W unit;
  delete_service : key → api W unit;
  delete_configmap : key → api W unit;
  (** [controllerutil.CreateOrUpdate]: the object under that key, or the given
      stub if there is none, is passed to the mutate function; the result is
      created, updated, or left alone if nothing changed.  The mutate function
      may not rename the object. *)
  create_or_update_service : Service → (Service → outcome api_error Service) → api W unit;
  create_or_update_configmap : ConfigMap → (ConfigMap → outcome api_error ConfigMap) → api W unit;
}.

(** The parts of [controllerutil] used on object metadata. *)
Class ControllerUtil (R : Type) := {
  ContainsFinalizer : ObjectMeta → string → bool;
  AddFinalizer : ObjectMeta → string → ObjectMeta;
  RemoveFinalizer : ObjectMeta → string → ObjectMeta;
  SetControllerReference : DbcpEntryService R → ObjectMeta → outcome api_error ObjectMeta;
}.

(** ** What the controllers rely on *)

Section laws.
Context {R W : Type} `{!ClusterView R W}.

(** Two worlds with the same contents on the API server. *)
Definition view_eq (w w' : W) : Prop :=
  pods w' = pods w ∧ services w' = services w ∧
  configmaps w' = configmaps w ∧ entries w' = entries w.

(** Only the pod under [k] may differ. *)
Definition only_pod (k : key) (w w' : W) : Prop :=
  (∀ k', k' ≠ k → pods w' !! k' = pods w !! k') ∧ services w' = services w ∧
  configmaps w' = configmaps w ∧ entries w' = entries w.
Definition only_service (k : key) (w w' : W) : Prop :=
  pods w' = pods w ∧ (∀ k', k' ≠ k → services w' !! k' = services w !! k') ∧
  configmaps w' = configmaps w ∧ entries w' = entries w.
Definition only_configmap (k : key) (w w' : W) : Prop :=
  pods w' = pods w ∧ services w' = services w ∧
  (∀ k', k' ≠ k → configmaps w' !! k' = configmaps w !! k') ∧ entries w' = entries w.
Definition only_entry (k : key) (w w' : W) : Prop :=
  pods w' = pods w ∧ services w' = services w ∧ configmaps w' = configmaps w ∧
  (∀ k', k' ≠ k → entries w' !! k' = entries w !! k').

(** The cache has caught up with a name space: it shows what is there. *)
Definition pods_shown (ns : string) (w : W) : Prop :=
  ∀ n, cached_pods w !! (ns, n) = pods w !! (ns, n).
Definition caught_up (ns : string) (w : W) : Prop := pods_shown ns w ∧ ∀ n,
  cached_services w !! (ns, n) = services w !! (ns, n) ∧
  cached_configmaps w !! (ns, n) = configmaps w !! (ns, n) ∧
  cached_entries w !! (ns, n) = entries w !! (ns, n).

(** An object that the cache shows as it is stays so as long as it does not
    change. *)
Definition settled (w w' : W) : Prop := ∀ k,
  (pods w' !! k = pods w !! k → cached_pods w !! k = pods w !! k →
     cached_pods w' !! k = pods w' !! k) ∧
  (services w' !! k = services w !! k → cached_services w !! k = services w !! k →
     cached_services w' !! k = services w' !! k) ∧
  (configmaps w' !! k = configmaps w !! k → cached_configmaps w !! k = configmaps w !! k →
     cached_configmaps w' !! k = configmaps w' !! k).

(** The pods of a name space that the cache shows and that are still there have
    kept their labels: nobody has relabelled one, or put another one under its
    generated name. *)
Definition labels_kept (ns : string) (w : W) : Prop := ∀ n p q,
  cached_pods w !! (ns, n) = Some p → pods w !! (ns, n) = Some q → pod_labels q = pod_labels p.

Lemma pods_shown_labels ns w : pods_shown ns w → labels_kept ns w.
Proof. intros Hc n p q Hp Hq. rewrite Hc in Hp. congruence. Qed.

(** Deleting what the cache shows cannot hit the pod of someone else. *)
Definition cache_safe (ns : string) (w : W) : Prop := pods_shown ns w ∨ ∀ w1, labels_kept ns w1.

Lemma settled_shown ns w w' : settled w w' → pods w' = pods w → pods_shown ns w → pods_shown ns w'.
Proof. intros Hs Hp Hc n. apply (Hs (ns, n)); [by rewrite Hp|apply Hc]. Qed.
Lemma settled_safe ns w w' : settled w w' → pods w' = pods w → cache_safe ns w → cache_safe ns w'.
Proof. intros ?? [?|?]; [left; by eapply settled_shown|by right]. Qed.
Lemma cache_safe_labels ns w : cache_safe ns w → labels_kept ns w.
Proof. intros [?|Hk]; [by apply pods_shown_labels|apply Hk]. Qed.

Lemma caught_up_entry req w : caught_up req.1 w → cached_entries w !! req = entries w !! req.
Proof. destruct req as [ns n]. intros [_ Hc]. apply Hc. Qed.

(** An update of a resource is applied only to the version it was made from.  A
    resource that is being deleted goes away with its last finalizer. *)
Definition entry_updated (e : DbcpEntryService R) (w w' : W) : Prop :=
  let k := meta_key (e_meta e) in
  ∃ old v, entries w !! k = Some old ∧ e_version old = e_version e ∧
    entries w' = if decide (om_deletionTimestamp (e_meta old) ≠ None ∧
                            om_finalizers (e_meta e) = [])
                 then delete k (entries w) else <[k := with_version v e]> (entries w).

(** A pod made from [p] is there under a name that was not taken. *)
Definition pod_added (p p' : Pod R) (w w' : W) : Prop :=
  only_pod (pod_key p') w w' ∧ pods w !! pod_key p' = None ∧
  pods w' !! pod_key p' = Some p' ∧
  om_namespace (pod_meta p') = om_namespace (pod_meta p) ∧
  pod_labels p' = pod_labels p ∧ pod_spec p' = pod_spec p ∧
  om_annotations (pod_meta p') = om_annotations (pod_meta p) ∧
  om_ownerReferences (pod_meta p') = om_ownerReferences (pod_meta p) ∧
  ¬ pod_deleting p' ∧ pod_phase p' = PodPending.

(** Deleted: removed, or kept with a deletion timestamp until it is. *)
Definition pod_gone (k : key) (w : W) : Prop :=
  ∀ p, pods w !! k = Some p → pod_deleting p.
Definition service_gone (k : key) (w : W) : Prop :=
  ∀ s, services w !! k = Some s → om_deletionTimestamp (svc_meta s) ≠ None.
Definition configmap_gone (k : key) (w : W) : Prop :=
  ∀ c, configmaps w !! k = Some c → om_deletionTimestamp (cm_meta c) ≠ None.
End laws.

(** The metadata a client sets is stored as sent. *)
Definition meta_stored (sent stored : ObjectMeta) : Prop :=
  om_name stored = om_name sent ∧ om_namespace stored = om_namespace sent ∧
  om_labels stored = om_labels sent ∧ om_annotations stored = om_annotations sent ∧
  om_ownerReferences stored = om_ownerReferences sent.

Definition service_stored (sent stored : Service) : Prop :=
  meta_stored (svc_meta sent) (svc_meta stored) ∧
  ss_type (svc_spec stored) = ss_type (svc_spec sent) ∧
  ss_selector (svc_spec stored) = ss_selector (svc_spec sent) ∧
  ss_ports (svc_spec stored) = ss_ports (svc_spec sent).

Definition configmap_stored (sent stored : ConfigMap) : Prop :=
  meta_stored (cm_meta sent) (cm_meta stored) ∧ cm_data stored = cm_data sent.

(** An attempt to delete an object keeps its labels, and a deletion that has
    begun is not undone. *)
Definition not_revived (before after : ObjectMeta) : Prop :=
  om_labels after = om_labels before ∧
  (om_deletionTimestamp before ≠ None → om_deletionTimestamp after ≠ None).

Definition no_panic {E A} (r : outcome E A) : Prop := r ≠ Panic.

Class KubeLaws (R W : Type) `{!ClusterView R W, !KubeAPI R W} : Prop := {
  pods_keyed (w : W) k p : pods w !! k = Some p → pod_key p = k;
  services_keyed (w : W) k s : services w !! k = Some s → meta_key (svc_meta s) = k;
  configmaps_keyed (w : W) k c : configmaps w !! k = Some c → meta_key (cm_meta c) = k;
  entries_keyed (w : W) k e : entries w !! k = Some e → meta_key (e_meta e) = k;

  cached_pods_keyed (w : W) k p : cached_pods w !! k = Some p → pod_key p = k;
  cached_services_keyed (w : W) k s : cached_services w !! k = Some s → meta_key (svc_meta s) = k;
  cached_configmaps_keyed (w : W) k c :
    cached_configmaps w !! k = Some c → meta_key (cm_meta c) = k;
  cached_entries_keyed (w : W) k e : cached_entries w !! k = Some e → meta_key (e_meta e) = k;
  (** What is read has a version, and a version identifies the contents of a
      resource. *)
  cached_entries_versioned (w : W) k e : cached_entries w !! k = Some e → e_version e ≠ "";
  cached_entries_version (w : W) k e e' :
    cached_entries w !! k = Some e → entries w !! k = Some e' → e_version e' = e_version e → e' = e;

  get_entry_law k (w : W) :
    wp (get_entry k) (λ r w', no_panic r ∧ view_eq w w' ∧ settled w w' ∧
      (∀ e, r = Ok e → cached_entries w !! k = Some e) ∧
      (r = Err NotFound → cached_entries w !! k = None)) w;

  (** An update that reports an error may still have been applied. *)
  update_entry_law e (w : W) :
    let k := meta_key (e_meta e) in
    e_version e ≠ "" →
    wp (update_entry e) (λ r w', no_panic r ∧ only_entry k w w' ∧
      (entries w' = entries w ∨ entry_updated e w w') ∧
      (∀ e', r = Ok e' → entry_updated e w w')) w;

  list_pods_law ns sel (w : W) :
    wp (list_pods ns sel) (λ r w', no_panic r ∧ view_eq w w' ∧
      (∀ ps, r = Ok ps → NoDup (pod_key <$> ps) ∧
        ∀ p, p ∈ ps ↔ ∃ n, cached_pods w !! (ns, n) = Some p ∧ selects sel (pod_labels p))) w;

  (** With [generateName] the server picks an unused name; a new pod is pending.
      A creation that reports an error may still have happened. *)
  create_pod_law p (w : W) :
    wp (create_pod p) (λ r w', no_panic r ∧
      (∀ e, r = Err e → view_eq w w' ∨ ∃ p', pod_added p p' w w') ∧
      (∀ p', r = Ok p' → pod_added p p' w w')) w;

  (** A pod may stay, marked as terminating, while it shuts down. *)
  delete_pod_law k (w : W) :
    wp (delete_pod k) (λ r w', no_panic r ∧ only_pod k w w' ∧
      (r = Ok tt ∨ r = Err NotFound → pod_gone k w') ∧
      (∀ q, pods w' !! k = Some q →
        ∃ p, pods w !! k = Some p ∧ not_revived (pod_meta p) (pod_meta q))) w;

  delete_service_law k (w : W) :
    wp (delete_service k) (λ r w', no_panic r ∧ only_service k w w' ∧
      (r = Ok tt ∨ r = Err NotFound → service_gone k w') ∧
      (∀ s', services w' !! k = Some s' →
        ∃ s, services w !! k = Some s ∧ not_revived (svc_meta s) (svc_meta s'))) w;
  delete_configmap_law k (w : W) :
    wp (delete_configmap k) (λ r w', no_panic r ∧ only_configmap k w w' ∧
      (r = Ok tt ∨ r = Err NotFound → configmap_gone k w') ∧
      (∀ c', configmaps w' !! k = Some c' →
        ∃ c, configmaps w !! k = Some c ∧ not_revived (cm_meta c) (cm_meta c'))) w;

  (** The object the function is applied to comes from the cache.  Nothing is
      sent if the function leaves it as it is; otherwise the result is stored,
      or the call fails (an outdated version, a name that is taken, ...). *)
  create_or_update_service_law stub f (w : W) :
    let k := meta_key (svc_meta stub) in
    let base := default stub (cached_services w !! k) in
    no_panic (f base) →
    wp (create_or_update_service stub f) (λ r w', no_panic r ∧ only_service k w w' ∧ settled w w' ∧
      (r = Ok tt → ∃ s, f base = Ok s ∧
         ((cached_services w !! k = Some s ∧ view_eq w w') ∨
          ∃ s', services w' !! k = Some s' ∧ service_stored s s'))) w;
  create_or_update_configmap_law stub f (w : W) :
    let k := meta_key (cm_meta stub) in
    let base := default stub (cached_configmaps w !! k) in
    no_panic (f base) →
    wp (create_or_update_configmap stub f) (λ r w', no_panic r ∧ only_configmap k w w' ∧ settled w w' ∧
      (r = Ok tt → ∃ c, f base = Ok c ∧
         ((cached_configmaps w !! k = Some c ∧ view_eq w w') ∨
          ∃ c', configmaps w' !! k = Some c' ∧ configmap_stored c c'))) w;
}.

(** A client without a cache. *)
Class LiveReads (R W : Type) `{!ClusterView R W} : Prop :=
  live_reads (w : W) : cached_pods w = pods w ∧ cached_services w = services w ∧
    cached_configmaps w = configmaps w ∧ cached_entries w = entries w.

Lemma live_caught_up {R W} `{!ClusterView R W, !LiveReads R W} ns (w : W) : caught_up ns w.
Proof.
  destruct (live_reads w) as (E1 & E2 & E3 & E4). split; [|intros n; by rewrite E2, E3, E4].
  intros n. by rewrite E1.
Qed.

Class ControllerUtilLaws (R : Type) `{!ControllerUtil R} : Prop := {
  ContainsFinalizer_spec m f : ContainsFinalizer m f = true ↔ f ∈ om_finalizers m;
  AddFinalizer_spec m f :
    f ∉ om_finalizers m → AddFinalizer m f = with_finalizers (om_finalizers m ++ [f]) m;
  RemoveFinalizer_spec m f :
    RemoveFinalizer m f = with_finalizers (filter (λ x, x ≠ f) (om_finalizers m)) m;
  (** Only the owner references change, and the owner becomes the controller. *)
  SetControllerReference_spec e m :
    no_panic (SetControllerReference e m) ∧
    ∀ m', SetControllerReference e m = Ok m' →
      ∃ os, m' = with_owners os m ∧
        ∃ o, o ∈ os ∧ or_uid o = om_uid (e_meta e) ∧ or_controller o = Some true;
}.

(** [sort.Slice(s, less)] leaves a permutation of [s] in which no element is
    less than one before it; equal elements may end in any order. *)
Class SortSlice := sort_slice : ∀ {A : Type}, (A → A → bool) → list A → list A.
Class SortSliceLaws `{!SortSlice} : Prop := {
  sort_slice_perm {A} (less : A → A → bool) l : sort_slice less l ≡ₚ l;
  (** for a strict weak order given by a key *)
  sort_slice_sorted {A} (f : A → Z) l :
    StronglySorted (λ x y, f x ≤ f y) (sort_slice (λ x y, f x <? f y) l);
}.
