(* ===== verification/KubeClient.v ===== *)
(** * The clients of the polling controller

    The polling controller talks to the cluster through client-go's typed
    clients for ConfigMaps, Services and pods, and through the dynamic client
    for its own resources, which it reads as [unstructured.Unstructured].  Both
    are outside the repository: their operations are classes, and what the
    controller relies on is stated by [ClientLaws].  The operations on pods and
    the deletions are those of [Kube.KubeAPI]. *)

From S2P Require Import Prelude GoStrings Kube.

(** ** Unstructured objects *)

(** What [unstructured.NestedString] and its like return: the value, nothing
    when a field is missing, or an error when a value has another type. *)
Inductive nested (A : Type) := Found (a : A) | Missing | WrongType (msg : string).
Arguments Found {A} a.
Arguments Missing {A}.
Arguments WrongType {A} msg.

Class Unstructured (U : Type) := {
  GetMeta : U → ObjectMeta;
  SetFinalizers : list string → U → U;
  NestedString : U → list string → nested string;
  NestedInt64 : U → list string → nested Z;
  NestedStringMap : U → list string → nested labels;
}.

(** [resource.ParseQuantity] *)
Class ParseQuantity (Q : Type) := parse_quantity : string → string + Q.

(** [for k, v := range m] visits the entries of a map in an order of its own. *)
Class MapRange := map_range : labels → list (string * string).

(** The parser of label selectors in the API server. *)
Class SelectorSyntax := parse_selector : string → option labels.

(** Two copies of an object that agree in everything the controller reads. *)
Definition same_object {U} `{!Unstructured U} (u u' : U) : Prop :=
  GetMeta u = GetMeta u' ∧
  (∀ path, NestedString u ("spec" :: path) = NestedString u' ("spec" :: path)) ∧
  (∀ path, NestedInt64 u ("spec" :: path) = NestedInt64 u' ("spec" :: path)) ∧
  (∀ path, NestedStringMap u ("spec" :: path) = NestedStringMap u' ("spec" :: path)).

(** ** The clients *)

Class CoreClient (W : Type) := {
  get_configmap : key → api W ConfigMap;
  create_configmap : string → ConfigMap → api W ConfigMap;
  update_configmap : string → ConfigMap → api W ConfigMap;
  get_service : key → api W Service;
  create_service : string → Service → api W Service;
  update_service : string → Service → api W Service;
}.

(** [crs] is the collection of the controller's resources; the name space [""]
    stands for all of them. *)
Class DynamicClient (U W : Type) := {
  crs : W → gmap key U;
  list_crs : string → api W (list U);
  update_cr : string → U → api W U;
}.

(** ** Names and labels *)

Definition lower_alnum (b : byte) : bool :=
  let z := byteZ b in ((48 <=? z) && (z <=? 57)) || ((97 <=? z) && (z <=? 122)).
Definition alnum (b : byte) : bool :=
  let z := byteZ b in lower_alnum b || ((65 <=? z) && (z <=? 90)).
(** Letters, digits, [-], [.] and [_]. *)
Definition label_char (b : byte) : bool :=
  let z := byteZ b in alnum b || (z =? 45) || (z =? 46) || (z =? 95).

(** A text that starts and ends with an [edge] and has [inner] letters only. *)
Definition edged (edge inner : byte → bool) (s : bytes) : bool :=
  match head s, last s with
  | Some b, Some b' => edge b && edge b' && forallb inner s
  | _, _ => false
  end.

(** The name of a label: 1 to 63 letters, with a letter or digit at both ends. *)
Definition qualified_name (s : bytes) : bool := edged alnum label_char s && (length s <=? 63)%nat.

(** A DNS-1123 subdomain of at most 253 letters: what a resource may be called. *)
Definition dns_subdomain (s : string) : bool :=
  (length (bytes_of s) <=? 253)%nat &&
  forallb (edged lower_alnum (λ b, lower_alnum b || (byteZ b =? 45))) (split_byte Byte.x2e (bytes_of s)).

(** A label value is empty or like a name; a key is a name, after a subdomain and
    a slash or not. *)
Definition label_value (s : string) : bool :=
  match bytes_of s with [] => true | l => qualified_name l end.
Definition label_key (s : string) : bool :=
  match split_byte Byte.x2f (bytes_of s) with
  | [name] => qualified_name name
  | [prefix; name] => dns_subdomain (string_of prefix) && qualified_name name
  | _ => false
  end.

Definition cr_key {U} `{!Unstructured U} (u : U) : key := meta_key (GetMeta u).

Class UnstructuredLaws (U : Type) `{!Unstructured U} : Prop := {
  GetMeta_SetFinalizers fs (u : U) : GetMeta (SetFinalizers fs u) = with_finalizers fs (GetMeta u);
  NestedString_SetFinalizers fs (u : U) path :
    NestedString (SetFinalizers fs u) ("spec" :: path) = NestedString u ("spec" :: path);
  NestedInt64_SetFinalizers fs (u : U) path :
    NestedInt64 (SetFinalizers fs u) ("spec" :: path) = NestedInt64 u ("spec" :: path);
  NestedStringMap_SetFinalizers fs (u : U) path :
    NestedStringMap (SetFinalizers fs u) ("spec" :: path) = NestedStringMap u ("spec" :: path);
}.

Class MapRangeLaws `{!MapRange} : Prop :=
  map_range_perm (m : labels) : map_range m ≡ₚ map_to_list m.

(** An equality-based selector selects its pairs; it is refused when a value is
    not a label value. *)
Class SelectorLaws `{!SelectorSyntax} : Prop := {
  parse_selector_pair k1 v1 k2 v2 :
    label_key k1 → label_value v1 → label_key k2 → label_value v2 →
    parse_selector (k1 +:+ "=" +:+ v1 +:+ "," +:+ k2 +:+ "=" +:+ v2) =
      Some (list_to_map [(k1, v1); (k2, v2)]);
  parse_selector_refused k1 v1 k2 v2 :
    label_key k1 → label_value v1 → label_key k2 → dns_subdomain v2 → ¬ label_value v2 →
    parse_selector (k1 +:+ "=" +:+ v1 +:+ "," +:+ k2 +:+ "=" +:+ v2) = None;
}.

Class ClientLaws (R U W : Type) `{!Unstructured U, !ClusterView R W, !KubeAPI R W,
    !CoreClient W, !DynamicClient U W} : Prop := {
  (** The server accepts DNS names only, and stores an object under its name. *)
  crs_keyed (w : W) k u : crs w !! k = Some u → cr_key u = k ∧ dns_subdomain k.2;

  (** The other calls leave the controller's resources alone. *)
  crs_list_pods ns sel : keeps (crs (W := W)) (list_pods (R := R) ns sel);
  crs_create_pod (p : Pod R) : keeps (crs (W := W)) (create_pod p);
  crs_delete_pod k : keeps (crs (W := W)) (delete_pod (R := R) k);
  crs_delete_service k : keeps (crs (W := W)) (delete_service (R := R) k);
  crs_delete_configmap k : keeps (crs (W := W)) (delete_configmap (R := R) k);
  crs_get_configmap k : keeps (crs (W := W)) (get_configmap k);
  crs_create_configmap ns c : keeps (crs (W := W)) (create_configmap ns c);
  crs_update_configmap ns c : keeps (crs (W := W)) (update_configmap ns c);
  crs_get_service k : keeps (crs (W := W)) (get_service k);
  crs_create_service ns s : keeps (crs (W := W)) (create_service ns s);
  crs_update_service ns s : keeps (crs (W := W)) (update_service ns s);

  list_crs_law ns (w : W) :
    wp (list_crs ns) (λ r w', no_panic r ∧ view_eq w w' ∧ crs w' = crs w ∧
      ∀ us, r = Ok us → NoDup (cr_key <$> us) ∧
        ∀ u, u ∈ us ↔ crs w !! cr_key u = Some u ∧ (ns = "" ∨ om_namespace (GetMeta u) = ns)) w;

  (** The server stores what it is sent, with bookkeeping of its own, and
      returns it; an object that is being deleted goes away with its last
      finalizer.  An update that reports an error may have been applied. *)
  update_cr_law ns (u : U) (w : W) :
    let k := cr_key u in
    let applied w' u' := same_object u u' ∧
      crs w' = if decide (om_deletionTimestamp (GetMeta u) ≠ None ∧ om_finalizers (GetMeta u) = [])
               then delete k (crs w) else <[k := u']> (crs w) in
    ns = k.1 →
    wp (update_cr ns u) (λ r w', no_panic r ∧ view_eq w w' ∧
      (crs w' = crs w ∨ ∃ u', applied w' u') ∧ (∀ u', r = Ok u' → applied w' u')) w;

  get_configmap_law k (w : W) :
    wp (get_configmap k) (λ r w', no_panic r ∧ view_eq w w' ∧
      (∀ c, r = Ok c → configmaps w !! k = Some c)) w;
  create_configmap_law ns c (w : W) :
    let k := meta_key (cm_meta c) in
    ns = k.1 →
    wp (create_configmap ns c) (λ r w', no_panic r ∧ only_configmap k w w' ∧
      (∀ c', r = Ok c' → configmaps w' !! k = Some c' ∧ configmap_stored c c')) w;
  update_configmap_law ns c (w : W) :
    let k := meta_key (cm_meta c) in
    ns = k.1 →
    wp (update_configmap ns c) (λ r w', no_panic r ∧ only_configmap k w w' ∧
      (∀ c', r = Ok c' → configmaps w' !! k = Some c' ∧ configmap_stored c c')) w;

  get_service_law k (w : W) :
    wp (get_service k) (λ r w', no_panic r ∧ view_eq w w' ∧
      (∀ s, r = Ok s → services w !! k = Some s)) w;
  create_service_law ns s (w : W) :
    let k := meta_key (svc_meta s) in
    ns = k.1 →
    wp (create_service ns s) (λ r w', no_panic r ∧ only_service k w w' ∧
      (∀ s', r = Ok s' → services w' !! k = Some s' ∧ service_stored s s')) w;
  update_service_law ns s (w : W) :
    let k := meta_key (svc_meta s) in
    ns = k.1 →
    wp (update_service ns s) (λ r w', no_panic r ∧ only_service k w w' ∧
      (∀ s', r = Ok s' → services w' !! k = Some s' ∧ service_stored s s')) w;
}.

#[export] Hint Resolve crs_list_pods crs_create_pod crs_delete_pod crs_delete_service
  crs_delete_configmap crs_get_configmap crs_create_configmap crs_update_configmap
  crs_get_service crs_create_service crs_update_service : keeps.
