(* ===== verification/DeepCopy.v ===== *)
(** * Deep copies of the operator's API types
    ([src/operator/api/v1alpha1/zz_generated.deepcopy.go])

    The types of [dbcpentryservice_types.go] hold references: the maps and slices
    inside [metav1.ObjectMeta], [metav1.ListMeta] and
    [corev1.ResourceRequirements], and the array behind [Items].  A copy of such
    a struct by assignment shares them.  Memory is therefore explicit here: a
    heap of cells, pointers to a struct or to a part of one, and the generated
    functions as computations on the heap.  The three library types are
    parameters, with their own [DeepCopyInto].

    A value in memory stands for the tree that is read by following its
    references ([denote]), and occupies the cells that are visited then
    ([reach]).  The theorem says that [DeepCopy] of each type returns a pointer
    to an equal tree in cells of its own: nothing written later to the original
    is seen through the copy, nor the other way round. *)

From S2P Require Import Prelude GoStrings Kube.

Abbreviation loc := positive.

(** [metav1.TypeMeta] *)
Record TypeMeta := { tm_kind : string; tm_apiVersion : string }.

(** A slice: array, offset and length (its capacity is not used here). *)
Record slice := { sl_array : loc; sl_off : nat; sl_len : nat }.

Section types.
(** [OM], [LM] and [RR] are [metav1.ObjectMeta], [metav1.ListMeta] and
    [corev1.ResourceRequirements] as Go stores them, references included. *)
Context {OM LM RR : Type}.

Record DbcpEntryServiceStatus := {}.

Record DbcpEntryService := {
  TypeMeta_ : TypeMeta;
  ObjectMeta_ : OM;
  Spec : DbcpEntryServiceSpec RR;
  Status : DbcpEntryServiceStatus;
}.

(** A nil slice is [None]. *)
Record DbcpEntryServiceList := {
  list_TypeMeta : TypeMeta;
  list_ListMeta : LM;
  Items : option slice;
}.
End types.
Arguments DbcpEntryService : clear implicits.
Arguments DbcpEntryServiceList : clear implicits.

(** ** Fields

    [&x.f] for a pointer [&x] needs to read the field and to replace it. *)
Record lens (A B : Type) := {
  view : A → B;
  update : B → A → A;
  view_update a b : view (update b a) = b;
  update_update a b c : update c (update b a) = update c a;
}.
Arguments view {A B}. Arguments update {A B}.
Arguments view_update {A B}. Arguments update_update {A B}.

#[local] Obligation Tactic := by intros [].

Section fields.
Context {OM LM RR : Type}.

Program Definition f_Config : lens (DbcpEntryServiceSpec RR) EntryConfig :=
  {| view := spec_Config; update c s := {| spec_Config := c; spec_Service := spec_Service s |} |}.

Program Definition f_Service : lens (DbcpEntryServiceSpec RR) (EntryService RR) :=
  {| view := spec_Service; update c s := {| spec_Config := spec_Config s; spec_Service := c |} |}.

Program Definition f_Resources : lens (EntryService RR) RR :=
  {| view := Resources; update c s := {| Image := Image s; Replicas := Replicas s; Resources := c |} |}.

Program Definition f_TypeMeta : lens (DbcpEntryService OM RR) TypeMeta :=
  {| view := TypeMeta_; update c s := {| TypeMeta_ := c; ObjectMeta_ := ObjectMeta_ s;
    Spec := Spec s; Status := Status s |} |}.

Program Definition f_ObjectMeta : lens (DbcpEntryService OM RR) OM :=
  {| view := ObjectMeta_; update c s := {| TypeMeta_ := TypeMeta_ s; ObjectMeta_ := c;
    Spec := Spec s; Status := Status s |} |}.

Program Definition f_Spec : lens (DbcpEntryService OM RR) (DbcpEntryServiceSpec RR) :=
  {| view := Spec; update c s := {| TypeMeta_ := TypeMeta_ s; ObjectMeta_ := ObjectMeta_ s;
    Spec := c; Status := Status s |} |}.

Program Definition f_Status : lens (DbcpEntryService OM RR) DbcpEntryServiceStatus :=
  {| view := Status; update c s := {| TypeMeta_ := TypeMeta_ s; ObjectMeta_ := ObjectMeta_ s;
    Spec := Spec s; Status := c |} |}.

Program Definition f_list_TypeMeta : lens (DbcpEntryServiceList LM) TypeMeta :=
  {| view := list_TypeMeta; update c s := {| list_TypeMeta := c;
    list_ListMeta := list_ListMeta s; Items := Items s |} |}.

Program Definition f_ListMeta : lens (DbcpEntryServiceList LM) LM :=
  {| view := list_ListMeta; update c s := {| list_TypeMeta := list_TypeMeta s;
    list_ListMeta := c; Items := Items s |} |}.

Program Definition f_Items : lens (DbcpEntryServiceList LM) (option slice) :=
  {| view := Items; update c s := {| list_TypeMeta := list_TypeMeta s;
    list_ListMeta := list_ListMeta s; Items := c |} |}.
End fields.

#[local] Obligation Tactic := idtac.

(** ** Memory *)

Section memory.
(** [X] is what the library types keep in memory (maps, slices). *)
Context {X OM LM RR : Type}.

(** What a memory cell holds. *)
Inductive cell :=
  | CLib (x : X)
  | CService (v : DbcpEntryService OM RR)
  | CList (v : DbcpEntryServiceList LM)
  | CSpec (v : DbcpEntryServiceSpec RR)
  | CStatus (v : DbcpEntryServiceStatus)
  | CConfig (v : EntryConfig)
  | CEntry (v : EntryService RR)
  | CItems (l : list (DbcpEntryService OM RR)).

Abbreviation heap := (gmap loc cell).
Abbreviation go A := (eff heap Empty_set A).

(** A pointer to a [T]: the cell and how the [T] is read and written in it. *)
Record ptr (T : Type) := {
  p_loc : loc;
  p_get : cell → option T;
  p_set : T → cell → cell;
  p_get_set c v w : p_get c = Some v → p_get (p_set w c) = Some w;
  p_set_set c v w : p_set w (p_set v c) = p_set w c;
}.
Arguments p_loc {T}. Arguments p_get {T}. Arguments p_set {T}.
Arguments p_get_set {T}. Arguments p_set_set {T}.

(** The struct types that [new] allocates. *)
Class Boxed (T : Type) := {
  box : T → cell;
  unbox : cell → option T;
  zero : T;
  unbox_box v : unbox (box v) = Some v;
}.

Program Definition root {T} `{Boxed T} (l : loc) : ptr T :=
  {| p_loc := l; p_get := unbox; p_set v _ := box v |}.
Next Obligation. intros. apply unbox_box. Qed.
Next Obligation. done. Qed.

(** [&p.f] *)
Program Definition fld {A B} (p : ptr A) (f : lens A B) : ptr B :=
  {| p_loc := p_loc p;
     p_get c := view f <$> p_get p c;
     p_set b c := match p_get p c with Some a => p_set p (update f b a) c | None => c end |}.
Next Obligation.
  intros A B p f c v w. simpl. destruct (p_get p c) as [a|] eqn:Ha; [|done]. intros _.
  by rewrite (p_get_set p c a (update f w a) Ha); simpl; rewrite view_update.
Qed.
Next Obligation.
  intros A B p f c v w. simpl. destruct (p_get p c) as [a|] eqn:Ha; [|by rewrite Ha].
  by rewrite (p_get_set p c a _ Ha), p_set_set, update_update.
Qed.

(** [&s[i]] *)
Definition item_get (i : nat) (c : cell) : option (DbcpEntryService OM RR) :=
  match c with CItems xs => xs !! i | _ => None end.
Definition item_set (i : nat) (v : DbcpEntryService OM RR) (c : cell) : cell :=
  match c with CItems xs => CItems (<[i := v]> xs) | _ => c end.

Program Definition elem (s : slice) (i : nat) : ptr (DbcpEntryService OM RR) :=
  {| p_loc := sl_array s; p_get := item_get (sl_off s + i); p_set := item_set (sl_off s + i) |}.
Next Obligation.
  intros s i c v w. destruct c; try done. intros Hi%lookup_lt_Some. by apply list_lookup_insert_eq.
Qed.
Next Obligation. intros s i c v w. destruct c; try done. simpl. by rewrite list_insert_insert_eq. Qed.

Definition peek {T} (p : ptr T) (h : heap) : option T := h !! p_loc p ≫= p_get p.

(** [*p]; a pointer that does not point to a [T] panics. *)
Definition load {T} (p : ptr T) : go T := λ h,
  match peek p h with Some v => (Ok v, h) | None => (Panic, h) end.

(** [*p = v] *)
Definition store {T} (p : ptr T) (v : T) : go unit := λ h,
  match h !! p_loc p, peek p h with
  | Some c, Some _ => (Ok tt, <[p_loc p := p_set p v c]> h)
  | _, _ => (Panic, h)
  end.

Definition new_loc (h : heap) : loc := Pos.succ (foldr Pos.max 1%positive (map_to_list h).*1).

Definition alloc (c : cell) : go loc := λ h, (Ok (new_loc h), <[new_loc h := c]> h).

(** [new(T)] *)
Definition new {T} `{Boxed T} : go (ptr T) := l ← alloc (box zero); mret (root l).

(** [for i := 0; i < n; i++ { body(i) }] *)
Fixpoint for_range (body : nat → go unit) (n : nat) : go unit :=
  match n with
  | O => mret tt
  | S n => for_range body n ;; body n
  end.

(** ** The generated functions *)

(** The [DeepCopyInto] of the library types, and their zero values. *)
Class Library := {
  zero_ObjectMeta : OM;
  zero_ListMeta : LM;
  zero_ResourceRequirements : RR;
  ObjectMeta_DeepCopyInto : ptr OM → ptr OM → go unit;
  ListMeta_DeepCopyInto : ptr LM → ptr LM → go unit;
  ResourceRequirements_DeepCopyInto : ptr RR → ptr RR → go unit;
}.

Context `{!Library}.

Definition zero_TypeMeta : TypeMeta := {| tm_kind := ""; tm_apiVersion := "" |}.

#[export] Instance Boxed_EntryConfig : Boxed EntryConfig := {|
  box := CConfig;
  unbox c := match c with CConfig v => Some v | _ => None end;
  zero := {| TargetDB := ""; TargetRedis := ""; ServiceExportPort := 0 |};
  unbox_box _ := eq_refl |}.

#[export] Instance Boxed_Status : Boxed DbcpEntryServiceStatus := {|
  box := CStatus;
  unbox c := match c with CStatus v => Some v | _ => None end;
  zero := Build_DbcpEntryServiceStatus;
  unbox_box _ := eq_refl |}.

#[export] Instance Boxed_EntryService : Boxed (EntryService RR) := {|
  box := CEntry;
  unbox c := match c with CEntry v => Some v | _ => None end;
  zero := {| Image := ""; Replicas := 0; Resources := zero_ResourceRequirements |};
  unbox_box _ := eq_refl |}.

#[export] Instance Boxed_Spec : Boxed (DbcpEntryServiceSpec RR) := {|
  box := CSpec;
  unbox c := match c with CSpec v => Some v | _ => None end;
  zero := {| spec_Config := zero; spec_Service := zero |};
  unbox_box _ := eq_refl |}.

#[export] Instance Boxed_Service : Boxed (DbcpEntryService OM RR) := {|
  box := CService;
  unbox c := match c with CService v => Some v | _ => None end;
  zero := {| TypeMeta_ := zero_TypeMeta; ObjectMeta_ := zero_ObjectMeta;
             Spec := zero; Status := zero |};
  unbox_box _ := eq_refl |}.

#[export] Instance Boxed_List : Boxed (DbcpEntryServiceList LM) := {|
  box := CList;
  unbox c := match c with CList v => Some v | _ => None end;
  zero := {| list_TypeMeta := zero_TypeMeta; list_ListMeta := zero_ListMeta; Items := None |};
  unbox_box _ := eq_refl |}.

(** [*out = *in] *)
Definition assign {T} (out into : ptr T) : go unit := v ← load into; store out v.

Definition EntryConfig_DeepCopyInto (into out : ptr EntryConfig) : go unit := assign out into.

Definition DbcpEntryServiceStatus_DeepCopyInto (into out : ptr DbcpEntryServiceStatus) : go unit :=
  assign out into.

Definition EntryService_DeepCopyInto (into out : ptr (EntryService RR)) : go unit :=
  assign out into ;;
  ResourceRequirements_DeepCopyInto (fld into f_Resources) (fld out f_Resources).

Definition DbcpEntryServiceSpec_DeepCopyInto (into out : ptr (DbcpEntryServiceSpec RR)) : go unit :=
  assign out into ;;
  assign (fld out f_Config) (fld into f_Config) ;;
  EntryService_DeepCopyInto (fld into f_Service) (fld out f_Service).

Definition DbcpEntryService_DeepCopyInto (into out : ptr (DbcpEntryService OM RR)) : go unit :=
  assign out into ;;
  assign (fld out f_TypeMeta) (fld into f_TypeMeta) ;;
  ObjectMeta_DeepCopyInto (fld into f_ObjectMeta) (fld out f_ObjectMeta) ;;
  DbcpEntryServiceSpec_DeepCopyInto (fld into f_Spec) (fld out f_Spec) ;;
  assign (fld out f_Status) (fld into f_Status).

(** [make([]DbcpEntryService, n)] *)
Definition make_items (n : nat) : go slice :=
  l ← alloc (CItems (replicate n zero));
  mret {| sl_array := l; sl_off := 0; sl_len := n |}.

(** [( *p)[i].DeepCopyInto(&( *q)[i])] for pointers to slices: both slices are read
    again, and an index out of range panics. *)
Definition index (p : ptr (option slice)) (i : nat) : go (ptr (DbcpEntryService OM RR)) :=
  s ← load p;
  match s with
  | Some s => if (i <? sl_len s)%nat then mret (elem s i) else panic
  | None => panic
  end.

Definition DbcpEntryServiceList_DeepCopyInto (into out : ptr (DbcpEntryServiceList LM)) : go unit :=
  assign out into ;;
  assign (fld out f_list_TypeMeta) (fld into f_list_TypeMeta) ;;
  ListMeta_DeepCopyInto (fld into f_ListMeta) (fld out f_ListMeta) ;;
  items ← load (fld into f_Items);
  match items with
  | None => mret tt
  | Some s =>
      s' ← make_items (sl_len s);
      store (fld out f_Items) (Some s') ;;
      for_range (λ i,
        p ← index (fld into f_Items) i;
        q ← index (fld out f_Items) i;
        DbcpEntryService_DeepCopyInto p q) (sl_len s)
  end.

(** The six [DeepCopy] have one shape. *)
Definition DeepCopy {T} `{Boxed T} (copy_into : ptr T → ptr T → go unit)
    (into : option (ptr T)) : go (option (ptr T)) :=
  match into with
  | None => mret None
  | Some p => out ← new; copy_into p out ;; mret (Some out)
  end.

Definition EntryConfig_DeepCopy := DeepCopy EntryConfig_DeepCopyInto.
Definition EntryService_DeepCopy := DeepCopy EntryService_DeepCopyInto.
Definition DbcpEntryServiceStatus_DeepCopy := DeepCopy DbcpEntryServiceStatus_DeepCopyInto.
Definition DbcpEntryServiceSpec_DeepCopy := DeepCopy DbcpEntryServiceSpec_DeepCopyInto.
Definition DbcpEntryService_DeepCopy := DeepCopy DbcpEntryService_DeepCopyInto.
Definition DbcpEntryServiceList_DeepCopy := DeepCopy DbcpEntryServiceList_DeepCopyInto.

(** [runtime.Object]: the nil interface, or a type with a pointer that may
    itself be nil. *)
Inductive Object :=
  | NilObject
  | ServiceObject (p : option (ptr (DbcpEntryService OM RR)))
  | ListObject (p : option (ptr (DbcpEntryServiceList LM))).

Definition DbcpEntryService_DeepCopyObject
    (into : option (ptr (DbcpEntryService OM RR))) : go Object :=
  c ← DbcpEntryService_DeepCopy into;
  mret (match c with Some _ => ServiceObject c | None => NilObject end).

Definition DbcpEntryServiceList_DeepCopyObject
    (into : option (ptr (DbcpEntryServiceList LM))) : go Object :=
  c ← DbcpEntryServiceList_DeepCopy into;
  mret (match c with Some _ => ListObject c | None => NilObject end).
End memory.
