(* ===== verification/DeepCopySpec.v ===== *)
(** * The generated deep copies return isolated, equal values

    [copies f] is the contract of a [DeepCopyInto]: from memory where [into]
    holds a value with no dangling reference, and [out] is elsewhere, it writes
    to [out] a value that reads as the same tree and whose references all lead
    to new memory; nothing else changes.  It is assumed of the three library
    types, and proved of the six types of the package, field by field
    ([copies_fld]). *)

From S2P Require Import Prelude GoStrings Kube DeepCopy.

Section spec.
Context {X OM LM RR : Type}.

Abbreviation heap := (gmap loc (@cell X OM LM RR)).
Abbreviation ptr := (@ptr X OM LM RR).
Abbreviation go A := (eff heap Empty_set A).

(** ** Values in memory *)

(** A [T] in memory stands for a tree [V]; it is [sound] when its references
    lead to cells of the right kind, as those of a Go program do. *)
Class Reads (T V : Type) := {
  denote : heap → T → V;
  reach : heap → T → gset loc;
  sound : heap → T → Prop;
}.

(** Reading depends on the cells it visits only. *)
Class Local (T V : Type) `{Reads T V} : Prop := {
  local h h' (v : T) : (∀ l, l ∈ reach h v → h' !! l = h !! l) →
    denote h' v = denote h v ∧ reach h' v = reach h v ∧ (sound h v → sound h' v);
  sound_dom h (v : T) : sound h v → reach h v ⊆ dom h;
}.

(** Values without references. *)
Class Plain (T : Type) := plain_dummy : unit.
#[global] Instance Reads_plain T `{Plain T} : Reads T T := {|
  denote _ v := v; reach _ _ := ∅; sound _ _ := True |}.
#[global] Instance Local_plain T `{Plain T} : Local T T.
Proof. split; [done|]. intros h v _. apply empty_subseteq. Qed.

#[global] Instance Plain_TypeMeta : Plain TypeMeta := tt.
#[global] Instance Plain_EntryConfig : Plain EntryConfig := tt.
#[global] Instance Plain_Status : Plain DbcpEntryServiceStatus := tt.

(** [value h p]: the tree behind a pointer. *)
Definition value {T V} `{Reads T V} (h : heap) (p : ptr T) : option V := denote h <$> peek p h.

(** [v] reads as [t], and keeps everything outside of [D]. *)
Definition copied {T V} `{Reads T V} (D : gset loc) (t : V) (h : heap) (v : T) : Prop :=
  denote h v = t ∧ reach h v ## D ∧ sound h v.

(** From [h] to [h'], [v] is written to [o] and new cells appear. *)
Definition writes {T} (o : ptr T) (v : T) (h h' : heap) : Prop :=
  (∀ l, l ∈ dom h → l ≠ p_loc _ o → h' !! l = h !! l) ∧
  ∃ c, h !! p_loc _ o = Some c ∧ is_Some (p_get _ o c) ∧ h' !! p_loc _ o = Some (p_set _ o v c).

Definition copies_at {T V} `{Reads T V} (f : ptr T → ptr T → go unit) (v : T) : Prop :=
  ∀ i o h, peek i h = Some v → is_Some (peek o h) → p_loc _ i ≠ p_loc _ o →
  sound h v → p_loc _ o ∉ reach h v →
  ∃ v' h', f i o h = (Ok tt, h') ∧ writes o v' h h' ∧ copied (dom h) (denote h v) h' v'.

Definition copies {T V} `{Reads T V} (f : ptr T → ptr T → go unit) : Prop := ∀ v, copies_at f v.

(** ** Writes *)

Lemma load_run {T} (p : ptr T) h v : peek p h = Some v → load p h = (Ok v, h).
Proof. unfold load. by intros ->. Qed.

Lemma store_writes {T} (o : ptr T) v h :
  is_Some (peek o h) → ∃ h', store o v h = (Ok tt, h') ∧ writes o v h h'.
Proof.
  unfold store, peek. intros [w Hw]. destruct (h !! p_loc _ o) as [c|] eqn:Hc; [|done].
  simpl in *. rewrite Hw. eexists. split; [done|]. split.
  - intros l _ Hl. by rewrite lookup_insert_ne by done.
  - exists c. rewrite lookup_insert_eq. eauto.
Qed.

Lemma writes_dom {T} (o : ptr T) v h h' : writes o v h h' → dom h ⊆ dom h'.
Proof.
  intros (Hframe & c & Hc & _ & Hc') l Hl. apply elem_of_dom.
  destruct (decide (l = p_loc _ o)) as [->|Hne]; [by rewrite Hc'|].
  rewrite Hframe by done. by apply elem_of_dom.
Qed.

Lemma writes_peek {T} (o : ptr T) v h h' : writes o v h h' → peek o h' = Some v.
Proof.
  intros (_ & c & Hc & [w Hw] & Hc'). unfold peek. rewrite Hc'. simpl. by eapply p_get_set.
Qed.

Lemma writes_loc {T} (o : ptr T) v h h' : writes o v h h' → p_loc _ o ∈ dom h.
Proof. intros (_ & c & Hc & _). apply elem_of_dom. by rewrite Hc. Qed.

(** Other pointers see no change. *)
Lemma writes_other {T S} (o : ptr T) v h h' (p : ptr S) :
  writes o v h h' → p_loc _ p ∈ dom h → p_loc _ p ≠ p_loc _ o → peek p h' = peek p h.
Proof. intros (Hframe & _) Hin Hne. unfold peek. by rewrite Hframe. Qed.

(** New or changed cells outside of [h] do not matter. *)
Lemma writes_weaken {T} (o : ptr T) v h h1 h2 :
  writes o v h h1 → (∀ l, l ∈ dom h → h2 !! l = h1 !! l) → writes o v h h2.
Proof.
  intros Hw Heq. pose proof (writes_loc _ _ _ _ Hw) as Hl.
  destruct Hw as (Hframe & c & Hc & Hg & Hc'). split.
  - intros l Hin Hne. rewrite Heq by done. by apply Hframe.
  - exists c. split_and!; [done..|]. by rewrite Heq.
Qed.

Lemma writes_trans {T} (o : ptr T) v v2 h h1 h2 :
  writes o v h h1 → writes o v2 h1 h2 → writes o v2 h h2.
Proof.
  intros Hw (Hf2 & c2 & Hc2 & _ & Hc2'). pose proof (writes_dom _ _ _ _ Hw) as Hd.
  destruct Hw as (Hf & c & Hc & Hg & Hc'). rewrite Hc' in Hc2. injection Hc2 as <-. split.
  - intros l Hin Hne. rewrite Hf2 by auto. by apply Hf.
  - exists c. split_and!; [done..|]. by rewrite p_set_set in Hc2'.
Qed.

(** A write to a field is a write of the struct. *)
Lemma writes_fld {A B} (o : ptr A) (f : lens A B) v b h h' :
  peek o h = Some v → writes (fld o f) b h h' → writes o (update f b v) h h'.
Proof.
  intros Hp (Hf & c & Hc & [x Hx] & Hc'). split; [exact Hf|]. simpl in *.
  unfold peek in Hp. rewrite Hc in Hp. simpl in Hp. rewrite Hp in Hc'. eauto.
Qed.

Lemma peek_fld {A B} (o : ptr A) (f : lens A B) h v :
  peek o h = Some v → peek (fld o f) h = Some (view f v).
Proof.
  unfold peek. simpl. destruct (h !! p_loc _ o) as [c|]; [|done]. simpl. by intros ->.
Qed.

Lemma peek_loc {T} (p : ptr T) h v : peek p h = Some v → p_loc _ p ∈ dom h.
Proof. unfold peek. intros Hp. apply elem_of_dom. by destruct (h !! p_loc _ p). Qed.

(** ** Copies *)

Lemma copied_mono {T V} `{Reads T V} D D' t h (v : T) :
  copied D t h v → D' ⊆ D → copied D' t h v.
Proof. intros (? & ? & ?) HD. split_and!; [done| |done]. set_solver. Qed.

(** A copy is not disturbed by what is written in the old memory. *)
Lemma copied_frame {T V} `{Local T V} D t h h' (v : T) :
  copied D t h v → (∀ l, l ∈ dom h → l ∉ D → h' !! l = h !! l) → copied D t h' v.
Proof.
  intros (Ht & Hdisj & Hsound) Heq. pose proof (sound_dom _ _ Hsound) as Hdom.
  assert (∀ l, l ∈ reach h v → h' !! l = h !! l) as Hl.
  { intros l Hl. apply Heq; [by apply Hdom|]. intros HD. by apply (Hdisj l). }
  destruct (local h h' v Hl) as (Hd & Hr & Hs). split_and!; [congruence|by rewrite Hr|auto].
Qed.

Lemma copied_writes {T V S} `{Local T V} D t h h' (v : T) (o : ptr S) w :
  copied D t h v → p_loc _ o ∈ D → writes o w h h' → copied D t h' v.
Proof.
  intros Hc Ho [Hf _]. apply (copied_frame _ _ _ _ _ Hc). intros l Hl HD.
  apply Hf; [done|]. by intros ->.
Qed.

(** The first line of every function of the package. *)
Lemma assign_writes {T} (i o : ptr T) h v :
  peek i h = Some v → is_Some (peek o h) → ∃ h', assign o i h = (Ok tt, h') ∧ writes o v h h'.
Proof.
  intros Hi Ho. destruct (store_writes o v h Ho) as (h' & Hrun & Hw). exists h'.
  split; [|done]. unfold assign. by rewrite (eff_bind_step _ _ _ _ _ (load_run _ _ _ Hi)).
Qed.

Lemma copies_plain {T} `{Plain T} : copies (T:=T) (V:=T) (λ i o, assign o i).
Proof.
  intros v i o h Hi Ho _ _ _. destruct (assign_writes i o h v Hi Ho) as (h' & Hrun & Hw).
  exists v, h'. split_and!; [done|done|]. split_and!; [done|set_solver|done].
Qed.

(** One line [in.F.DeepCopyInto(&out.F)] of a function, after others. *)
Lemma copies_fld {A B V} `{Local B V} (f : ptr B → ptr B → go unit) (fl : lens A B)
    (i o : ptr A) h h1 v w :
  copies_at f (view fl v) → writes o w h h1 → peek i h = Some v → p_loc _ i ≠ p_loc _ o →
  sound h (view fl v) → p_loc _ o ∉ reach h (view fl v) →
  ∃ b h2, f (fld i fl) (fld o fl) h1 = (Ok tt, h2) ∧ writes o (update fl b w) h h2 ∧
    copied (dom h) (denote h (view fl v)) h2 b ∧ writes o (update fl b w) h1 h2.
Proof.
  intros Hf Hw Hi Hne Hsound Hsep.
  assert (peek i h1 = Some v) as Hi1.
  { rewrite (writes_other _ _ _ _ i Hw); [done|by eapply peek_loc|done]. }
  destruct (local h h1 (view fl v)) as (Hd & Hr & Hs).
  { intros l Hl. apply Hw; [by eapply sound_dom|]. by intros ->. }
  pose proof (writes_peek _ _ _ _ Hw) as Ho1. pose proof (writes_dom _ _ _ _ Hw) as Hdom.
  destruct (Hf (fld i fl) (fld o fl) h1) as (b & h2 & Hrun & Hw2 & Hc).
  { by apply peek_fld. }
  { eexists. by apply peek_fld. }
  { done. }
  { auto. }
  { by rewrite Hr. }
  apply (writes_fld o fl w) in Hw2; [|done]. exists b, h2. split_and!; [done| | |done].
  - by eapply writes_trans.
  - rewrite Hd in Hc. by eapply copied_mono.
Qed.

(** ** The library types *)

(** [LV] and [RV] are what the list metadata and the resource requirements stand
    for; the object metadata stands for an [ObjectMeta] of [Kube.v] and a version. *)
Context {LV RV : Type} `{!Library (X:=X) (OM:=OM) (LM:=LM) (RR:=RR)}.
Context `{!Reads OM (ObjectMeta * string), !Reads LM LV, !Reads RR RV}.

(** The library's own deep copies are deep copies. *)
Class LibraryLaws : Prop := {
  ObjectMeta_local :: Local OM (ObjectMeta * string);
  ListMeta_local :: Local LM LV;
  ResourceRequirements_local :: Local RR RV;
  ObjectMeta_copies : copies ObjectMeta_DeepCopyInto;
  ListMeta_copies : copies ListMeta_DeepCopyInto;
  ResourceRequirements_copies : copies ResourceRequirements_DeepCopyInto;
}.

Context {Hlib : LibraryLaws}.

(** ** The types of the package *)

#[global] Instance Reads_EntryService : Reads (EntryService RR) (EntryService RV) := {|
  denote h v := {| Image := Image v; Replicas := Replicas v; Resources := denote h (Resources v) |};
  reach h v := reach h (Resources v);
  sound h v := sound h (Resources v) |}.

#[global] Instance Reads_Spec : Reads (DbcpEntryServiceSpec RR) (DbcpEntryServiceSpec RV) := {|
  denote h v := {| spec_Config := spec_Config v; spec_Service := denote h (spec_Service v) |};
  reach h v := reach h (spec_Service v);
  sound h v := sound h (spec_Service v) |}.

#[global] Instance Reads_Service :
    Reads (DbcpEntryService OM RR) (TypeMeta * Kube.DbcpEntryService RV) := {|
  denote h v := let '(meta, version) := denote h (ObjectMeta_ v) in
    (TypeMeta_ v, {| e_meta := meta; e_version := version; e_spec := denote h (Spec v) |});
  reach h v := reach h (ObjectMeta_ v) ∪ reach h (Spec v);
  sound h v := sound h (ObjectMeta_ v) ∧ sound h (Spec v) |}.

(** The elements of a slice; those that are not there do not count. *)
Definition items_at (h : heap) (s : slice) : list (DbcpEntryService OM RR) :=
  match h !! sl_array s with
  | Some (CItems xs) => take (sl_len s) (drop (sl_off s) xs)
  | _ => []
  end.

(** The array is there and is long enough. *)
Definition in_bounds (h : heap) (s : slice) : Prop :=
  ∃ xs, h !! sl_array s = Some (CItems xs) ∧ (sl_off s + sl_len s ≤ length xs)%nat.

#[global] Instance Reads_items :
    Reads (option slice) (option (list (TypeMeta * Kube.DbcpEntryService RV))) := {|
  denote h o := (λ s, denote h <$> items_at h s) <$> o;
  reach h o := match o with
               | Some s => {[sl_array s]} ∪ ⋃ (reach h <$> items_at h s)
               | None => ∅ end;
  sound h o := match o with
               | Some s => in_bounds h s ∧ Forall (sound h) (items_at h s)
               | None => True end |}.

#[global] Instance Reads_List : Reads (DbcpEntryServiceList LM)
    (TypeMeta * LV * option (list (TypeMeta * Kube.DbcpEntryService RV))) := {|
  denote h v := (list_TypeMeta v, denote h (list_ListMeta v), denote h (Items v));
  reach h v := reach h (list_ListMeta v) ∪ reach h (Items v);
  sound h v := sound h (list_ListMeta v) ∧ sound h (Items v) |}.

#[global] Instance Local_EntryService : Local (EntryService RR) (EntryService RV).
Proof.
  split.
  - intros h h' v Hl. destruct (local h h' (Resources v) Hl) as (Hd & Hr & Hs).
    simpl in *. by rewrite Hd, Hr.
  - intros h v. apply (sound_dom h (Resources v)).
Qed.

#[global] Instance Local_Spec : Local (DbcpEntryServiceSpec RR) (DbcpEntryServiceSpec RV).
Proof.
  split.
  - intros h h' v Hl. destruct (local h h' (spec_Service v) Hl) as (Hd & Hr & Hs).
    simpl in *. by rewrite Hd, Hr.
  - intros h v. apply (sound_dom h (spec_Service v)).
Qed.

#[global] Instance Local_Service :
  Local (DbcpEntryService OM RR) (TypeMeta * Kube.DbcpEntryService RV).
Proof.
  split.
  - intros h h' v Hl. cbn [reach Reads_Service] in Hl.
    destruct (local h h' (ObjectMeta_ v)) as (Hd1 & Hr1 & Hs1); [set_solver|].
    destruct (local h h' (Spec v)) as (Hd2 & Hr2 & Hs2); [set_solver|].
    cbn [denote reach sound Reads_Service]. rewrite Hd1, Hd2, Hr1, Hr2. naive_solver.
  - intros h v [Hm%sound_dom Hs%sound_dom]. cbn [reach Reads_Service]. set_solver.
Qed.

Lemma reach_item h s x : x ∈ items_at h s → reach h x ⊆ reach h (Some s).
Proof.
  intros Hx l Hl. cbn [reach Reads_items]. apply elem_of_union. right. apply elem_of_union_list.
  exists (reach h x). split; [by apply list_elem_of_fmap_2|done].
Qed.

#[global] Instance Local_items :
  Local (option slice) (option (list (TypeMeta * Kube.DbcpEntryService RV))).
Proof.
  split.
  - intros h h' [s|]; [|done]. intros Hl.
    assert (h' !! sl_array s = h !! sl_array s) as Harr.
    { apply Hl. cbn [reach Reads_items]. set_solver. }
    assert (items_at h' s = items_at h s) as Hitems by (unfold items_at; by rewrite Harr).
    assert (∀ x, x ∈ items_at h s →
      denote h' x = denote h x ∧ reach h' x = reach h x ∧ (sound h x → sound h' x)) as Hx.
    { intros x Hx. apply local. intros l Hlx. apply Hl. by apply (reach_item h s x). }
    cbn [denote reach sound Reads_items fmap option_fmap option_map].
    unfold in_bounds. rewrite Hitems, Harr. split_and!.
    + f_equal. apply list_fmap_ext. intros k x Hk. apply Hx. by eapply list_elem_of_lookup_2.
    + do 2 f_equal. apply list_fmap_ext. intros k x Hk. apply Hx. by eapply list_elem_of_lookup_2.
    + intros [? HF]. split; [done|]. rewrite Forall_forall in HF |- *. naive_solver.
  - intros h [s|] Hs; [|apply empty_subseteq]. destruct Hs as [(xs & Hxs & _) HF].
    cbn [reach Reads_items]. apply union_least; [apply singleton_subseteq_l, elem_of_dom; by rewrite Hxs|].
    intros l (Y & HY & Hl)%elem_of_union_list. apply list_elem_of_fmap_1 in HY as (x & -> & Hx).
    rewrite Forall_forall in HF. by apply (sound_dom h x); [apply HF|].
Qed.

#[global] Instance Local_List : Local (DbcpEntryServiceList LM)
    (TypeMeta * LV * option (list (TypeMeta * Kube.DbcpEntryService RV))).
Proof.
  split.
  - intros h h' v Hl. cbn [reach Reads_List] in Hl.
    destruct (local h h' (list_ListMeta v)) as (Hd1 & Hr1 & Hs1); [set_solver|].
    destruct (local h h' (Items v)) as (Hd2 & Hr2 & Hs2); [set_solver|].
    cbn [denote reach sound Reads_List]. rewrite Hd1, Hd2, Hr1, Hr2. naive_solver.
  - intros h v [Hm%sound_dom Hs%sound_dom]. cbn [reach Reads_List]. set_solver.
Qed.

(** ** The [DeepCopyInto] of the package *)

Lemma EntryService_copies : copies EntryService_DeepCopyInto.
Proof.
  intros v i o h Hi Ho Hne Hsound Hsep. unfold EntryService_DeepCopyInto.
  destruct (assign_writes i o h v Hi Ho) as (h1 & Hrun1 & Hw1).
  destruct (copies_fld ResourceRequirements_DeepCopyInto f_Resources i o h h1 v _
    (ResourceRequirements_copies _) Hw1) as (r & h2 & Hrun2 & Hw2 & Hc2 & _); try done.
  rewrite (eff_bind_step _ _ _ _ _ Hrun1). eexists _, h2. split_and!; [done..|].
  destruct Hc2 as (Ht & Hd & Hr). split_and!; [|done..]. simpl. by rewrite Ht.
Qed.

Lemma Spec_copies : copies DbcpEntryServiceSpec_DeepCopyInto.
Proof.
  intros v i o h Hi Ho Hne Hsound Hsep. unfold DbcpEntryServiceSpec_DeepCopyInto.
  destruct (assign_writes i o h v Hi Ho) as (h1 & Hrun1 & Hw1).
  destruct (copies_fld _ f_Config i o h h1 v _ (copies_plain _) Hw1)
    as (c & h2 & Hrun2 & Hw2 & (Hc & _) & _); try done.
  destruct (copies_fld _ f_Service i o h h2 v _ (EntryService_copies _) Hw2)
    as (s & h3 & Hrun3 & Hw3 & (Hs & Hd & Hr) & _); try done.
  rewrite (eff_bind_step _ _ _ _ _ Hrun1), (eff_bind_step _ _ _ _ _ Hrun2).
  eexists _, h3. split_and!; [done..|]. split_and!; [|done..].
  cbn [denote Reads_Spec]. simpl in *. by rewrite Hc, Hs.
Qed.

Lemma Service_copies : copies DbcpEntryService_DeepCopyInto.
Proof.
  intros v i o h Hi Ho Hne Hsound Hsep. unfold DbcpEntryService_DeepCopyInto.
  cbn [reach Reads_Service] in Hsep. destruct Hsound as [Hcm Hcs]. apply not_elem_of_union in Hsep as [Hsm Hss].
  destruct (assign_writes i o h v Hi Ho) as (h1 & Hrun1 & Hw1).
  pose proof (writes_loc _ _ _ _ Hw1) as Hloc.
  destruct (copies_fld _ f_TypeMeta i o h h1 v _ (copies_plain _) Hw1)
    as (t & h2 & Hrun2 & Hw2 & (Ht & _) & _); try done.
  destruct (copies_fld _ f_ObjectMeta i o h h2 v _ (ObjectMeta_copies _) Hw2)
    as (m & h3 & Hrun3 & Hw3 & Hm & _); try done.
  destruct (copies_fld _ f_Spec i o h h3 v _ (Spec_copies _) Hw3)
    as (s & h4 & Hrun4 & Hw4 & Hs & Hstep4); try done.
  destruct (copies_fld _ f_Status i o h h4 v _ (copies_plain _) Hw4)
    as (u & h5 & Hrun5 & Hw5 & _ & Hstep5); try done.
  rewrite (eff_bind_step _ _ _ _ _ Hrun1), (eff_bind_step _ _ _ _ _ Hrun2),
    (eff_bind_step _ _ _ _ _ Hrun3), (eff_bind_step _ _ _ _ _ Hrun4).
  eexists _, h5. split_and!; [done..|].
  destruct (copied_writes _ _ _ _ _ o _ Hs Hloc Hstep5) as (Hs1 & Hs2 & Hs3).
  destruct (copied_writes _ _ _ _ _ o _ (copied_writes _ _ _ _ _ o _ Hm Hloc Hstep4) Hloc Hstep5)
    as (Hm1 & Hm2 & Hm3).
  split_and!; cbn [denote reach Reads_Service]; simpl in *.
  - by rewrite Hs1, Hm1, Ht.
  - set_solver.
  - done.
Qed.

(** ** The loop over the items *)

Lemma new_loc_fresh (h : heap) : new_loc h ∉ dom h.
Proof.
  intros Hin. assert (∀ l, l ∈ dom h → (l ≤ foldr Pos.max 1 (map_to_list h).*1)%positive) as Hle.
  { intros l [c Hc]%elem_of_dom. apply elem_of_map_to_list in Hc.
    apply (list_elem_of_fmap_2 fst) in Hc. simpl in Hc.
    induction ((map_to_list h).*1) as [|k ks IH]; [by apply not_elem_of_nil in Hc|]. simpl.
    apply elem_of_cons in Hc as [->|Hc]; [lia|]. specialize (IH Hc). lia. }
  apply Hle in Hin. unfold new_loc in Hin. lia.
Qed.

Lemma alloc_run (c : cell) (h : heap) :
  ∃ l, alloc c h = (Ok l, <[l := c]> h) ∧ l ∉ dom h.
Proof. exists (new_loc h). split; [done|apply new_loc_fresh]. Qed.

Lemma lookup_items h s k : (k < sl_len s)%nat → items_at h s !! k = peek (elem s k) h.
Proof.
  intros Hk. unfold items_at, peek. simpl. destruct (h !! sl_array s) as [[]|]; try done.
  simpl. rewrite lookup_take_lt by done. by rewrite lookup_drop.
Qed.

Lemma peek_elem h s k : in_bounds h s → (k < sl_len s)%nat → is_Some (peek (elem s k) h).
Proof.
  intros (xs & Hxs & Hlen) Hk. unfold peek. simpl. rewrite Hxs. simpl.
  apply lookup_lt_is_Some. lia.
Qed.

Lemma writes_elem_ne s j k y h h' :
  writes (elem s j) y h h' → j ≠ k → peek (elem s k) h' = peek (elem s k) h.
Proof.
  intros (_ & c & Hc & _ & Hc') Hjk. unfold peek. simpl in *. rewrite Hc, Hc'.
  destruct c; try done. simpl. rewrite list_lookup_insert_ne by lia. done.
Qed.

Lemma writes_elem_bounds s j y h h' :
  writes (elem s j) y h h' → in_bounds h s → in_bounds h' s.
Proof.
  intros (_ & c & Hc & _ & Hc') (xs & Hxs & Hlen). simpl in *. rewrite Hc in Hxs.
  injection Hxs as ->. eexists. split; [exact Hc'|]. by rewrite length_insert.
Qed.

Lemma index_run (p : ptr (option slice)) s k h :
  peek p h = Some (Some s) → (k < sl_len s)%nat → index p k h = (Ok (elem s k), h).
Proof.
  intros Hp Hk. unfold index. rewrite (eff_bind_step _ _ _ _ _ (load_run _ _ _ Hp)).
  by rewrite (proj2 (Nat.ltb_lt _ _) Hk).
Qed.

(** The loop copies the items of the slice behind [i] to those behind [o]. *)
Definition copy_item (i o : ptr (option slice)) (k : nat) : go unit :=
  p ← index i k; q ← index o k; DbcpEntryService_DeepCopyInto p q.

Section loop.
Context (i o : ptr (option slice)) (s s' : slice) (h : heap).
Context (Hi : peek i h = Some (Some s)) (Ho : peek o h = Some (Some s')).
Context (Hlen : sl_len s' = sl_len s) (Hsound : sound h (Some s)) (Hb' : in_bounds h s').
Context (Hsep : sl_array s' ∉ reach h (Some s)).
Context (Hne1 : p_loc _ i ≠ sl_array s') (Hne2 : p_loc _ o ≠ sl_array s').

(** [h'] is the memory after [n] rounds. *)
Record copied_items (n : nat) (h' : heap) : Prop := {
  ci_dom : dom h ⊆ dom h';
  ci_frame l : l ∈ dom h → l ≠ sl_array s' → h' !! l = h !! l;
  ci_bounds : in_bounds h' s';
  ci_items k : (k < n)%nat → ∃ x y, peek (elem s k) h = Some x ∧
    peek (elem s' k) h' = Some y ∧ copied (dom h) (denote h x) h' y;
}.

Lemma copied_items_0 : copied_items 0 h.
Proof. split; [done..|lia]. Qed.

Lemma copied_items_S n h1 x y h2 :
  copied_items n h1 → peek (elem s n) h = Some x →
  writes (elem s' n) y h1 h2 → copied (dom h) (denote h x) h2 y → copied_items (S n) h2.
Proof.
  intros [Hdom Hframe Hbounds Hcopied] Hx Hw Hc. pose proof (writes_dom _ _ _ _ Hw) as Hdom2.
  assert (sl_array s' ∈ dom h) as Hin.
  { destruct Hb' as (ys & Hys & _). apply elem_of_dom. by rewrite Hys. }
  split.
  - by etrans.
  - intros l Hl Hlne. rewrite <- (Hframe l) by done. apply Hw; [by apply Hdom|done].
  - by eapply writes_elem_bounds.
  - intros k Hk. destruct (decide (n = k)) as [<-|Hnk].
    { exists x, y. split_and!; [done|by eapply writes_peek|done]. }
    destruct (Hcopied k) as (x' & y' & Hx' & Hy' & Hc'); [lia|]. exists x', y'.
    split_and!; [done|by rewrite (writes_elem_ne _ _ _ _ _ _ Hw Hnk)|].
    by apply (copied_writes _ _ h1 h2 y' (elem s' n) y).
Qed.

Lemma copy_item_step n h1 :
  copied_items n h1 → (n < sl_len s)%nat →
  ∃ h2, copy_item i o n h1 = (Ok tt, h2) ∧ copied_items (S n) h2.
Proof.
  intros Hinv Hn. destruct Hsound as [Hb Hsounds]. rewrite Forall_forall in Hsounds.
  destruct (peek_elem h s n Hb Hn) as [x Hx].
  assert (x ∈ items_at h s) as Hxin.
  { apply list_elem_of_lookup_2 with n. by rewrite lookup_items by lia. }
  pose proof (reach_item h s x Hxin) as Hreach. pose proof (Hsounds x Hxin) as Hsx.
  destruct (local h h1 x) as (Hd & Hr & Hs).
  { intros l Hl. apply Hinv; [by apply (sound_dom h x)|]. intros ->. by apply Hsep, Hreach. }
  assert (sl_array s ≠ sl_array s') as Hss.
  { intros Heq. apply Hsep. cbn [reach Reads_items]. rewrite Heq. set_solver. }
  destruct (Service_copies x (elem s n) (elem s' n) h1) as (y & h2 & Hrun & Hw & Hc).
  { unfold peek. simpl. rewrite (ci_frame _ _ Hinv); [exact Hx|by apply (peek_loc (elem s n) h x)|done]. }
  { apply peek_elem; [apply Hinv|lia]. }
  { done. }
  { by apply Hs. }
  { rewrite Hr. intros Hin. by apply Hsep, Hreach. }
  exists h2. split.
  - unfold copy_item.
    rewrite (eff_bind_step _ _ _ (elem s n) h1), (eff_bind_step _ _ _ (elem s' n) h1); [done|..];
      apply index_run; try lia; unfold peek;
      (rewrite (ci_frame _ _ Hinv); [done|by eapply peek_loc|done]).
  - apply (copied_items_S n h1 x y h2); [done..|]. rewrite Hd in Hc.
    eapply copied_mono; [exact Hc|apply Hinv].
Qed.

Lemma copy_items n :
  (n ≤ sl_len s)%nat → ∃ h', for_range (copy_item i o) n h = (Ok tt, h') ∧ copied_items n h'.
Proof.
  induction n as [|n IH]; intros Hn; [exists h; split; [done|apply copied_items_0]|].
  destruct IH as (h1 & Hrun & Hinv); [lia|]. simpl. rewrite (eff_bind_step _ _ _ _ _ Hrun).
  apply copy_item_step; [done|lia].
Qed.

(** After the last round the new slice is a copy. *)
Lemma copied_items_all h' :
  copied_items (sl_len s) h' →
  denote h' (Some s') = denote h (Some s) ∧ sound h' (Some s') ∧
  reach h' (Some s') ## dom h ∖ {[sl_array s']}.
Proof using Hlib Hlen.
  clear Hi Ho Hsound Hb' Hsep Hne1 Hne2. intros Hinv.
  assert (∀ k y, items_at h' s' !! k = Some y → (k < sl_len s)%nat) as Hk.
  { intros k y Hy%lookup_lt_Some. unfold items_at in Hy. destruct (h' !! sl_array s') as [[]|];
      simpl in Hy; try lia. rewrite length_take in Hy. lia. }
  assert (∀ y, y ∈ items_at h' s' → ∃ t, copied (dom h) t h' y) as Hy.
  { intros y [k Hky]%list_elem_of_lookup. pose proof (Hk _ _ Hky) as Hlt.
    rewrite lookup_items in Hky by lia.
    destruct (ci_items _ _ Hinv k Hlt) as (x & y' & _ & Hy' & Hc). naive_solver. }
  split_and!.
  - cbn [denote Reads_items fmap option_fmap option_map]. f_equal. apply list_eq. intros k.
    rewrite !list_lookup_fmap. destruct (decide (k < sl_len s)%nat) as [Hlt|Hge].
    + rewrite !lookup_items by lia.
      destruct (ci_items _ _ Hinv k Hlt) as (x & y & -> & -> & (Ht & _)).
      cbn [fmap option_fmap option_map]. by rewrite Ht.
    + rewrite !lookup_ge_None_2; [done|..]; unfold items_at;
        (destruct (_ !! _) as [[]|]; simpl; try lia; rewrite length_take; lia).
  - split; [apply Hinv|]. apply Forall_forall. intros y Hin. by destruct (Hy y Hin) as (t & _ & _ & ?).
  - cbn [reach Reads_items]. apply disjoint_union_l. split; [set_solver|].
    intros l (Y & HY & Hl)%elem_of_union_list. apply list_elem_of_fmap_1 in HY as (y & -> & Hin).
    destruct (Hy y Hin) as (t & _ & Hdisj & _). intros [Hlh _]%elem_of_difference. by apply (Hdisj l).
Qed.
End loop.

(** The branch for a slice that is not nil. *)
Definition copy_slice (i o : ptr (option slice)) (s : slice) : go unit :=
  s' ← make_items (sl_len s); store o (Some s') ;; for_range (copy_item i o) (sl_len s).

Lemma slice_made (o : ptr (option slice)) h n (k : go unit) :
  is_Some (peek o h) → ∃ s' h', sl_len s' = n ∧ (sl_array s' ∉ dom h) ∧ in_bounds h' s' ∧
    writes o (Some s') h h' ∧ (s' ← make_items n; (store o (Some s') ;; k)) h = k h'.
Proof.
  intros [w Hw]. pose proof (peek_loc _ _ _ Hw) as Hlo. unfold make_items.
  destruct (alloc_run (CItems (replicate n zero)) h) as (b & Halloc & Hb).
  set (s' := {| sl_array := b; sl_off := 0; sl_len := n |}).
  set (h1 := <[b := CItems (replicate n zero)]> h) in *.
  assert (∀ l, l ∈ dom h → h1 !! l = h !! l ∧ l ∈ dom h1) as H1.
  { intros l Hl. split; [|apply dom_insert; set_solver].
    apply lookup_insert_ne. by intros ->. }
  destruct (store_writes o (Some s') h1) as (h2 & Hstore & (Hf & c & Hc & Hg & Hc')).
  { exists w. unfold peek. by rewrite (proj1 (H1 _ Hlo)). }
  exists s', h2. split_and!; [done..| | |].
  - exists (replicate n zero). rewrite length_replicate. split; [|done].
    rewrite Hf; [apply lookup_insert_eq|apply dom_insert; set_solver|].
    intros Heq. apply Hb. simpl in Heq. by rewrite Heq.
  - split; [|exists c; rewrite (proj1 (H1 _ Hlo)) in Hc; done].
    intros l Hl Hne. destruct (H1 l Hl) as [<- ?]. by apply Hf.
  - rewrite (eff_bind_step _ _ _ s' h1); [by rewrite (eff_bind_step _ _ _ _ _ Hstore)|].
    by rewrite (eff_bind_step _ _ _ _ _ Halloc).
Qed.

Lemma slice_copies s : copies_at (λ i o, copy_slice i o s) (Some s).
Proof.
  intros i o h Hi Ho Hne Hsound Hsep. unfold copy_slice.
  pose proof Hsound as Hdom%sound_dom. pose proof (peek_loc _ _ _ Hi) as Hli.
  destruct (slice_made o h (sl_len s) (for_range (copy_item i o) (sl_len s)) Ho)
    as (s' & h2 & Hlen & Hb & Hbounds & Hw & ->).
  pose proof (writes_dom _ _ _ _ Hw) as Hdom2. pose proof (writes_loc _ _ _ _ Hw) as Hlo.
  destruct (local h h2 (Some s)) as (Hd & Hr & Hs).
  { intros l Hl. apply Hw; [by apply Hdom|by intros ->]. }
  destruct (copy_items i o s s' h2) with (n := sl_len s) as (h3 & Hrun & Hinv); try done.
  { by rewrite (writes_other _ _ _ _ i Hw). }
  { by eapply writes_peek. }
  { by apply Hs. }
  { rewrite Hr. auto. }
  { by intros Heq; rewrite Heq in Hli. }
  { by intros Heq; rewrite Heq in Hlo. }
  exists (Some s'), h3. split_and!; [done| |].
  - apply (writes_weaken _ _ _ h2); [done|]. intros l Hl. apply Hinv; [by apply Hdom2|by intros ->].
  - destruct (copied_items_all s s' h2 Hlen h3 Hinv) as (Hden & Hsnd & Hdisj).
    split_and!; [by rewrite Hden|set_solver|done].
Qed.

Lemma list_copied D h h' (v v' : DbcpEntryServiceList LM) :
  list_TypeMeta v' = list_TypeMeta v →
  copied D (denote h (list_ListMeta v)) h' (list_ListMeta v') →
  copied D (denote h (Items v)) h' (Items v') → copied D (denote h v) h' v'.
Proof.
  intros Ht (Hm1 & Hm2 & Hm3) (Hi1 & Hi2 & Hi3).
  split_and!; cbn [denote reach sound Reads_List]; [by rewrite Ht, Hm1, Hi1|set_solver|done].
Qed.

Lemma List_copies : copies DbcpEntryServiceList_DeepCopyInto.
Proof.
  intros v i o h Hi Ho Hne [Hsm Hsi] Hsep. unfold DbcpEntryServiceList_DeepCopyInto.
  cbn [reach Reads_List] in Hsep. apply not_elem_of_union in Hsep as [Hom Hoi].
  destruct (assign_writes i o h v Hi Ho) as (h1 & Hrun1 & Hw1).
  pose proof (writes_loc _ _ _ _ Hw1) as Hloc.
  destruct (copies_fld _ f_list_TypeMeta i o h h1 v _ (copies_plain _) Hw1)
    as (t & h2 & Hrun2 & Hw2 & (Ht & _) & _); try done.
  destruct (copies_fld _ f_ListMeta i o h h2 v _ (ListMeta_copies _) Hw2)
    as (m & h3 & Hrun3 & Hw3 & Hm & _); try done.
  rewrite (eff_bind_step _ _ _ _ _ Hrun1), (eff_bind_step _ _ _ _ _ Hrun2),
    (eff_bind_step _ _ _ _ _ Hrun3).
  assert (peek (fld i f_Items) h3 = Some (Items v)) as Hpi.
  { apply (peek_fld i f_Items).
    rewrite (writes_other _ _ _ _ i Hw3); [done|by eapply peek_loc|done]. }
  rewrite (eff_bind_step _ _ _ _ _ (load_run _ _ _ Hpi)).
  destruct (Items v) as [s|] eqn:Hitems.
  - destruct (copies_fld (λ i o, copy_slice i o s) f_Items i o h h3 v
      (update f_ListMeta m (update f_list_TypeMeta t v))) as (s' & h4 & Hrun4 & Hw4 & Hs & Hstep);
      try done; [simpl; rewrite Hitems; first [apply slice_copies | done]..|].
    eexists _, h4. split_and!; [exact Hrun4|exact Hw4|].
    apply list_copied; [exact Ht| |exact Hs]. by apply (copied_writes _ _ h3 h4 m o _ Hm Hloc Hstep).
  - eexists _, h3. split_and!; [done|exact Hw3|]. apply list_copied; [exact Ht|exact Hm|].
    simpl. rewrite Hitems. split_and!; [done|apply disjoint_empty_l|done].
Qed.

(** ** [DeepCopy] *)

(** A copy function leaves memory as it was and returns a pointer to a value that
    reads the same; writes to the memory that was there before do not change
    what the copy reads, and writes to memory that was not there do not change
    what the original reads. *)
Definition isolates {T V} `{Reads T V} (copy : option (ptr T) → go (option (ptr T))) : Prop :=
  (∀ h, copy None h = (Ok None, h)) ∧
  ∀ p h v, peek p h = Some v → sound h v →
  ∃ q h', copy (Some p) h = (Ok (Some q), h') ∧ h ⊆ h' ∧ value h' q = Some (denote h v) ∧
    (∀ h2, (∀ l, l ∈ dom h' → l ∉ dom h → h2 !! l = h' !! l) → value h2 q = Some (denote h v)) ∧
    (∀ h2, (∀ l, l ∈ dom h → h2 !! l = h' !! l) → value h2 p = Some (denote h v)).

Lemma DeepCopy_spec {T V} `{!Boxed T} `{Local T V} (f : ptr T → ptr T → go unit) :
  copies f → isolates (DeepCopy f).
Proof.
  intros Hf. split; [done|]. intros p h v Hp Hs. simpl. unfold new.
  destruct (alloc_run (box (zero : T)) h) as (l & Halloc & Hl).
  set (h1 := <[l := box zero]> h) in *.
  assert (h ⊆ h1) as H1 by (by apply insert_subseteq, not_elem_of_dom).
  assert (∀ x, x ∈ dom h → h1 !! x = h !! x ∧ x ∈ dom h1) as Hsame.
  { intros x Hx. split; [|by apply (subseteq_dom h)]. apply lookup_insert_ne. by intros ->. }
  destruct (local h h1 v) as (Hd & Hr & Hs1).
  { intros x Hx. apply Hsame. by apply (sound_dom h v). }
  pose proof (peek_loc _ _ _ Hp) as Hlp. pose proof (sound_dom h v Hs) as Hdom.
  destruct (Hf v p (root l) h1) as (v' & h' & Hrun & Hw & Hc).
  { unfold peek. by rewrite (proj1 (Hsame _ Hlp)). }
  { exists zero. unfold peek, h1. simpl. rewrite lookup_insert_eq. simpl. apply unbox_box. }
  { simpl. by intros <-. }
  { auto. }
  { rewrite Hr. simpl. auto. }
  assert (∀ x, x ∈ dom h → h' !! x = h !! x) as Hold.
  { intros x Hx. destruct (Hsame x Hx) as [<- ?]. apply Hw; [done|]. simpl. by intros ->. }
  apply (copied_mono _ (dom h)) in Hc; [|by apply subseteq_dom]. rewrite Hd in Hc.
  assert (peek (root l) h' = Some v') as Hq by (by eapply writes_peek).
  exists (root l), h'. split_and!.
  - rewrite (eff_bind_step _ _ _ (root l) h1); [|by rewrite (eff_bind_step _ _ _ _ _ Halloc)].
    by rewrite (eff_bind_step _ _ _ _ _ Hrun).
  - apply map_subseteq_spec. intros x c Hx. by rewrite Hold by (apply elem_of_dom; by rewrite Hx).
  - unfold value. rewrite Hq. simpl. by destruct Hc as [-> _].
  - intros h2 H2. apply (copied_frame _ _ _ h2) in Hc as [Hden _]; [|done]. unfold value, peek in *.
    rewrite H2; [rewrite Hq; simpl; by rewrite Hden|by eapply (peek_loc (root l))|done].
  - intros h2 H2. unfold value, peek in *. rewrite H2, Hold, Hp by done. simpl. f_equal.
    apply local. intros x Hx. rewrite H2, Hold by auto. done.
Qed.

(** C26: the six generated [DeepCopy] (entry service, its list, spec and status,
    and the two parts of the spec) return nil for nil, and otherwise a pointer to
    an equal value (list items, metadata and resource maps included) that shares
    no memory with the original: the original is unchanged, and later writes to
    either are not seen through the other.  This is for every value in memory
    and every library whose own deep copies do the same. *)
Theorem DeepCopy_isolates :
  isolates (V:=TypeMeta * Kube.DbcpEntryService RV) DbcpEntryService_DeepCopy ∧
  isolates (V:=TypeMeta * LV * option (list (TypeMeta * Kube.DbcpEntryService RV)))
    DbcpEntryServiceList_DeepCopy ∧
  isolates (V:=DbcpEntryServiceSpec RV) DbcpEntryServiceSpec_DeepCopy ∧
  isolates DbcpEntryServiceStatus_DeepCopy ∧
  isolates EntryConfig_DeepCopy ∧
  isolates (V:=EntryService RV) EntryService_DeepCopy.
Proof.
  split_and!; apply DeepCopy_spec;
    [apply Service_copies|apply List_copies|apply Spec_copies|apply copies_plain..|apply EntryService_copies].
Qed.

(** The object returned for a scheme is the copy, and never an interface around
    a nil pointer. *)
Lemma DeepCopyObject_spec p (l : option (ptr (DbcpEntryServiceList LM))) h :
  (∀ q h', DbcpEntryService_DeepCopy p h = (Ok q, h') →
    DbcpEntryService_DeepCopyObject p h =
      (Ok (match q with Some _ => ServiceObject q | None => NilObject end), h')) ∧
  (∀ q h', DbcpEntryServiceList_DeepCopy l h = (Ok q, h') →
    DbcpEntryServiceList_DeepCopyObject l h =
      (Ok (match q with Some _ => ListObject q | None => NilObject end), h')).
Proof.
  split; intros q h' Hrun; [unfold DbcpEntryService_DeepCopyObject|
    unfold DbcpEntryServiceList_DeepCopyObject]; by rewrite (eff_bind_step _ _ _ _ _ Hrun).
Qed.
End spec.

(** ** A library in memory

    Object metadata is a name and a label map, list metadata a resource version,
    resource requirements two maps; the maps are cells. *)

Module Mem.
Abbreviation M := (gmap string string).
Abbreviation OM := (string * option loc)%type.
Abbreviation RR := (option loc * option loc)%type.
Abbreviation heap := (gmap loc (@cell M OM string RR)).
Abbreviation ptr := (@ptr M OM string RR).
Abbreviation go A := (eff heap Empty_set A).

Abbreviation MReads := (@Reads M OM string RR).
Abbreviation MLocal := (@Local M OM string RR).

(** Allocate a copy of a map; nil stays nil. *)
Definition copy_map (o : option loc) : go (option loc) := λ h,
  match o with
  | None => (Ok None, h)
  | Some l => match h !! l with
              | Some (CLib m) => (l' ← alloc (CLib m); mret (Some l')) h
              | _ => (Panic, h)
              end
  end.

Definition copy_with {T} (g : T → go T) (i o : ptr T) : go unit :=
  v ← load i; v' ← g v; store o v'.

Definition copy_meta (v : OM) : go OM := l ← copy_map v.2; mret (v.1, l).
Definition copy_resources (v : RR) : go RR :=
  r ← copy_map v.1; l ← copy_map v.2; mret (r, l).

#[global] Instance library : Library (X:=M) := {|
  zero_ObjectMeta := ("", None);
  zero_ListMeta := "";
  zero_ResourceRequirements := (None, None);
  ObjectMeta_DeepCopyInto := copy_with copy_meta;
  ListMeta_DeepCopyInto := copy_with mret;
  ResourceRequirements_DeepCopyInto := copy_with copy_resources |}.

Definition map_at (h : heap) (o : option loc) : option M :=
  l ← o; match h !! l with Some (CLib m) => Some m | _ => None end.

#[global] Instance Reads_map : MReads (option loc) (option M) := {|
  denote := map_at;
  reach _ o := match o with Some l => {[l]} | None => ∅ end;
  sound h o := is_Some o → is_Some (map_at h o) |}.

#[global] Instance Reads_meta : MReads OM (ObjectMeta * string) := {|
  denote h v := (with_labels (default ∅ (denote h v.2)) (named "default" v.1), "7");
  reach h v := reach h v.2;
  sound h v := sound h v.2 |}.

#[global] Instance Reads_version : MReads string string := {|
  denote _ v := v; reach _ _ := ∅; sound _ _ := True |}.

#[global] Instance Reads_resources : MReads RR (ResourceRequirements string) := {|
  denote h v := {| Requests := denote h v.1; Limits := denote h v.2 |};
  reach h v := reach h v.1 ∪ reach h v.2;
  sound h v := sound h v.1 ∧ sound h v.2 |}.

#[global] Instance Local_map : MLocal (option loc) (option M).
Proof.
  split.
  - intros h h' [l|] Hl; [|done]. simpl. rewrite Hl by (simpl; set_solver). done.
  - intros h [l|] Hs; [|apply empty_subseteq]. cbn [reach Reads_map].
    apply singleton_subseteq_l, elem_of_dom. destruct Hs as [m Hm]; [done|]. simpl in Hm.
    by destruct (h !! l).
Qed.

Lemma copy_map_copies (v : option loc) h :
  sound h v → ∃ v' h', copy_map v h = (Ok v', h') ∧ h ⊆ h' ∧ copied (dom h) (denote h v) h' v'.
Proof.
  intros Hs. destruct v as [l|]; [|exists None, h; split_and!; [done..|]; split_and!; [done|apply disjoint_empty_l|done]].
  destruct Hs as [m Hm]; [done|]. simpl in Hm. unfold copy_map.
  destruct (h !! l) as [[x| | | | | | |]|] eqn:Hl; try done.
  destruct (alloc_run (CLib x) h) as (l' & Halloc & Hl').
  exists (Some l'), (<[l' := CLib x]> h). split_and!.
  - by rewrite (eff_bind_step _ _ _ _ _ Halloc).
  - by apply insert_subseteq, not_elem_of_dom.
  - split_and!; cbn [denote reach sound Reads_map]; unfold map_at; simpl.
    + rewrite lookup_insert_eq. by rewrite Hl.
    + set_solver.
    + by rewrite lookup_insert_eq.
Qed.

(** A function that allocates a copy gives a deep copy. *)
Definition clones {T V} {HR : MReads T V} (g : T → go T) : Prop := ∀ v h,
  sound h v → ∃ v' h', g v h = (Ok v', h') ∧ h ⊆ h' ∧ copied (dom h) (denote h v) h' v'.

Lemma subseteq_lookup (h h' : heap) l : h ⊆ h' → l ∈ dom h → h' !! l = h !! l.
Proof. intros Hsub [c Hc]%elem_of_dom. rewrite Hc. by eapply lookup_weaken. Qed.

Lemma copy_with_copies {T V} {HR : MReads T V} {HL : MLocal T V} (g : T → go T) : clones g → copies (copy_with g).
Proof.
  intros Hg v i o h Hi [w Ho] Hne Hs Hsep. destruct (Hg v h Hs) as (v' & h1 & Hrun & Hsub & Hc).
  pose proof (peek_loc _ _ _ Ho) as Hlo.
  destruct (store_writes o v' h1) as (h2 & Hstore & Hw).
  { exists w. unfold peek. by rewrite (subseteq_lookup h). }
  exists v', h2. split_and!.
  - unfold copy_with. rewrite (eff_bind_step _ _ _ _ _ (load_run _ _ _ Hi)).
    by rewrite (eff_bind_step _ _ _ _ _ Hrun).
  - destruct Hw as (Hf & c & Hc1 & Hg1 & Hc2). split.
    + intros l Hl Hlne. rewrite Hf; [by apply subseteq_lookup|by apply (subseteq_dom h)|done].
    + exists c. by rewrite (subseteq_lookup h) in Hc1.
  - by apply (copied_writes _ _ h1 h2 v' o v').
Qed.

Lemma copy_map_clones : clones copy_map.
Proof. exact copy_map_copies. Qed.

#[global] Instance Local_meta : MLocal OM (ObjectMeta * string).
Proof.
  split; [|intros h v; apply (sound_dom h v.2)].
  intros h h' v Hl. destruct (local h h' v.2 Hl) as (Hd & Hr & Hs). simpl in *. by rewrite Hd.
Qed.

#[global] Instance Local_version : MLocal string string.
Proof. split; [done|]. intros h v _. apply empty_subseteq. Qed.

#[global] Instance Local_resources : MLocal RR (ResourceRequirements string).
Proof.
  split.
  - intros h h' v Hl. cbn [reach Reads_resources] in Hl.
    destruct (local h h' v.1) as (Hd1 & Hr1 & Hs1); [set_solver|].
    destruct (local h h' v.2) as (Hd2 & Hr2 & Hs2); [set_solver|].
    cbn [denote reach sound Reads_resources]. rewrite Hd1, Hd2. naive_solver.
  - intros h v [Hm%sound_dom Hs%sound_dom]. cbn [reach Reads_resources]. set_solver.
Qed.

#[global] Instance laws : LibraryLaws (X:=M) (LV:=string) (RV:=ResourceRequirements string).
Proof.
  split; [apply _..| | |].
  - apply copy_with_copies. intros v h Hs.
    destruct (copy_map_clones v.2 h Hs) as (l & h' & Hrun & Hsub & (Hd & Hr & Hs')).
    exists (v.1, l), h'. split_and!; [|done|].
    + unfold copy_meta. by rewrite (eff_bind_step _ _ _ _ _ Hrun).
    + split_and!; [|done..]. cbn [denote Reads_meta fst snd]. by rewrite Hd.
  - apply copy_with_copies. intros v h _. exists v, h. split_and!; [done..|].
    split_and!; [done|apply disjoint_empty_l|done].
  - apply copy_with_copies. intros v h [Hs1 Hs2].
    destruct (copy_map_clones v.1 h Hs1) as (r & h1 & Hrun1 & Hsub1 & Hr).
    destruct (local h h1 v.2) as (Hd & Hre & Hs3).
    { intros l Hl. apply subseteq_lookup; [done|by apply (sound_dom h v.2)]. }
    destruct (copy_map_clones v.2 h1 (Hs3 Hs2)) as (m & h2 & Hrun2 & Hsub2 & Hm).
    exists (r, m), h2. split_and!; [|by etrans|].
    + unfold copy_resources. rewrite (eff_bind_step _ _ _ _ _ Hrun1).
      by rewrite (eff_bind_step _ _ _ _ _ Hrun2).
    + apply (copied_mono _ (dom h)) in Hm as (Hm1 & Hm2 & Hm3); [|by apply subseteq_dom].
      apply (copied_frame _ _ _ h2) in Hr as (Hr1 & Hr2 & Hr3);
        [|intros l Hl _; by apply subseteq_lookup].
      rewrite Hd in Hm1. split_and!; cbn [denote reach sound Reads_resources fst snd].
      * by rewrite Hr1, Hm1.
      * set_solver.
      * done.
Qed.

(** A list of one item, whose labels are in cell 1. *)
Definition demo_item : DbcpEntryService OM RR :=
  {| TypeMeta_ := {| tm_kind := "DbcpEntryService"; tm_apiVersion := "dbcp.shopee.io/v1alpha1" |};
     ObjectMeta_ := ("entry", Some 1%positive);
     Spec := {| spec_Config := {| TargetDB := "db"; TargetRedis := "redis"; ServiceExportPort := 80 |};
                spec_Service := {| Image := "img"; Replicas := 2; Resources := (Some 4%positive, None) |} |};
     Status := Build_DbcpEntryServiceStatus |}.
Definition demo_list : DbcpEntryServiceList string :=
  {| list_TypeMeta := zero_TypeMeta; list_ListMeta := "7";
     Items := Some {| sl_array := 2; sl_off := 0; sl_len := 1 |} |}.
Definition demo_heap : heap := list_to_map
  [(1%positive, CLib {["app" := "a"]}); (2%positive, CItems [demo_item]);
   (3%positive, CList demo_list); (4%positive, CLib {["cpu" := "1"]})].

Definition list_ptr : ptr (DbcpEntryServiceList string) := root 3.

Abbreviation list_tree := (TypeMeta * string *
  option (list (TypeMeta * Kube.DbcpEntryService (ResourceRequirements string))))%type.

(** The label [app] of the first item behind a pointer. *)
Definition app_label (h : heap) (p : ptr (DbcpEntryServiceList string)) : option string :=
  t ← value (V:=list_tree) h p; items ← t.2; x ← head items; om_labels (e_meta x.2) !! "app".

(** The labels of the original are changed after it was copied, by [DeepCopy] and
    by assignment. *)
Definition relabelled (copy : go (option (ptr (DbcpEntryServiceList string)))) :
    option string * option string :=
  match copy demo_heap with
  | (Ok (Some q), h) => let h := <[1%positive := CLib {["app" := "b"]}]> h in
                        (app_label h list_ptr, app_label h q)
  | _ => (None, None)
  end.

Example deep_copy_keeps_label :
  relabelled (DbcpEntryServiceList_DeepCopy (Some list_ptr)) = (Some "b", Some "a").
Proof. vm_compute. reflexivity. Qed.

Example assignment_shares_label :
  relabelled (q ← new; assign q list_ptr ;; mret (Some q)) = (Some "b", Some "b").
Proof. vm_compute. reflexivity. Qed.
End Mem.

Lemma DeepCopy_isolates_witness :
  peek Mem.list_ptr Mem.demo_heap = Some Mem.demo_list ∧
  sound (V:=Mem.list_tree) Mem.demo_heap Mem.demo_list ∧
  isolates (V:=Mem.list_tree) (DbcpEntryServiceList_DeepCopy (X:=Mem.M) (OM:=Mem.OM) (LM:=string) (RR:=Mem.RR)).
Proof.
  split_and!; [done| |apply (DeepCopy_isolates (Hlib:=Mem.laws))].
  split; [done|]. split; [by exists [Mem.demo_item]; split|].
  apply Forall_singleton.
  split; [intros _; by eexists|]. split; [intros _; by eexists|by intros []].
Defined.
