(* ===== verification/Operator.v ===== *)
(** * The operator's reconciler
    ([src/operator/internal/controller/dbcpentryservice_controller.go])

    One Rocq definition per Go function, over the API of [Kube.v]. *)

From S2P Require Import Prelude GoStrings GoEncoding GoCrypto Json Kube.

Definition appHTTPPort : Z := 8080.
Definition appGatewayPort : Z := 8081.
Definition appTCPPort : Z := 9000.

Definition labelName : string := "app.kubernetes.io/name".
Definition labelInstance : string := "app.kubernetes.io/instance".
Definition labelManagedBy : string := "app.kubernetes.io/managed-by".
Definition labelCRName : string := "dbcp.shopee.io/cr-name".
Definition labelSpecHash : string := "dbcp.shopee.io/spec-hash".

Definition appName : string := "dbcp-entry-service".
Definition controllerID : string := "dbcp-entry-controller".
Definition finalizer : string := "dbcp.shopee.io/dbcp-entry-service-finalizer".

(** [5 * time.Second], in nanoseconds. *)
Definition defaultSyncInterval : Z := 5000000000.

Definition managedLabels (crName : string) : labels :=
  list_to_map [(labelName, appName); (labelInstance, crName);
               (labelManagedBy, controllerID); (labelCRName, crName)].

Definition configMapName (crName : string) : string := crName +:+ "-config".

(** The selector of the pods of a custom resource. *)
Definition owned_selector (crName : string) : labels :=
  list_to_map [(labelManagedBy, controllerID); (labelCRName, crName)].

(** [fmt.Sprintf("%s/%s/%s", ...)], SHA-256, hexadecimal. *)
Definition stable_token_secret (namespace name uid : string) : string :=
  hex_of (Sum256 (bytes_of (namespace +:+ "/" +:+ name +:+ "/" +:+ uid))).

Definition config_entries (c : EntryConfig) (secret : string) : list (string * string) :=
  [("DBCP_TARGET_DB", TargetDB c);
   ("DBCP_TARGET_REDIS", TargetRedis c);
   ("DBCP_SERVICE_EXPORT_PORT", Itoa (ServiceExportPort c));
   ("APP_TCP_ADDR", "127.0.0.1:9000");
   ("APP_HTTP_ADDR", "127.0.0.1:8081");
   ("APP_HTTP_TCP_ADDR", "127.0.0.1:9000");
   ("APP_PROFILE_PICTURE_DIR", "/app/runtime/profile-pictures");
   ("APP_PROFILE_PICTURE_BASE_URL", "/api/me/profile-picture");
   ("APP_REDIS_KEY_PREFIX", "go-entry-task");
   ("APP_TOKEN_SECRET", secret);
   ("APP_DB_MAX_OPEN_CONNS", "128");
   ("APP_DB_MAX_IDLE_CONNS", "32");
   ("APP_TCP_WORKERS", "64");
   ("APP_TCP_QUEUE_SIZE", "2048");
   ("APP_TCP_MAX_FRAME_BYTES", "8388608");
   ("APP_HTTP_MAX_BODY_BYTES", "4194304");
   ("APP_UPLOAD_MAX_BYTES", "2097152");
   ("APP_SESSION_TTL", "24h");
   ("APP_DB_CONN_MAX_LIFETIME", "5m");
   ("APP_REDIS_DIAL_TIMEOUT", "2s");
   ("APP_REDIS_IO_TIMEOUT", "2s");
   ("APP_PROFILE_PICTURE_CACHE_SCOPE", "redis")].

(** [json.Marshal] of a [map[string]string] writes the keys in byte order. *)
Definition key_le (a b : string * string) : Prop := String.le a.1 b.1.
#[global] Instance key_le_dec : RelDecision key_le.
Proof. unfold key_le. intros a b. apply _. Defined.

Definition json_of_map (m : labels) : json :=
  JObj (map (λ '(k, v), (k, JStr v)) (merge_sort key_le (map_to_list m))).

(** [json.Marshal] of [corev1.ResourceRequirements], whose quantities have their
    own encoder. *)
Class ResourceJSON (R : Type) := resources_json : R → outcome string json.
Class ResourceJSONLaws (R : Type) `{!ResourceJSON R} : Prop :=
  resources_json_no_panic (r : R) : no_panic (resources_json r).

Section operator.
Context {R W : Type} `{!ClusterView R W, !KubeAPI R W, !ControllerUtil R, !ResourceJSON R,
  !SortSlice}.
Implicit Types entry : DbcpEntryService R.

Definition entry_name entry : string := om_name (e_meta entry).
Definition entry_namespace entry : string := om_namespace (e_meta entry).

Definition stableTokenSecret entry : string :=
  stable_token_secret (entry_namespace entry) (entry_name entry) (om_uid (e_meta entry)).

Definition desiredConfigData entry : labels :=
  list_to_map (config_entries (spec_Config (e_spec entry)) (stableTokenSecret entry)).

(** The text that is hashed; the keys of a Go map are marshalled in order. *)
Definition spec_hash_data entry (resources : json) : json :=
  JObj [("configMap", json_of_map (desiredConfigData entry));
        ("image", JStr (Image (spec_Service (e_spec entry))));
        ("owner", JObj [("apiVersion", JStr (GroupVersion_String GroupVersion));
                        ("kind", JStr "DbcpEntryService")]);
        ("ports", JObj [("http", JInt appHTTPPort); ("httpGateway", JInt appGatewayPort);
                        ("service", JInt (ServiceExportPort (spec_Config (e_spec entry))));
                        ("tcpBackend", JInt appTCPPort)]);
        ("resources", resources)].

Definition calculateSpecHash entry : outcome api_error string :=
  match resources_json (Resources (spec_Service (e_spec entry))) with
  | Ok res =>
      let sum := Sum256 (encode (spec_hash_data entry res)) in
      Ok (string_of (take 12 (hex_encode sum)))
  | Err msg => Err (ApiOther ("failed to marshal spec hash data: " +:+ msg))
  | Panic => Panic
  end.

(** [if err := ...; err != nil && !apierrors.IsNotFound(err) { return err }] *)
Definition ignore_not_found (m : api W unit) : api W unit := λ w,
  match m w with
  | (Err NotFound, w') => (Ok tt, w')
  | r => r
  end.

Fixpoint delete_pods (l : list (Pod R)) : api W unit :=
  match l with
  | [] => mret tt
  | pod :: l => _ ← ignore_not_found (delete_pod (pod_key pod)); delete_pods l
  end.

Definition cleanupOwnedResources entry : api W unit :=
  let namespace := entry_namespace entry in
  podList ← list_pods namespace (owned_selector (entry_name entry));
  _ ← delete_pods podList;
  _ ← ignore_not_found (delete_service (namespace, entry_name entry));
  _ ← ignore_not_found (delete_configmap (namespace, configMapName (entry_name entry)));
  mret tt.

Definition mutate_configmap entry (desired : ConfigMap) : outcome api_error ConfigMap :=
  let meta := with_labels (managedLabels (entry_name entry)) (cm_meta desired) in
  meta ← SetControllerReference entry meta;
  Ok {| cm_meta := meta; cm_data := desiredConfigData entry |}.

Definition ensureConfigMap entry : api W unit :=
  let desired := {| cm_meta := named (entry_namespace entry) (configMapName (entry_name entry));
                    cm_data := ∅ |} in
  create_or_update_configmap (R := R) desired (mutate_configmap entry).

Definition desired_service_spec entry : ServiceSpec :=
  {| ss_type := "ClusterIP";
     ss_selector := managedLabels (entry_name entry);
     ss_ports := [{| sp_name := "http"; sp_protocol := "TCP";
                     sp_port := ServiceExportPort (spec_Config (e_spec entry));
                     sp_targetPort := "http" |}];
     ss_clusterIP := "" |}.

Definition mutate_service entry (desired : Service) : outcome api_error Service :=
  let meta := with_labels (managedLabels (entry_name entry)) (svc_meta desired) in
  meta ← SetControllerReference entry meta;
  Ok {| svc_meta := meta; svc_spec := desired_service_spec entry |}.

Definition ensureService entry : api W unit :=
  let desired := {| svc_meta := named (entry_namespace entry) (entry_name entry);
                    svc_spec := {| ss_type := ""; ss_selector := ∅; ss_ports := [];
                                   ss_clusterIP := "" |} |} in
  create_or_update_service (R := R) desired (mutate_service entry).

Definition http_probe (initialDelay period : Z) : Probe :=
  {| pr_path := "/api/health"; pr_port := "http";
     pr_initialDelaySeconds := initialDelay; pr_periodSeconds := period |}.

Definition pod_template entry : PodSpec R :=
  {| ps_restartPolicy := "Always";
     ps_containers := [
       {| c_name := "dbcp-entry-service";
          c_image := Image (spec_Service (e_spec entry));
          c_imagePullPolicy := "IfNotPresent";
          c_ports := [
            {| cp_name := "http"; cp_containerPort := appHTTPPort; cp_protocol := "TCP" |};
            {| cp_name := "gateway"; cp_containerPort := appGatewayPort; cp_protocol := "TCP" |};
            {| cp_name := "tcp-backend"; cp_containerPort := appTCPPort; cp_protocol := "TCP" |}];
          c_envFrom := [configMapName (entry_name entry)];
          c_readinessProbe := http_probe 5 5;
          c_livenessProbe := http_probe 15 10;
          c_resources := Resources (spec_Service (e_spec entry)) |}] |}.

Definition pod_template_meta entry (specHash : string) : ObjectMeta :=
  {| om_name := ""; om_generateName := entry_name entry +:+ "-";
     om_namespace := entry_namespace entry; om_uid := "";
     om_labels := <[labelSpecHash := specHash]> (managedLabels (entry_name entry));
     om_annotations := {[labelSpecHash := specHash]};
     om_ownerReferences := []; om_finalizers := [];
     om_creationTimestamp := 0; om_deletionTimestamp := None |}.

(** A failure to set the owner reference is logged and ignored. *)
Definition desiredPod entry (specHash : string) : Pod R :=
  let meta := pod_template_meta entry specHash in
  {| pod_meta := match SetControllerReference entry meta with Ok m => m | _ => meta end;
     pod_spec := pod_template entry;
     pod_phase := PodPhaseUnset |}.

(** [pod.Labels[labelSpecHash]]: the empty string when the label is absent. *)
Definition pod_hash (pod : Pod R) : string := default "" (pod_labels pod !! labelSpecHash).

(** The first loop of [reconcilePods]. *)
Fixpoint select_current (specHash : string) (items current : list (Pod R)) :
    api W (list (Pod R)) :=
  match items with
  | [] => mret current
  | pod :: items =>
      if decide (pod_deleting pod) then select_current specHash items current
      else if decide (pod_phase pod = PodFailed ∨ pod_phase pod = PodSucceeded) then
        _ ← ignore_not_found (delete_pod (pod_key pod));
        select_current specHash items current
      else if decide (pod_hash pod ≠ specHash) then
        _ ← ignore_not_found (delete_pod (pod_key pod));
        select_current specHash items current
      else select_current specHash items (current ++ [pod])
  end.

(** [for len(current) > desiredReplicas]: each round drops one element, so one
    more round than there are elements is enough; [current[idx]] panics when
    [current] is empty. *)
Fixpoint scale_down (fuel : nat) (current : list (Pod R)) (desiredReplicas : Z) :
    api W (list (Pod R)) :=
  if desiredReplicas <? Z.of_nat (length current) then
    match fuel, last current with
    | S fuel, Some pod =>
        _ ← ignore_not_found (delete_pod (pod_key pod));
        scale_down fuel (removelast current) desiredReplicas
    | _, _ => panic
    end
  else mret current.

(** [for len(current) < desiredReplicas]: each round adds one element, a pod
    made from the same template. *)
Fixpoint scale_up (fuel : nat) (template : Pod R) (current : list (Pod R))
    (desiredReplicas : Z) : api W (list (Pod R)) :=
  if Z.of_nat (length current) <? desiredReplicas then
    match fuel with
    | O => panic
    | S fuel =>
        pod ← create_pod template;
        scale_up fuel template (current ++ [pod]) desiredReplicas
    end
  else mret current.

Definition reconcilePods entry (specHash : string) : api W unit :=
  podList ← list_pods (entry_namespace entry) (owned_selector (entry_name entry));
  current ← select_current specHash podList [];
  let current := sort_slice (λ a b, pod_created a <? pod_created b) current in
  let desiredReplicas := Replicas (spec_Service (e_spec entry)) in
  current ← scale_down (S (length current)) current desiredReplicas;
  _ ← scale_up (Z.to_nat desiredReplicas) (desiredPod entry specHash) current desiredReplicas;
  mret tt.

(** [ctrl.Result]: the delay after which the request is queued again. *)
Definition Result : Type := option Z.

Definition with_meta entry (m : ObjectMeta) : DbcpEntryService R :=
  {| e_meta := m; e_version := e_version entry; e_spec := e_spec entry |}.

Definition Reconcile (req : key) : api W Result := λ w0,
  match get_entry req w0 with
  | (Err NotFound, w) => (Ok None, w)
  | (Err e, w) => (Err e, w)
  | (Panic, w) => (Panic, w)
  | (Ok entry, w) =>
      (if decide (om_deletionTimestamp (e_meta entry) ≠ None) then
         _ ← cleanupOwnedResources entry;
         if ContainsFinalizer (e_meta entry) finalizer then
           _ ← update_entry (with_meta entry (RemoveFinalizer (e_meta entry) finalizer));
           mret None
         else mret None
       else if negb (ContainsFinalizer (e_meta entry) finalizer) then
         _ ← update_entry (with_meta entry (AddFinalizer (e_meta entry) finalizer));
         mret None
       else
         specHash ← lift (calculateSpecHash entry);
         _ ← ensureConfigMap entry;
         _ ← ensureService entry;
         _ ← reconcilePods entry specHash;
         mret (Some defaultSyncInterval)) w
  end.
End operator.
