(* ===== verification/Legacy.v ===== *)
(** * The polling controller
    ([src/cloud_native_entry_task/controllers/internal/controller])

    The controller that preceded the operator: it lists its resources every few
    seconds and reconciles each of them.  One definition per Go function of
    [spec.go], [resources.go] and [controller.go], in a module of its own because
    the operator's functions have the same names.  A parsed [EntrySpec] has the
    fields of the operator's spec and is kept in the same record. *)

From S2P Require Import Prelude GoStrings GoEncoding GoCrypto Json Kube KubeClient Operator.

Module Legacy.

(** ** [resources.go]: names and labels *)

Definition appHTTPPort : Z := 8080.
Definition appGatewayPort : Z := 8081.
Definition appTCPPort : Z := 9000.

Definition labelName : string := "app.kubernetes.io/name".
Definition labelInstance : string := "app.kubernetes.io/instance".
Definition labelManagedBy : string := "app.kubernetes.io/managed-by".
Definition labelCRName : string := "dbcp.shopee.io/cr-name".
Definition labelSpecHash : string := "dbcp.shopee.io/spec-hash".

Definition appName : string := "dbcp-entry-service".
Definition controllerID : string := "dbcp-entry-controller".
Definition containerName : string := "dbcp-entry-service".

Definition group : string := "dbcp.shopee.io".
Definition version : string := "v1alpha1".
Definition finalizer : string := "dbcp.shopee.io/dbcp-entry-service-finalizer".
Definition defaultSync : Z := 5000000000.

Definition managedLabels (crName : string) : labels :=
  list_to_map [(labelName, appName); (labelInstance, crName);
               (labelManagedBy, controllerID); (labelCRName, crName)].

Definition managedSelector (crName : string) : string :=
  labelManagedBy +:+ "=" +:+ controllerID +:+ "," +:+ labelCRName +:+ "=" +:+ crName.

Definition configMapName (crName : string) : string := crName +:+ "-config".
Definition dbcpAPIVersion : string := group +:+ "/" +:+ version.
Definition dbcpKind : string := "DbcpEntryService".

Section legacy.
Context {U Q W : Type} `{!Unstructured U, !ParseQuantity Q, !MapRange, !SelectorSyntax}.
Abbreviation R := (ResourceRequirements Q).
Abbreviation EntrySpec := (DbcpEntryServiceSpec R).
Context `{!KubeAPI R W, !CoreClient W, !DynamicClient U W, !ResourceJSON R, !SortSlice}.
Implicit Types cr : U.

Definition GetName cr : string := om_name (GetMeta cr).
Definition GetNamespace cr : string := om_namespace (GetMeta cr).
Definition ownerUID cr : string := om_uid (GetMeta cr).
Definition GetFinalizers cr : list string := om_finalizers (GetMeta cr).

(** ** [spec.go] *)

(** [s, found, err := NestedString(...); if err != nil || !found || s == ""] *)
Definition required_string cr (path : list string) (msg : string) : outcome api_error string :=
  match NestedString cr path with
  | Found s => if decide (s = "") then Err (ApiOther msg) else Ok s
  | Missing | WrongType _ => Err (ApiOther msg)
  end.

Definition required_int cr (path : list string) (ok : Z → bool) (msg : string) :
    outcome api_error Z :=
  match NestedInt64 cr path with
  | Found n => if ok n then Ok n else Err (ApiOther msg)
  | Missing | WrongType _ => Err (ApiOther msg)
  end.

(** The loop of [parseResourceList]. *)
Fixpoint parse_quantities (field : string) (values : list (string * string)) (out : gmap string Q) :
    outcome api_error (gmap string Q) :=
  match values with
  | [] => Ok out
  | (name, value) :: values =>
      match parse_quantity value with
      | Datatypes.inl err =>
          Err (ApiOther ("spec.service.resources." +:+ field +:+ "." +:+ name +:+ ": " +:+ err))
      | Datatypes.inr quantity => parse_quantities field values (<[name := quantity]> out)
      end
  end.

Definition parseResourceList cr (field : string) : outcome api_error (option (gmap string Q)) :=
  match NestedStringMap cr ["spec"; "service"; "resources"; field] with
  | Missing => Ok None
  | WrongType msg => Err (ApiOther msg)
  | Found values => out ← parse_quantities field (map_range values) ∅; Ok (Some out)
  end.

Definition parseResources cr : outcome api_error R :=
  requests ← parseResourceList cr "requests";
  limits ← parseResourceList cr "limits";
  Ok {| Requests := requests; Limits := limits |}.

Definition parseSpec cr : outcome api_error EntrySpec :=
  targetDB ← required_string cr ["spec"; "config"; "targetDB"] "spec.config.targetDB is required";
  targetRedis ← required_string cr ["spec"; "config"; "targetRedis"]
    "spec.config.targetRedis is required";
  port ← required_int cr ["spec"; "config"; "serviceExportPort"]
    (λ port, (1 <=? port) && (port <=? 65535))
    "spec.config.serviceExportPort must be between 1 and 65535";
  image ← required_string cr ["spec"; "service"; "image"] "spec.service.image is required";
  replicas ← required_int cr ["spec"; "service"; "replicas"] (λ replicas, 1 <=? replicas)
    "spec.service.replicas must be greater than zero";
  resources ← parseResources cr;
  Ok {| spec_Config := {| TargetDB := targetDB; TargetRedis := targetRedis;
                          ServiceExportPort := wraps 32 port |};
        spec_Service := {| Image := image; Replicas := wraps 32 replicas;
                           Resources := resources |} |}.

Definition stableTokenSecret cr : string :=
  hex_of (Sum256 (bytes_of (GetNamespace cr +:+ "/" +:+ GetName cr +:+ "/" +:+ ownerUID cr))).

Definition desiredConfigData cr (spec : EntrySpec) : labels :=
  list_to_map
    [("DBCP_TARGET_DB", TargetDB (spec_Config spec));
     ("DBCP_TARGET_REDIS", TargetRedis (spec_Config spec));
     ("DBCP_SERVICE_EXPORT_PORT", Itoa (ServiceExportPort (spec_Config spec)));
     ("APP_TCP_ADDR", "127.0.0.1:9000");
     ("APP_HTTP_ADDR", "127.0.0.1:8081");
     ("APP_HTTP_TCP_ADDR", "127.0.0.1:9000");
     ("APP_PROFILE_PICTURE_DIR", "/app/runtime/profile-pictures");
     ("APP_PROFILE_PICTURE_BASE_URL", "/api/me/profile-picture");
     ("APP_REDIS_KEY_PREFIX", "go-entry-task");
     ("APP_TOKEN_SECRET", stableTokenSecret cr);
     ("APP_DB_MAX_OPEN_CONNS", "128");
     ("APP_DB_MAX_IDLE_CONNS", "32");
     ("APP_TCP_WORKERS", "64");
     ("APP_TCP_QUEUE_SIZE", "2048");
     ("APP_TCP_MAX_FRAME_BYTES", "8388608");
     ("APP_HTTP_MAX_BODY_BYTES", "4194304");
     ("APP_UPLOAD_MAX_BYTES", "2097152");
     ("APP_SESSION_TTL", "24h");
     ("APP_DB_CONN_MAX_LIFETIME", "5m");
     ("APP_REDIS_DIAL_TIMEOUT", "2s");
     ("APP_REDIS_IO_TIMEOUT", "2s");
     ("APP_PROFILE_PICTURE_CACHE_SCOPE", "redis")].

(** The struct that is hashed: its fields in the order they are declared, the
    keys of its maps in byte order. *)
Definition spec_hash_input cr (spec : EntrySpec) (resources : json) : json :=
  JObj [("configMap", json_of_map (desiredConfigData cr spec));
        ("image", JStr (Image (spec_Service spec)));
        ("resources", resources);
        ("owner", JObj [("apiVersion", JStr dbcpAPIVersion); ("kind", JStr dbcpKind)]);
        ("ports", JObj [("http", JInt appHTTPPort); ("httpGateway", JInt appGatewayPort);
                        ("service", JInt (ServiceExportPort (spec_Config spec)));
                        ("tcpBackend", JInt appTCPPort)])].

(** [data, _ := json.Marshal(input)]: after an error the data is empty. *)
Definition desiredSpecHash cr (spec : EntrySpec) : outcome api_error string :=
  let hash data := string_of (take 12 (hex_encode (Sum256 data))) in
  match resources_json (Resources (spec_Service spec)) with
  | Ok res => Ok (hash (encode (spec_hash_input cr spec res)))
  | Err _ => Ok (hash [])
  | Panic => Panic
  end.

(** ** [resources.go] *)

Definition ownerRefs cr : list OwnerReference :=
  [{| or_apiVersion := dbcpAPIVersion; or_kind := dbcpKind; or_name := GetName cr;
      or_uid := ownerUID cr; or_controller := Some true; or_blockOwnerDeletion := None |}].

(** A new object's metadata. *)
Definition new_meta (name namespace : string) (l : labels) (owners : list OwnerReference) :
    ObjectMeta :=
  {| om_name := name; om_generateName := ""; om_namespace := namespace; om_uid := "";
     om_labels := l; om_annotations := ∅; om_ownerReferences := owners; om_finalizers := [];
     om_creationTimestamp := 0; om_deletionTimestamp := None |}.

Definition ensureConfigMap cr (spec : EntrySpec) : api W unit := λ w,
  let namespace := GetNamespace cr in
  let name := configMapName (GetName cr) in
  let desiredData := desiredConfigData cr spec in
  let desiredLabels := managedLabels (GetName cr) in
  let desiredOwnerRefs := ownerRefs cr in
  match get_configmap (namespace, name) w with
  | (Err NotFound, w) =>
      (_ ← create_configmap namespace
         {| cm_meta := new_meta name namespace desiredLabels desiredOwnerRefs;
            cm_data := desiredData |};
       mret tt) w
  | (Err err, w) => (Err err, w)
  | (Panic, w) => (Panic, w)
  | (Ok existing, w) =>
      if decide (cm_data existing = desiredData ∧ om_labels (cm_meta existing) = desiredLabels ∧
                 om_ownerReferences (cm_meta existing) = desiredOwnerRefs)
      then (Ok tt, w)
      else
        (_ ← update_configmap namespace
           {| cm_meta := with_owners desiredOwnerRefs (with_labels desiredLabels (cm_meta existing));
              cm_data := desiredData |};
         mret tt) w
  end.

Definition ensureService cr (spec : EntrySpec) : api W unit := λ w,
  let namespace := GetNamespace cr in
  let desiredLabels := managedLabels (GetName cr) in
  let desiredOwnerRefs := ownerRefs cr in
  let desiredSelector := managedLabels (GetName cr) in
  let desiredPorts := [{| sp_name := "http"; sp_protocol := "TCP";
                          sp_port := ServiceExportPort (spec_Config spec);
                          sp_targetPort := "http" |}] in
  match get_service (namespace, GetName cr) w with
  | (Err NotFound, w) =>
      (_ ← create_service namespace
         {| svc_meta := new_meta (GetName cr) namespace desiredLabels desiredOwnerRefs;
            svc_spec := {| ss_type := "ClusterIP"; ss_selector := desiredSelector;
                           ss_ports := desiredPorts; ss_clusterIP := "" |} |};
       mret tt) w
  | (Err err, w) => (Err err, w)
  | (Panic, w) => (Panic, w)
  | (Ok existing, w) =>
      let updated :=
        {| svc_meta := with_owners desiredOwnerRefs (with_labels desiredLabels (svc_meta existing));
           svc_spec := {| ss_type := "ClusterIP"; ss_selector := desiredSelector;
                          ss_ports := desiredPorts;
                          ss_clusterIP := ss_clusterIP (svc_spec existing) |} |} in
      if decide (om_labels (svc_meta existing) = om_labels (svc_meta updated) ∧
                 om_ownerReferences (svc_meta existing) = om_ownerReferences (svc_meta updated) ∧
                 ss_selector (svc_spec existing) = ss_selector (svc_spec updated) ∧
                 ss_ports (svc_spec existing) = ss_ports (svc_spec updated) ∧
                 ss_type (svc_spec existing) = ss_type (svc_spec updated))
      then (Ok tt, w)
      else (_ ← update_service namespace updated; mret tt) w
  end.

(** [Pods(namespace).List] with a selector in text form. *)
Definition list_selected (namespace selector : string) : api W (list (Pod R)) :=
  match parse_selector selector with
  | Some sel => list_pods namespace sel
  | None => throw (ApiOther "unable to parse requirement")
  end.

(** [Pods(namespace).Delete(ctx, pod.Name)], "not found" taken as success. *)
Definition delete_named (namespace : string) (pod : Pod R) : api W unit :=
  ignore_not_found (delete_pod (R := R) (namespace, om_name (pod_meta pod))).

(** The first loop of [reconcilePods]. *)
Fixpoint select_current (namespace specHash : string) (items current : list (Pod R)) :
    api W (list (Pod R)) :=
  match items with
  | [] => mret current
  | pod :: items =>
      if decide (pod_deleting pod) then select_current namespace specHash items current
      else if decide (pod_phase pod = PodFailed ∨ pod_phase pod = PodSucceeded) then
        _ ← delete_named namespace pod; select_current namespace specHash items current
      else if decide (default "" (pod_labels pod !! labelSpecHash) ≠ specHash) then
        _ ← delete_named namespace pod; select_current namespace specHash items current
      else select_current namespace specHash items (current ++ [pod])
  end.

(** [for len(current) > int(spec.Service.Replicas)]: [current[idx]] panics when
    [current] is empty. *)
Fixpoint scale_down (fuel : nat) (namespace : string) (current : list (Pod R)) (replicas : Z) :
    api W (list (Pod R)) :=
  if replicas <? Z.of_nat (length current) then
    match fuel, last current with
    | S fuel, Some pod =>
        _ ← delete_named namespace pod; scale_down fuel namespace (removelast current) replicas
    | _, _ => panic
    end
  else mret current.

Definition httpProbe (path : string) (initialDelay period : Z) : Probe :=
  {| pr_path := path; pr_port := "http";
     pr_initialDelaySeconds := initialDelay; pr_periodSeconds := period |}.

Definition desiredPod cr (spec : EntrySpec) (specHash : string) : Pod R :=
  {| pod_meta :=
       {| om_name := ""; om_generateName := GetName cr +:+ "-";
          om_namespace := GetNamespace cr; om_uid := "";
          om_labels := <[labelSpecHash := specHash]> (managedLabels (GetName cr));
          om_annotations := {[labelSpecHash := specHash]};
          om_ownerReferences := ownerRefs cr; om_finalizers := [];
          om_creationTimestamp := 0; om_deletionTimestamp := None |};
     pod_spec :=
       {| ps_restartPolicy := "Always";
          ps_containers := [
            {| c_name := containerName;
               c_image := Image (spec_Service spec);
               c_imagePullPolicy := "IfNotPresent";
               c_ports := [
                 {| cp_name := "http"; cp_containerPort := appHTTPPort; cp_protocol := "TCP" |};
                 {| cp_name := "gateway"; cp_containerPort := appGatewayPort; cp_protocol := "TCP" |};
                 {| cp_name := "tcp-backend"; cp_containerPort := appTCPPort; cp_protocol := "TCP" |}];
               c_envFrom := [configMapName (GetName cr)];
               c_readinessProbe := httpProbe "/api/health" 5 5;
               c_livenessProbe := httpProbe "/api/health" 15 10;
               c_resources := Resources (spec_Service spec) |}] |};
     pod_phase := PodPhaseUnset |}.

Definition reconcilePods cr (spec : EntrySpec) (specHash : string) : api W unit :=
  let namespace := GetNamespace cr in
  let replicas := Replicas (spec_Service spec) in
  pods ← list_selected namespace (managedSelector (GetName cr));
  current ← select_current namespace specHash pods [];
  let current := sort_slice (λ a b, pod_created a <? pod_created b) current in
  current ← scale_down (S (length current)) namespace current replicas;
  _ ← scale_up (Z.to_nat replicas) (desiredPod cr spec specHash) current replicas;
  mret tt.

(** ** [controller.go] *)

(** The name space a list or update goes to; [metav1.NamespaceAll] is the
    empty string. *)
Definition dbcpResources (namespace : string) : string :=
  if decide (namespace = "") then "" else namespace.

Fixpoint has_item (value : string) (items : list string) : bool :=
  match items with
  | [] => false
  | item :: items => if decide (item = value) then true else has_item value items
  end.
Definition hasFinalizer cr (value : string) : bool := has_item value (GetFinalizers cr).

Definition addFinalizer cr : api W U :=
  update_cr (dbcpResources (GetNamespace cr)) (SetFinalizers (GetFinalizers cr ++ [finalizer]) cr).

(** The loop writes behind the position it reads, so it filters in place. *)
Definition removeFinalizer cr : api W unit :=
  let out := filter (λ item, item ≠ finalizer) (GetFinalizers cr) in
  _ ← update_cr (dbcpResources (GetNamespace cr)) (SetFinalizers out cr);
  mret tt.

Fixpoint delete_all (namespace : string) (l : list (Pod R)) : api W unit :=
  match l with
  | [] => mret tt
  | pod :: l => _ ← delete_named namespace pod; delete_all namespace l
  end.

Definition cleanupOwnedResources cr : api W unit :=
  let namespace := GetNamespace cr in
  pods ← list_selected namespace (managedSelector (GetName cr));
  _ ← delete_all namespace pods;
  _ ← ignore_not_found (delete_service (R := R) (namespace, GetName cr));
  _ ← ignore_not_found (delete_configmap (R := R) (namespace, configMapName (GetName cr)));
  mret tt.

Definition reconcileCR cr : api W unit :=
  if decide (om_deletionTimestamp (GetMeta cr) ≠ None) then
    _ ← cleanupOwnedResources cr;
    if hasFinalizer cr finalizer then removeFinalizer cr else mret tt
  else
    cr ← (if hasFinalizer cr finalizer then mret cr else addFinalizer cr);
    spec ← lift (parseSpec cr);
    specHash ← lift (desiredSpecHash cr spec);
    _ ← ensureConfigMap cr spec;
    _ ← ensureService cr spec;
    _ ← reconcilePods cr spec specHash;
    mret tt.

(** The loop of [reconcileAll]: an error is logged, with the resource it is
    about, and the loop goes on.  The log lines are returned. *)
Fixpoint reconcile_items (items : list U) : api W (list (key * api_error)) := λ w,
  match items with
  | [] => (Ok [], w)
  | cr :: items =>
      match reconcileCR cr w with
      | (Panic, w) => (Panic, w)
      | (Ok _, w) => reconcile_items items w
      | (Err err, w) =>
          (log ← reconcile_items items; mret (((GetNamespace cr, GetName cr), err) :: log)) w
      end
  end.

Definition reconcileAll (namespace : string) : api W (list (key * api_error)) :=
  list ← list_crs (dbcpResources namespace);
  reconcile_items list.

(** [Run] reconciles, waits for the ticker, and starts over; [ticks] is how often
    the ticker fires before the context is done.  An error of a pass is logged. *)
Fixpoint Run (ticks : nat) (namespace : string) (ctx_err : api_error) : api W unit := λ w,
  match reconcileAll namespace w with
  | (Panic, w) => (Panic, w)
  | (_, w) =>
      match ticks with
      | O => (Err ctx_err, w)
      | S ticks => Run ticks namespace ctx_err w
      end
  end.
End legacy.

(** [New]: the name space to watch and the interval between two passes. *)
Record Options := { opt_Namespace : string; opt_Resync : Z }.
Definition New (opts : Options) : Options :=
  {| opt_Namespace := opt_Namespace opts;
     opt_Resync := if opt_Resync opts <=? 0 then defaultSync else opt_Resync opts |}.

End Legacy.
