(* ===== verification/Cluster.v ===== *)
(** * An in-memory cluster: an implementation of [KubeAPI] that satisfies [KubeLaws]

    It is used to evaluate the controllers on concrete clusters and to show
    that the laws can be met.  With [faults] on, each call first takes an entry
    of the fault script and fails if it is an error message.  A slow cluster has
    a cache that does not show new pods until it catches up. *)

From S2P Require Import Prelude GoStrings Json Kube Operator.
From stdpp Require Import infinite.
#[local] Open Scope Z_scope.

(** Quantities as their text; an absent list is omitted. *)
Abbreviation Res := (ResourceRequirements string).

Definition omit_empty (name : string) (m : option labels) : list (string * json) :=
  match m with
  | Some m => if decide (m = ∅) then [] else [(name, json_of_map m)]
  | None => []
  end.
#[global] Instance text_resource_json : ResourceJSON Res := λ r,
  Ok (JObj (omit_empty "limits" (Limits r) ++ omit_empty "requests" (Requests r))).
#[global] Instance text_resource_json_laws : ResourceJSONLaws Res.
Proof. done. Qed.

Record cluster := Cluster {
  c_pods : gmap key (Pod Res);
  c_services : gmap key Service;
  c_configmaps : gmap key ConfigMap;
  c_entries : gmap key (DbcpEntryService Res);
  c_clock : Z;
  c_faults : list (option string);
  c_slow : bool;
  c_unseen : gset key;     (* pods the cache does not show yet *)
}.

(** The name and namespace of a stored object are those it is stored under. *)
Definition rekey (k : key) (m : ObjectMeta) : ObjectMeta :=
  {| om_name := k.2; om_generateName := om_generateName m; om_namespace := k.1;
     om_uid := om_uid m; om_labels := om_labels m; om_annotations := om_annotations m;
     om_ownerReferences := om_ownerReferences m; om_finalizers := om_finalizers m;
     om_creationTimestamp := om_creationTimestamp m;
     om_deletionTimestamp := om_deletionTimestamp m |}.
Definition rekey_pod (k : key) (p : Pod Res) : Pod Res :=
  {| pod_meta := rekey k (pod_meta p); pod_spec := pod_spec p; pod_phase := pod_phase p |}.
Definition rekey_service (k : key) (s : Service) : Service :=
  {| svc_meta := rekey k (svc_meta s); svc_spec := svc_spec s |}.
Definition rekey_configmap (k : key) (c : ConfigMap) : ConfigMap :=
  {| cm_meta := rekey k (cm_meta c); cm_data := cm_data c |}.
Definition rekey_entry (k : key) (e : DbcpEntryService Res) : DbcpEntryService Res :=
  {| e_meta := rekey k (e_meta e);
     e_version := if decide (e_version e = "") then "1" else e_version e; e_spec := e_spec e |}.

#[global] Instance cluster_view : ClusterView Res cluster := {|
  pods w := map_imap (λ k p, Some (rekey_pod k p)) (c_pods w);
  services w := map_imap (λ k s, Some (rekey_service k s)) (c_services w);
  configmaps w := map_imap (λ k c, Some (rekey_configmap k c)) (c_configmaps w);
  entries w := map_imap (λ k e, Some (rekey_entry k e)) (c_entries w);
  cached_pods w :=
    map_imap (λ k p, if decide (k ∈ c_unseen w) then None else Some (rekey_pod k p)) (c_pods w);
  cached_services w := map_imap (λ k s, Some (rekey_service k s)) (c_services w);
  cached_configmaps w := map_imap (λ k c, Some (rekey_configmap k c)) (c_configmaps w);
  cached_entries w := map_imap (λ k e, Some (rekey_entry k e)) (c_entries w);
|}.

(** The cache has seen everything. *)
Definition catch_up (w : cluster) : cluster :=
  Cluster (c_pods w) (c_services w) (c_configmaps w) (c_entries w) (c_clock w) (c_faults w)
    (c_slow w) ∅.

Definition set_pods (f : gmap key (Pod Res) → gmap key (Pod Res)) (w : cluster) : cluster :=
  Cluster (f (c_pods w)) (c_services w) (c_configmaps w) (c_entries w) (c_clock w) (c_faults w)
    (c_slow w) (c_unseen w).
Definition set_services (f : gmap key Service → gmap key Service) (w : cluster) : cluster :=
  Cluster (c_pods w) (f (c_services w)) (c_configmaps w) (c_entries w) (c_clock w) (c_faults w)
    (c_slow w) (c_unseen w).
Definition set_configmaps (f : gmap key ConfigMap → gmap key ConfigMap) (w : cluster) : cluster :=
  Cluster (c_pods w) (c_services w) (f (c_configmaps w)) (c_entries w) (c_clock w) (c_faults w)
    (c_slow w) (c_unseen w).
Definition set_entries f (w : cluster) : cluster :=
  Cluster (c_pods w) (c_services w) (c_configmaps w) (f (c_entries w)) (c_clock w) (c_faults w)
    (c_slow w) (c_unseen w).

(** ** Operations *)

Definition next_fault (w : cluster) : option string * cluster :=
  match c_faults w with
  | [] => (None, w)
  | f :: fs =>
      (f, Cluster (c_pods w) (c_services w) (c_configmaps w) (c_entries w) (c_clock w) fs
           (c_slow w) (c_unseen w))
  end.

Definition faulty {A} (faults : bool) (m : api cluster A) : api cluster A := λ w,
  if faults then
    match next_fault w with
    | (Some msg, w') => (Err (ApiOther msg), w')
    | (None, w') => m w'
    end
  else m w.

(** The part of a name after a prefix. *)
Definition suffix_after (prefix name : string) : string :=
  string_of (drop (length (bytes_of prefix)) (bytes_of name)).

Definition generate_name (prefix : string) (taken : gmap key (Pod Res)) : string :=
  prefix +:+ fresh (set_map (D := gset string) (λ k : key, suffix_after prefix k.2) (dom taken)).

Definition mark_deleting (now : Z) (p : Pod Res) : Pod Res :=
  let m := pod_meta p in
  {| pod_meta :=
       {| om_name := om_name m; om_generateName := om_generateName m;
          om_namespace := om_namespace m; om_uid := om_uid m; om_labels := om_labels m;
          om_annotations := om_annotations m; om_ownerReferences := om_ownerReferences m;
          om_finalizers := om_finalizers m; om_creationTimestamp := om_creationTimestamp m;
          om_deletionTimestamp := Some (default now (om_deletionTimestamp m)) |};
     pod_spec := pod_spec p; pod_phase := pod_phase p |}.

(** Through the cache, or past it. *)
Definition cl_list_pods (shown : cluster → gmap key (Pod Res)) (ns : string) (sel : labels) :
    api cluster (list (Pod Res)) := λ w,
  (Ok (filter (λ p, om_namespace (pod_meta p) = ns ∧ selects sel (pod_labels p))
         (snd <$> map_to_list (shown w))), w).

Definition cl_create_pod (p : Pod Res) : api cluster (Pod Res) := λ w,
  let m := pod_meta p in
  let k := (om_namespace m, generate_name (om_generateName m) (c_pods w)) in
  let p' := {| pod_meta :=
       {| om_name := k.2; om_generateName := om_generateName m;
          om_namespace := om_namespace m; om_uid := om_uid m; om_labels := om_labels m;
          om_annotations := om_annotations m; om_ownerReferences := om_ownerReferences m;
          om_finalizers := om_finalizers m; om_creationTimestamp := c_clock w;
          om_deletionTimestamp := None |};
     pod_spec := pod_spec p; pod_phase := PodPending |} in
  (Ok p', Cluster (<[k := p']> (c_pods w)) (c_services w) (c_configmaps w) (c_entries w)
            (c_clock w + 1) (c_faults w) (c_slow w)
            (if c_slow w then {[k]} ∪ c_unseen w else c_unseen w ∖ {[k]})).

Definition cl_delete_pod (k : key) : api cluster unit := λ w,
  match c_pods w !! k with
  | None => (Err NotFound, w)
  | Some p => (Ok tt, set_pods <[k := mark_deleting (c_clock w) p]> w)
  end.

Definition cl_delete_service (k : key) : api cluster unit := λ w,
  match c_services w !! k with
  | None => (Err NotFound, w)
  | Some _ => (Ok tt, set_services (delete k) w)
  end.

Definition cl_delete_configmap (k : key) : api cluster unit := λ w,
  match c_configmaps w !! k with
  | None => (Err NotFound, w)
  | Some _ => (Ok tt, set_configmaps (delete k) w)
  end.

Definition cl_get_entry (k : key) : api cluster (DbcpEntryService Res) := λ w,
  match entries w !! k with
  | Some e => (Ok e, w)
  | None => (Err NotFound, w)
  end.

Definition cl_update_entry (e : DbcpEntryService Res) : api cluster (DbcpEntryService Res) := λ w,
  let k := meta_key (e_meta e) in
  match entries w !! k with
  | None => (Err NotFound, w)
  | Some old =>
      if decide (e_version old = e_version e) then
        let e' := with_version ("1" +:+ e_version e) e in
        (Ok e', set_entries
           (if decide (om_deletionTimestamp (e_meta old) ≠ None ∧ om_finalizers (e_meta e) = [])
            then delete k else <[k := e']>) w)
      else (Err (ApiOther "the object has been modified"), w)
  end.

(** The server keeps the address it allocated when a client sends none. *)
Definition allocate (old : option Service) (s : Service) : Service :=
  let sp := svc_spec s in
  {| svc_meta := svc_meta s;
     svc_spec := {| ss_type := ss_type sp; ss_selector := ss_selector sp; ss_ports := ss_ports sp;
                    ss_clusterIP :=
                      if decide (ss_clusterIP sp = "")
                      then match old with
                           | Some o => ss_clusterIP (svc_spec o)
                           | None => "10.96.0.10"
                           end
                      else ss_clusterIP sp |} |}.

Definition cannot_rename : api_error :=
  ApiOther "MutateFn cannot mutate object name and/or object namespace".

Definition cl_create_or_update_service (stub : Service)
    (f : Service → outcome api_error Service) : api cluster unit := λ w,
  let k := meta_key (svc_meta stub) in
  match f (default stub (services w !! k)) with
  | Ok s => if decide (meta_key (svc_meta s) ≠ k) then (Err cannot_rename, w)
            else if decide (services w !! k = Some s) then (Ok tt, w)
            else (Ok tt, set_services <[k := allocate (services w !! k) s]> w)
  | Err e => (Err e, w)
  | Panic => (Panic, w)
  end.

Definition cl_create_or_update_configmap (stub : ConfigMap)
    (f : ConfigMap → outcome api_error ConfigMap) : api cluster unit := λ w,
  let k := meta_key (cm_meta stub) in
  match f (default stub (configmaps w !! k)) with
  | Ok c => if decide (meta_key (cm_meta c) ≠ k) then (Err cannot_rename, w)
            else if decide (configmaps w !! k = Some c) then (Ok tt, w)
            else (Ok tt, set_configmaps <[k := c]> w)
  | Err e => (Err e, w)
  | Panic => (Panic, w)
  end.

Definition cluster_api (faults : bool) : KubeAPI Res cluster := {|
  get_entry k := faulty faults (cl_get_entry k);
  update_entry e := faulty faults (cl_update_entry e);
  list_pods ns sel := faulty faults (cl_list_pods cached_pods ns sel);
  create_pod p := faulty faults (cl_create_pod p);
  delete_pod k := faulty faults (cl_delete_pod k);
  delete_service k := faulty faults (cl_delete_service k);
  delete_configmap k := faulty faults (cl_delete_configmap k);
  create_or_update_service stub f := faulty faults (cl_create_or_update_service stub f);
  create_or_update_configmap stub f := faulty faults (cl_create_or_update_configmap stub f);
|}.

(** ** [controllerutil] and [sort.Slice] *)

Definition owner_ref (e : DbcpEntryService Res) : OwnerReference :=
  {| or_apiVersion := GroupVersion_String GroupVersion; or_kind := "DbcpEntryService";
     or_name := om_name (e_meta e); or_uid := om_uid (e_meta e);
     or_controller := Some true; or_blockOwnerDeletion := Some true |}.

#[global] Instance cluster_util : ControllerUtil Res := {|
  ContainsFinalizer m f := bool_decide (f ∈ om_finalizers m);
  AddFinalizer m f :=
    if decide (f ∈ om_finalizers m) then m else with_finalizers (om_finalizers m ++ [f]) m;
  RemoveFinalizer m f := with_finalizers (filter (λ x, x ≠ f) (om_finalizers m)) m;
  SetControllerReference e m :=
    if existsb (λ o, bool_decide (or_controller o = Some true) &&
                     negb (bool_decide (or_uid o = om_uid (e_meta e)))) (om_ownerReferences m)
    then Err (ApiOther "already owned by another controller")
    else Ok (with_owners (filter (λ o, or_uid o ≠ om_uid (e_meta e)) (om_ownerReferences m)
                            ++ [owner_ref e]) m);
|}.

(** Insertion sort, which is what [sort.Slice] does on short slices. *)
Fixpoint insert_sorted {A} (less : A → A → bool) (x : A) (l : list A) : list A :=
  match l with
  | [] => [x]
  | y :: l => if less x y then x :: y :: l else y :: insert_sorted less x l
  end.

#[global] Instance insertion_sort : SortSlice := λ A less l,
  foldl (λ acc x, insert_sorted less x acc) [] l.

(** ** The laws hold *)

Lemma pods_lookup (w : cluster) k : pods w !! k = rekey_pod k <$> c_pods w !! k.
Proof. cbn. rewrite map_lookup_imap. by destruct (c_pods w !! k). Qed.
Lemma services_lookup (w : cluster) k : services w !! k = rekey_service k <$> c_services w !! k.
Proof. cbn. rewrite map_lookup_imap. by destruct (c_services w !! k). Qed.
Lemma configmaps_lookup (w : cluster) k :
  configmaps w !! k = rekey_configmap k <$> c_configmaps w !! k.
Proof. cbn. rewrite map_lookup_imap. by destruct (c_configmaps w !! k). Qed.
Lemma entries_lookup (w : cluster) k : entries w !! k = rekey_entry k <$> c_entries w !! k.
Proof. cbn. rewrite map_lookup_imap. by destruct (c_entries w !! k). Qed.

Lemma rekey_id m : rekey (meta_key m) m = m.
Proof. by destruct m. Qed.
Lemma rekey_pod_id p : rekey_pod (pod_key p) p = p.
Proof. destruct p as [m ? ?]. unfold rekey_pod, pod_key. cbn. by rewrite rekey_id. Qed.
Lemma rekey_service_id s : rekey_service (meta_key (svc_meta s)) s = s.
Proof. destruct s as [m ?]. unfold rekey_service. cbn. by rewrite rekey_id. Qed.
Lemma rekey_configmap_id c : rekey_configmap (meta_key (cm_meta c)) c = c.
Proof. destruct c as [m ?]. unfold rekey_configmap. cbn. by rewrite rekey_id. Qed.
Lemma rekey_entry_id e : e_version e ≠ "" → rekey_entry (meta_key (e_meta e)) e = e.
Proof.
  intros Hv. destruct e as [m v ?]. unfold rekey_entry. cbn in *. by rewrite rekey_id, decide_False.
Qed.

Lemma cached_pods_lookup (w : cluster) k p :
  cached_pods w !! k = Some p ↔ pods w !! k = Some p ∧ k ∉ c_unseen w.
Proof.
  rewrite pods_lookup. cbn. rewrite map_lookup_imap. destruct (c_pods w !! k); cbn; [|naive_solver].
  case_decide; naive_solver.
Qed.
Lemma pods_keyed_cluster (w : cluster) k p : pods w !! k = Some p → pod_key p = k.
Proof.
  rewrite pods_lookup. destruct (c_pods w !! k); [|done]. cbn. intros [= <-]. by destruct k.
Qed.

Definition same_maps (w w1 : cluster) : Prop :=
  c_pods w1 = c_pods w ∧ c_services w1 = c_services w ∧
  c_configmaps w1 = c_configmaps w ∧ c_entries w1 = c_entries w ∧ c_unseen w1 = c_unseen w.

Lemma same_maps_view w w1 : same_maps w w1 → view_eq w w1.
Proof. intros (E1 & E2 & E3 & E4 & _). unfold view_eq. cbn. by rewrite E1, E2, E3, E4. Qed.

Lemma same_maps_cached w w1 :
  same_maps w w1 → cached_pods w1 = cached_pods w ∧ cached_services w1 = cached_services w ∧
    cached_configmaps w1 = cached_configmaps w ∧ cached_entries w1 = cached_entries w.
Proof. intros (E1 & E2 & E3 & E4 & E5). cbn. by rewrite E1, E2, E3, E4, E5. Qed.

(** Services are always shown as they are; pods as long as no others appear. *)
Lemma settled_pods (w w1 : cluster) :
  c_pods w1 = c_pods w → c_unseen w1 = c_unseen w → settled w w1.
Proof. intros E1 E2 k. split; [|done]. intros _ Hk. cbn in *. by rewrite E1, E2. Qed.

Lemma wp_faulty {A} faults (m : api cluster A) Q w :
  (∀ w1, same_maps w w1 → wp m Q w1) →
  (∀ msg w1, same_maps w w1 → Q (Err (ApiOther msg)) w1) →
  wp (faulty faults m) Q w.
Proof.
  intros Hm He. unfold wp, faulty. destruct faults; [|by apply Hm].
  unfold next_fault. destruct (c_faults w) as [|[msg|] fs]; [by apply Hm|by apply He|by apply Hm].
Qed.

Lemma suffix_after_app prefix s : suffix_after prefix (prefix +:+ s) = s.
Proof. unfold suffix_after. by rewrite bytes_of_app, drop_app_length, string_of_bytes_of. Qed.

Lemma generate_name_fresh ns prefix taken : taken !! (ns, generate_name prefix taken) = None.
Proof.
  apply eq_None_not_Some. intros Hs. apply elem_of_dom in Hs. unfold generate_name in Hs.
  set (X := set_map _ _) in Hs. apply (is_fresh X). unfold X at 2. apply elem_of_map.
  eexists; split; [|exact Hs]. cbn. by rewrite suffix_after_app.
Qed.

Lemma map_imap_insert_eq {A} (f : key → A → A) (k : key) (x : A) (m : gmap key A) :
  f k x = x →
  map_imap (λ k y, Some (f k y)) (<[k := x]> m) = <[k := x]> (map_imap (λ k y, Some (f k y)) m).
Proof. intros Hx. rewrite map_imap_insert, Hx. done. Qed.

Lemma map_imap_delete_eq {A} (f : key → A → A) (k : key) (m : gmap key A) :
  map_imap (λ k y, Some (f k y)) (delete k m) = delete k (map_imap (λ k y, Some (f k y)) m).
Proof.
  apply map_eq. intros i. rewrite map_lookup_imap, !lookup_delete, map_lookup_imap.
  by case_decide.
Qed.

Lemma keyed_keys (m : gmap key (Pod Res)) :
  (∀ k p, m !! k = Some p → pod_key p = k) →
  (pod_key ∘ snd) <$> map_to_list m = (map_to_list m).*1.
Proof.
  intros Hkey. apply list_fmap_ext. intros i [k p] Hi. cbn. apply Hkey.
  apply elem_of_map_to_list. by eapply list_elem_of_lookup_2.
Qed.

Section laws.
Context (faults : bool).
#[local] Existing Instance cluster_api.

(** A call that fails by the script changes nothing. *)
Ltac faulted :=
  let Hs := fresh in
  let Hset := fresh in
  intros ? ? Hs; pose proof (settled_pods _ _ (proj1 Hs) (proj2 (proj2 (proj2 (proj2 Hs))))) as Hset;
  apply same_maps_view in Hs; destruct Hs as (?Hp & ?Hs & ?Hc & ?He);
  unfold no_panic, view_eq, only_pod, only_service, only_configmap, only_entry, pod_gone;
  repeat match goal with E : _ = _ |- _ => rewrite E; clear E end;
  split_and!; try done; try (by intros [?|?]); unfold not_revived; eauto.
Ltac law :=
  intros; apply wp_faulty; [|by faulted];
  intros w1 Hsame; pose proof Hsame as (E1 & E2 & E3 & E4 & E5).

Lemma cl_get_entry_law k w :
  wp (faulty faults (cl_get_entry k)) (λ r w', no_panic r ∧ view_eq w w' ∧ settled w w' ∧
    (∀ e, r = Ok e → cached_entries w !! k = Some e) ∧
    (r = Err NotFound → cached_entries w !! k = None)) w.
Proof.
  law. pose proof (same_maps_view _ _ Hsame) as Hv. pose proof Hv as (_ & _ & _ & He).
  pose proof (settled_pods w w1 E1 E5). change (cached_entries w) with (entries w).
  unfold wp, cl_get_entry. rewrite He.
  destruct (entries w !! k); cbn [fst snd]; (split_and!; [done|done|done|congruence|congruence]).
Qed.

Lemma list_shown (shown : gmap key (Pod Res)) ns sel ps :
  (∀ k p, shown !! k = Some p → pod_key p = k) →
  ps = filter (λ p, om_namespace (pod_meta p) = ns ∧ selects sel (pod_labels p))
         (snd <$> map_to_list shown) →
  NoDup (pod_key <$> ps) ∧
  ∀ p, p ∈ ps ↔ ∃ n, shown !! (ns, n) = Some p ∧ selects sel (pod_labels p).
Proof.
  intros Hkey ->. split.
  - eapply sublist_NoDup.
    2: { apply fmap_sublist, sublist_filter. }
    rewrite <- list_fmap_compose.
    rewrite keyed_keys by done. apply NoDup_fst_map_to_list.
  - intros p. rewrite list_elem_of_filter, list_elem_of_fmap. split.
    + intros [[Hns Hsel] ([k q] & -> & Hin)]. apply elem_of_map_to_list in Hin. cbn in *.
      pose proof (Hkey _ _ Hin) as <-. exists (om_name (pod_meta q)). by rewrite <- Hns.
    + intros (n & Hin & Hsel). pose proof (Hkey _ _ Hin) as Hk. split.
      * by injection Hk.
      * exists ((ns, n), p). split; [done|]. by apply elem_of_map_to_list.
Qed.

Lemma cl_list_pods_law shown ns sel w :
  (∀ w k p, shown w !! k = Some p → pod_key p = k) →
  (∀ w w1, same_maps w w1 → shown w1 = shown w) →
  wp (faulty faults (cl_list_pods shown ns sel)) (λ r w', no_panic r ∧ view_eq w w' ∧
    (∀ ps, r = Ok ps → NoDup (pod_key <$> ps) ∧
      ∀ p, p ∈ ps ↔ ∃ n, shown w !! (ns, n) = Some p ∧ selects sel (pod_labels p))) w.
Proof.
  intros Hkey Hshown. law. pose proof (same_maps_view _ _ Hsame) as Hv.
  split; [done|]. split; [done|]. unfold cl_list_pods. cbn [fst]. rewrite (Hshown _ _ Hsame).
  intros ps [= <-]. apply list_shown; [apply Hkey|done].
Qed.

Lemma cl_create_pod_law p w :
  wp (faulty faults (cl_create_pod p)) (λ r w', no_panic r ∧
    (∀ e, r = Err e → view_eq w w' ∨ ∃ p', pod_added p p' w w') ∧
    (∀ p', r = Ok p' → pod_added p p' w w')) w.
Proof.
  law. unfold wp, cl_create_pod. cbn [fst snd]. split; [done|]. split; [done|].
  intros p' [= Hp']. assert (Hk : pod_key p' =
    (om_namespace (pod_meta p), generate_name (om_generateName (pod_meta p)) (c_pods w1)))
    by by rewrite <- Hp'.
  unfold pod_added. rewrite Hp', <- Hk.
  split_and!.
  - split; [|split_and!; cbn; congruence]. intros k' Hne. rewrite !pods_lookup. cbn.
    by rewrite lookup_insert_ne, E1 by done.
  - rewrite pods_lookup, Hk, <- E1, generate_name_fresh. done.
  - rewrite pods_lookup. cbn. by rewrite lookup_insert_eq; cbn; rewrite rekey_pod_id.
  - by rewrite <- Hp'.
  - by rewrite <- Hp'.
  - by rewrite <- Hp'.
  - by rewrite <- Hp'.
  - by rewrite <- Hp'.
  - rewrite <- Hp'. unfold pod_deleting. cbn. by intros [].
  - by rewrite <- Hp'.
Qed.

Lemma cl_delete_pod_law k w :
  wp (faulty faults (cl_delete_pod k)) (λ r w', no_panic r ∧ only_pod k w w' ∧
    (r = Ok tt ∨ r = Err NotFound → pod_gone k w') ∧
    (∀ q, pods w' !! k = Some q →
      ∃ p, pods w !! k = Some p ∧ not_revived (pod_meta p) (pod_meta q))) w.
Proof.
  law. unfold wp, cl_delete_pod. rewrite E1.
  destruct (c_pods w !! k) as [p|] eqn:Hk; cbn [fst snd].
  - split; [done|]. split; [|split].
    + split; [|split_and!; cbn; congruence]. intros k' Hne. rewrite !pods_lookup. cbn.
      by rewrite lookup_insert_ne, E1.
    + intros _ q. rewrite pods_lookup. cbn. rewrite lookup_insert_eq. intros [= <-].
      unfold pod_deleting. done.
    + intros q. rewrite !pods_lookup, Hk. cbn. rewrite lookup_insert_eq. intros [= <-].
      eexists; split; [done|]. split; [done|]. by destruct p as [[] ? ?].
  - pose proof (same_maps_view _ _ Hsame) as (Hp & ? & ? & ?).
    assert (Hnone : pods w1 !! k = None) by (by rewrite pods_lookup, E1, Hk).
    split; [done|]. split; [split_and!; try done; by rewrite Hp|]. split.
    + intros _ q Hq. rewrite Hnone in Hq. done.
    + intros q Hq. rewrite Hnone in Hq. done.
Qed.

Lemma cl_delete_service_law k w :
  wp (faulty faults (cl_delete_service k)) (λ r w', no_panic r ∧ only_service k w w' ∧
    (r = Ok tt ∨ r = Err NotFound → service_gone k w') ∧
    (∀ s', services w' !! k = Some s' →
      ∃ s, services w !! k = Some s ∧ not_revived (svc_meta s) (svc_meta s'))) w.
Proof.
  law. pose proof (same_maps_view _ _ Hsame) as (Hp & Hs & Hc & He).
  unfold wp, cl_delete_service, service_gone, only_service.
  destruct (c_services w1 !! k) as [s|] eqn:Hk; cbn [fst snd];
    (split; [done|]; split; [split_and!; try done|split]).
  - intros k' Hne. rewrite !services_lookup. cbn. by rewrite lookup_delete_ne, E2.
  - intros _ s'. rewrite services_lookup. cbn. by rewrite lookup_delete_eq.
  - intros s'. rewrite services_lookup. cbn. by rewrite lookup_delete_eq.
  - intros k' Hne. by rewrite Hs.
  - intros _ s'. by rewrite services_lookup, Hk.
  - intros s'. by rewrite services_lookup, Hk.
Qed.

Lemma cl_delete_configmap_law k w :
  wp (faulty faults (cl_delete_configmap k)) (λ r w', no_panic r ∧ only_configmap k w w' ∧
    (r = Ok tt ∨ r = Err NotFound → configmap_gone k w') ∧
    (∀ c', configmaps w' !! k = Some c' →
      ∃ c, configmaps w !! k = Some c ∧ not_revived (cm_meta c) (cm_meta c'))) w.
Proof.
  law. pose proof (same_maps_view _ _ Hsame) as (Hp & Hs & Hc & He).
  unfold wp, cl_delete_configmap, configmap_gone, only_configmap.
  destruct (c_configmaps w1 !! k) as [s|] eqn:Hk; cbn [fst snd];
    (split; [done|]; split; [split_and!; try done|split]).
  - intros k' Hne. rewrite !configmaps_lookup. cbn. by rewrite lookup_delete_ne, E3.
  - intros _ s'. rewrite configmaps_lookup. cbn. by rewrite lookup_delete_eq.
  - intros s'. rewrite configmaps_lookup. cbn. by rewrite lookup_delete_eq.
  - intros k' Hne. by rewrite Hc.
  - intros _ s'. by rewrite configmaps_lookup, Hk.
  - intros s'. by rewrite configmaps_lookup, Hk.
Qed.

Lemma cl_update_entry_law e w :
  e_version e ≠ "" →
  wp (faulty faults (cl_update_entry e)) (λ r w', no_panic r ∧ only_entry (meta_key (e_meta e)) w w' ∧
    (entries w' = entries w ∨ entry_updated e w w') ∧
    (∀ e', r = Ok e' → entry_updated e w w')) w.
Proof.
  intros Hver. law. pose proof (same_maps_view _ _ Hsame) as (Hp & Hs & Hc & He).
  unfold wp, cl_update_entry. set (k := meta_key (e_meta e)). rewrite He.
  assert (Hno : ∀ r : outcome api_error (DbcpEntryService Res), (∀ e', r ≠ Ok e') → no_panic r →
    no_panic r ∧ only_entry k w w1 ∧
    (entries w1 = entries w ∨ entry_updated e w w1) ∧ (∀ e', r = Ok e' → entry_updated e w w1)).
  { intros r Hr ?. split; [done|]. split; [|split; [by left|naive_solver]].
    unfold only_entry. rewrite Hp, Hs, Hc, He. done. }
  destruct (entries w !! k) as [old|] eqn:Hold; [|by apply Hno].
  case_decide as Hv; [|by apply Hno]. cbn [fst snd].
  set (e' := with_version ("1" +:+ e_version e) e).
  assert (Hupd : entry_updated e w (set_entries (if decide (om_deletionTimestamp (e_meta old) ≠ None ∧
                        om_finalizers (e_meta e) = []) then delete k else <[k := e']>) w1)).
  { exists old, ("1" +:+ e_version e). split_and!; [done|done|]. cbn. rewrite E4. fold k. case_decide.
    - apply map_imap_delete_eq.
    - apply (map_imap_insert_eq rekey_entry k e'). by apply (rekey_entry_id e'). }
  split; [done|]. split; [|by auto].
  split_and!; try done. intros k' Hne. rewrite !entries_lookup. cbn.
  case_decide; by rewrite ?lookup_delete_ne, ?lookup_insert_ne, E4 by done.
Qed.

Lemma service_stored_allocate o s :
  service_stored s (rekey_service (meta_key (svc_meta s)) (allocate o s)).
Proof. by destruct s as [m [? ? ? ?]]. Qed.

Lemma cl_create_or_update_service_law stub f w :
  let k := meta_key (svc_meta stub) in
  let base := default stub (cached_services w !! k) in
  no_panic (f base) →
  wp (faulty faults (cl_create_or_update_service stub f)) (λ r w',
    no_panic r ∧ only_service k w w' ∧ settled w w' ∧
    (r = Ok tt → ∃ s, f base = Ok s ∧
       ((cached_services w !! k = Some s ∧ view_eq w w') ∨
        ∃ s', services w' !! k = Some s' ∧ service_stored s s'))) w.
Proof.
  law. pose proof (same_maps_view _ _ Hsame) as Hv. pose proof Hv as (Hp & Hs & Hc & He).
  pose proof (settled_pods w w1 E1 E5) as Hset.
  assert (Hv1 : only_service (meta_key (svc_meta stub)) w w1)
    by (split_and!; try done; intros; by rewrite ?Hs, ?Hc).
  change (cached_services w) with (services w) in *.
  unfold wp, cl_create_or_update_service. subst base k; set (k := meta_key (svc_meta stub)) in *.
  rewrite Hs.
  destruct (f (default stub (services w !! k))) as [s|e|]; [|by split_and!|done].
  case_decide as Hk; [by split_and!|].
  case_decide as Hd; cbn [fst snd]; (split; [done|]; split; [try done; split_and!; try done|split]).
  - done.
  - intros _. exists s. split; [done|]. by left.
  - intros k' Hne. rewrite !services_lookup. cbn. by rewrite lookup_insert_ne, E2.
  - by apply settled_pods.
  - intros _. exists s. split; [done|]. right. eexists. rewrite services_lookup. cbn.
    rewrite lookup_insert_eq. cbn. split; [done|]. rewrite <- Hk.
    apply service_stored_allocate.
Qed.

Lemma cl_create_or_update_configmap_law stub f w :
  let k := meta_key (cm_meta stub) in
  let base := default stub (cached_configmaps w !! k) in
  no_panic (f base) →
  wp (faulty faults (cl_create_or_update_configmap stub f)) (λ r w',
    no_panic r ∧ only_configmap k w w' ∧ settled w w' ∧
    (r = Ok tt → ∃ s, f base = Ok s ∧
       ((cached_configmaps w !! k = Some s ∧ view_eq w w') ∨
        ∃ s', configmaps w' !! k = Some s' ∧ configmap_stored s s'))) w.
Proof.
  law. pose proof (same_maps_view _ _ Hsame) as Hv. pose proof Hv as (Hp & Hs & Hc & He).
  pose proof (settled_pods w w1 E1 E5) as Hset.
  assert (Hv1 : only_configmap (meta_key (cm_meta stub)) w w1)
    by (split_and!; try done; intros; by rewrite ?Hs, ?Hc).
  change (cached_configmaps w) with (configmaps w) in *.
  unfold wp, cl_create_or_update_configmap. subst base k; set (k := meta_key (cm_meta stub)) in *.
  rewrite Hc.
  destruct (f (default stub (configmaps w !! k))) as [s|e|]; [|by split_and!|done].
  case_decide as Hk; [by split_and!|].
  case_decide as Hd; cbn [fst snd]; (split; [done|]; split; [try done; split_and!; try done|split]).
  - done.
  - intros _. exists s. split; [done|]. by left.
  - intros k' Hne. rewrite !configmaps_lookup. cbn. by rewrite lookup_insert_ne, E3.
  - by apply settled_pods.
  - intros _. exists s. split; [done|]. right. eexists. rewrite configmaps_lookup. cbn.
    rewrite lookup_insert_eq. cbn. split; [done|]. rewrite <- Hk.
    by rewrite rekey_configmap_id.
Qed.

End laws.

#[global] Instance cluster_laws faults : @KubeLaws Res cluster _ (cluster_api faults).
Proof.
  assert (Hs : ∀ (w : cluster) k s, services w !! k = Some s → meta_key (svc_meta s) = k).
  { intros w k s. rewrite services_lookup. destruct (c_services w !! k); [|done]. cbn.
    intros [= <-]. by destruct k. }
  assert (Hc : ∀ (w : cluster) k c, configmaps w !! k = Some c → meta_key (cm_meta c) = k).
  { intros w k c. rewrite configmaps_lookup. destruct (c_configmaps w !! k); [|done]. cbn.
    intros [= <-]. by destruct k. }
  assert (He : ∀ (w : cluster) k e, entries w !! k = Some e → meta_key (e_meta e) = k).
  { intros w k p. rewrite entries_lookup. destruct (c_entries w !! k); [|done]. cbn.
    intros [= <-]. by destruct k. }
  split; try done.
  - apply pods_keyed_cluster.
  - intros w k p [Hp _]%cached_pods_lookup. by apply pods_keyed_cluster in Hp.
  - intros w k e. change (cached_entries w) with (entries w). rewrite entries_lookup.
    destruct (c_entries w !! k); [|done]. cbn. intros [= <-]. cbn. by case_decide.
  - intros w k e e'. change (cached_entries w) with (entries w). congruence.
  - apply cl_get_entry_law.
  - apply cl_update_entry_law.
  - intros ns sel w. apply cl_list_pods_law.
    + intros w1 k p [Hp _]%cached_pods_lookup. by apply pods_keyed_cluster in Hp.
    + intros w1 w2 Hsame. apply (same_maps_cached _ _ Hsame).
  - apply cl_create_pod_law.
  - apply cl_delete_pod_law.
  - apply cl_delete_service_law.
  - apply cl_delete_configmap_law.
  - apply cl_create_or_update_service_law.
  - apply cl_create_or_update_configmap_law.
Qed.

(** The memory never shows a pod as other than it is. *)
Lemma cluster_labels_kept ns (w : cluster) : labels_kept ns w.
Proof. intros n p q [Hp _]%cached_pods_lookup Hq. congruence. Qed.

Lemma cluster_caught_up ns (w : cluster) : c_unseen w = ∅ → caught_up ns w.
Proof.
  intros Hu. split; [|done]. intros n. apply option_eq. intros p. rewrite cached_pods_lookup, Hu.
  set_solver.
Qed.

#[global] Instance cluster_util_laws : ControllerUtilLaws Res.
Proof.
  split.
  - intros m f. cbn. by rewrite bool_decide_eq_true.
  - intros m f Hf. cbn. by rewrite decide_False.
  - done.
  - intros e m. cbn. destruct (existsb _ _); split; try done. intros m' [= <-].
    eexists; split; [done|]. exists (owner_ref e). split; [set_solver|done].
Qed.

Lemma insert_sorted_perm {A} (less : A → A → bool) x l : insert_sorted less x l ≡ₚ x :: l.
Proof.
  induction l as [|y l IH]; cbn; [done|]. destruct (less x y); [done|].
  rewrite IH. apply Permutation_swap.
Qed.

Lemma insert_sorted_sorted {A} (f : A → Z) x l :
  StronglySorted (λ x y, f x ≤ f y) l →
  StronglySorted (λ x y, f x ≤ f y) (insert_sorted (λ x y, f x <? f y) x l).
Proof.
  induction 1 as [|y l Hl IH Hall]; cbn; [by repeat constructor|].
  destruct (Z.ltb_spec (f x) (f y)).
  - constructor; [by constructor|]. constructor; [lia|].
    eapply Forall_impl; [exact Hall|]. cbn. lia.
  - constructor; [done|]. rewrite insert_sorted_perm. constructor; [lia|done].
Qed.

#[global] Instance insertion_sort_laws : SortSliceLaws.
Proof.
  split.
  - intros A less l. unfold sort_slice, insertion_sort.
    enough (∀ acc, foldl (λ acc x, insert_sorted less x acc) acc l ≡ₚ l ++ acc) as Hacc
      by (rewrite Hacc; by rewrite app_nil_r).
    induction l as [|x l IH]; intros acc; cbn; [done|].
    rewrite IH, insert_sorted_perm. by rewrite Permutation_middle.
  - intros A f l. unfold sort_slice, insertion_sort.
    enough (∀ acc, StronglySorted (λ x y, f x ≤ f y) acc → StronglySorted (λ x y, f x ≤ f y)
      (foldl (λ acc x, insert_sorted (λ x y, f x <? f y) x acc) acc l)) as Hacc
      by (apply Hacc; constructor).
    induction l as [|x l IH]; intros acc Hacc; cbn; [done|].
    by apply IH, insert_sorted_sorted.
Qed.
