(* ===== verification/Demo.v ===== *)
(** * Concrete clusters

    A small resource, the clusters it goes through in its life, and the
    decision procedures that evaluate the hypotheses of the operator's theorems
    on them. *)

From S2P Require Import Prelude GoStrings GoEncoding GoCrypto Json Kube Operator Cluster.

#[global] Instance crd_valid_dec {R} (s : DbcpEntryServiceSpec R) : Decision (crd_valid s).
Proof. unfold crd_valid. apply _. Defined.

Definition demo : key := ("default", "demo").

Definition demo_meta (finalizers : list string) (deleted : option Z) : ObjectMeta :=
  {| om_name := "demo"; om_generateName := ""; om_namespace := "default";
     om_uid := "0b9d7a3e"; om_labels := ∅; om_annotations := ∅; om_ownerReferences := [];
     om_finalizers := finalizers; om_creationTimestamp := 1; om_deletionTimestamp := deleted |}.

Definition demo_spec (replicas : Z) : DbcpEntryServiceSpec Res :=
  {| spec_Config := {| TargetDB := "app:pw@tcp(mysql:3306)/entry_task";
                       TargetRedis := "redis:6379"; ServiceExportPort := 80 |};
     spec_Service := {| Image := "entry-service:1"; Replicas := replicas;
                        Resources := {| Requests := Some {["cpu" := "100m"]};
                                       Limits := None |} |} |}.

Definition demo_entry finalizers deleted replicas : DbcpEntryService Res :=
  {| e_meta := demo_meta finalizers deleted; e_version := "1"; e_spec := demo_spec replicas |}.

Definition other_entry : DbcpEntryService Res :=
  {| e_meta := named "default" "other"; e_version := "1"; e_spec := demo_spec 1 |}.

(** A cluster with another resource and the given version of the demo one. *)
Definition with_entry (e : DbcpEntryService Res) (w : cluster) : cluster :=
  set_entries <[demo := e]> w.

Definition empty_cluster : cluster :=
  Cluster ∅ ∅ ∅ {[("default", "other") := other_entry]} 100 [] false ∅.

(** Just created; finalizer added; running with three pods; scaled to two; being
    deleted. *)
Definition created : cluster := with_entry (demo_entry [] None 3) empty_cluster.
Definition guarded_entry : cluster := with_entry (demo_entry [finalizer] None 3) empty_cluster.
Definition running : cluster :=
  (Reconcile (KubeAPI0 := cluster_api false) demo guarded_entry).2.
Definition scaled : cluster := with_entry (demo_entry [finalizer] None 2) running.
Definition deleting : cluster := with_entry (demo_entry [finalizer] (Some 200) 3) running.

(** Nobody else's controller owns the objects; the API does not fail. *)
#[global] Hint Extern 0 (KubeAPI Res cluster) => exact (cluster_api false) : typeclass_instances.

Definition demo_hash : string :=
  match calculateSpecHash (demo_entry [finalizer] None 3) with Ok h => h | _ => "" end.

