(* ===== verification/LegacyCluster.v ===== *)
(** * A cluster in memory for the polling controller

    The cluster of [Cluster.v] with a collection of untyped resources, whose
    contents are JSON values, and client-go's clients on it; they satisfy
    [ClientLaws]. *)

From S2P Require Import Prelude GoStrings Json Kube KubeClient Operator Legacy Cluster Demo.

(** ** Untyped objects *)

Record ucr := { u_meta : ObjectMeta; u_object : json }.

Fixpoint field (name : string) (m : list (string * json)) : option json :=
  match m with
  | [] => None
  | (k, v) :: m => if decide (k = name) then Some v else field name m
  end.

Fixpoint nested_field (v : json) (path : list string) : nested json :=
  match path with
  | [] => Found v
  | name :: path =>
      match v with
      | JObj m => match field name m with Some v => nested_field v path | None => Missing end
      | _ => WrongType "accessor error: not a map"
      end
  end.

Definition nested_as {A} (f : json → option A) (r : nested json) : nested A :=
  match r with
  | Found v => match f v with Some a => Found a | None => WrongType "accessor error: wrong type" end
  | Missing => Missing
  | WrongType msg => WrongType msg
  end.

Definition as_string (v : json) : option string :=
  match v with JStr s => Some s | _ => None end.
Definition as_int (v : json) : option Z :=
  match v with JNum lit => parse_int 64 lit | _ => None end.
Definition as_string_map (v : json) : option labels :=
  match v with
  | JObj m => list_to_map <$> mapM (λ '(k, v), s ← as_string v; Some (k, s)) m
  | _ => None
  end.

#[global] Instance json_unstructured : Unstructured ucr := {|
  GetMeta := u_meta;
  SetFinalizers fs u := {| u_meta := with_finalizers fs (u_meta u); u_object := u_object u |};
  NestedString u path := nested_as as_string (nested_field (u_object u) path);
  NestedInt64 u path := nested_as as_int (nested_field (u_object u) path);
  NestedStringMap u path := nested_as as_string_map (nested_field (u_object u) path);
|}.
#[global] Instance json_unstructured_laws : UnstructuredLaws ucr.
Proof. by split. Qed.

(** Quantities start with a digit. *)
#[global] Instance text_quantity : ParseQuantity string := λ s,
  match bytes_of s with
  | b :: _ => if is_digit b then Datatypes.inr s else Datatypes.inl "quantities must match the regular expression"
  | [] => Datatypes.inl "quantities must match the regular expression"
  end.

#[global] Instance canonical_range : MapRange := λ m, map_to_list m.
#[global] Instance canonical_range_laws : MapRangeLaws.
Proof. intros m. reflexivity. Qed.

Definition requirement (s : bytes) : option (string * string) :=
  match split_byte Byte.x3d s with
  | [k; v] => if label_key (string_of k) && label_value (string_of v)
              then Some (string_of k, string_of v) else None
  | _ => None
  end.
#[global] Instance split_selector : SelectorSyntax := λ s,
  list_to_map <$> mapM requirement (split_byte Byte.x2c (bytes_of s)).

(** Commas and equality signs occur in no key, value or name. *)
Definition separator (b : byte) : Prop := b = Byte.x2c ∨ b = Byte.x3d.

Lemma edged_no edge inner s b : edged edge inner s → inner b = false → b ∉ s.
Proof.
  unfold edged. destruct (head s), (last s); try done.
  intros [_ Hs]%andb_prop_elim Hb Hin. apply Is_true_true, forallb_forall with (x := b) in Hs;
    [congruence|]. by apply list_elem_of_In.
Qed.

Lemma split_byte_elem c s b : b ∈ s → b ≠ c → ∃ l, l ∈ split_byte c s ∧ b ∈ l.
Proof.
  induction s as [|a s IH]; intros Hin Hne; [by apply not_elem_of_nil in Hin|]. cbn [split_byte].
  destruct (split_byte_cons c s) as (l & ls & Hs). rewrite Hs in *.
  apply elem_of_cons in Hin as [->|Hin].
  - rewrite decide_False by done. eexists. split; left.
  - destruct (IH Hin Hne) as (l' & Hl' & Hb). case_decide; [exists l'; split; [by right|done]|].
    apply elem_of_cons in Hl' as [->|]; [exists (a :: l)|exists l']; (split; [|done || by right]);
      [by left|by right].
Qed.

Lemma qualified_name_no s b : qualified_name s → separator b → b ∉ s.
Proof.
  intros [Hs _]%andb_prop_elim Hb. eapply edged_no; [exact Hs|]. by destruct Hb as [-> | ->].
Qed.

Lemma label_value_no v b : label_value v → separator b → b ∉ bytes_of v.
Proof.
  unfold label_value. intros Hv Hb. destruct (bytes_of v); [apply not_elem_of_nil|].
  by eapply qualified_name_no.
Qed.

Lemma dns_subdomain_no v b : dns_subdomain v → separator b → b ∉ bytes_of v.
Proof.
  intros [_ Hv]%andb_prop_elim Hb Hin.
  destruct (split_byte_elem Byte.x2e (bytes_of v) b Hin) as (l & Hl & Hbl);
    [by destruct Hb as [-> | ->]|].
  apply Is_true_true, forallb_forall with (x := l) in Hv; [|by apply list_elem_of_In].
  apply Is_true_true in Hv. eapply edged_no in Hv; [by apply Hv|]. by destruct Hb as [-> | ->].
Qed.

Lemma label_key_no k b : label_key k → separator b → b ∉ bytes_of k.
Proof.
  unfold label_key. intros Hk Hb Hin.
  destruct (split_byte_elem Byte.x2f (bytes_of k) b Hin) as (l & Hl & Hbl);
    [by destruct Hb as [-> | ->]|].
  destruct (split_byte Byte.x2f (bytes_of k)) as [|n [|m [|]]]; try done.
  - apply list_elem_of_singleton in Hl as ->. by eapply qualified_name_no.
  - apply andb_prop_elim in Hk as [Hn Hm]. apply elem_of_cons in Hl as [->|Hl].
    + eapply dns_subdomain_no; [exact Hn|exact Hb|]. by rewrite bytes_of_string_of.
    + apply list_elem_of_singleton in Hl as ->. by eapply qualified_name_no.
Qed.

Lemma requirement_pair k v :
  label_key k → (∀ b, separator b → b ∉ bytes_of v) →
  requirement (bytes_of k ++ Byte.x3d :: bytes_of v) = if label_value v then Some (k, v) else None.
Proof.
  intros Hk Hv. unfold requirement.
  rewrite split_byte_app by (apply label_key_no; [done|by right]).
  rewrite split_byte_none by (apply Hv; by right).
  rewrite !string_of_bytes_of. by destruct (label_key k).
Qed.

Lemma parse_two k1 v1 k2 v2 :
  label_key k1 → label_value v1 → label_key k2 → (∀ b, separator b → b ∉ bytes_of v2) →
  parse_selector (k1 +:+ "=" +:+ v1 +:+ "," +:+ k2 +:+ "=" +:+ v2) =
    if label_value v2 then Some (list_to_map [(k1, v1); (k2, v2)]) else None.
Proof.
  intros H1 H2 H3 H4. unfold parse_selector, split_selector.
  rewrite !bytes_of_app. change (bytes_of "=") with [Byte.x3d]. change (bytes_of ",") with [Byte.x2c].
  replace (bytes_of k1 ++ [Byte.x3d] ++ bytes_of v1 ++ [Byte.x2c] ++ bytes_of k2 ++ [Byte.x3d] ++ bytes_of v2)
    with ((bytes_of k1 ++ Byte.x3d :: bytes_of v1) ++ Byte.x2c :: (bytes_of k2 ++ Byte.x3d :: bytes_of v2))
    by (by rewrite <- !app_assoc).
  rewrite split_byte_app.
  2: { rewrite elem_of_app, elem_of_cons. intros [Hc|[[=]|Hc]];
         [eapply label_key_no in Hc|eapply label_value_no in Hc]; try done; by left. }
  rewrite split_byte_none.
  2: { rewrite elem_of_app, elem_of_cons. intros [Hc|[[=]|Hc]];
         [eapply label_key_no in Hc|eapply H4 in Hc]; try done; by left. }
  cbn [mapM].
  rewrite !requirement_pair by (done || (intros b Hb; by apply label_value_no)).
  destruct (label_value v1); [|done]. by destruct (label_value v2).
Qed.

#[global] Instance split_selector_laws : SelectorLaws.
Proof.
  split; intros k1 v1 k2 v2 H1 H2 H3 H4.
  - rewrite parse_two by (done || (intros b Hb; by apply label_value_no)).
    by destruct (label_value v2).
  - intros H5. rewrite parse_two by (done || (intros b Hb; by apply dns_subdomain_no)).
    by destruct (label_value v2).
Qed.

(** ** The clients *)

Record lcluster := { l_base : cluster; l_crs : gmap key ucr }.

Definition on_base {A} (m : api cluster A) : api lcluster A := λ w,
  let '(r, b) := m (l_base w) in (r, {| l_base := b; l_crs := l_crs w |}).

#[global] Instance lcluster_view : ClusterView Res lcluster := {|
  pods w := pods (l_base w); services w := services (l_base w);
  configmaps w := configmaps (l_base w); entries w := entries (l_base w);
  cached_pods w := pods (l_base w); cached_services w := services (l_base w);
  cached_configmaps w := configmaps (l_base w); cached_entries w := entries (l_base w);
|}.
#[global] Instance lcluster_live : LiveReads Res lcluster.
Proof. done. Qed.

#[global] Instance lcluster_api : KubeAPI Res lcluster := {|
  get_entry k := on_base (get_entry k);
  update_entry e := on_base (update_entry e);
  list_pods ns sel := on_base (cl_list_pods pods ns sel);
  create_pod p := on_base (create_pod p);
  delete_pod k := on_base (delete_pod (R := Res) k);
  delete_service k := on_base (delete_service (R := Res) k);
  delete_configmap k := on_base (delete_configmap (R := Res) k);
  create_or_update_service stub f := on_base (create_or_update_service (R := Res) stub f);
  create_or_update_configmap stub f := on_base (create_or_update_configmap (R := Res) stub f);
|}.

Lemma wp_on_base {A} (m : api cluster A) (Q : outcome api_error A → lcluster → Prop) w :
  wp m (λ r b, Q r {| l_base := b; l_crs := l_crs w |}) (l_base w) → wp (on_base m) Q w.
Proof. unfold wp, on_base. by destruct (m (l_base w)). Qed.

(** Nothing lags behind where reads are live. *)
Lemma lcluster_settled (w w' : lcluster) : settled w w'.
Proof. intros k. done. Qed.

#[global] Instance lcluster_laws : KubeLaws Res lcluster.
Proof.
  split.
  - intros w. exact (pods_keyed (l_base w)).
  - intros w. exact (services_keyed (l_base w)).
  - intros w. exact (configmaps_keyed (l_base w)).
  - intros w. exact (entries_keyed (l_base w)).
  - intros w. exact (pods_keyed (l_base w)).
  - intros w. exact (services_keyed (l_base w)).
  - intros w. exact (configmaps_keyed (l_base w)).
  - intros w. exact (entries_keyed (l_base w)).
  - intros w. exact (cached_entries_versioned (l_base w)).
  - intros w. exact (cached_entries_version (l_base w)).
  - intros k w. apply wp_on_base. eapply wp_mono, (get_entry_law (R := Res) k (l_base w)).
    intros r b (? & ? & ? & ? & ?). split_and!; try done.
  - intros e w k Hv. apply wp_on_base. exact (update_entry_law (R := Res) e (l_base w) Hv).
  - intros ns sel w. apply wp_on_base. eapply (cl_list_pods_law false pods ns sel (l_base w)).
    + apply pods_keyed_cluster.
    + intros w1 w2 Hsame. apply (same_maps_view _ _ Hsame).
  - intros p w. apply wp_on_base. exact (create_pod_law (R := Res) p (l_base w)).
  - intros k w. apply wp_on_base. exact (delete_pod_law (R := Res) k (l_base w)).
  - intros k w. apply wp_on_base. exact (delete_service_law (R := Res) k (l_base w)).
  - intros k w. apply wp_on_base. exact (delete_configmap_law (R := Res) k (l_base w)).
  - intros stub f w k base Hf. apply wp_on_base.
    eapply wp_mono; [|apply (create_or_update_service_law (R := Res) stub f (l_base w)); exact Hf].
    intros r b (? & ? & _ & ?). by split_and!.
  - intros stub f w k base Hf. apply wp_on_base.
    eapply wp_mono; [|apply (create_or_update_configmap_law (R := Res) stub f (l_base w)); exact Hf].
    intros r b (? & ? & _ & ?). by split_and!.
Qed.

Definition cl_get_configmap (k : key) : api cluster ConfigMap := λ w,
  (match configmaps w !! k with Some c => Ok c | None => Err NotFound end, w).
Definition cl_get_service (k : key) : api cluster Service := λ w,
  (match services w !! k with Some s => Ok s | None => Err NotFound end, w).

(** Create fails if the name is taken, update if it is not. *)
Definition cl_put_configmap (create : bool) (c : ConfigMap) : api cluster ConfigMap := λ w,
  let k := meta_key (cm_meta c) in
  match create, configmaps w !! k with
  | true, Some _ => (Err AlreadyExists, w)
  | false, None => (Err NotFound, w)
  | _, _ => (Ok c, set_configmaps <[k := c]> w)
  end.
Definition cl_put_service (create : bool) (s : Service) : api cluster Service := λ w,
  let k := meta_key (svc_meta s) in
  match create, services w !! k with
  | true, Some _ => (Err AlreadyExists, w)
  | false, None => (Err NotFound, w)
  | _, old => let s' := allocate old s in (Ok s', set_services <[k := s']> w)
  end.

#[global] Instance lcluster_core : CoreClient lcluster := {|
  get_configmap k := on_base (cl_get_configmap k);
  create_configmap _ c := on_base (cl_put_configmap true c);
  update_configmap _ c := on_base (cl_put_configmap false c);
  get_service k := on_base (cl_get_service k);
  create_service _ s := on_base (cl_put_service true s);
  update_service _ s := on_base (cl_put_service false s);
|}.

(** The resources with a valid name, under that name. *)
Definition valid_crs (m : gmap key ucr) : gmap key ucr :=
  map_imap (λ k u, if decide (dns_subdomain k.2)
                   then Some {| u_meta := rekey k (u_meta u); u_object := u_object u |}
                   else None) m.

Definition l_list_crs (ns : string) : api lcluster (list ucr) := λ w,
  (Ok (filter (λ u, ns = "" ∨ om_namespace (u_meta u) = ns) (snd <$> map_to_list (valid_crs (l_crs w)))),
   w).

Definition l_update_cr (u : ucr) : api lcluster ucr := λ w,
  let k := meta_key (u_meta u) in
  match valid_crs (l_crs w) !! k with
  | None => (Err NotFound, w)
  | Some _ =>
      (Ok u, {| l_base := l_base w;
                l_crs := if decide (om_deletionTimestamp (u_meta u) ≠ None ∧
                                    om_finalizers (u_meta u) = [])
                         then delete k (l_crs w) else <[k := u]> (l_crs w) |})
  end.

#[global] Instance lcluster_dynamic : DynamicClient ucr lcluster := {|
  crs w := valid_crs (l_crs w);
  list_crs := l_list_crs;
  update_cr _ := l_update_cr;
|}.

(** ** The laws hold *)

Lemma keeps_on_base {A} (m : api cluster A) : keeps (crs (W := lcluster)) (on_base m).
Proof. intros w. cbn. unfold on_base. by destruct (m (l_base w)). Qed.

Lemma valid_crs_lookup m k u :
  valid_crs m !! k = Some u ↔
  ∃ u0, m !! k = Some u0 ∧ dns_subdomain k.2 ∧
    u = {| u_meta := rekey k (u_meta u0); u_object := u_object u0 |}.
Proof.
  unfold valid_crs. rewrite map_lookup_imap. destruct (m !! k) as [u0|]; cbn.
  - case_decide; naive_solver.
  - naive_solver.
Qed.

Lemma valid_crs_keyed m k u : valid_crs m !! k = Some u → cr_key u = k ∧ dns_subdomain k.2.
Proof. intros (u0 & _ & ? & ->)%valid_crs_lookup. split; [by destruct k|done]. Qed.

Lemma valid_crs_update m u0 u :
  valid_crs m !! cr_key u = Some u0 →
  valid_crs (<[cr_key u := u]> m) = <[cr_key u := u]> (valid_crs m) ∧
  valid_crs (delete (cr_key u) m) = delete (cr_key u) (valid_crs m).
Proof.
  intros (_ & _ & Hname & _)%valid_crs_lookup. split; apply map_eq; intros k;
    unfold valid_crs; rewrite map_lookup_imap.
  - destruct (decide (k = cr_key u)) as [->|Hne].
    + rewrite !lookup_insert_eq. cbn. rewrite decide_True by done. f_equal.
      destruct u as [m0 o]. f_equal. apply rekey_id.
    + by rewrite !lookup_insert_ne, map_lookup_imap by congruence.
  - destruct (decide (k = cr_key u)) as [->|Hne].
    + by rewrite !lookup_delete_eq.
    + by rewrite !lookup_delete_ne, map_lookup_imap by congruence.
Qed.

Lemma cl_put_configmap_law create c (b : cluster) :
  let k := meta_key (cm_meta c) in
  wp (cl_put_configmap create c) (λ r b', no_panic r ∧ only_configmap k b b' ∧
    (∀ c', r = Ok c' → configmaps b' !! k = Some c' ∧ configmap_stored c c')) b.
Proof.
  intros k. unfold wp, cl_put_configmap. fold k.
  assert (Hput : only_configmap k b (set_configmaps <[k := c]> b) ∧
    configmaps (set_configmaps <[k := c]> b) !! k = Some c).
  { split; [split_and!; try done; intros k' Hne|]; rewrite !configmaps_lookup; cbn.
    - by rewrite lookup_insert_ne.
    - rewrite lookup_insert_eq. cbn. f_equal. apply rekey_configmap_id. }
  destruct create, (configmaps b !! k); cbn [fst snd]; (split; [done|]);
    (split; [try apply Hput; by split_and!|]); intros c' [= <-]; split; try apply Hput; by split_and!.
Qed.

Lemma cl_put_service_law create s (b : cluster) :
  let k := meta_key (svc_meta s) in
  wp (cl_put_service create s) (λ r b', no_panic r ∧ only_service k b b' ∧
    (∀ s', r = Ok s' → services b' !! k = Some s' ∧ service_stored s s')) b.
Proof.
  intros k. unfold wp, cl_put_service. fold k.
  assert (Hput : ∀ old, only_service k b (set_services <[k := allocate old s]> b) ∧
    services (set_services <[k := allocate old s]> b) !! k = Some (allocate old s)).
  { intros old. split; [split_and!; try done; intros k' Hne|]; rewrite !services_lookup; cbn.
    - by rewrite lookup_insert_ne.
    - rewrite lookup_insert_eq. cbn. f_equal. exact (rekey_service_id (allocate old s)). }
  assert (Hst : ∀ old, service_stored s (allocate old s)) by (by intros old; split_and!).
  destruct create, (services b !! k); cbn [fst snd]; (split; [done|]);
    (split; [try apply Hput; by split_and!|]); intros c' [= <-]; split; try apply Hput; apply Hst.
Qed.

#[global] Instance lcluster_client_laws : ClientLaws Res ucr lcluster.
Proof.
  split; try (intros; apply keeps_on_base).
  - intros w. apply valid_crs_keyed.
  - intros ns w. unfold wp. cbn. split_and!; [done|done|done|]. intros us [= <-].
    assert (Hk : ∀ u, u ∈ snd <$> map_to_list (valid_crs (l_crs w)) ↔
      valid_crs (l_crs w) !! cr_key u = Some u).
    { intros u. rewrite list_elem_of_fmap. split.
      - intros ([k u'] & -> & Hin%elem_of_map_to_list). cbn.
        by destruct (valid_crs_keyed _ _ _ Hin) as [-> _].
      - intros Hu. exists (cr_key u, u). split; [done|]. by apply elem_of_map_to_list. }
    split; [|by intros u; rewrite list_elem_of_filter, Hk; naive_solver].
    eapply sublist_NoDup; [|apply fmap_sublist, sublist_filter].
    rewrite <- list_fmap_compose.
    erewrite list_fmap_ext; [apply NoDup_fst_map_to_list|].
    intros i [k u] Hi. apply list_elem_of_lookup_2, elem_of_map_to_list in Hi. cbn.
    by destruct (valid_crs_keyed _ _ _ Hi).
  - intros ns u w k applied _. unfold wp. cbn [update_cr lcluster_dynamic]. unfold l_update_cr.
    destruct (valid_crs (l_crs w) !! meta_key (u_meta u)) as [u0|] eqn:Hu0; cbn [fst snd].
    + destruct (valid_crs_update _ u0 u Hu0) as [Hins Hdel].
      assert (Happ : applied {| l_base := l_base w;
        l_crs := if decide (om_deletionTimestamp (u_meta u) ≠ None ∧ om_finalizers (u_meta u) = [])
                 then delete k (l_crs w) else <[k := u]> (l_crs w) |} u).
      { split; [done|]. cbn. by case_decide. }
      split_and!; [done|done|right; by exists u|]. intros u' [= <-]. exact Happ.
    + split_and!; [done|done|by left|done].
  - intros k w. apply wp_on_base. unfold wp, cl_get_configmap. cbn [fst snd].
    destruct (configmaps (l_base w) !! k) eqn:E; split_and!; try done. intros ? [= <-]. exact E.
  - intros ns c w k _. apply wp_on_base. exact (cl_put_configmap_law true c (l_base w)).
  - intros ns c w k _. apply wp_on_base. exact (cl_put_configmap_law false c (l_base w)).
  - intros k w. apply wp_on_base. unfold wp, cl_get_service. cbn [fst snd].
    destruct (services (l_base w) !! k) eqn:E; split_and!; try done. intros ? [= <-]. exact E.
  - intros ns c w k _. apply wp_on_base. exact (cl_put_service_law true c (l_base w)).
  - intros ns c w k _. apply wp_on_base. exact (cl_put_service_law false c (l_base w)).
Qed.

(** ** Concrete resources *)

Definition demo_object (port replicas : Z) : json :=
  JObj [("spec", JObj
    [("config", JObj [("targetDB", JStr "app:pw@tcp(mysql:3306)/entry_task");
                      ("targetRedis", JStr "redis:6379"); ("serviceExportPort", JInt port)]);
     ("service", JObj [("image", JStr "entry-service:1"); ("replicas", JInt replicas);
                       ("resources", JObj [("requests", JObj [("cpu", JStr "100m")])])])])].

(** The demo resource, and one in the same name space whose port is not one. *)
Definition demo_cr (finalizers : list string) (deleted : option Z) (replicas : Z) : ucr :=
  {| u_meta := demo_meta finalizers deleted; u_object := demo_object 80 replicas |}.
Definition invalid_cr : ucr :=
  {| u_meta := named "default" "another"; u_object := demo_object 70000 1 |}.

Definition lworld (cr : ucr) : lcluster :=
  {| l_base := empty_cluster;
     l_crs := {[ demo := cr; ("default", "another") := invalid_cr ]} |}.
