(* ===== verification/OperatorHash.v ===== *)
(** * The pod template hash and the token secret

    Pods are replaced when the hash of their template changes; what the hash
    is taken of is therefore what decides whether pods are replaced. *)

From S2P Require Import Prelude GoStrings GoEncoding GoCrypto Json Kube Operator Cluster Demo.

Lemma json_of_map_inj m1 m2 : json_of_map m1 = json_of_map m2 → m1 = m2.
Proof.
  unfold json_of_map. intros [= E]. apply list_fmap_eq_inj in E.
  2: by intros [] [] [= -> ->].
  apply map_to_list_inj. rewrite <- (merge_sort_Permutation key_le (map_to_list m1)), E.
  apply merge_sort_Permutation.
Qed.

Lemma json_of_map_wf m :
  map_Forall (λ k v, ValidString k = true ∧ ValidString v = true) m → json_wf (json_of_map m).
Proof.
  intros Hm. constructor. apply Forall_forall. intros [k j] Hin.
  apply (list_elem_of_fmap_1 (λ '(k, v), (k, JStr v))) in Hin as ([k' v] & [= -> ->] & Hin).
  rewrite merge_sort_Permutation, elem_of_map_to_list in Hin.
  destruct (Hm _ _ Hin). split; [done|by constructor].
Qed.

Lemma json_of_map_depth m : jdepth (json_of_map m) ≤ 1.
Proof.
  unfold json_of_map. cbn [jdepth]. induction (merge_sort _ _) as [|[k v] l IH]; cbn in *; lia.
Qed.

(** ** The rendered environment *)

Lemma config_lookup c secret i k v :
  config_entries c secret !! i = Some (k, v) →
  list_to_map (M := labels) (config_entries c secret) !! k = Some v.
Proof.
  intros Hi. apply elem_of_list_to_map_1; [|by eapply list_elem_of_lookup_2].
  change (NoDup (config_entries c secret).*1) with (NoDup (config_entries
    {| TargetDB := ""; TargetRedis := ""; ServiceExportPort := 0 |} "").*1).
  decide_by_vm.
Qed.

Lemma config_lookup_inj c1 s1 c2 s2 i k v1 v2 :
  list_to_map (M := labels) (config_entries c1 s1) = list_to_map (config_entries c2 s2) →
  config_entries c1 s1 !! i = Some (k, v1) → config_entries c2 s2 !! i = Some (k, v2) → v1 = v2.
Proof.
  intros E L1%config_lookup L2%config_lookup. rewrite E, L2 in L1. congruence.
Qed.

Lemma config_map_inj c1 s1 c2 s2 :
  list_to_map (M := labels) (config_entries c1 s1) = list_to_map (config_entries c2 s2) →
  c1 = c2 ∧ s1 = s2.
Proof.
  intros E.
  pose proof (config_lookup_inj _ _ _ _ 0 _ _ _ E eq_refl eq_refl) as Hdb.
  pose proof (config_lookup_inj _ _ _ _ 1 _ _ _ E eq_refl eq_refl) as Hredis.
  pose proof (config_lookup_inj _ _ _ _ 2 _ _ _ E eq_refl eq_refl) as Hport.
  pose proof (config_lookup_inj _ _ _ _ 9 _ _ _ E eq_refl eq_refl) as Hsecret.
  apply string_of_inj, format_int_inj in Hport.
  split; [|done]. destruct c1, c2; cbn in *. congruence.
Qed.

(** The strings of a spec come from JSON, so they are UTF-8. *)
Definition spec_text {R} (s : DbcpEntryServiceSpec R) : Prop :=
  ValidString (TargetDB (spec_Config s)) = true ∧ ValidString (TargetRedis (spec_Config s)) = true ∧
  ValidString (Image (spec_Service s)) = true.

Section hash.
Context {R : Type} `{!ResourceJSON R}.
Implicit Types e : DbcpEntryService R.

Lemma secret_text e : Forall is_lower_hex (bytes_of (stableTokenSecret e)).
Proof. unfold stableTokenSecret, stable_token_secret, hex_of. rewrite bytes_of_string_of. apply hex_encode_lower. Qed.

Lemma secret_valid e : ValidString (stableTokenSecret e) = true.
Proof.
  apply ValidUTF8_ascii. eapply Forall_impl; [apply secret_text|]. apply is_lower_hex_ascii.
Qed.

Lemma desiredConfigData_text e :
  spec_text (e_spec e) →
  map_Forall (λ k v, ValidString k = true ∧ ValidString v = true) (desiredConfigData e).
Proof.
  intros (Hdb & Hredis & _) k v Hin. apply elem_of_list_to_map_2 in Hin.
  pose proof (secret_valid e).
  assert (ValidString (Itoa (ServiceExportPort (spec_Config (e_spec e)))) = true)
    by apply ValidString_ascii, format_int_ascii.
  assert (HF : Forall (λ kv, ValidString kv.1 = true ∧ ValidString kv.2 = true)
    (config_entries (spec_Config (e_spec e)) (stableTokenSecret e))).
  { unfold config_entries. repeat (apply Forall_cons; split; [split; [done|done]|]). done. }
  rewrite Forall_forall in HF. by apply (HF (k, v)).
Qed.

Lemma desiredConfigData_inj e1 e2 :
  desiredConfigData e1 = desiredConfigData e2 ↔
  spec_Config (e_spec e1) = spec_Config (e_spec e2) ∧ stableTokenSecret e1 = stableTokenSecret e2.
Proof.
  split; [|by unfold desiredConfigData; intros [-> ->]]. apply config_map_inj.
Qed.

Lemma spec_hash_data_wf e res :
  spec_text (e_spec e) → json_wf res → jdepth res < max_depth →
  json_wf (spec_hash_data e res) ∧ jdepth (spec_hash_data e res) ≤ max_depth.
Proof.
  intros Htext Hres Hdepth. split.
  - constructor. repeat (apply Forall_cons; split; [split; [done|]|]); [..|done|done].
    + by apply json_of_map_wf, desiredConfigData_text.
    + constructor. apply Htext.
    + constructor. by repeat (apply Forall_cons; split; [split; [done|by constructor]|]).
    + constructor. by repeat (apply Forall_cons; split; [split; [done|by constructor]|]).
  - unfold spec_hash_data. pose proof (json_of_map_depth (desiredConfigData e)).
    set (m := json_of_map _) in *. unfold max_depth in *. cbn [jdepth foldr]. cbn [JInt jdepth]. lia.
Qed.

Lemma spec_hash_data_fields e1 e2 res1 res2 :
  spec_hash_data e1 res1 = spec_hash_data e2 res2 →
  json_of_map (desiredConfigData e1) = json_of_map (desiredConfigData e2) ∧
  Image (spec_Service (e_spec e1)) = Image (spec_Service (e_spec e2)) ∧ res1 = res2.
Proof.
  unfold spec_hash_data. generalize (json_of_map (desiredConfigData e1)).
  generalize (json_of_map (desiredConfigData e2)). intros m2 m1 E.
  pose proof (f_equal (λ j, match j with
    | JObj ((_, m) :: (_, JStr i) :: _ :: _ :: (_, r) :: _) => (m, i, r)
    | _ => (JNull, "", JNull) end) E) as E'. cbv beta iota in E'. by injection E' as -> -> ->.
Qed.

(** C28: the text that is hashed determines the pod template, and nothing else
    enters it. For resources whose strings are UTF-8, the texts of two
    resources are equal exactly when their rendered configuration (both
    endpoints, the port, the token secret), image and resource requirements
    are; the replica count plays no part, so scaling never replaces pods. *)
Theorem spec_hash_text_faithful e1 e2 res1 res2 :
  spec_text (e_spec e1) → spec_text (e_spec e2) →
  json_wf res1 → json_wf res2 → jdepth res1 < max_depth → jdepth res2 < max_depth →
  encode (spec_hash_data e1 res1) = encode (spec_hash_data e2 res2) ↔
  spec_Config (e_spec e1) = spec_Config (e_spec e2) ∧
  stableTokenSecret e1 = stableTokenSecret e2 ∧
  Image (spec_Service (e_spec e1)) = Image (spec_Service (e_spec e2)) ∧ res1 = res2.
Proof.
  intros Ht1 Ht2 Hw1 Hw2 Hd1 Hd2. split.
  - destruct (spec_hash_data_wf e1 res1) as [? ?]; [done..|].
    destruct (spec_hash_data_wf e2 res2) as [? ?]; [done..|].
    intros (Hcm & Himg & ->)%encode_inj%spec_hash_data_fields; [|done..].
    by apply json_of_map_inj, desiredConfigData_inj in Hcm as [? ?].
  - intros (Hc & Hs & Hi & ->). unfold spec_hash_data. rewrite Hc, Hi.
    by rewrite (proj2 (desiredConfigData_inj e1 e2)).
Qed.

Lemma calculateSpecHash_Ok e h :
  calculateSpecHash e = Ok h →
  ∃ res, resources_json (Resources (spec_Service (e_spec e))) = Ok res ∧
    h = string_of (take 12 (hex_encode (Sum256 (encode (spec_hash_data e res))))).
Proof.
  unfold calculateSpecHash. destruct (resources_json _) as [res| |]; [|done..].
  intros E. exists res. split; [done|].
  apply (f_equal (λ r, match r with Ok s => s | _ => h end)) in E. by cbv beta iota in E.
Qed.

(** The template hash is always twelve lower-case hexadecimal digits, so
    it is accepted as a label value, and the derived token secret is
    sixty-four of them. *)
Lemma spec_hash_is_label e h :
  calculateSpecHash e = Ok h →
  (String.length h = 12%nat ∧ Forall is_lower_hex (bytes_of h)) ∧
  (String.length (stableTokenSecret e) = 64%nat ∧
   Forall is_lower_hex (bytes_of (stableTokenSecret e))).
Proof.
  intros (res & _ & ->)%calculateSpecHash_Ok. rewrite <- !length_bytes_of. split; split.
  - autorewrite with gobytes. rewrite length_take, length_hex_encode, length_Sum256. done.
  - autorewrite with gobytes. apply Forall_take, hex_encode_lower.
  - unfold stableTokenSecret, stable_token_secret, hex_of. autorewrite with gobytes.
    rewrite length_hex_encode, length_Sum256. done.
  - apply secret_text.
Qed.
End hash.

Lemma spec_hash_text_faithful_witness :
  encode (spec_hash_data (demo_entry [] None 3) (json_of_map {["cpu" := "1"]})) =
  encode (spec_hash_data (demo_entry [finalizer] (Some 5) 7) (json_of_map {["cpu" := "1"]})).
Proof.
  apply (spec_hash_text_faithful (demo_entry [] None 3) (demo_entry [finalizer] (Some 5) 7)).
  - split_and!; reflexivity.
  - split_and!; reflexivity.
  - apply json_of_map_wf. decide_by_vm.
  - apply json_of_map_wf. decide_by_vm.
  - vm_compute. reflexivity.
  - vm_compute. reflexivity.
  - split_and!; reflexivity.
Defined.

