(* ===== verification/OperatorPods.v ===== *)
(** * The operator's pod reconciliation: convergence, ordering, isolation *)

From S2P Require Import Prelude GoStrings GoEncoding GoCrypto Json Kube Operator Cluster Demo.

(** ** Removing pods one by one *)

Section pods.
Context {R W : Type} `{!ClusterView R W, !KubeAPI R W, !KubeLaws R W}.
Context (ns name : string).

(** The pod under [k] is one the controller manages for this resource. *)
Definition owned (k : key) (p : Pod R) : Prop :=
  k.1 = ns ∧ selects (owned_selector name) (pod_labels p).

(** Nothing but this resource's pods differs between two worlds. *)
Definition pods_isolated (w w' : W) : Prop :=
  services w' = services w ∧ configmaps w' = configmaps w ∧ entries w' = entries w ∧
  ∀ k p, ¬ owned k p → pods w' !! k = Some p ↔ pods w !! k = Some p.

(** A pod that needs no replacement under a template hash. *)
Definition up_to_date (specHash : string) (p : Pod R) : Prop :=
  ¬ pod_deleting p ∧ pod_phase p ≠ PodFailed ∧ pod_phase p ≠ PodSucceeded ∧
  pod_hash p = specHash.

#[global] Instance up_to_date_dec h p : Decision (up_to_date h p).
Proof. unfold up_to_date. apply _. Defined.

(** The live pods of the resource are among [l], which [m] has as they are;
    [l] has no repetition. *)
Definition tracks_in (m : gmap key (Pod R)) (l : list (Pod R)) : Prop :=
  NoDup (pod_key <$> l) ∧
  (∀ p, p ∈ l → m !! pod_key p = Some p ∧ owned (pod_key p) p) ∧
  (∀ k p, m !! k = Some p → owned k p → ¬ pod_deleting p → p ∈ l).
Definition tracks (w : W) (l : list (Pod R)) : Prop := tracks_in (pods w) l.

(** What is there under the names of [l], if anything, belongs to the resource. *)
Definition safe (w : W) (l : list (Pod R)) : Prop :=
  ∀ p, p ∈ l → ∀ q, pods w !! pod_key p = Some q → owned (pod_key p) q.

Lemma tracks_safe w l : tracks w l → safe w l.
Proof. intros (_ & Hin & _) p Hp q Hq. destruct (Hin p Hp) as [Hp' ?]. congruence. Qed.
Lemma safe_perm w l l' : l ≡ₚ l' → safe w l → safe w l'.
Proof. intros Hp Hs p. rewrite <- Hp. apply Hs. Qed.
Lemma safe_view w w' l : view_eq w w' → safe w l → safe w' l.
Proof. intros (E & _). unfold safe. by rewrite E. Qed.

Lemma tracks_perm w l l' : l ≡ₚ l' → tracks w l → tracks w l'.
Proof.
  intros Hp (Hnd & Hin & Hall). split; [by rewrite <- Hp|]. split.
  - intros p. rewrite <- Hp. apply Hin.
  - intros k p. rewrite <- Hp. apply Hall.
Qed.

Lemma tracks_view w w' l : view_eq w w' → tracks w l → tracks w' l.
Proof. intros (E & _). unfold tracks. by rewrite E. Qed.

(** A listed pod that is gone from the world no longer needs tracking. *)
Lemma tracks_gone w w' p l :
  tracks w (p :: l) → (∀ k', k' ≠ pod_key p → pods w' !! k' = pods w !! k') →
  pod_gone (pod_key p) w' → tracks w' l.
Proof.
  intros (Hnd & Hin & Hall) Hsame Hgone.
  apply NoDup_cons in Hnd as [Hp Hnd]. split; [done|]. split.
  - intros q Hq. destruct (Hin q ltac:(set_solver)) as [Hq1 Hq2]. split; [|done].
    rewrite Hsame; [done|]. intros E. apply Hp. rewrite <- E. by apply list_elem_of_fmap_2.
  - intros k q Hq Hown Hlive. destruct (decide (k = pod_key p)) as [->|Hne].
    { by apply Hgone in Hq. }
    rewrite Hsame in Hq by done. specialize (Hall k q Hq Hown Hlive).
    apply elem_of_cons in Hall as [->|]; [|done]. by apply pods_keyed in Hq.
Qed.

Lemma tracks_deleting w p l : tracks w (p :: l) → pod_deleting p → tracks w l.
Proof.
  intros Ht Hd. apply (tracks_gone w w p l Ht); [done|].
  destruct Ht as (_ & Hin & _). destruct (Hin p ltac:(set_solver)) as [Hp _].
  intros q Hq. congruence.
Qed.

Lemma pods_isolated_refl w : pods_isolated w w.
Proof. done. Qed.

Lemma pods_isolated_trans w1 w2 w3 :
  pods_isolated w1 w2 → pods_isolated w2 w3 → pods_isolated w1 w3.
Proof.
  intros (Hs & Hc & He & Hp) (Hs' & Hc' & He' & Hp').
  split; [congruence|]. split; [congruence|]. split; [congruence|].
  intros k p Hk. by rewrite Hp', Hp.
Qed.

Lemma pods_isolated_view w w' : view_eq w w' → pods_isolated w w'.
Proof. intros (E & ? & ? & ?). unfold pods_isolated. by rewrite E. Qed.

(** Only the pods under the names of [l] may differ. *)
Definition only_pods (l : list (Pod R)) (w w' : W) : Prop :=
  ∀ k, k ∉ pod_key <$> l → pods w' !! k = pods w !! k.

(** Once everything that is tracked is gone, nothing live is left. *)
Lemma tracks_all_gone w w' l :
  tracks w l → only_pods l w w' → (∀ p, p ∈ l → pod_gone (pod_key p) w') → tracks w' [].
Proof.
  intros (_ & Hin & Hall) Honly Hgone. split; [apply NoDup_nil_2|].
  split; [intros p Hp; by apply not_elem_of_nil in Hp|]. intros k p Hp Hown Hd. exfalso.
  destruct (decide (k ∈ pod_key <$> l)) as [(q & -> & Hq)%list_elem_of_fmap|Hk].
  - by apply Hd, (Hgone q Hq).
  - rewrite Honly in Hp by done. apply Hk. rewrite <- (pods_keyed _ _ _ Hp).
    apply list_elem_of_fmap_2. by eapply Hall.
Qed.

Lemma only_pods_safe l l' w w' :
  NoDup (pod_key <$> (l ++ l')) → only_pods l w w' → safe w (l ++ l') → safe w' l'.
Proof.
  rewrite fmap_app. intros (_ & Hd & _)%NoDup_app Hsame Hs p Hp. rewrite Hsame.
  - apply Hs, elem_of_app. by right.
  - intros Hk. apply (Hd _ Hk). by apply list_elem_of_fmap_2.
Qed.

(** Deleting a listed pod, with "not found" taken as success. *)
Lemma delete_owned p l w :
  NoDup (pod_key <$> p :: l) →
  wp (ignore_not_found (delete_pod (R := R) (pod_key p)))
    (λ r w', no_panic r ∧ only_pods [p] w w' ∧
      (safe w (p :: l) → pods_isolated w w' ∧ safe w' l) ∧
      (r = Ok tt → pod_gone (pod_key p) w' ∧ (tracks w (p :: l) → tracks w' l))) w.
Proof.
  intros Hnd. unfold wp, ignore_not_found.
  pose proof (delete_pod_law (pod_key p) w) as Hlaw. unfold wp in Hlaw.
  destruct (delete_pod (pod_key p) w) as [r w']; cbn [fst snd] in Hlaw.
  destruct Hlaw as (Hnp & (Hsame & Hs & Hc & He) & Hgone & Hlab).
  assert (Honly : only_pods [p] w w').
  { intros k Hk. apply Hsame. intros ->. apply Hk. by left. }
  assert (Hsafe : safe w (p :: l) → pods_isolated w w' ∧ safe w' l).
  { intros Hsf. split; [|by apply (only_pods_safe [p] l w w')].
    split; [done|]. split; [done|]. split; [done|]. intros k q Hq.
    destruct (decide (k = pod_key p)) as [->|]; [|by rewrite Hsame].
    split; intros Hk; exfalso; apply Hq.
    - apply Hlab in Hk as (p0 & Hp0 & E & _). apply (Hsf p) in Hp0 as [? ?]; [|by left].
      split; [done|]. unfold selects, pod_labels. by rewrite E.
    - apply (Hsf p); [by left|done]. }
  assert (Hend : r = Ok tt ∨ r = Err NotFound →
    pod_gone (pod_key p) w' ∧ (tracks w (p :: l) → tracks w' l)).
  { intros Hr. apply Hgone in Hr. split; [done|]. intros Ht. by apply (tracks_gone w w' p l). }
  destruct r as [[]|[]|]; cbn [fst snd]; split_and!; auto; done.
Qed.

(** The deletion loop of [cleanupOwnedResources]. *)
Lemma delete_pods_spec l w :
  NoDup (pod_key <$> l) →
  wp (delete_pods l) (λ r w', no_panic r ∧ (safe w l → pods_isolated w w') ∧
    (r = Ok tt → tracks w l → tracks w' [])) w.
Proof.
  revert w. induction l as [|p l IH]; intros w Hnd; cbn.
  { apply wp_ret. split; [done|]. split; [intros _; apply pods_isolated_refl|done]. }
  apply wp_bind. eapply wp_mono, (delete_owned p l), Hnd.
  apply NoDup_cons in Hnd as [_ Hnd].
  intros [[]|e|] w1 (Hnp & _ & Hsafe & Hok);
    [|split_and!; [done|intros Hs; by apply Hsafe|done]|done].
  eapply wp_mono, IH, Hnd. destruct (Hok eq_refl) as [_ Ht].
  intros r w2 (? & Hiso & ?). split_and!; [done| |by auto].
  intros [??]%Hsafe. eapply pods_isolated_trans; [done|by apply Hiso].
Qed.

(** What the cache shows of the resource's pods. *)
Definition listed (w : W) (ps : list (Pod R)) : Prop :=
  NoDup (pod_key <$> ps) ∧
  ∀ p, p ∈ ps ↔ cached_pods w !! pod_key p = Some p ∧ owned (pod_key p) p.

Lemma listed_tracks w ps : listed w ps → tracks_in (cached_pods w) ps.
Proof.
  intros [Hnd Hin]. split; [done|]. split; [by intros p ?%Hin|]. intros k p Hp Hown _.
  pose proof (cached_pods_keyed _ _ _ Hp) as <-. by apply Hin.
Qed.

Lemma listed_shown_tracks w ps : pods_shown ns w → listed w ps → tracks w ps.
Proof.
  intros Hc Hl. apply listed_tracks in Hl as (Hnd & Hin & Hall). split; [done|].
  assert (Heq : ∀ k, k.1 = ns → cached_pods w !! k = pods w !! k).
  { intros [k1 n] Hk. cbn in Hk. subst. apply Hc. }
  split.
  - intros p Hp. destruct (Hin p Hp) as [Hp' [Hk ?]]. rewrite <- Heq; done.
  - intros k p Hp [Hk Hsel]. apply (Hall k); [by rewrite Heq|done].
Qed.

Lemma listed_safe w ps : labels_kept ns w → listed w ps → safe w ps.
Proof.
  intros Hk [_ Hin] p [Hp [Hns Hsel]]%Hin q Hq. split; [done|]. unfold selects.
  destruct (pod_key p) as [k1 n] eqn:Hkey. cbn in Hns. subst k1.
  by rewrite (Hk n p q Hp Hq).
Qed.

Lemma list_owned_spec w :
  wp (list_pods ns (owned_selector name))
    (λ r w', no_panic r ∧ view_eq w w' ∧ ∀ ps, r = Ok ps → listed w ps) w.
Proof.
  eapply wp_mono, list_pods_law. intros r w' (Hnp & Hv & Hps).
  split; [done|]. split; [done|]. intros ps Hr.
  destruct (Hps ps Hr) as [Hnd Hin]. split; [done|]. intros p. rewrite Hin. split.
  - intros (n & Hp & Hsel). pose proof (cached_pods_keyed _ _ _ Hp) as ->. by repeat split.
  - intros [Hp [Hk Hsel]]. destruct (pod_key p) as [k1 n]. cbn in Hk. subst. eauto.
Qed.

(** The listed pods the selection deletes. *)
Abbreviation outdated h items := (filter (λ p, ¬ up_to_date h p) items).

(** The selection loop: it ends with the up-to-date pods, in order, and every
    other listed pod is gone. *)
Lemma select_current_spec h items cur w :
  NoDup (pod_key <$> items ++ cur) → Forall (up_to_date h) cur →
  wp (select_current h items cur)
    (λ r w', no_panic r ∧ only_pods (outdated h items) w w' ∧
      (safe w (items ++ cur) → pods_isolated w w') ∧
      (∀ l, r = Ok l → l = cur ++ filter (up_to_date h) items ∧
         (safe w (items ++ cur) → safe w' l) ∧ (tracks w (items ++ cur) → tracks w' l))) w.
Proof.
  revert cur w. induction items as [|p items IH]; intros cur w Hnd Hcur; cbn [select_current app] in *.
  { apply wp_ret. split; [done|]. split; [done|]. split; [intros _; apply pods_isolated_refl|].
    intros l [= <-]. by rewrite filter_nil, app_nil_r. }
  assert (Hnd' : NoDup (pod_key <$> items ++ cur)) by (by apply NoDup_cons in Hnd as [_ ?]).
  assert (Hsub : ∀ w1 w2 : W, only_pods (outdated h items) w1 w2 → only_pods (outdated h (p :: items)) w1 w2).
  { intros w1 w2 Ho k Hk. apply Ho. intros Hin. apply Hk. rewrite filter_cons. case_decide; [by right|done]. }
  assert (Hskip : (tracks w (p :: items ++ cur) → tracks w (items ++ cur)) → ¬ up_to_date h p →
    wp (select_current h items cur)
      (λ r w', no_panic r ∧ only_pods (outdated h (p :: items)) w w' ∧
        (safe w (p :: items ++ cur) → pods_isolated w w') ∧
        (∀ l, r = Ok l → l = cur ++ filter (up_to_date h) (p :: items) ∧
           (safe w (p :: items ++ cur) → safe w' l) ∧ (tracks w (p :: items ++ cur) → tracks w' l))) w).
  { intros Ht Hno. rewrite (filter_cons_False (up_to_date h)) by done.
    eapply wp_mono, (IH cur w Hnd' Hcur). intros r w' (? & ? & Hiso & Hl).
    assert (Hsf : safe w (p :: items ++ cur) → safe w (items ++ cur)) by (intros Hs q Hq; apply Hs; by right).
    split_and!; [done|by apply Hsub|by auto|]. intros l Hr. destruct (Hl l Hr) as (? & ? & ?). auto. }
  assert (Hdel : ¬ up_to_date h p →
    wp (_ ← ignore_not_found (delete_pod (pod_key p)); select_current h items cur)
      (λ r w', no_panic r ∧ only_pods (outdated h (p :: items)) w w' ∧
        (safe w (p :: items ++ cur) → pods_isolated w w') ∧
        (∀ l, r = Ok l → l = cur ++ filter (up_to_date h) (p :: items) ∧
           (safe w (p :: items ++ cur) → safe w' l) ∧ (tracks w (p :: items ++ cur) → tracks w' l))) w).
  { intros Hno. rewrite (filter_cons_False (up_to_date h)), (filter_cons_True (λ p, ¬ up_to_date h p)) by done.
    assert (Hcons : ∀ w1, only_pods [p] w w1 → only_pods (p :: outdated h items) w w1).
    { intros w1 Ho k [? _]%not_elem_of_cons. apply Ho. by apply not_elem_of_cons; split; [|apply not_elem_of_nil]. }
    apply wp_bind. eapply wp_mono, (delete_owned p (items ++ cur)), Hnd.
    intros [[]|e|] w1 (Hnp & Honly & Hsafe & Hok);
      [|split_and!; [done|by apply Hcons|intros Hs; by apply Hsafe|done]|done].
    eapply wp_mono, (IH cur w1 Hnd' Hcur).
    intros r w2 (? & Ho & Hiso & Hl). split; [done|]. split; [|split].
    - intros k [Hk1 Hk2]%not_elem_of_cons. rewrite Ho by done. apply Honly.
      by apply not_elem_of_cons; split; [|apply not_elem_of_nil].
    - intros [??]%Hsafe. eapply pods_isolated_trans; [done|by apply Hiso].
    - intros l Hr. destruct (Hl l Hr) as (-> & Hs2 & Ht2). split; [done|].
      split; [intros [??]%Hsafe; by apply Hs2|]. intros Ht. by apply Ht2, (proj2 (Hok eq_refl)). }
  repeat case_decide.
  - apply Hskip; [|unfold up_to_date; tauto]. intros Ht. by apply (tracks_deleting w p).
  - apply Hdel. unfold up_to_date. tauto.
  - apply Hdel. unfold up_to_date. tauto.
  - assert (up_to_date h p) by (unfold up_to_date; destruct (decide (pod_hash p = h)); tauto).
    assert (Hperm : items ++ cur ++ [p] ≡ₚ p :: items ++ cur) by solve_Permutation.
    rewrite (filter_cons_True (up_to_date h)), (filter_cons_False (λ p, ¬ up_to_date h p)) by (done || tauto).
    eapply wp_mono, (IH (cur ++ [p])); [|by rewrite Hperm|by apply Forall_app; auto].
    intros r w' (? & ? & Hiso & Hl).
    assert (Hsf : safe w (p :: items ++ cur) → safe w (items ++ cur ++ [p])) by (by apply safe_perm).
    split; [done|]. split; [done|]. split; [by auto|]. intros l Hr.
    destruct (Hl l Hr) as (-> & Hs2 & Ht2). split; [by rewrite <- app_assoc|].
    split; [by auto|]. intros Ht. apply Ht2. by eapply tracks_perm, Ht.
Qed.

(** Scaling down deletes from the end: what stays is a prefix.  With a negative
    target the loop runs into the empty list and panics; by then everything is
    gone. *)
Lemma scale_down_spec fuel cur n w :
  NoDup (pod_key <$> cur) → (length cur < fuel)%nat →
  wp (scale_down fuel cur n)
    (λ r w', (0 ≤ n → no_panic r) ∧ only_pods cur w w' ∧
      (safe w cur → pods_isolated w w') ∧
      (r = Panic → ∀ p, p ∈ cur → pod_gone (pod_key p) w') ∧
      (∀ l, r = Ok l → 0 ≤ n ∧ l = take (Z.to_nat n) cur ∧ (tracks w cur → tracks w' l) ∧
         only_pods (drop (Z.to_nat n) cur) w w' ∧
         ∀ p, p ∈ drop (Z.to_nat n) cur → pod_gone (pod_key p) w')) w.
Proof.
  revert cur w. induction fuel as [|fuel IH]; intros cur w Hnd Hf; [lia|]. cbn [scale_down].
  destruct (Z.ltb_spec n (Z.of_nat (length cur))) as [Hlt|Hge].
  - destruct cur as [|p cur _] using rev_ind.
    { cbn in *. split; [lia|]. split; [done|]. split; [intros _; apply pods_isolated_refl|].
      split; [|done]. intros _ p Hp. by apply not_elem_of_nil in Hp. }
    rewrite last_snoc, removelast_last. rewrite length_app in *; cbn [length] in *.
    assert (Hperm : cur ++ [p] ≡ₚ p :: cur) by solve_Permutation.
    assert (Hnd' : NoDup (pod_key <$> p :: cur)) by (by rewrite <- Hperm).
    assert (Hsf : safe w (cur ++ [p]) → safe w (p :: cur)) by (by apply safe_perm).
    apply wp_bind. eapply wp_mono, (delete_owned p cur), Hnd'.
    apply NoDup_cons in Hnd' as [Hfresh Hnd'].
    assert (Hone : ∀ w1 k, only_pods [p] w w1 → k ∉ pod_key <$> cur ++ [p] → pods w1 !! k = pods w !! k).
    { intros w1 k Ho Hk. apply Ho. intros Hin. apply Hk. rewrite fmap_app. apply elem_of_app. by right. }
    intros [[]|e|] w1 (Hnp & Honly & Hsafe & Hok);
      [|split_and!; [done|by intros k; apply Hone|by intros Hs; apply Hsafe, Hsf|done|done]|done].
    destruct (Hok eq_refl) as [Hgone Ht1].
    assert (Hgone2 : ∀ w2, only_pods cur w1 w2 → pod_gone (pod_key p) w2).
    { intros w2 Ho q. rewrite (Ho _ Hfresh). apply Hgone. }
    eapply wp_mono, (IH cur w1 Hnd'); [|lia].
    intros r w2 (Hr & Ho & Hiso2 & Hpanic & Hl). split; [done|]. split; [|split; [|split]].
    + intros k Hk. rewrite Ho; [by apply Hone|]. intros Hin. apply Hk. rewrite fmap_app.
      apply elem_of_app. by left.
    + intros [??]%Hsf%Hsafe. eapply pods_isolated_trans; [done|by apply Hiso2].
    + intros Hpan q [Hq|Hq]%elem_of_app; [by apply Hpanic|].
      apply list_elem_of_singleton in Hq as ->. by apply Hgone2.
    + intros l Hrl. destruct (Hl l Hrl) as (? & -> & Ht2 & Ho2 & Hg2).
      rewrite take_app_le, drop_app_le by lia. split; [done|]. split; [done|]. split_and!.
      * intros Ht. apply Ht2, Ht1. by eapply tracks_perm, Ht.
      * intros k Hk. rewrite fmap_app in Hk. apply not_elem_of_app in Hk as [Hk1 Hk2].
        rewrite Ho2 by done. by apply Honly.
      * intros q [Hq|Hq]%elem_of_app; [by apply Hg2|].
        apply list_elem_of_singleton in Hq as ->. by apply Hgone2.
  - apply wp_ret. split; [done|]. split; [done|]. split; [intros _; apply pods_isolated_refl|].
    split; [done|]. intros l [= <-]. rewrite take_ge, drop_ge by lia. split; [lia|].
    split_and!; try done. intros p Hp. by apply not_elem_of_nil in Hp.
Qed.
End pods.

(** ** The labels the controller puts on pods *)

Lemma managedLabels_selected name : owned_selector name ⊆ managedLabels name.
Proof.
  apply map_subseteq_spec. intros k v. unfold owned_selector, managedLabels. cbn.
  rewrite !lookup_insert. repeat case_decide; subst; try done; by rewrite lookup_empty.
Qed.

Lemma managedLabels_no_hash name : managedLabels name !! labelSpecHash = None.
Proof.
  unfold managedLabels. cbn. by rewrite !lookup_insert_ne, lookup_empty by done.
Qed.

Lemma pod_labels_selected name h :
  owned_selector name ⊆ <[labelSpecHash := h]> (managedLabels name).
Proof.
  etrans; [apply managedLabels_selected|]. apply insert_subseteq, managedLabels_no_hash.
Qed.

(** Selectors of different resources select disjoint sets of pods. *)
Lemma owned_selector_name n1 n2 l : owned_selector n1 ⊆ l → owned_selector n2 ⊆ l → n1 = n2.
Proof.
  intros Hn1 Hn2.
  assert (∀ n, owned_selector n !! labelCRName = Some n) as Hn by done.
  pose proof (lookup_weaken _ _ _ _ (Hn n1) Hn1). pose proof (lookup_weaken _ _ _ _ (Hn n2) Hn2).
  congruence.
Qed.

(** ** Bringing the pods to a number and a template *)

(** The pods of a resource are brought to [n] pods with the hash [h], made from
    [template]: the body both controllers share. *)
Definition pods_to {R W : Type} `{!KubeAPI R W, !SortSlice} (ns name : string) (n : Z)
    (h : string) (template : Pod R) : api W unit :=
  podList ← list_pods ns (owned_selector name);
  current ← select_current h podList [];
  let current := sort_slice (λ a b, pod_created a <? pod_created b) current in
  current ← scale_down (S (length current)) current n;
  _ ← scale_up (Z.to_nat n) template current n;
  mret tt.

Section reconcile_pods.
Context {R W : Type} `{!ClusterView R W, !KubeAPI R W, !KubeLaws R W}.
Context `{!SortSlice, !SortSliceLaws}.
Context (ns name : string) (n : Z) (h : string) (template : Pod R).
Hypothesis template_namespace : om_namespace (pod_meta template) = ns.
Hypothesis template_labels : pod_labels template = <[labelSpecHash := h]> (managedLabels name).

(** A pod created from the template. *)
Definition fresh_pod (p : Pod R) : Prop :=
  pod_spec p = pod_spec template ∧ pod_phase p = PodPending ∧ up_to_date h p.

(** Whatever a call that adds a pod from the template reports. *)
Lemma pod_added_isolated p w w' : pod_added template p w w' → pods_isolated ns name w w'.
Proof.
  intros ((Hsame & Hs & Hc & He) & Hfresh & Hnew & Hns & Hlab & _).
  assert (Hown : owned ns name (pod_key p) p).
  { split; [by rewrite <- template_namespace, <- Hns|]. unfold selects. rewrite Hlab, template_labels.
    apply pod_labels_selected. }
  split; [done|]. split; [done|]. split; [done|]. intros k q Hq.
  destruct (decide (k = pod_key p)) as [->|]; [|by rewrite Hsame].
  rewrite Hnew, Hfresh. split; [|done]. by intros [= ->].
Qed.

Lemma pod_added_keeps p w w' k q :
  pod_added template p w w' → pods w !! k = Some q → pods w' !! k = Some q.
Proof. intros ((Hsame & _) & Hfresh & _) Hq. rewrite Hsame; congruence. Qed.

Lemma pod_added_fresh p w w' : pod_added template p w w' → fresh_pod p.
Proof.
  intros (_ & _ & _ & _ & Hlab & Hspec & _ & _ & Hlive & Hph). split; [done|]. split; [done|].
  unfold up_to_date. rewrite Hph. split_and!; try done.
  unfold pod_hash. by rewrite Hlab, template_labels, lookup_insert_eq.
Qed.

Lemma pod_added_tracks l p w w' :
  pod_added template p w w' → tracks ns name w l → tracks ns name w' (l ++ [p]).
Proof.
  intros ((Hsame & _) & Hfresh & Hnew & Hns & Hlab & _) (Hnd & Hin & Hall).
  rewrite template_namespace in Hns. rewrite template_labels in Hlab.
  assert (Hown : owned ns name (pod_key p) p).
  { split; [by rewrite <- Hns|]. unfold selects. rewrite Hlab. apply pod_labels_selected. }
  assert (Hne : ∀ q, pods w !! pod_key q = Some q → pod_key q ≠ pod_key p) by congruence.
  split; [|split].
  - rewrite fmap_app. cbn. apply NoDup_app. split; [done|]. split.
    + intros k (q & -> & Hq)%list_elem_of_fmap. apply Hin in Hq as [Hq _].
      rewrite list_elem_of_singleton. by apply Hne.
    + apply NoDup_singleton.
  - intros q [Hq|Hq]%elem_of_app.
    + apply Hin in Hq as [Hq ?]. split; [|done]. rewrite Hsame; [done|by apply Hne].
    + apply list_elem_of_singleton in Hq as ->. done.
  - intros k q Hq Hk Hd. apply elem_of_app.
    destruct (decide (k = pod_key p)) as [->|].
    + right. rewrite Hnew in Hq. injection Hq as <-. set_solver.
    + left. rewrite Hsame in Hq by done. by apply (Hall k).
Qed.

(** What was there stays, and nothing happens if there are pods enough. *)
Lemma scale_up_spec fuel cur w :
  (Z.to_nat (n - Z.of_nat (length cur)) ≤ fuel)%nat →
  wp (scale_up fuel template cur n)
    (λ r w', no_panic r ∧ pods_isolated ns name w w' ∧
      (∀ k p, pods w !! k = Some p → pods w' !! k = Some p) ∧
      (n ≤ Z.of_nat (length cur) → w' = w) ∧
      (∀ l, r = Ok l → (tracks ns name w cur → tracks ns name w' l) ∧
         ∃ new, l = cur ++ new ∧ Forall fresh_pod new ∧
           Z.of_nat (length l) = Z.max n (Z.of_nat (length cur)))) w.
Proof.
  revert cur w. induction fuel as [|fuel IH]; intros cur w Hf; cbn [scale_up];
    destruct (Z.ltb_spec (Z.of_nat (length cur)) n) as [Hlt|Hge]; try lia.
  2: { apply wp_bind. eapply wp_mono, create_pod_law. intros r w1 (Hnp & Herr & Hok).
    destruct r as [p|e|]; [| |done].
    2: { destruct (Herr e eq_refl) as [Hv|(p & Hadd)].
      - split_and!; [done|by apply pods_isolated_view| |lia|done]. by destruct Hv as (-> & _).
      - split_and!; [done|by eapply pod_added_isolated| |lia|done]. intros k q. by eapply pod_added_keeps. }
    pose proof (Hok p eq_refl) as Hadd.
    eapply wp_mono, (IH (cur ++ [p]) w1); [|rewrite length_app; cbn; lia].
    intros r w2 (? & ? & Hkeep & _ & Hl). split_and!; [done| | |lia|].
    - eapply pods_isolated_trans; [by eapply pod_added_isolated|done].
    - intros k q Hq. apply Hkeep. by eapply pod_added_keeps.
    - intros l Hr. destruct (Hl l Hr) as (Ht & new & -> & Hnew & Hlen).
      split; [intros Hc; by eapply Ht, pod_added_tracks|].
      exists (p :: new). split; [by rewrite <- app_assoc|].
      split; [constructor; [by eapply pod_added_fresh|done]|].
      rewrite (length_app cur) in Hlen. cbn [length] in Hlen. lia. }
  all: apply wp_ret; split; [done|]; split; [apply pods_isolated_refl|]; split; [done|]; split; [done|];
    intros l [= <-]; split; [done|]; exists []; rewrite app_nil_r; split_and!; [done|done|lia].
Qed.

(** What a successful run does with the pods [items] that the cache shows: of
    those that are up to date it keeps the oldest, as many as fit, and [new] fills
    up the rest. *)
Definition pods_brought (w w' : W) (items sorted new : list (Pod R)) : Prop :=
  listed ns name w items ∧
  sorted ≡ₚ filter (up_to_date h) items ∧
  StronglySorted (λ p q, pod_created p ≤ pod_created q) sorted ∧
  Forall fresh_pod new ∧
  Z.of_nat (length (take (Z.to_nat n) sorted ++ new)) = n ∧
  (∀ p, p ∈ take (Z.to_nat n) sorted → pods w !! pod_key p = Some p → pods w' !! pod_key p = Some p) ∧
  (∀ p, p ∈ drop (Z.to_nat n) sorted → pod_gone (pod_key p) w') ∧
  (pods_shown ns w → tracks ns name w' (take (Z.to_nat n) sorted ++ new)).

Lemma sorted_disjoint (items sorted : list (Pod R)) p q :
  NoDup (pod_key <$> items) → sorted ≡ₚ filter (up_to_date h) items →
  p ∈ sorted → q ∈ items → ¬ up_to_date h q → pod_key p ≠ pod_key q.
Proof.
  intros Hnd Hperm Hp [j Hq]%list_elem_of_lookup Hno Hk.
  rewrite Hperm, list_elem_of_filter in Hp. destruct Hp as [Hup [i Hp]%list_elem_of_lookup].
  assert (i = j) as ->; [|congruence].
  eapply (NoDup_lookup _ _ _ (pod_key p) Hnd); rewrite list_lookup_fmap; [by rewrite Hp|].
  by rewrite Hq, Hk.
Qed.

Lemma pods_to_spec w :
  wp (pods_to ns name n h template)
    (λ r w', (0 ≤ n → no_panic r) ∧ (labels_kept ns w → pods_isolated ns name w w') ∧
      (r = Panic → pods_shown ns w → tracks ns name w' []) ∧
      (r = Ok tt → 0 ≤ n ∧ ∃ items sorted new, pods_brought w w' items sorted new)) w.
Proof.
  unfold pods_to. apply wp_bind. eapply wp_mono, list_owned_spec.
  intros [items|e|] w1 (Hnp & Hv & Hitems); [| |done].
  2: { split_and!; [done|intros _; by apply pods_isolated_view|done|done]. }
  specialize (Hitems items eq_refl). pose proof (pods_isolated_view ns name _ _ Hv) as Hiso1.
  pose proof Hitems as [Hnd Hin].
  apply wp_bind. eapply wp_mono, (select_current_spec ns name h items []);
    [|by rewrite app_nil_r|done].
  rewrite app_nil_r. intros r2 w2 (Hnp2 & Honly2 & Hiso2 & Hcur).
  assert (Hsafe : labels_kept ns w → safe ns name w1 items).
  { intros Hk. eapply safe_view; [exact Hv|]. by apply listed_safe. }
  assert (Hiso12 : labels_kept ns w → pods_isolated ns name w w2).
  { intros Hk. eapply pods_isolated_trans; [done|]. by apply Hiso2, Hsafe. }
  destruct r2 as [cur|e|]; [|split_and!; done|done].
  destruct (Hcur cur eq_refl) as (Heq & Hsf2 & Ht2). cbn [app] in Heq. clear Hcur.
  set (sorted := sort_slice _ cur).
  assert (Hperm : sorted ≡ₚ cur) by apply sort_slice_perm.
  assert (Hperm' : sorted ≡ₚ filter (up_to_date h) items) by (by rewrite Hperm, Heq).
  assert (Hsort : StronglySorted (λ p q, pod_created p ≤ pod_created q) sorted)
    by apply sort_slice_sorted.
  assert (Hnds : NoDup (pod_key <$> sorted)).
  { rewrite Hperm'. eapply sublist_NoDup; [exact Hnd|]. apply fmap_sublist, sublist_filter. }
  apply wp_bind. eapply wp_mono, (scale_down_spec ns name); [|done|lia].
  intros r3 w3 (Hnp3 & Honly3 & Hiso3 & Hpanic & Hkept).
  assert (Hiso13 : labels_kept ns w → pods_isolated ns name w w3).
  { intros Hk. eapply pods_isolated_trans; [by apply Hiso12|]. apply Hiso3.
    eapply safe_perm; [symmetry; exact Hperm|]. by apply Hsf2, Hsafe. }
  destruct r3 as [kept|e|]; [|split_and!; done|].
  2: { split_and!; [intros Hn; by destruct (Hnp3 Hn)|exact Hiso13| |done]. intros _ Hcu.
       eapply (tracks_all_gone ns name w2); [|exact Honly3|by apply Hpanic].
       eapply tracks_perm; [symmetry; exact Hperm|]. apply Ht2.
       eapply tracks_view; [exact Hv|]. by apply listed_shown_tracks. }
  destruct (Hkept kept eq_refl) as (Hn & -> & Ht3 & Ho3 & Hg3). clear Hkept.
  apply wp_bind. eapply wp_mono, scale_up_spec; [|lia].
  intros r4 w4 (Hnp4 & Hiso4 & Hkeep & Hfull & Hl).
  assert (Hiso14 : labels_kept ns w → pods_isolated ns name w w4).
  { intros Hk. eapply pods_isolated_trans; [by apply Hiso13|done]. }
  destruct r4 as [l|e|]; [|split_and!; done|done].
  apply wp_ret. split; [done|]. split; [done|]. split; [done|]. intros _. split; [done|].
  destruct (Hl l eq_refl) as (Ht4 & new & -> & Hnew & Hlen).
  exists items, sorted, new. split_and!; try done.
  - rewrite Hlen, length_take. lia.
  - intros p Hp Hw. apply Hkeep. rewrite Ho3.
    + rewrite Honly2; [by destruct Hv as (-> & _)|].
      intros (q & Hk & [Hno Hq]%list_elem_of_filter)%list_elem_of_fmap.
      eapply sorted_disjoint; [exact Hnd|exact Hperm'| |exact Hq|exact Hno|exact Hk].
      rewrite <- (take_drop (Z.to_nat n) sorted). apply elem_of_app. by left.
    + intros (q & Hk & Hq)%list_elem_of_fmap. rewrite <- (take_drop (Z.to_nat n) sorted), fmap_app in Hnds.
      apply NoDup_app in Hnds as (_ & Hd & _). apply (Hd (pod_key p)).
      * by apply list_elem_of_fmap_2.
      * rewrite Hk. by apply list_elem_of_fmap_2.
  - intros p Hp. rewrite Hfull; [by apply Hg3|]. rewrite length_take.
    destruct (decide (length sorted ≤ Z.to_nat n)%nat); [|lia].
    rewrite drop_ge in Hp by done. by apply not_elem_of_nil in Hp.
  - intros Hcu. apply Ht4, Ht3. eapply tracks_perm; [symmetry; exact Hperm|]. apply Ht2.
    eapply tracks_view; [exact Hv|]. by apply listed_shown_tracks.
Qed.
End reconcile_pods.

(** ** The operator's template *)

Section operator_pods.
Context {R W : Type} `{!ClusterView R W, !KubeAPI R W, !KubeLaws R W}.
Context `{!ControllerUtil R, !ControllerUtilLaws R, !ResourceJSON R, !SortSlice,
  !SortSliceLaws}.
Context (entry : DbcpEntryService R) (h : string).
Abbreviation ns := (entry_namespace entry).
Abbreviation name := (entry_name entry).
Abbreviation replicas := (Replicas (spec_Service (e_spec entry))).

Lemma desiredPod_meta :
  ∃ os, pod_meta (desiredPod entry h) = with_owners os (pod_template_meta entry h).
Proof.
  unfold desiredPod; cbn [pod_meta].
  destruct (SetControllerReference_spec entry (pod_template_meta entry h)) as [_ Hok].
  destruct (SetControllerReference _ _) as [m'|e|]; [|by exists []..].
  destruct (Hok m' eq_refl) as (os & -> & _). eauto.
Qed.

Lemma desiredPod_labels :
  pod_labels (desiredPod entry h) = <[labelSpecHash := h]> (managedLabels name).
Proof. unfold pod_labels. by destruct desiredPod_meta as [os ->]. Qed.

Lemma desiredPod_namespace : om_namespace (pod_meta (desiredPod entry h)) = ns.
Proof. by destruct desiredPod_meta as [os ->]. Qed.

Lemma reconcilePods_spec (w : W) :
  wp (reconcilePods entry h)
    (λ r w', (0 ≤ replicas → no_panic r) ∧ (labels_kept ns w → pods_isolated ns name w w') ∧
      (r = Ok tt → ∃ items sorted new,
         pods_brought ns name replicas h (desiredPod entry h) w w' items sorted new)) w.
Proof.
  eapply wp_mono, (pods_to_spec ns name replicas h (desiredPod entry h));
    [|apply desiredPod_namespace|apply desiredPod_labels].
  intros r w' (? & ? & _ & Hok). split_and!; [done|done|]. intros Hr. by destruct (Hok Hr).
Qed.
End operator_pods.

(** ** Convergence, stated on the contents of the cluster *)

#[global] Instance owned_dec {R} ns name k (p : Pod R) : Decision (owned ns name k p).
Proof. unfold owned, selects. apply _. Defined.

Section converge.
Context {R W : Type} `{!ClusterView R W}.

(** The pods of a resource that are not on their way out, among [m]. *)
Definition live_in (ns name : string) (m : gmap key (Pod R)) : gmap key (Pod R) :=
  filter (λ kp, owned ns name kp.1 kp.2 ∧ ¬ pod_deleting kp.2) m.
Definition live_pods (ns name : string) (w : W) : gmap key (Pod R) := live_in ns name (pods w).

(** As many as desired, all of them up to date. *)
Definition converged_in (entry : DbcpEntryService R) (h : string) (m : gmap key (Pod R)) : Prop :=
  Z.of_nat (size (live_in (entry_namespace entry) (entry_name entry) m)) =
    Replicas (spec_Service (e_spec entry)) ∧
  map_Forall (λ _ p, up_to_date h p) (live_in (entry_namespace entry) (entry_name entry) m).
Definition converged (entry : DbcpEntryService R) (h : string) (w : W) : Prop :=
  converged_in entry h (pods w).

Lemma live_in_lookup ns name m k p :
  live_in ns name m !! k = Some p ↔ m !! k = Some p ∧ owned ns name k p ∧ ¬ pod_deleting p.
Proof. unfold live_in. by rewrite map_lookup_filter_Some. Qed.
Lemma live_pods_lookup ns name w k p :
  live_pods ns name w !! k = Some p ↔
  pods w !! k = Some p ∧ owned ns name k p ∧ ¬ pod_deleting p.
Proof. apply live_in_lookup. Qed.

(** Convergence depends on the live pods of the resource only. *)
Lemma converged_live entry h w w' :
  live_pods (entry_namespace entry) (entry_name entry) w' =
    live_pods (entry_namespace entry) (entry_name entry) w →
  converged entry h w → converged entry h w'.
Proof. unfold converged, converged_in, live_pods. by intros ->. Qed.
End converge.

Section convergence.
Context {R W : Type} `{!ClusterView R W, !KubeAPI R W, !KubeLaws R W}.
Context `{!ControllerUtil R, !ControllerUtilLaws R, !ResourceJSON R, !SortSlice,
  !SortSliceLaws}.

Lemma tracks_live (ns name : string) (m : gmap key (Pod R)) l :
  (∀ k p, m !! k = Some p → pod_key p = k) →
  tracks_in ns name m l → Forall (λ p, ¬ pod_deleting p) l →
  map_to_list (live_in ns name m) ≡ₚ (λ p, (pod_key p, p)) <$> l.
Proof.
  intros Hkey (Hnd & Hin & Hall) Hlive. apply NoDup_Permutation.
  - apply NoDup_map_to_list.
  - apply (NoDup_fmap_1 fst). rewrite <- list_fmap_compose. done.
  - intros [k p]. rewrite elem_of_map_to_list, live_in_lookup, list_elem_of_fmap.
    rewrite Forall_forall in Hlive. split.
    + intros (Hp & Hown & Hd). exists p. pose proof (Hkey _ _ Hp) as <-.
      split; [done|]. by apply (Hall (pod_key p)).
    + intros (q & [= -> ->] & Hq). destruct (Hin q Hq). auto.
Qed.

Lemma tracks_converged entry h (w : W) l :
  tracks (entry_namespace entry) (entry_name entry) w l → Forall (up_to_date h) l →
  Z.of_nat (length l) = Replicas (spec_Service (e_spec entry)) → converged entry h w.
Proof.
  intros Ht Hgood Hlen.
  pose proof (tracks_live _ _ (pods w) l (pods_keyed w) Ht) as Hp. rewrite Forall_forall in Hp.
  rewrite Forall_forall in Hgood. specialize (Hp (λ p Hin, proj1 (Hgood p Hin))).
  split.
  - rewrite <- length_map_to_list, Hp, length_fmap. done.
  - intros k p Hk%live_in_lookup. destruct Ht as (_ & _ & Hall).
    apply Hgood, (Hall k); tauto.
Qed.

Lemma fresh_up_to_date h (template : Pod R) new :
  Forall (fresh_pod h template) new → Forall (up_to_date h) new.
Proof. intros Hnew. eapply Forall_impl; [exact Hnew|]. by intros p (_ & _ & ?). Qed.

(** A run that starts with an up-to-date cache and ends without an error leaves
    exactly the desired number of live pods, all of them up to date. *)
Lemma pods_to_converges (entry : DbcpEntryService R) h template (w w' : W) :
  om_namespace (pod_meta template) = entry_namespace entry →
  pod_labels template = <[labelSpecHash := h]> (managedLabels (entry_name entry)) →
  pods_shown (entry_namespace entry) w →
  pods_to (entry_namespace entry) (entry_name entry) (Replicas (spec_Service (e_spec entry)))
    h template w = (Ok tt, w') →
  converged entry h w'.
Proof.
  intros Htn Htl Hcu Hrun. pose proof (wp_run _ _ _ _ _ (pods_to_spec _ _ _ _ _ Htn Htl w) Hrun)
    as (_ & _ & _ & Hok).
  destruct (Hok eq_refl) as (_ & items & sorted & new & _ & Hperm & _ & Hnew & Hlen & _ & _ & Ht).
  eapply tracks_converged; [by apply Ht| |exact Hlen].
  apply Forall_app. split; [|by eapply fresh_up_to_date].
  apply Forall_take. rewrite Hperm, Forall_forall. intros p. rewrite list_elem_of_filter. tauto.
Qed.

Lemma reconcilePods_converges (entry : DbcpEntryService R) h (w w' : W) :
  pods_shown (entry_namespace entry) w →
  reconcilePods entry h w = (Ok tt, w') → converged entry h w'.
Proof.
  apply pods_to_converges; [apply desiredPod_namespace|apply desiredPod_labels].
Qed.

(** The calls [reconcilePods] makes go through. *)
Definition reliable : Prop :=
  (∀ ns sel (w : W), ∃ ps w', list_pods (R := R) ns sel w = (Ok ps, w')) ∧
  (∀ p (w : W), ∃ p' w', create_pod (R := R) p w = (Ok p', w')) ∧
  (∀ k (w : W), ∃ w', delete_pod (R := R) k w = (Ok tt, w') ∨
                      delete_pod (R := R) k w = (Err NotFound, w')).

Lemma ignore_not_found_total k (w : W) :
  reliable → ∃ w', ignore_not_found (delete_pod (R := R) k) w = (Ok tt, w').
Proof.
  intros (_ & _ & Hdel). unfold ignore_not_found.
  destruct (Hdel k w) as [w' [-> | ->]]; eauto.
Qed.

Lemma select_current_total h items cur (w : W) :
  reliable → ∃ l w', select_current h items cur w = (Ok l, w').
Proof.
  intros Hrel. revert cur w. induction items as [|p items IH]; intros cur w;
    cbn [select_current]; [by exists cur, w|].
  repeat case_decide; try apply IH;
    destruct (ignore_not_found_total (pod_key p) w Hrel) as [w1 E];
    rewrite (eff_bind_step _ _ _ _ _ E); apply IH.
Qed.

Lemma scale_down_total fuel cur n (w : W) :
  reliable → 0 ≤ n → (length cur < fuel)%nat → ∃ l w', scale_down fuel cur n w = (Ok l, w').
Proof.
  intros Hrel Hn. revert cur w. induction fuel as [|fuel IH]; intros cur w Hf; [lia|].
  cbn [scale_down]. destruct (Z.ltb_spec n (Z.of_nat (length cur))); [|by exists cur, w].
  destruct cur as [|p cur _] using rev_ind; [cbn in *; lia|].
  rewrite last_snoc, removelast_last. rewrite length_app in Hf. cbn in Hf.
  destruct (ignore_not_found_total (pod_key p) w Hrel) as [w1 E].
  rewrite (eff_bind_step _ _ _ _ _ E). apply IH. lia.
Qed.

Lemma scale_up_total fuel (template : Pod R) cur n (w : W) :
  reliable → (Z.to_nat (n - Z.of_nat (length cur)) ≤ fuel)%nat →
  ∃ l w', scale_up fuel template cur n w = (Ok l, w').
Proof.
  intros Hrel. revert cur w. induction fuel as [|fuel IH]; intros cur w Hf; cbn [scale_up];
    destruct (Z.ltb_spec (Z.of_nat (length cur)) n); try lia; try by exists cur, w.
  destruct Hrel as (_ & Hcreate & _). destruct (Hcreate template w) as (p & w1 & E).
  rewrite (eff_bind_step _ _ _ _ _ E). apply IH. rewrite length_app. cbn. lia.
Qed.

(** With a negative target, scaling down deletes every pod and then panics. *)
Lemma scale_down_panics fuel cur n (w : W) :
  reliable → n < 0 → (length cur < fuel)%nat → ∃ w', scale_down fuel cur n w = (Panic, w').
Proof.
  intros Hrel Hn. revert cur w. induction fuel as [|fuel IH]; intros cur w Hf; [lia|].
  cbn [scale_down]. rewrite (proj2 (Z.ltb_lt _ _)) by lia.
  destruct cur as [|p cur _] using rev_ind; [by exists w|].
  rewrite last_snoc, removelast_last. rewrite length_app in Hf. cbn in Hf.
  destruct (ignore_not_found_total (pod_key p) w Hrel) as [w1 E].
  rewrite (eff_bind_step _ _ _ _ _ E). apply IH. lia.
Qed.

(** The calls before scaling go through. *)
Lemma pods_to_selects ns name n h template (w : W) :
  reliable → ∃ sorted w1, pods_to ns name n h template w =
    (current ← scale_down (S (length sorted)) sorted n;
     _ ← scale_up (Z.to_nat n) template current n; mret tt) w1.
Proof.
  intros Hrel. unfold pods_to.
  destruct (proj1 Hrel ns (owned_selector name) w) as (ps & w1 & E1).
  rewrite (eff_bind_step _ _ _ _ _ E1).
  destruct (select_current_total h ps [] w1 Hrel) as (cur & w2 & E2).
  rewrite (eff_bind_step _ _ _ _ _ E2). by eexists _, _.
Qed.

(** Both scaling loops run out of work. *)
Lemma pods_to_runs ns name n h template (w : W) :
  reliable → 0 ≤ n → ∃ w', pods_to ns name n h template w = (Ok tt, w').
Proof.
  intros Hrel Hn. destruct (pods_to_selects ns name n h template w Hrel) as (sorted & w2 & ->).
  destruct (scale_down_total (S (length sorted)) sorted n w2 Hrel Hn ltac:(lia)) as (kept & w3 & E3).
  rewrite (eff_bind_step _ _ _ _ _ E3).
  destruct (scale_up_total (Z.to_nat n) template kept n w3 Hrel ltac:(lia)) as (l & w4 & E4).
  rewrite (eff_bind_step _ _ _ _ _ E4). by exists w4.
Qed.

Lemma pods_to_panics ns name n h template (w : W) :
  reliable → n < 0 → ∃ w', pods_to ns name n h template w = (Panic, w').
Proof.
  intros Hrel Hn. destruct (pods_to_selects ns name n h template w Hrel) as (sorted & w2 & ->).
  destruct (scale_down_panics (S (length sorted)) sorted n w2 Hrel Hn ltac:(lia)) as (w3 & E3).
  exists w3. unfold mbind, eff_bind. by rewrite E3.
Qed.

Lemma reconcilePods_runs (entry : DbcpEntryService R) h (w : W) :
  reliable → 0 ≤ Replicas (spec_Service (e_spec entry)) →
  ∃ w', reconcilePods entry h w = (Ok tt, w').
Proof. apply pods_to_runs. Qed.

(** C32: scaling down removes the newest pods. If, of two pods that the client's
    cache shows as they are, live and up to date, [p] is still live after a
    successful run and [q] is not, then [p] was created no later than [q]. This
    holds however much else the cache is behind. *)
Theorem scale_down_keeps_oldest (entry : DbcpEntryService R) h (w w' : W) k p k2 q :
  reconcilePods entry h w = (Ok tt, w') →
  let live := live_pods (entry_namespace entry) (entry_name entry) in
  live w !! k = Some p → cached_pods w !! k = Some p → up_to_date h p →
  live w !! k2 = Some q → cached_pods w !! k2 = Some q → up_to_date h q →
  live w' !! k = Some p → live w' !! k2 = None →
  pod_created p ≤ pod_created q.
Proof.
  cbn zeta. intros Hrun Hp Hcp Hgp Hq Hcq Hgq Hp' Hq'.
  pose proof (wp_run _ _ _ _ _ (reconcilePods_spec entry h w) Hrun) as (_ & _ & Hok).
  destruct (Hok eq_refl) as (items & sorted & new & [_ Hits] & Hperm & Hsort & _ & _ & Hkeep & Hgone & _).
  set (n := Z.to_nat (Replicas (spec_Service (e_spec entry)))) in *.
  apply live_pods_lookup in Hp as (Hp & Hop & Hdp), Hq as (Hq & Hoq & Hdq).
  apply live_pods_lookup in Hp' as (Hp' & _ & _).
  pose proof (pods_keyed _ _ _ Hp) as <-. pose proof (pods_keyed _ _ _ Hq) as <-.
  assert (Hps : p ∈ sorted) by (rewrite Hperm, list_elem_of_filter; split; [done|by apply Hits]).
  assert (Hqs : q ∈ sorted) by (rewrite Hperm, list_elem_of_filter; split; [done|by apply Hits]).
  rewrite <- (take_drop n sorted) in Hps, Hqs, Hsort.
  apply elem_of_app in Hps as [Hps|Hps]; [|by destruct (Hdp (Hgone p Hps p Hp'))].
  apply elem_of_app in Hqs as [Hqs|Hqs].
  - rewrite (proj2 (live_pods_lookup _ _ _ _ q)) in Hq'; [done|]. split_and!; [|done|done].
    by apply Hkeep.
  - by apply (StronglySorted_app_1_elem_of _ _ _ _ _ Hsort).
Qed.

Lemma select_current_noop h items cur (w : W) :
  Forall (λ p, pod_deleting p ∨ up_to_date h p) items →
  select_current h items cur w = (Ok (cur ++ filter (up_to_date h) items), w).
Proof.
  intros Hits. revert cur. induction Hits as [|p items Hp _ IH]; intros cur; cbn [select_current].
  { by rewrite app_nil_r. }
  destruct (decide (pod_deleting p)) as [Hd|Hd].
  - rewrite filter_cons_False by (by intros [? _]). apply IH.
  - destruct Hp as [?|Hg]; [done|]. pose proof Hg as (_ & ? & ? & Hh).
    rewrite decide_False by tauto. rewrite decide_False by (by intros ?).
    rewrite filter_cons_True, IH by done. by rewrite <- app_assoc.
Qed.

(** C33: a resource that looks converged is left alone. If the live pods that
    the client's cache shows are as many as desired and up to date, and the
    pods can be listed, [reconcilePods] succeeds and changes nothing in the
    cluster. *)
Theorem reconcilePods_stable (entry : DbcpEntryService R) h (w w1 : W) ps :
  converged_in entry h (cached_pods w) →
  list_pods (entry_namespace entry) (owned_selector (entry_name entry)) w = (Ok ps, w1) →
  reconcilePods entry h w = (Ok tt, w1) ∧ view_eq w w1.
Proof.
  intros [Hsize Hgood] Hlist.
  pose proof (wp_run _ _ _ _ _ (list_owned_spec _ _ w) Hlist) as (_ & Hv & Ht).
  specialize (Ht ps eq_refl). split; [|done]. apply listed_tracks in Ht.
  destruct Ht as (Hnd & Hin & Hall).
  assert (Hgp : Forall (λ p, pod_deleting p ∨ up_to_date h p) ps).
  { apply Forall_forall. intros p Hp. destruct (decide (pod_deleting p)); [by left|right].
    destruct (Hin p Hp). apply (Hgood (pod_key p)). by apply live_in_lookup. }
  unfold reconcilePods. rewrite (eff_bind_step _ _ _ _ _ Hlist).
  rewrite (eff_bind_step _ _ _ _ _ (select_current_noop h ps [] w1 Hgp)). cbn [app].
  match goal with |- context [scale_down _ ?c _] => set (sorted := c) end.
  assert (Hperm : sorted ≡ₚ filter (up_to_date h) ps) by apply sort_slice_perm.
  assert (Hlen : Z.of_nat (length sorted) = Replicas (spec_Service (e_spec entry))).
  { rewrite <- Hsize, Hperm, <- length_map_to_list. f_equal. symmetry.
    erewrite (tracks_live _ _ (cached_pods w) (filter (up_to_date h) ps));
      [by rewrite length_fmap|apply cached_pods_keyed| |].
    - split; [|split].
      + eapply sublist_NoDup; [exact Hnd|]. apply fmap_sublist, sublist_filter.
      + intros p [_ Hp]%list_elem_of_filter. by apply Hin.
      + intros k p Hp Hown Hd. apply list_elem_of_filter. split; [|by apply (Hall k)].
        apply (Hgood k). by apply live_in_lookup.
    - apply Forall_forall. intros p [[? _] _]%list_elem_of_filter. done. }
  assert (Hdown : ∀ fuel, scale_down (S fuel) sorted (Replicas (spec_Service (e_spec entry))) w1 =
    (Ok sorted, w1)).
  { intros fuel. cbn [scale_down]. by rewrite (proj2 (Z.ltb_ge _ _)) by lia. }
  rewrite (eff_bind_step _ _ _ _ _ (Hdown _)).
  assert (Hup : ∀ fuel, scale_up fuel (desiredPod entry h) sorted (Replicas (spec_Service (e_spec entry))) w1 =
    (Ok sorted, w1)).
  { intros []; cbn [scale_up]; by rewrite (proj2 (Z.ltb_ge _ _)) by lia. }
  by rewrite (eff_bind_step _ _ _ _ _ (Hup _)).
Qed.
End convergence.

(** Three running pods, as a reconcile run left them. *)
Lemma reconcilePods_stable_witness :
  ∃ w1, reconcilePods (demo_entry [finalizer] None 3) demo_hash running = (Ok tt, w1) ∧
        view_eq running w1.
Proof.
  eexists. eapply (reconcilePods_stable (demo_entry [finalizer] None 3) demo_hash running).
  - split; [vm_compute; reflexivity|decide_by_vm].
  - reflexivity.
Defined.

(** Scaling the three pods down to two: the pod created at 100 stays, the one
    created at 102 goes. *)
Definition demo_pod (n : nat) : key * Pod Res :=
  default (demo, desiredPod (demo_entry [] None 3) "")
    (sort_slice (λ a b, pod_created a.2 <? pod_created b.2) (map_to_list (pods running)) !! n).

Lemma scale_down_keeps_oldest_witness :
  pod_created (demo_pod 0).2 ≤ pod_created (demo_pod 2).2.
Proof.
  apply (scale_down_keeps_oldest (demo_entry [finalizer] None 2) demo_hash running
    (reconcilePods (demo_entry [finalizer] None 2) demo_hash running).2
    (demo_pod 0).1 (demo_pod 0).2 (demo_pod 2).1 (demo_pod 2).2).
  - apply run_eq. vm_compute. reflexivity.
  - vm_compute. reflexivity.
  - vm_compute. reflexivity.
  - decide_by_vm.
  - vm_compute. reflexivity.
  - vm_compute. reflexivity.
  - decide_by_vm.
  - vm_compute. reflexivity.
  - vm_compute. reflexivity.
Defined.
