(* ===== verification/OperatorReconcile.v ===== *)
(** * The reconciler as a whole: what a run establishes, keeps and never touches *)

From S2P Require Import Prelude GoStrings GoEncoding GoCrypto Json Kube Operator OperatorPods.

Lemma configMapName_inj n1 n2 : configMapName n1 = configMapName n2 → n1 = n2.
Proof.
  unfold configMapName. intros E%(f_equal bytes_of). autorewrite with gobytes in E.
  apply app_inv_tail in E. by apply (inj bytes_of).
Qed.

Section reconcile.
Context {R W : Type} `{!ClusterView R W, !KubeAPI R W, !KubeLaws R W}.
Context `{!ControllerUtil R, !ControllerUtilLaws R, !ResourceJSON R, !SortSlice,
  !SortSliceLaws}.

(** What a request may change: the pods its resource manages, the Service and
    ConfigMap named after it, and the resource itself. *)
Definition isolated (req : key) (w w' : W) : Prop :=
  (∀ k p, ¬ owned req.1 req.2 k p → pods w' !! k = Some p ↔ pods w !! k = Some p) ∧
  (∀ k, k ≠ req → services w' !! k = services w !! k) ∧
  (∀ k, k ≠ (req.1, configMapName req.2) → configmaps w' !! k = configmaps w !! k) ∧
  (∀ k, k ≠ req → entries w' !! k = entries w !! k) ∧
  (∀ e', entries w' !! req = Some e' → ∃ e, entries w !! req = Some e ∧ e_spec e' = e_spec e).

Lemma isolated_refl req w : isolated req w w.
Proof. unfold isolated. split_and!; eauto. Qed.
Lemma isolated_trans req w1 w2 w3 :
  isolated req w1 w2 → isolated req w2 w3 → isolated req w1 w3.
Proof.
  intros (Hp & Hs & Hc & He & Hn) (Hp' & Hs' & Hc' & He' & Hn'). split_and!.
  - intros k p Hk. by rewrite Hp', Hp.
  - intros k Hk. by rewrite Hs', Hs.
  - intros k Hk. by rewrite Hc', Hc.
  - intros k Hk. by rewrite He', He.
  - intros e3 He3. destruct (Hn' e3 He3) as (e2 & He2 & ->). by apply Hn.
Qed.
Lemma isolated_view req w w' : view_eq w w' → isolated req w w'.
Proof. intros (Hp & Hs & Hc & He). unfold isolated. rewrite Hp, Hs, Hc, He. naive_solver. Qed.
Lemma isolated_pods req w w' : pods_isolated req.1 req.2 w w' → isolated req w w'.
Proof. intros (Hs & Hc & He & Hp). unfold isolated. rewrite Hs, Hc, He. naive_solver. Qed.
Lemma isolated_service req w w' : only_service req w w' → isolated req w w'.
Proof. intros (Hp & Hs & Hc & He). unfold isolated. rewrite Hp, Hc, He. naive_solver. Qed.
Lemma isolated_configmap req w w' :
  only_configmap (req.1, configMapName req.2) w w' → isolated req w w'.
Proof. intros (Hp & Hs & Hc & He). unfold isolated. rewrite Hp, Hs, He. naive_solver. Qed.
Lemma isolated_entry req w w' :
  only_entry req w w' →
  (∀ e', entries w' !! req = Some e' → ∃ e, entries w !! req = Some e ∧ e_spec e' = e_spec e) →
  isolated req w w'.
Proof. intros (Hp & Hs & Hc & He) Hn. unfold isolated. by rewrite Hp, Hs, Hc. Qed.

(** An update of the metadata of a resource read from the cache, applied or not.
    It is applied only if the cache showed the resource as it is. *)
Lemma update_current req e m w0 w w' :
  cached_entries w0 !! req = Some e → entries w = entries w0 → meta_key m = req →
  entry_updated (with_meta e m) w w' →
  entries w0 !! req = Some e ∧ ∃ v,
    entries w' = if decide (om_deletionTimestamp (e_meta e) ≠ None ∧ om_finalizers m = [])
                 then delete req (entries w) else <[req := with_version v (with_meta e m)]> (entries w).
Proof.
  intros Hc He Hm (old & v & Hold & Hver & Hent). cbn in Hold, Hver, Hent. rewrite Hm in Hold, Hent.
  rewrite He in Hold. assert (old = e) as -> by by eapply cached_entries_version. eauto.
Qed.

Lemma isolated_update req e m w0 w w' :
  cached_entries w0 !! req = Some e → entries w = entries w0 → meta_key m = req →
  only_entry req w w' → entries w' = entries w ∨ entry_updated (with_meta e m) w w' →
  isolated req w w'.
Proof.
  intros Hc Hent Hm Ho Hcase. apply isolated_entry; [done|]. intros e'.
  destruct Hcase as [-> |Hupd]; [by eauto|].
  eapply update_current in Hupd as (He & v & ->); [|done..]. rewrite Hent.
  case_decide; [by rewrite lookup_delete_eq|].
  rewrite lookup_insert_eq. intros [= <-]. by exists e.
Qed.

Context (e : DbcpEntryService R).
Abbreviation req := (entry_namespace e, entry_name e).
Abbreviation cm_key := (entry_namespace e, configMapName (entry_name e)).

(** ** Cleanup *)

(** Nothing of the resource is left but what is terminating. *)
Definition cleaned (w : W) : Prop :=
  live_pods (entry_namespace e) (entry_name e) w = ∅ ∧ service_gone req w ∧
  configmap_gone cm_key w.

Lemma tracks_nil_live ns name w : tracks ns name w [] → live_pods ns name w = ∅.
Proof.
  intros (_ & _ & Hall). apply map_eq. intros k. rewrite lookup_empty.
  destruct (live_pods ns name w !! k) as [p|] eqn:Hk; [|done].
  apply live_pods_lookup in Hk as (? & ? & ?). by destruct (not_elem_of_nil p); eapply Hall.
Qed.

Lemma delete_service_ignored k w :
  wp (ignore_not_found (delete_service (R := R) k))
    (λ r w', no_panic r ∧ only_service k w w' ∧ (r = Ok tt → service_gone k w') ∧
      (∀ s', services w' !! k = Some s' →
        ∃ s, services w !! k = Some s ∧ not_revived (svc_meta s) (svc_meta s'))) w.
Proof.
  pose proof (delete_service_law (R := R) k w) as Hl. unfold wp, ignore_not_found in *.
  destruct (delete_service k w) as [[[]|[]|] w1]; cbn in *;
    destruct Hl as (? & ? & Hg & ?); split_and!; try done; intros ?; apply Hg; auto.
Qed.

Lemma delete_configmap_ignored k w :
  wp (ignore_not_found (delete_configmap (R := R) k))
    (λ r w', no_panic r ∧ only_configmap k w w' ∧ (r = Ok tt → configmap_gone k w') ∧
      (∀ c', configmaps w' !! k = Some c' →
        ∃ c, configmaps w !! k = Some c ∧ not_revived (cm_meta c) (cm_meta c'))) w.
Proof.
  pose proof (delete_configmap_law (R := R) k w) as Hl. unfold wp, ignore_not_found in *.
  destruct (delete_configmap k w) as [[[]|[]|] w1]; cbn in *;
    destruct Hl as (? & ? & Hg & ?); split_and!; try done; intros ?; apply Hg; auto.
Qed.

(** Cleanup changes no custom resource, whatever its outcome. *)
Lemma cleanup_spec w :
  labels_kept (entry_namespace e) w →
  wp (cleanupOwnedResources e)
    (λ r w', no_panic r ∧ isolated req w w' ∧ entries w' = entries w ∧
      (r = Ok tt → pods_shown (entry_namespace e) w → cleaned w')) w.
Proof.
  intros Hkept. unfold cleanupOwnedResources. apply wp_bind. eapply wp_mono, list_owned_spec.
  intros r1 w1 (Hnp1 & Hv & Hps). pose proof (isolated_view req _ _ Hv) as Hi1.
  pose proof Hv as (_ & _ & _ & He1). destruct r1 as [ps|err|]; [|by split_and!|done].
  specialize (Hps ps eq_refl). pose proof Hps as [Hnd _].
  apply wp_bind. eapply wp_mono, (delete_pods_spec (entry_namespace e) (entry_name e)), Hnd.
  intros r2 w2 (Hnp2 & Hiso & Htr).
  assert (Hiso2 : pods_isolated (entry_namespace e) (entry_name e) w1 w2).
  { apply Hiso. eapply safe_view; [exact Hv|]. by apply listed_safe. }
  clear Hiso. rename Hiso2 into Hiso.
  pose proof (isolated_trans _ _ _ _ Hi1 (isolated_pods req _ _ Hiso)) as Hi2.
  destruct Hiso as (_ & _ & He2 & _). rewrite He1 in He2.
  destruct r2 as [[]|err|]; [|by split_and!|done].
  assert (Hlive : pods_shown (entry_namespace e) w →
    live_pods (entry_namespace e) (entry_name e) w2 = ∅).
  { intros Hs. apply tracks_nil_live, Htr; [done|]. eapply tracks_view; [exact Hv|].
    by apply listed_shown_tracks. }
  apply wp_bind. eapply wp_mono, delete_service_ignored.
  intros r3 w3 (Hnp3 & Hos & Hg3 & _).
  pose proof (isolated_trans _ _ _ _ Hi2 (isolated_service req _ _ Hos)) as Hi3.
  destruct Hos as (Hp3 & _ & _ & He3). rewrite He2 in He3.
  destruct r3 as [[]|err|]; [|by split_and!|done].
  apply wp_bind. eapply wp_mono, delete_configmap_ignored.
  intros r4 w4 (Hnp4 & Hoc & Hg4 & _).
  pose proof (isolated_trans _ _ _ _ Hi3 (isolated_configmap req _ _ Hoc)) as Hi4.
  destruct Hoc as (Hp4 & Hs4 & _ & He4). rewrite He3 in He4.
  destruct r4 as [[]|err|]; [|by split_and!|done].
  apply wp_ret. split; [done|]. split; [done|]. split; [done|]. intros _ Hs. split; [|split].
  - unfold live_pods in *. rewrite Hp4, Hp3. by apply Hlive.
  - unfold service_gone. rewrite Hs4. by apply Hg3.
  - by apply Hg4.
Qed.

(** ** The ConfigMap and the Service *)

Lemma mutate_configmap_ok c :
  no_panic (mutate_configmap e c) ∧
  ∀ c', mutate_configmap e c = Ok c' →
    cm_data c' = desiredConfigData e ∧ om_labels (cm_meta c') = managedLabels (entry_name e) ∧
    ∃ o, o ∈ om_ownerReferences (cm_meta c') ∧ or_uid o = om_uid (e_meta e) ∧
         or_controller o = Some true.
Proof.
  unfold mutate_configmap. set (m := with_labels _ _).
  destruct (SetControllerReference_spec e m) as [Hnp Hok].
  destruct (SetControllerReference e m) as [m'|err|]; [|done..]. cbn [mbind outcome_bind]. split; [done|].
  intros c' [= <-]. destruct (Hok m' eq_refl) as (os & -> & Ho). done.
Qed.

Lemma mutate_service_ok c :
  no_panic (mutate_service e c) ∧
  ∀ c', mutate_service e c = Ok c' →
    svc_spec c' = desired_service_spec e ∧ om_labels (svc_meta c') = managedLabels (entry_name e) ∧
    ∃ o, o ∈ om_ownerReferences (svc_meta c') ∧ or_uid o = om_uid (e_meta e) ∧
         or_controller o = Some true.
Proof.
  unfold mutate_service. set (m := with_labels _ _).
  destruct (SetControllerReference_spec e m) as [Hnp Hok].
  destruct (SetControllerReference e m) as [m'|err|]; [|done..]. cbn [mbind outcome_bind]. split; [done|].
  intros c' [= <-]. destruct (Hok m' eq_refl) as (os & -> & Ho). done.
Qed.

(** The stored ConfigMap carries the rendered environment and is owned. *)
Definition configmap_ready (w : W) : Prop :=
  ∃ c, configmaps w !! cm_key = Some c ∧ cm_data c = desiredConfigData e ∧
    om_labels (cm_meta c) = managedLabels (entry_name e) ∧
    ∃ o, o ∈ om_ownerReferences (cm_meta c) ∧ or_uid o = om_uid (e_meta e) ∧
         or_controller o = Some true.

Definition service_ready (w : W) : Prop :=
  ∃ s, services w !! req = Some s ∧ ss_type (svc_spec s) = "ClusterIP" ∧
    ss_selector (svc_spec s) = managedLabels (entry_name e) ∧
    ss_ports (svc_spec s) = ss_ports (desired_service_spec e) ∧
    om_labels (svc_meta s) = managedLabels (entry_name e) ∧
    ∃ o, o ∈ om_ownerReferences (svc_meta s) ∧ or_uid o = om_uid (e_meta e) ∧
         or_controller o = Some true.

Lemma ensureConfigMap_spec w :
  wp (ensureConfigMap e)
    (λ r w', no_panic r ∧ only_configmap cm_key w w' ∧ settled w w' ∧
      (r = Ok tt → cached_configmaps w !! cm_key = configmaps w !! cm_key → configmap_ready w')) w.
Proof.
  eapply wp_mono, (create_or_update_configmap_law (R := R) _ _ w), mutate_configmap_ok.
  intros r w' (Hnp & Honly & Hset & Hok). split_and!; [done|done|done|]. intros Hr Hshown.
  destruct (Hok Hr) as (c & Hc & Hcase). apply mutate_configmap_ok in Hc as (Hdata & Hlab & Howner).
  destruct Hcase as [(Hcur & _ & _ & Hsame & _)|(c' & Hc' & (_ & _ & Hl & _ & Ho) & Hd)].
  - exists c. split; [|done]. rewrite Hsame, <- Hshown. exact Hcur.
  - exists c'. rewrite Hd, Hl, Ho. done.
Qed.

Lemma ensureService_spec w :
  wp (ensureService e)
    (λ r w', no_panic r ∧ only_service req w w' ∧ settled w w' ∧
      (r = Ok tt → cached_services w !! req = services w !! req → service_ready w')) w.
Proof.
  eapply wp_mono, (create_or_update_service_law (R := R) _ _ w), mutate_service_ok.
  intros r w' (Hnp & Honly & Hset & Hok). split_and!; [done|done|done|]. intros Hr Hshown.
  destruct (Hok Hr) as (c & Hc & Hcase). apply mutate_service_ok in Hc as (Hdata & Hlab & Howner).
  destruct Hcase as [(Hcur & _ & Hsame & _ & _)|(c' & Hc' & (_ & _ & Hl & _ & Ho) & Ht & Hsel & Hports)].
  - exists c. rewrite Hsame, <- Hshown, Hdata. split; [exact Hcur|]. done.
  - exists c'. rewrite Ht, Hsel, Hports, Hl, Ho, Hdata. done.
Qed.

(** ** One run of [Reconcile] *)

(** The reads of a run come before the writes of the same kind, so an up-to-date
    cache at the start is enough. *)
Lemma managed_path_spec h w0 w :
  0 ≤ Replicas (spec_Service (e_spec e)) → cache_safe (entry_namespace e) w →
  view_eq w0 w → settled w0 w →
  wp (_ ← ensureConfigMap e; _ ← ensureService e; _ ← reconcilePods e h;
      mret (Some defaultSyncInterval))
    (λ r w', no_panic r ∧ isolated req w w' ∧ entries w' = entries w ∧
      (∀ d, r = Ok d → d = Some defaultSyncInterval ∧
         (caught_up (entry_namespace e) w0 →
          configmap_ready w' ∧ service_ready w' ∧ converged e h w'))) w.
Proof.
  intros Hn Hsafe0 Hv0 Hset0. apply wp_bind. eapply wp_mono, ensureConfigMap_spec.
  intros r1 w1 (Hnp1 & Hoc & Hset1 & Hready1).
  pose proof (isolated_configmap req _ _ Hoc) as Hi1. destruct Hoc as (Hp1 & Hs1 & _ & He1).
  pose proof (settled_safe _ _ _ Hset1 Hp1 Hsafe0) as Hsafe1.
  destruct r1 as [[]|err|]; [|by split_and!|done]. specialize (Hready1 eq_refl).
  apply wp_bind. eapply wp_mono, ensureService_spec.
  intros r2 w2 (Hnp2 & Hos & Hset2 & Hready2).
  pose proof (isolated_trans _ _ _ _ Hi1 (isolated_service req _ _ Hos)) as Hi2.
  destruct Hos as (Hp2 & _ & Hc2 & He2). rewrite He1 in He2.
  pose proof (settled_safe _ _ _ Hset2 Hp2 Hsafe1) as Hsafe2%cache_safe_labels.
  destruct r2 as [[]|err|]; [|by split_and!|done]. specialize (Hready2 eq_refl).
  apply wp_bind. unfold wp at 1.
  pose proof (reconcilePods_spec e h w2) as Hspec.
  pose proof (reconcilePods_converges e h w2) as Hconv. unfold wp in Hspec.
  destruct (reconcilePods e h w2) as [r3 w3]. cbn [fst snd] in *.
  destruct Hspec as (Hnp3 & Hiso & _). specialize (Hiso Hsafe2).
  pose proof (isolated_trans _ _ _ _ Hi2 (isolated_pods req _ _ Hiso)) as Hi3.
  destruct Hiso as (Hs3 & Hc3 & He3 & _). rewrite He2 in He3.
  destruct r3 as [[]|err|]; [|by split_and!|by destruct Hnp3].
  apply wp_ret. split; [done|]. split; [done|]. split; [done|]. intros d [= <-].
  split; [done|]. intros [Hshown Hall]. destruct Hv0 as (Hp0 & Hs0 & Hc0 & _). split; [|split].
  - assert (configmap_ready w1); [|unfold configmap_ready in *; by rewrite Hc3, Hc2].
    apply Hready1. apply (Hset0 cm_key); [by rewrite Hc0|]. apply Hall.
  - assert (service_ready w2); [|unfold service_ready in *; by rewrite Hs3].
    apply Hready2. apply (Hset1 req); [by rewrite Hs1|].
    apply (Hset0 req); [by rewrite Hs0|]. apply Hall.
  - apply Hconv; [|done]. eapply settled_shown; [exact Hset2|exact Hp2|].
    eapply settled_shown; [exact Hset1|exact Hp1|]. by eapply settled_shown.
Qed.
End reconcile.

Section reconcile_run.
Context {R W : Type} `{!ClusterView R W, !KubeAPI R W, !KubeLaws R W}.
Context `{!ControllerUtil R, !ControllerUtilLaws R, !ResourceJSON R,
  !ResourceJSONLaws R, !SortSlice, !SortSliceLaws}.

(** Every stored resource has passed the CRD schema, and so has what the cache
    shows. *)
Definition shown_valid (req : key) (w : W) : Prop :=
  ∀ e, cached_entries w !! req = Some e → crd_valid (e_spec e).
Definition schema_checked (w : W) : Prop :=
  ∀ k e, entries w !! k = Some e ∨ cached_entries w !! k = Some e → crd_valid (e_spec e).

(** Objects the controller made for a resource and that are not terminating. *)
Definition managed_by (name : string) (m : ObjectMeta) : Prop :=
  selects (owned_selector name) (om_labels m) ∧ om_deletionTimestamp m = None.

Definition has_pod (req k : key) (w : W) : Prop :=
  ∃ p, pods w !! k = Some p ∧ k.1 = req.1 ∧ managed_by req.2 (pod_meta p).
Definition has_service (req : key) (w : W) : Prop :=
  ∃ s, services w !! req = Some s ∧ managed_by req.2 (svc_meta s).
Definition has_configmap (req : key) (w : W) : Prop :=
  ∃ c, configmaps w !! (req.1, configMapName req.2) = Some c ∧ managed_by req.2 (cm_meta c).

Definition has_resources (req : key) (w : W) : Prop :=
  (∃ k, has_pod req k w) ∨ has_service req w ∨ has_configmap req w.

(** Nothing managed for [req] has come into being. *)
Definition shrinks (req : key) (w w' : W) : Prop :=
  (∀ k, has_pod req k w' → has_pod req k w) ∧
  (has_service req w' → has_service req w) ∧
  (has_configmap req w' → has_configmap req w).

Lemma shrinks_trans req w1 w2 w3 : shrinks req w1 w2 → shrinks req w2 w3 → shrinks req w1 w3.
Proof. unfold shrinks. intros (? & ? & ?) (? & ? & ?). auto. Qed.
Lemma shrinks_has req w w' : shrinks req w w' → has_resources req w' → has_resources req w.
Proof. intros (? & ? & ?) [[k ?]|[?|?]]; [left|right; left|right; right]; eauto. Qed.
Lemma shrinks_view req w w' : view_eq w w' → shrinks req w w'.
Proof.
  intros (Hp & Hs & Hc & _). unfold shrinks, has_pod, has_service, has_configmap.
  by rewrite Hp, Hs, Hc.
Qed.

Lemma managed_not_revived name m m' :
  not_revived m m' → managed_by name m' → managed_by name m.
Proof.
  intros [Hl Hd] [Hsel Hlive]. unfold managed_by. rewrite <- Hl. split; [done|].
  destruct (om_deletionTimestamp m); [|done]. by destruct Hd.
Qed.

Lemma delete_pods_shrinks req l w :
  wp (delete_pods l) (λ _ w', shrinks req w w') w.
Proof.
  revert w. induction l as [|p l IH]; intros w; cbn; [by apply wp_ret|].
  apply wp_bind. unfold wp at 1, ignore_not_found.
  pose proof (delete_pod_law (R := R) (pod_key p) w) as Hl. unfold wp in Hl.
  assert (Hs : shrinks req w (delete_pod (pod_key p) w).2).
  { destruct Hl as (_ & (Hsame & Hs & Hc & _) & _ & Hrev).
    unfold shrinks, has_service, has_configmap. rewrite Hs, Hc. split; [|done].
    intros k (q & Hq & Hk & Hm). destruct (decide (k = pod_key p)) as [->|].
    - destruct (Hrev q Hq) as (p0 & Hp0 & Hnr). exists p0.
      split_and!; [done|done|by eapply managed_not_revived].
    - exists q. by rewrite <- Hsame. }
  destruct (delete_pod (pod_key p) w) as [[[]|[]|] w1]; cbn [fst snd] in *; try done;
    (eapply wp_mono, IH; intros; by eapply shrinks_trans).
Qed.

Lemma only_service_shrinks req w w' :
  only_service req w w' → (has_service req w' → has_service req w) → shrinks req w w'.
Proof.
  intros (Hp & _ & Hc & _) Hs. unfold shrinks, has_pod, has_configmap. by rewrite Hp, Hc.
Qed.
Lemma only_configmap_shrinks req w w' :
  only_configmap (req.1, configMapName req.2) w w' →
  (has_configmap req w' → has_configmap req w) → shrinks req w w'.
Proof.
  intros (Hp & Hs & _ & _) Hc. unfold shrinks, has_pod, has_service. by rewrite Hp, Hs.
Qed.

Lemma cleanup_shrinks e w :
  wp (cleanupOwnedResources e)
    (λ _ w', shrinks (entry_namespace e, entry_name e) w w') w.
Proof.
  set (req := (entry_namespace e, entry_name e)).
  unfold cleanupOwnedResources. apply wp_bind. eapply wp_mono, list_owned_spec.
  intros r1 w1 (_ & Hv & _). pose proof (shrinks_view req _ _ Hv) as H1.
  destruct r1 as [ps|err|]; [|done..].
  apply wp_bind. eapply wp_mono, (delete_pods_shrinks req).
  intros r2 w2 H2. pose proof (shrinks_trans _ _ _ _ H1 H2) as H12.
  destruct r2 as [[]|err|]; [|done..].
  apply wp_bind. eapply wp_mono, delete_service_ignored.
  intros r3 w3 (_ & Hos & _ & Hrev).
  assert (H13 : shrinks req w w3).
  { eapply shrinks_trans, only_service_shrinks; [done|done|].
    intros (s' & Hs' & Hm). destruct (Hrev s' Hs') as (s & Hs & Hnr). exists s.
    split; [done|]. by eapply managed_not_revived. }
  destruct r3 as [[]|err|]; [|done..].
  apply wp_bind. eapply wp_mono, delete_configmap_ignored.
  intros r4 w4 (_ & Hoc & _ & Hrev4).
  assert (H14 : shrinks req w w4).
  { eapply shrinks_trans, only_configmap_shrinks; [done|done|].
    intros (s' & Hs' & Hm). destruct (Hrev4 s' Hs') as (s & Hs & Hnr). exists s.
    split; [done|]. by eapply managed_not_revived. }
  by destruct r4 as [[]|err|].
Qed.

(** The branches of [Reconcile], each with what it leaves behind.  Which branch
    is taken depends on what the cache shows. *)
Inductive reconciled (req : key) (w : W) : outcome api_error Result → W → Prop :=
  | rec_absent w' r :
      view_eq w w' → no_panic r →
      (∀ d, r = Ok d → d = None ∧ cached_entries w !! req = None) →
      reconciled req w r w'
  | rec_cleanup_failed e w' err :
      cached_entries w !! req = Some e → om_deletionTimestamp (e_meta e) ≠ None →
      isolated req w w' → entries w' = entries w → shrinks req w w' →
      reconciled req w (Err err) w'
  | rec_deleted e w' r :
      cached_entries w !! req = Some e → om_deletionTimestamp (e_meta e) ≠ None →
      isolated req w w' → (pods_shown req.1 w → cleaned e w') → no_panic r →
      (∀ d, r = Ok d → d = None ∧ (cached_entries w !! req = entries w !! req →
         ∀ e', entries w' !! req = Some e' → finalizer ∉ om_finalizers (e_meta e'))) →
      reconciled req w r w'
  | rec_finalizer e w' r :
      cached_entries w !! req = Some e → om_deletionTimestamp (e_meta e) = None →
      finalizer ∉ om_finalizers (e_meta e) → isolated req w w' → only_entry req w w' →
      entries w' = entries w ∨ entries w !! req = Some e → no_panic r →
      (∀ d, r = Ok d → d = None ∧
         ∃ e', entries w' !! req = Some e' ∧ (finalizer ∈ om_finalizers (e_meta e')) ∧
               e_spec e' = e_spec e) →
      reconciled req w r w'
  | rec_managed e w' r :
      cached_entries w !! req = Some e → om_deletionTimestamp (e_meta e) = None →
      finalizer ∈ om_finalizers (e_meta e) →
      isolated req w w' → entries w' = entries w → no_panic r →
      (∀ d, r = Ok d → d = Some defaultSyncInterval ∧
         ∃ h, calculateSpecHash e = Ok h ∧ (caught_up req.1 w →
              configmap_ready e w' ∧ service_ready e w' ∧ converged e h w')) →
      reconciled req w r w'.

Lemma reconcile_deleted_spec req e w0 w :
  cached_entries w0 !! req = Some e → view_eq w0 w → settled w0 w → cache_safe req.1 w0 →
  om_deletionTimestamp (e_meta e) ≠ None →
  wp (_ ← cleanupOwnedResources e;
      if ContainsFinalizer (e_meta e) finalizer then
        _ ← update_entry (with_meta e (RemoveFinalizer (e_meta e) finalizer)); mret None
      else mret None) (reconciled req w0) w.
Proof.
  intros He Hv Hset Hsafe Hdel. pose proof (cached_entries_keyed _ _ _ He) as Hk.
  assert (Hreq : (entry_namespace e, entry_name e) = req) by exact Hk.
  assert (Hns : entry_namespace e = req.1) by (by rewrite <- Hreq).
  pose proof Hv as (Hvp & _ & _ & Hve).
  apply wp_bind. eapply wp_mono, wp_conj; [|apply cleanup_spec|apply cleanup_shrinks].
  2: { rewrite Hns. by eapply cache_safe_labels, settled_safe. }
  rewrite Hreq, Hns. intros r w1 ((Hnp & Hi & Hent & Hok) & Hshr).
  pose proof (isolated_trans _ _ _ _ (isolated_view req _ _ Hv) Hi) as Hi1.
  assert (Hent0 : entries w1 = entries w0) by congruence.
  destruct r as [[]|err|]; [|eapply rec_cleanup_failed; eauto using shrinks_trans, shrinks_view|done].
  assert (Hclean : pods_shown req.1 w0 → cleaned e w1).
  { intros Hs. apply Hok; [done|]. by eapply settled_shown. }
  destruct (ContainsFinalizer (e_meta e) finalizer) eqn:Hf.
  - apply wp_bind. eapply wp_mono; [|apply update_entry_law, (cached_entries_versioned _ _ _ He)].
    rewrite RemoveFinalizer_spec. set (m := with_finalizers _ _).
    intros r w2 (Hnp2 & Honly & Hcase & Hupd). change (meta_key (e_meta (with_meta e m))) with (meta_key (e_meta e)) in *.
    rewrite Hk in *.
    assert (Hi2 : isolated req w0 w2).
    { eapply isolated_trans, (isolated_update req e m w0); done. }
    assert (Hcl : pods_shown req.1 w0 → cleaned e w2).
    { intros (Hl & Hsg & Hcg)%Hclean. destruct Honly as (Hp & Hs & Hc & _).
      unfold cleaned, live_pods, service_gone, configmap_gone in *. by rewrite Hp, Hs, Hc. }
    destruct r as [e'|err|]; [|by eapply rec_deleted|done].
    apply wp_ret. eapply rec_deleted; try done. intros d [= <-]. split; [done|]. intros _.
    destruct (update_current req e m w0 w1 w2 He Hent0 Hk (Hupd e' eq_refl)) as (_ & v & ->).
    intros e2. case_decide.
    + by rewrite lookup_delete_eq.
    + rewrite lookup_insert_eq. intros [= <-]. cbn. rewrite list_elem_of_filter. tauto.
  - apply wp_ret. eapply rec_deleted; try done. intros d [= <-]. split; [done|]. intros Hcu.
    rewrite Hent0, <- Hcu, He. intros e' [= <-] Hin%ContainsFinalizer_spec. congruence.
Qed.

Lemma reconcile_finalizer_spec req e w0 w :
  cached_entries w0 !! req = Some e → view_eq w0 w → om_deletionTimestamp (e_meta e) = None →
  finalizer ∉ om_finalizers (e_meta e) →
  wp (_ ← update_entry (with_meta e (AddFinalizer (e_meta e) finalizer)); mret None)
    (reconciled req w0) w.
Proof.
  intros He (Hvp & Hvs & Hvc & Hve) Hdel Hf. pose proof (cached_entries_keyed _ _ _ He) as Hk.
  apply wp_bind. eapply wp_mono; [|apply update_entry_law, (cached_entries_versioned _ _ _ He)].
  rewrite AddFinalizer_spec by done. set (m := with_finalizers _ _).
  intros r w2 (Hnp2 & Honly & Hcase & Hupd). change (meta_key (e_meta (with_meta e m))) with (meta_key (e_meta e)) in *.
  rewrite Hk in *.
  assert (Honly0 : only_entry req w0 w2).
  { destruct Honly as (Hp & Hs & Hc & Hent). unfold only_entry.
    rewrite Hp, Hs, Hc, Hvp, Hvs, Hvc. split_and!; try done. intros k' Hk'.
    by rewrite Hent, Hve. }
  assert (Hi : isolated req w0 w2).
  { eapply isolated_trans; [by apply (isolated_view req w0 w)|].
    by apply (isolated_update req e m w0). }
  assert (Hcur : entries w2 = entries w0 ∨ entries w0 !! req = Some e).
  { destruct Hcase as [E|Hu]; [left; congruence|right].
    exact (proj1 (update_current req e m w0 w w2 He Hve Hk Hu)). }
  destruct r as [e'|err|]; [|by eapply rec_finalizer|done].
  apply wp_ret. eapply rec_finalizer; try done. intros d [= <-]. split; [done|].
  destruct (update_current req e m w0 w w2 He Hve Hk (Hupd e' eq_refl)) as (_ & v & ->).
  rewrite decide_False by (cbn; intros [? _]; congruence).
  rewrite lookup_insert_eq. eexists. split; [done|]. split; [|done].
  cbn. apply elem_of_app. right. set_solver.
Qed.

Lemma calculateSpecHash_no_panic e : no_panic (calculateSpecHash (R := R) e).
Proof.
  unfold calculateSpecHash.
  pose proof (resources_json_no_panic (Resources (spec_Service (e_spec e)))) as Hnp.
  by destruct (resources_json _) as [j|msg|].
Qed.

Lemma reconcile_managed_spec req e w0 w :
  cached_entries w0 !! req = Some e → view_eq w0 w → settled w0 w → cache_safe req.1 w0 →
  om_deletionTimestamp (e_meta e) = None →
  finalizer ∈ om_finalizers (e_meta e) → crd_valid (e_spec e) →
  wp (specHash ← lift (calculateSpecHash e);
      _ ← ensureConfigMap e; _ ← ensureService e; _ ← reconcilePods e specHash;
      mret (Some defaultSyncInterval)) (reconciled req w0) w.
Proof.
  intros He Hv Hset Hsafe Hdel Hf [_ Hn].
  assert (Hreq : (entry_namespace e, entry_name e) = req) by exact (cached_entries_keyed _ _ _ He).
  assert (Hns : entry_namespace e = req.1) by (by rewrite <- Hreq).
  pose proof Hv as (Hvp & _ & _ & Hve).
  apply wp_bind. unfold lift, wp at 1. cbn [fst snd].
  destruct (calculateSpecHash e) as [h|err|] eqn:Hh.
  - eapply wp_mono, (managed_path_spec e h w0 w); [|lia| |done|done].
    2: { rewrite Hns. by eapply settled_safe. }
    rewrite Hreq, Hns. intros r w1 (Hnp & Hi & Hent & Hok).
    eapply rec_managed; try done.
    + eauto using isolated_trans, isolated_view.
    + congruence.
    + intros d Hd. destruct (Hok d Hd) as (-> & Hready). split; [done|]. by exists h.
  - eapply rec_managed; try done. by apply isolated_view.
  - by destruct (calculateSpecHash_no_panic e).
Qed.

Lemma Reconcile_spec req w :
  shown_valid req w → cache_safe req.1 w → wp (Reconcile req) (reconciled req w) w.
Proof.
  intros Hschema Hsafe. unfold wp, Reconcile.
  pose proof (get_entry_law (R := R) req w) as Hl. unfold wp in Hl.
  destruct (get_entry req w) as [r w1]. cbn [fst snd] in Hl.
  destruct Hl as (Hnp & Hv & Hset & Hok & Hnf).
  destruct r as [e|[]|]; [|apply rec_absent; [done|done|]..|done].
  2: { intros d [= <-]. by rewrite Hnf. }
  2, 3: done.
  specialize (Hok e eq_refl).
  match goal with |- reconciled _ _ (?m w1).1 _ => change (wp m (reconciled req w) w1) end.
  case_decide as Hd; [by apply reconcile_deleted_spec|].
  assert (om_deletionTimestamp (e_meta e) = None) by (by destruct (om_deletionTimestamp (e_meta e)); [destruct Hd|]).
  destruct (ContainsFinalizer (e_meta e) finalizer) eqn:Hf; cbn [negb].
  - apply reconcile_managed_spec; try done; [by apply ContainsFinalizer_spec|by apply Hschema].
  - apply reconcile_finalizer_spec; try done. intros Hin%ContainsFinalizer_spec. congruence.
Qed.
End reconcile_run.
