(* ===== verification/OperatorSafety.v ===== *)
(** * The operator's guarantees

    What one run of [Reconcile] does on each branch, and what holds in every
    cluster that runs of [Reconcile], interleaved with users and with the rest
    of Kubernetes, can reach. *)

From S2P Require Import Prelude GoStrings GoEncoding GoCrypto Json Kube Operator Cluster Demo OperatorPods OperatorReconcile.

Section runs.
Context {R W : Type} `{!ClusterView R W, !KubeAPI R W, !KubeLaws R W}.
Context `{!ControllerUtil R, !ControllerUtilLaws R, !ResourceJSON R,
  !ResourceJSONLaws R, !SortSlice, !SortSliceLaws}.

Lemma Reconcile_run req (w w' : W) r :
  shown_valid req w → cache_safe req.1 w → Reconcile req w = (r, w') → reconciled req w r w'.
Proof. intros Hs Hc Hrun. exact (wp_run _ _ _ _ _ (Reconcile_spec req w Hs Hc) Hrun). Qed.

Lemma schema_shown req w : schema_checked w → shown_valid req w.
Proof. intros Hs e He. eapply Hs. by right. Qed.
Lemma caught_up_safe ns (w : W) : caught_up ns w → cache_safe ns w.
Proof. intros [? _]. by left. Qed.

Lemma reconciled_isolated req (w w' : W) r :
  reconciled req w r w' → no_panic r ∧ isolated req w w'.
Proof. destruct 1; split; try done; by apply isolated_view. Qed.

(** C3: whatever the API answers, [Reconcile] of a request does not panic, and
    all it can change is the pods labelled with that resource's name in its
    namespace, the Service and the ConfigMap named after it, and the metadata
    of the resource itself: it never alters a spec, creates a resource, or
    touches what belongs to another one. The client's cache may be behind in
    any way, as long as the pods it shows have kept their labels. *)
Theorem Reconcile_isolated req (w w' : W) r :
  schema_checked w → cache_safe req.1 w → Reconcile req w = (r, w') →
  r ≠ Panic ∧ isolated req w w'.
Proof. intros Hs Hc Hrun. by apply reconciled_isolated, Reconcile_run; [apply schema_shown|..]. Qed.

(** C1: whatever earlier runs have left, misled by an old cache or not, a run
    that starts when the client's cache has caught up with the name space and
    ends without error, on a resource that is not being deleted and has the
    finalizer, asks to be queued again after the sync interval, and leaves the
    ConfigMap and the Service as desired and owned by the resource, and
    exactly the desired number of live pods, all of the current template hash
    and neither failed nor completed. *)
Theorem Reconcile_achieves_spec req (w w' : W) e d :
  schema_checked w → caught_up req.1 w →
  entries w !! req = Some e → om_deletionTimestamp (e_meta e) = None →
  finalizer ∈ om_finalizers (e_meta e) → Reconcile req w = (Ok d, w') →
  d = Some defaultSyncInterval ∧ entries w' = entries w ∧
  ∃ h, calculateSpecHash e = Ok h ∧ configmap_ready e w' ∧ service_ready e w' ∧
       converged e h w'.
Proof.
  intros Hs Hc He Hd Hf Hrun. rewrite <- (caught_up_entry req) in He by done.
  remember (Ok d) as r0 eqn:Hr.
  destruct (Reconcile_run _ _ _ _ (schema_shown _ _ Hs) (caught_up_safe _ _ Hc) Hrun) as
    [w' r Hv _ Hok|e0 w' err He0 Hd0|e0 w' r He0 Hd0|e0 w' r He0 Hd0 Hf0
    |e0 w' r He0 Hd0 Hf0 _ Hent _ Hok]; simplify_eq; try done.
  - destruct (Hok d eq_refl). congruence.
  - destruct (Hok d eq_refl) as (-> & h & Hh & Hready). split_and!; [done|done|]. exists h.
    split; [done|]. by apply Hready.
Qed.

(** A run that starts with an up-to-date cache and ends without error on a
    resource that is being deleted has removed all of its live pods, its Service
    and its ConfigMap, and the resource, if it is still there, no longer carries
    the finalizer. *)
Lemma Reconcile_deletes req (w w' : W) e d :
  schema_checked w → caught_up req.1 w →
  entries w !! req = Some e → om_deletionTimestamp (e_meta e) ≠ None →
  Reconcile req w = (Ok d, w') →
  d = None ∧ cleaned e w' ∧
  ∀ e', entries w' !! req = Some e' → finalizer ∉ om_finalizers (e_meta e').
Proof.
  intros Hs Hc He Hd Hrun. rewrite <- (caught_up_entry req) in He by done.
  remember (Ok d) as r0 eqn:Hr.
  destruct (Reconcile_run _ _ _ _ (schema_shown _ _ Hs) (caught_up_safe _ _ Hc) Hrun) as
    [w' r Hv _ Hok|e0 w' err He0 Hd0|e0 w' r He0 Hd0 _ Hcl _ Hok|e0 w' r He0 Hd0
    |e0 w' r He0 Hd0]; simplify_eq; try done.
  - destruct (Hok d eq_refl). congruence.
  - destruct (Hok d eq_refl) as [-> Hfin]. split_and!; [done|by apply Hcl, Hc|].
    by apply Hfin, caught_up_entry.
Qed.

Lemma cleaned_same e e' (w : W) : meta_key (e_meta e) = meta_key (e_meta e') → cleaned e w → cleaned e' w.
Proof.
  unfold meta_key. intros [= E1 E2]. unfold cleaned, entry_namespace, entry_name. by rewrite E1, E2.
Qed.

(** C4: the finalizer is given up only after cleanup. If the client's cache shows
    the pods of the name space as they are when the run starts, then in
    whatever way the run ends, and even if the cache shows an old version of the
    resource: if the resource had the finalizer before the run and is gone or has
    lost it afterwards, no live pod, Service or ConfigMap of it is left. *)
Theorem finalizer_released_after_cleanup req (w w' : W) e r :
  schema_checked w → pods_shown req.1 w →
  entries w !! req = Some e → finalizer ∈ om_finalizers (e_meta e) →
  Reconcile req w = (r, w') →
  (∀ e', entries w' !! req = Some e' → finalizer ∉ om_finalizers (e_meta e')) →
  cleaned e w'.
Proof.
  intros Hs Hp He Hf Hrun Hlost.
  assert (Hsame : entries w' = entries w → cleaned e w').
  { intros E. rewrite E in Hlost. by destruct (Hlost e He). }
  destruct (Reconcile_run _ _ _ _ (schema_shown _ _ Hs) (or_introl Hp) Hrun) as
    [w' r (_ & _ & _ & Hv)|e0 w' err He0|e0 w' r He0 _ _ Hcl|e0 w' r He0 _ Hf0 _ _ [Hent|Hcur]
    |e0 w' r He0]; [by auto|by auto| |by auto|congruence|by auto].
  apply (cleaned_same e0); [|by apply Hcl].
  by rewrite (entries_keyed _ _ _ He), (cached_entries_keyed _ _ _ He0).
Qed.

(** No resource gets a pod, a Service or a ConfigMap before it has the
    finalizer. A run on a resource that the cache shows without it leaves all
    three kinds of objects as they are and, when it succeeds, has added the
    finalizer without changing the spec. *)
Lemma finalizer_first req (w w' : W) e r :
  schema_checked w → cache_safe req.1 w →
  cached_entries w !! req = Some e → om_deletionTimestamp (e_meta e) = None →
  finalizer ∉ om_finalizers (e_meta e) → Reconcile req w = (r, w') →
  pods w' = pods w ∧ services w' = services w ∧ configmaps w' = configmaps w ∧
  ∀ d, r = Ok d → d = None ∧ ∃ e', entries w' !! req = Some e' ∧
    (finalizer ∈ om_finalizers (e_meta e')) ∧ e_spec e' = e_spec e.
Proof.
  intros Hs Hc He Hd Hf Hrun. destruct (Reconcile_run _ _ _ _ (schema_shown _ _ Hs) Hc Hrun) as
    [w' r (? & ? & ? & ?) _ Hok|e0 w' err He0|e0 w' r He0 Hd0
    |e0 w' r He0 Hd0 Hf0 _ (? & ? & ? & _) _ _ Hok|e0 w' r He0]; simplify_eq; try done.
  split_and!; try done. intros d Hr. destruct (Hok d Hr). congruence.
Qed.
End runs.

(** ** Progress *)

Section progress.
Context {R W : Type} `{!ClusterView R W, !KubeAPI R W, !KubeLaws R W}.
Context `{!ControllerUtil R, !ControllerUtilLaws R, !ResourceJSON R,
  !ResourceJSONLaws R, !SortSlice, !SortSliceLaws}.

(** The API answers every call the reconciler makes, given what is not outdated. *)
Definition responsive : Prop :=
  reliable (R := R) (W := W) ∧
  (∀ k e (w : W), cached_entries w !! k = Some e → ∃ w', get_entry k w = (Ok e, w')) ∧
  (∀ e old (w : W), entries w !! meta_key (e_meta e) = Some old → e_version old = e_version e →
     ∃ e' w', update_entry (R := R) e w = (Ok e', w')) ∧
  (∀ k (w : W), ∃ w', delete_service (R := R) k w = (Ok tt, w') ∨
                      delete_service (R := R) k w = (Err NotFound, w')) ∧
  (∀ k (w : W), ∃ w', delete_configmap (R := R) k w = (Ok tt, w') ∨
                      delete_configmap (R := R) k w = (Err NotFound, w')) ∧
  (∀ stub f s (w : W),
     cached_services w !! meta_key (svc_meta stub) = services w !! meta_key (svc_meta stub) →
     f (default stub (services w !! meta_key (svc_meta stub))) = Ok s →
     meta_key (svc_meta s) = meta_key (svc_meta stub) →
     ∃ w', create_or_update_service (R := R) stub f w = (Ok tt, w')) ∧
  (∀ stub f c (w : W),
     cached_configmaps w !! meta_key (cm_meta stub) = configmaps w !! meta_key (cm_meta stub) →
     f (default stub (configmaps w !! meta_key (cm_meta stub))) = Ok c →
     meta_key (cm_meta c) = meta_key (cm_meta stub) →
     ∃ w', create_or_update_configmap (R := R) stub f w = (Ok tt, w')).

(** The ConfigMap and the Service can be put under the resource's control: no
    other controller owns them. *)
Definition adoptable (e : DbcpEntryService R) (w : W) : Prop :=
  let ok m := is_ok (SetControllerReference e (with_labels (managedLabels (entry_name e)) m)) in
  let cm := (entry_namespace e, configMapName (entry_name e)) in
  let svc := (entry_namespace e, entry_name e) in
  ok (default (named cm.1 cm.2) (cm_meta <$> configmaps w !! cm)) ∧
  ok (default (named svc.1 svc.2) (svc_meta <$> services w !! svc)).

Lemma mutate_configmap_total e c :
  is_ok (SetControllerReference e (with_labels (managedLabels (entry_name e)) (cm_meta c))) →
  ∃ c', mutate_configmap (R := R) e c = Ok c' ∧ meta_key (cm_meta c') = meta_key (cm_meta c).
Proof.
  unfold mutate_configmap. set (m := with_labels _ _).
  destruct (SetControllerReference_spec e m) as [_ Hm].
  destruct (SetControllerReference e m) as [m'|?|]; [|done..]. intros _.
  destruct (Hm m' eq_refl) as (os & -> & _). by eexists.
Qed.

Lemma mutate_service_total e c :
  is_ok (SetControllerReference e (with_labels (managedLabels (entry_name e)) (svc_meta c))) →
  ∃ c', mutate_service (R := R) e c = Ok c' ∧ meta_key (svc_meta c') = meta_key (svc_meta c).
Proof.
  unfold mutate_service. set (m := with_labels _ _).
  destruct (SetControllerReference_spec e m) as [_ Hm].
  destruct (SetControllerReference e m) as [m'|?|]; [|done..]. intros _.
  destruct (Hm m' eq_refl) as (os & -> & _). by eexists.
Qed.

Lemma ensureConfigMap_total e (w : W) :
  let k := (entry_namespace e, configMapName (entry_name e)) in
  responsive → adoptable e w → cached_configmaps w !! k = configmaps w !! k →
  ∃ w', ensureConfigMap e w = (Ok tt, w').
Proof.
  intros k (_ & _ & _ & _ & _ & _ & Hcm) [Hok _] Hshown. unfold ensureConfigMap.
  match goal with |- context [create_or_update_configmap ?s _ _] => set (stub := s) end.
  destruct (mutate_configmap_total e (default stub (configmaps w !! meta_key (cm_meta stub))))
    as (c & Hc & Hk).
  - subst stub. unfold meta_key. cbn [cm_meta named om_namespace om_name]. cbn zeta in Hok.
    by destruct (configmaps w !! _).
  - eapply Hcm; [exact Hshown|exact Hc|]. rewrite Hk.
    destruct (configmaps w !! _) eqn:E; [by apply configmaps_keyed in E|done].
Qed.

(** Only the Services matter to the second step. *)
Lemma ensureService_total e (w0 w : W) :
  let k := (entry_namespace e, entry_name e) in
  responsive → adoptable e w0 → services w = services w0 →
  cached_services w !! k = services w !! k →
  ∃ w', ensureService e w = (Ok tt, w').
Proof.
  intros k (_ & _ & _ & _ & _ & Hs & _) [_ Hok] Hsame Hshown. unfold ensureService.
  match goal with |- context [create_or_update_service ?s _ _] => set (stub := s) end.
  destruct (mutate_service_total e (default stub (services w !! meta_key (svc_meta stub))))
    as (c & Hc & Hk).
  - subst stub. unfold meta_key. cbn [svc_meta named om_namespace om_name]. cbn zeta in Hok.
    rewrite Hsame. by destruct (services w0 !! _).
  - eapply Hs; [exact Hshown|exact Hc|]. rewrite Hk.
    destruct (services w !! _) eqn:E; [by apply services_keyed in E|done].
Qed.

Lemma delete_pods_total l (w : W) :
  reliable (R := R) (W := W) → ∃ w', delete_pods (R := R) l w = (Ok tt, w').
Proof.
  intros Hrel. revert w. induction l as [|p l IH]; intros w; cbn; [by exists w|].
  destruct (ignore_not_found_total (pod_key p) w Hrel) as [w1 E].
  rewrite (eff_bind_step _ _ _ _ _ E). apply IH.
Qed.

Lemma cleanup_total e (w : W) :
  responsive → ∃ w', cleanupOwnedResources (R := R) e w = (Ok tt, w').
Proof.
  intros (Hrel & _ & _ & Hds & Hdc & _). unfold cleanupOwnedResources.
  destruct (proj1 Hrel (entry_namespace e) (owned_selector (entry_name e)) w)
    as (ps & w1 & E1). rewrite (eff_bind_step _ _ _ _ _ E1).
  destruct (delete_pods_total ps w1 Hrel) as [w2 E2]. rewrite (eff_bind_step _ _ _ _ _ E2).
  destruct (Hds (entry_namespace e, entry_name e) w2) as [w3 E3].
  erewrite (eff_bind_step _ _ _ tt w3) by (unfold ignore_not_found; by destruct E3 as [-> | ->]).
  destruct (Hdc (entry_namespace e, configMapName (entry_name e)) w3) as [w4 E4].
  erewrite (eff_bind_step _ _ _ tt w4) by (unfold ignore_not_found; by destruct E4 as [-> | ->]).
  by exists w4.
Qed.

(** C22: if the API answers, the client's cache has caught up with the name space,
    the resource's ConfigMap and Service are not controlled by somebody else and
    its hash can be computed, a run of [Reconcile] ends without error, whether it
    cleans up, adds the finalizer or brings the resource to its desired state. *)
Theorem Reconcile_live req e (w : W) :
  responsive → schema_checked w → caught_up req.1 w → entries w !! req = Some e →
  adoptable e w → is_ok (calculateSpecHash e) →
  ∃ d w', Reconcile req w = (Ok d, w').
Proof.
  intros Hresp Hs Hcu He Hadopt Hhash. pose proof (entries_keyed _ _ _ He) as Hk.
  pose proof Hresp as (Hrel & Hget & Hupd & _). unfold Reconcile.
  destruct (Hget req e w) as [w1 E]; [by rewrite caught_up_entry|]. rewrite E.
  pose proof (wp_run _ _ _ _ _ (get_entry_law req w) E) as (_ & Hv & Hset & _).
  assert (Hent : entries w1 = entries w) by (by destruct Hv as (_ & _ & _ & ->)).
  assert (Hns : entry_namespace e = req.1) by (by rewrite <- Hk).
  assert (Hread : ∀ w2 m, entries w2 = entries w →
    meta_key m = meta_key (e_meta e) →
    ∃ e' w3, update_entry (with_meta e m) w2 = (Ok e', w3)).
  { intros w2 m E2 Hm. apply (Hupd _ e); [|done]. cbn [with_meta e_meta]. by rewrite Hm, E2, Hk. }
  destruct Hv as (Hvp & Hvs & Hvc & _). destruct Hcu as [Hpods Hall]. rewrite <- Hns in Hpods, Hall.
  case_decide.
  - destruct (cleanup_total e w1 Hresp) as [w2 E2].
    assert (Hkept : labels_kept (entry_namespace e) w1).
    { eapply pods_shown_labels, settled_shown; [exact Hset|done|done]. }
    pose proof (wp_run _ _ _ _ _ (cleanup_spec e w1 Hkept) E2) as (_ & _ & Hent2 & _).
    rewrite (eff_bind_step _ _ _ _ _ E2). destruct (ContainsFinalizer _ _); [|by eauto].
    destruct (Hread w2 (RemoveFinalizer (e_meta e) finalizer)) as (e' & w3 & E3);
      [congruence|by rewrite RemoveFinalizer_spec|].
    rewrite (eff_bind_step _ _ _ _ _ E3). by eauto.
  - destruct (ContainsFinalizer (e_meta e) finalizer) eqn:Hf; cbn [negb].
    + destruct (calculateSpecHash e) as [h| |] eqn:Hh; [|done..].
      rewrite (eff_bind_step _ _ _ h w1) by done.
      assert (Hadopt1 : adoptable e w1) by (unfold adoptable in *; by rewrite Hvs, Hvc).
      destruct (ensureConfigMap_total e w1 Hresp Hadopt1) as [w2 E2].
      { apply Hset; [by rewrite Hvc|]. apply Hall. }
      rewrite (eff_bind_step _ _ _ _ _ E2).
      assert (Hadopt2 : ∃ w3, ensureService e w2 = (Ok tt, w3)).
      { pose proof (wp_run _ _ _ _ _ (ensureConfigMap_spec e w1) E2) as (_ & (_ & Hsv & _) & Hset2 & _).
        apply (ensureService_total e w1); try done. apply Hset2; [by rewrite Hsv|].
        apply Hset; [by rewrite Hvs|]. apply Hall. }
      destruct Hadopt2 as [w3 E3]. rewrite (eff_bind_step _ _ _ _ _ E3).
      destruct (reconcilePods_runs e h w3 Hrel) as [w4 E4].
      { destruct (Hs req e) as [_ ?]; [by left|]. lia. }
      rewrite (eff_bind_step _ _ _ _ _ E4). by eauto.
    + destruct (Hread w1 (AddFinalizer (e_meta e) finalizer)) as (e' & w3 & E3); [done| |].
      { rewrite AddFinalizer_spec; [done|]. rewrite <- (ContainsFinalizer_spec (R := R)).
        by rewrite Hf. }
      rewrite (eff_bind_step _ _ _ _ _ E3). by eauto.
Qed.
End progress.

(** ** The controller among users and the rest of the cluster *)

Section reachable.
Context {R W : Type} `{!ClusterView R W, !KubeAPI R W, !KubeLaws R W}.
Context `{!ControllerUtil R, !ControllerUtilLaws R, !ResourceJSON R,
  !ResourceJSONLaws R, !SortSlice, !SortSliceLaws}.

(** The cache is good enough for a run on [req]: it shows the resource itself as it
    is, the pods it shows have kept their labels, and if the resource is being
    deleted it shows the pods of the name space as they are. *)
Definition fit_for (req : key) (w : W) : Prop :=
  cached_entries w !! req = entries w !! req ∧ cache_safe req.1 w ∧
  ∀ e, entries w !! req = Some e → om_deletionTimestamp (e_meta e) ≠ None → pods_shown req.1 w.

(** The steps say nothing of the cache but in [step_reconcile]: it may fall
    behind and catch up at any time. *)
Inductive step : W → W → Prop :=
  | step_reconcile req w : fit_for req w → step w (Reconcile req w).2
  (** A user creates, edits or requests the deletion of a resource: the API
      server validates the spec, and users leave the finalizer alone. *)
  | step_edit k e' w w' :
      only_entry k w w' → entries w' !! k = Some e' → crd_valid (e_spec e') →
      (∀ e, entries w !! k = Some e → finalizer ∈ om_finalizers (e_meta e) →
         finalizer ∈ om_finalizers (e_meta e')) →
      step w w'
  (** The API server removes a resource that has no finalizer. *)
  | step_remove k e w w' :
      only_entry k w w' → entries w !! k = Some e → om_finalizers (e_meta e) = [] →
      entries w' !! k = None → step w w'
  (** Pods run, fail, end and vanish; others delete objects. Nobody else makes
      objects with the controller's labels. *)
  | step_env w w' :
      entries w' = entries w → (∀ req, shrinks req w w') → step w w'.

Definition guarded (w : W) : Prop :=
  (∀ k e, entries w !! k = Some e → crd_valid (e_spec e)) ∧
  ∀ req, has_resources req w →
    ∃ e, entries w !! req = Some e ∧ finalizer ∈ om_finalizers (e_meta e).

Lemma isolated_schema req w w' :
  isolated req w w' → (∀ k e, entries w !! k = Some e → crd_valid (e_spec e)) →
  ∀ k e, entries w' !! k = Some e → crd_valid (e_spec e).
Proof.
  intros (_ & _ & _ & He & Hn) Hs k e Hk. destruct (decide (k = req)) as [->|].
  - destruct (Hn e Hk) as (e0 & He0 & ->). by eapply Hs.
  - rewrite He in Hk by done. by eapply Hs.
Qed.

(** Reconciling one resource makes nothing for another. *)
Lemma isolated_other req req' w w' :
  isolated req w w' → req' ≠ req → has_resources req' w' → has_resources req' w.
Proof.
  intros (Hp & Hs & Hc & _) Hne.
  intros [(k & p & Hk & Hns & Hm)|[(s & Hk & Hm)|(c & Hk & Hm)]].
  - left. exists k, p. rewrite <- Hp; [done|]. intros [Hns2 Hsel]. destruct Hm as [Hsel2 _].
    apply Hne. destruct req, req'. cbn in *.
    rewrite (owned_selector_name _ _ _ Hsel Hsel2). congruence.
  - right; left. exists s. by rewrite <- Hs.
  - right; right. exists c. rewrite <- Hc; [done|]. intros [= E1 E2%configMapName_inj].
    apply Hne. destruct req, req'. cbn in *. congruence.
Qed.

Lemma cleaned_no_resources e w :
  cleaned e w → ¬ has_resources (entry_namespace e, entry_name e) w.
Proof.
  intros (Hp & Hs & Hc) [(k & p & Hk & Hns & Hsel & Hlive)|[(s & Hk & _ & Hlive)|(c & Hk & _ & Hlive)]].
  - assert (live_pods (entry_namespace e) (entry_name e) w !! k = Some p) as Hl.
    { apply live_pods_lookup. split_and!; [done|done|]. intros Hd. by destruct Hd. }
    by rewrite Hp in Hl.
  - by apply (Hs s).
  - by apply (Hc c).
Qed.

Lemma guarded_reconcile req w : fit_for req w → guarded w → guarded (Reconcile req w).2.
Proof.
  intros (Hcur & Hsafe & Hshown) [Hs Hg].
  assert (Hvalid : shown_valid req w) by (intros e; rewrite Hcur; apply Hs).
  pose proof (Reconcile_spec req w Hvalid Hsafe) as Hrec. unfold wp in Hrec.
  destruct (Reconcile req w) as [r w']; cbn [fst snd] in *.
  destruct (reconciled_isolated _ _ _ _ Hrec) as [_ Hi].
  split; [by eapply isolated_schema|]. intros req' Hres.
  destruct (decide (req' = req)) as [->|Hne].
  2: { pose proof Hi as (_ & _ & _ & He & _). rewrite He by done.
       eapply Hg, isolated_other; eauto. }
  destruct Hrec as [w' r Hv|e w' err He _ _ Hent Hsh|e w' r He Hdel _ Hcl
    |e w' r He _ Hf _ Honly|e w' r He _ Hf _ Hent].
  - pose proof Hv as (_ & _ & _ & ->). by eapply Hg, shrinks_has, Hres; apply shrinks_view.
  - rewrite Hent. by eapply Hg, shrinks_has.
  - rewrite Hcur in He. specialize (Hcl (Hshown e He Hdel)). apply cleaned_no_resources in Hcl.
    pose proof (entries_keyed _ _ _ He : (entry_namespace e, entry_name e) = req) as Hk.
    by rewrite Hk in Hcl.
  - exfalso. destruct (Hg req) as (e0 & He0 & Hf0); [|congruence].
    destruct Honly as (Hp & Hsv & Hc & _).
    unfold has_resources, has_pod, has_service, has_configmap in *. by rewrite Hp, Hsv, Hc in Hres.
  - rewrite Hent, <- Hcur. eauto.
Qed.

Lemma only_entry_resources k req w w' :
  only_entry k w w' → has_resources req w' → has_resources req w.
Proof.
  intros (Hp & Hs & Hc & _). unfold has_resources, has_pod, has_service, has_configmap.
  by rewrite Hp, Hs, Hc.
Qed.

Lemma guarded_step w w' : step w w' → guarded w → guarded w'.
Proof.
  destruct 1 as [req w Hfit|k e' w w' Ho He' Hv Hkeep|k e w w' Ho He Hnil Hgone|w w' Hent Hsh];
    intros Hgw; pose proof Hgw as [Hs Hg]; [by apply guarded_reconcile| | |].
  - pose proof Ho as (_ & _ & _ & Hent). split.
    + intros k' e Hk. destruct (decide (k' = k)) as [->|]; [by simplify_eq|].
      rewrite Hent in Hk by done. by eapply Hs.
    + intros req Hres%(only_entry_resources _ _ _ _ Ho)%Hg. destruct Hres as (e & He & Hf).
      destruct (decide (req = k)) as [->|]; [by eauto|]. rewrite Hent by done. eauto.
  - pose proof Ho as (_ & _ & _ & Hent). split.
    + intros k' e0 Hk. destruct (decide (k' = k)) as [->|]; [congruence|].
      rewrite Hent in Hk by done. by eapply Hs.
    + intros req Hres%(only_entry_resources _ _ _ _ Ho)%Hg. destruct Hres as (e0 & He0 & Hf).
      destruct (decide (req = k)) as [->|]; [|rewrite Hent by done; eauto].
      simplify_eq. rewrite Hnil in Hf. by apply not_elem_of_nil in Hf.
  - split; [by intros k e; rewrite Hent; apply Hs|].
    intros req Hres. rewrite Hent. eapply Hg, shrinks_has; eauto.
Qed.

(** C2: nothing is orphaned as long as the client's cache is not behind where it
    matters. In every cluster that can be reached from one where the invariant
    holds (an empty one, for instance) by runs of [Reconcile] for any requests,
    with any outcome, interleaved with users and the rest of Kubernetes, where
    each run starts with a cache that shows the resource as it is and, if the
    resource is being deleted, the pods as they are: every live pod, Service and
    ConfigMap managed for a resource has that resource in the cluster, holding
    the finalizer; so when a resource is gone, so are its live objects. Without
    the condition on the cache it can fail (see [old_cache_leaves_a_pod]). *)
Theorem no_orphans (w0 w : W) :
  guarded w0 → rtc step w0 w →
  guarded w ∧ ∀ req, entries w !! req = None → ¬ has_resources req w.
Proof.
  intros Hg Hsteps. assert (guarded w) as Hgw.
  { induction Hsteps as [|w1 w2 w3 Hstep _ IH]; [done|]. by eapply IH, guarded_step. }
  split; [done|]. destruct Hgw as [_ Hres].
  intros req Hnone Hr. destruct (Hres req Hr) as (e & He & _). congruence.
Qed.
End reachable.

(** ** The theorems on concrete clusters *)

Lemma schema_checked_of (w : cluster) :
  map_Forall (λ _ e, crd_valid (e_spec e)) (entries w) → schema_checked w.
Proof. intros H k e [?|?]; by apply (H k). Qed.

(** The state after a run of [Reconcile] on the demo resource. *)
Abbreviation after w := (Reconcile (R := Res) demo w).2.

(** The cache of this cluster does not show the pods that a first run has made. *)
Definition slow : cluster :=
  Cluster ∅ ∅ ∅ (c_entries guarded_entry) 100 [] true ∅.

(** A second run then makes them again: six live pods instead of three. *)
Example old_cache_makes_surplus : size (live_pods "default" "demo" (after (after slow))) = 6%nat.
Proof. vm_compute. reflexivity. Qed.

(** And a deletion leaves pods behind: the resource is gone, three live pods are not. *)
Definition slow_deleting : cluster := with_entry (demo_entry [finalizer] (Some 200) 3) (after slow).
Example old_cache_leaves_a_pod :
  entries (after slow_deleting) !! demo = None ∧
  size (live_pods "default" "demo" (after slow_deleting)) = 3%nat.
Proof. split; vm_compute; reflexivity. Qed.

(** With that cache, the first calls succeed and a later one (the creation of a
    pod) fails. *)
Definition broken : cluster :=
  Cluster (c_pods (after slow)) ∅ ∅ (c_entries guarded_entry) 100
    [None; None; None; None; Some "etcdserver: request timed out"] true (c_unseen (after slow)).

Lemma Reconcile_isolated_witness :
  (Reconcile (R := Res) (KubeAPI0 := cluster_api true) demo broken).1 =
    Err (ApiOther "etcdserver: request timed out") ∧
  isolated demo broken (Reconcile (R := Res) (KubeAPI0 := cluster_api true) demo broken).2.
Proof.
  split; [vm_compute; reflexivity|].
  eapply (Reconcile_isolated (KubeAPI0 := cluster_api true) demo broken);
    [apply schema_checked_of; decide_by_vm|right; apply cluster_labels_kept|by apply run_eq].
Defined.

(** The surplus pods are removed by a run that sees them. *)
Lemma Reconcile_achieves_spec_witness :
  let seen := catch_up (after (after slow)) in
  ∃ h, calculateSpecHash (demo_entry [finalizer] None 3) = Ok h ∧
       converged (demo_entry [finalizer] None 3) h (after seen).
Proof.
  intros seen.
  destruct (Reconcile_achieves_spec demo seen (after seen) (demo_entry [finalizer] None 3)
    (Some defaultSyncInterval)) as (_ & _ & h & ? & _ & _ & ?).
  - apply schema_checked_of. decide_by_vm.
  - apply cluster_caught_up. vm_compute. reflexivity.
  - vm_compute. reflexivity.
  - reflexivity.
  - decide_by_vm.
  - apply run_eq. vm_compute. reflexivity.
  - exists h. split; assumption.
Defined.

Lemma finalizer_released_after_cleanup_witness :
  cleaned (demo_entry [finalizer] (Some 200) 3) (after deleting).
Proof.
  eapply (finalizer_released_after_cleanup demo deleting (after deleting)
    (demo_entry [finalizer] (Some 200) 3) (Ok None)).
  - apply schema_checked_of. decide_by_vm.
  - apply (cluster_caught_up "default"). vm_compute. reflexivity.
  - vm_compute. reflexivity.
  - decide_by_vm.
  - apply run_eq. vm_compute. reflexivity.
  - assert (entries (after deleting) !! demo = None) as -> by (vm_compute; reflexivity).
    discriminate.
Defined.

Lemma cluster_responsive : responsive (R := Res) (W := cluster).
Proof.
  split_and!; [split_and!|..].
  - intros ns sel w. by eexists _, _.
  - intros p w. by eexists _, _.
  - intros k w. cbn. unfold cl_delete_pod. destruct (c_pods w !! k); eauto.
  - intros k e w He. exists w. change (cached_entries w) with (entries w) in He.
    cbn [get_entry cluster_api faulty]. unfold cl_get_entry. by rewrite He.
  - intros e old w He Hv. cbn [update_entry cluster_api faulty]. unfold cl_update_entry.
    rewrite He, decide_True by done. by eauto.
  - intros k w. cbn. unfold cl_delete_service. destruct (c_services w !! k); eauto.
  - intros k w. cbn. unfold cl_delete_configmap. destruct (c_configmaps w !! k); eauto.
  - intros stub f s w _ Hf Hk. cbn [create_or_update_service cluster_api faulty].
    unfold cl_create_or_update_service. rewrite Hf, decide_False by tauto. case_decide; eauto.
  - intros stub f s w _ Hf Hk. cbn [create_or_update_configmap cluster_api faulty].
    unfold cl_create_or_update_configmap. rewrite Hf, decide_False by tauto. case_decide; eauto.
Qed.

Lemma Reconcile_live_witness : ∃ d w', Reconcile (R := Res) demo scaled = (Ok d, w').
Proof.
  apply (Reconcile_live demo (demo_entry [finalizer] None 2) scaled).
  - apply cluster_responsive.
  - apply schema_checked_of. decide_by_vm.
  - apply cluster_caught_up. vm_compute. reflexivity.
  - vm_compute. reflexivity.
  - split; vm_compute; exact I.
  - vm_compute. exact I.
Defined.

Lemma empty_guarded : guarded empty_cluster.
Proof.
  split; [intros k e He; apply (schema_checked_of empty_cluster ltac:(decide_by_vm) k); by left|].
  intros req [(k & p & Hp & _)|[(s & Hs & _)|(c & Hc & _)]].
  - cbn in Hp. by rewrite map_imap_empty, lookup_empty in Hp.
  - done.
  - done.
Qed.

Lemma with_entry_only e w : only_entry demo w (with_entry e w).
Proof.
  split_and!; try done. intros k Hk. cbn.
  by rewrite !map_lookup_imap, lookup_insert_ne by congruence.
Qed.

Lemma cluster_fit req (w : cluster) : c_unseen w = ∅ → fit_for req w.
Proof.
  intros Hw. split; [done|]. split; [right; intros; apply cluster_labels_kept|].
  intros _ _ _. by apply cluster_caught_up.
Qed.

(** A user creates the resource; two runs; the user deletes it; a last run. *)
Lemma no_orphans_witness :
  let gone := after (with_entry (demo_entry [finalizer] (Some 200) 3) (after (after created))) in
  entries gone !! demo = None ∧ ¬ has_resources demo gone.
Proof.
  intros gone. assert (entries gone !! demo = None) as Hgone by (vm_compute; reflexivity).
  split; [exact Hgone|]. apply (no_orphans empty_cluster gone); [apply empty_guarded| |exact Hgone].
  eapply rtc_l; [eapply (step_edit demo (demo_entry [] None 3) _ created)|].
  { apply with_entry_only. }
  { vm_compute. reflexivity. }
  { decide_by_vm. }
  { intros e. assert (entries empty_cluster !! demo = None) as -> by (vm_compute; reflexivity).
    discriminate. }
  eapply rtc_l; [apply (step_reconcile demo), cluster_fit; vm_compute; reflexivity|].
  eapply rtc_l; [apply (step_reconcile demo), cluster_fit; vm_compute; reflexivity|].
  eapply rtc_l; [eapply (step_edit demo (demo_entry [finalizer] (Some 200) 3) _
    (with_entry (demo_entry [finalizer] (Some 200) 3) (after (after created))))|].
  { apply with_entry_only. }
  { vm_compute. reflexivity. }
  { decide_by_vm. }
  { intros e _ _. decide_by_vm. }
  eapply rtc_once, (step_reconcile demo), cluster_fit. vm_compute. reflexivity.
Defined.
