(* ===== verification/OperatorSync.v ===== *)
(** * The operator's periodic full sync
    ([SetupWithManager] in
    [src/operator/internal/controller/dbcpentryservice_controller.go])

    Every few seconds a goroutine lists all resources and enqueues each of them.
    controller-runtime's work queue, outside the repository, hands the requests
    to [Reconcile] one after the other in an order of its own. *)

From S2P Require Import Prelude GoStrings Json Kube Operator Cluster Demo OperatorPods OperatorReconcile OperatorSafety.

(** [mgr.GetClient().List] over all name spaces: what the cache shows. *)
Class ListEntries (R W : Type) := list_entries : api W (list (DbcpEntryService R)).
Class ListEntriesLaws (R W : Type) `{!ClusterView R W, !ListEntries R W} : Prop :=
  list_entries_law (w : W) :
    wp list_entries (λ r w', no_panic r ∧ view_eq w w' ∧
      ∀ es, r = Ok es → NoDup ((λ e, meta_key (e_meta e)) <$> es) ∧
        ∀ e, e ∈ es ↔ cached_entries w !! meta_key (e_meta e) = Some e) w.

Section sync.
Context {R W : Type} `{!ClusterView R W, !KubeAPI R W, !ListEntries R W, !ControllerUtil R,
  !ResourceJSON R, !SortSlice}.

(** What one tick sends into the channel: a generic event per resource, which
    [EnqueueRequestForObject] turns into a request; nothing when the list fails. *)
Definition sync_tick : W → list key * W := λ w,
  match list_entries w with
  | (Ok items, w') => ((λ item, meta_key (e_meta item)) <$> items, w')
  | (_, w') => ([], w')
  end.

(** The queue's worker: the requests that ended in an error or a panic are
    those it will be asked to retry. *)
Fixpoint work_off (reqs : list key) : W → list key * W := λ w,
  match reqs with
  | [] => ([], w)
  | req :: reqs =>
      let '(r, w) := Reconcile (R := R) req w in
      let '(failed, w) := work_off reqs w in
      (if is_ok r then failed else req :: failed, w)
  end.
End sync.

Section sync_spec.
Context {R W : Type} `{!ClusterView R W, !KubeAPI R W, !KubeLaws R W}.
Context `{!ListEntries R W, !ListEntriesLaws R W, !ControllerUtil R, !ControllerUtilLaws R,
  !ResourceJSON R, !ResourceJSONLaws R, !SortSlice, !SortSliceLaws}.
Implicit Types (e : DbcpEntryService R) (w : W).

(** ** Reconciling one resource does not undo another *)

Lemma isolated_live_pods k ns name w w' :
  isolated k w w' → k ≠ (ns, name) → live_pods ns name w' = live_pods ns name w.
Proof.
  intros (Hp & _) Hne. apply map_eq. intros i. apply option_eq. intros p.
  rewrite !live_pods_lookup. split; intros (Hi & [Hns Hsel] & Hd); split_and!; try done;
    (apply Hp; [|done]); intros [Hns' Hsel']; apply Hne; destruct k; cbn in *;
    rewrite (owned_selector_name _ _ _ Hsel Hsel'); congruence.
Qed.

Lemma isolated_objects k e w w' :
  isolated k w w' → k ≠ (entry_namespace e, entry_name e) →
  services w' !! (entry_namespace e, entry_name e) =
    services w !! (entry_namespace e, entry_name e) ∧
  configmaps w' !! (entry_namespace e, configMapName (entry_name e)) =
    configmaps w !! (entry_namespace e, configMapName (entry_name e)).
Proof.
  intros (_ & Hs & Hc & _) Hne. split; [by apply Hs|]. apply Hc.
  intros [= E1 E2%configMapName_inj]. apply Hne. destruct k; cbn in *. congruence.
Qed.

(** The state a resource asks for. *)
Definition in_place e (w : W) : Prop :=
  ∃ h, calculateSpecHash e = Ok h ∧ configmap_ready e w ∧ service_ready e w ∧ converged e h w.

Lemma in_place_stable k e w w' :
  isolated k w w' → k ≠ (entry_namespace e, entry_name e) → in_place e w → in_place e w'.
Proof.
  intros Hi Hne (h & Hh & Hcm & Hsvc & Hconv). exists h.
  destruct (isolated_objects k e w w' Hi Hne) as [E1 E2].
  pose proof (isolated_live_pods k _ _ _ _ Hi Hne) as Hl. split_and!.
  - exact Hh.
  - unfold configmap_ready in *. by rewrite E2.
  - unfold service_ready in *. by rewrite E1.
  - by apply (converged_live e h w w').
Qed.

(** Every run starts with a cache that has caught up with its name space. *)
Fixpoint kept_up (reqs : list key) (w : W) : Prop :=
  match reqs with
  | [] => True
  | req :: reqs => caught_up req.1 w ∧ kept_up reqs (Reconcile (R := R) req w).2
  end.

Lemma work_off_spec reqs w :
  NoDup reqs → (∀ k e, entries w !! k = Some e → crd_valid (e_spec e)) → kept_up reqs w →
  let '(failed, w') := work_off (R := R) reqs w in
  ∀ req e, entries w !! req = Some e → om_deletionTimestamp (e_meta e) = None →
    finalizer ∈ om_finalizers (e_meta e) →
    (req ∉ reqs → in_place e w → in_place e w') ∧
    (req ∈ reqs → req ∉ failed → in_place e w').
Proof.
  revert w. induction reqs as [|req0 reqs IH]; intros w Hnd Hschema; cbn [work_off kept_up]; intros Hkept.
  { intros req e _ _ _. split; [done|]. intros Hin. by apply not_elem_of_nil in Hin. }
  apply NoDup_cons in Hnd as [Hfresh Hnd].
  destruct Hkept as [Hcu Hkept]. destruct (Reconcile req0 w) as [r w1] eqn:Hrun. cbn [snd] in Hkept.
  assert (Hvalid : shown_valid req0 w) by (intros e0; rewrite caught_up_entry by done; apply Hschema).
  pose proof (Reconcile_run _ _ _ _ Hvalid (caught_up_safe _ _ Hcu) Hrun) as Hrec.
  destruct (reconciled_isolated _ _ _ _ Hrec) as [_ Hi].
  specialize (IH w1 Hnd (isolated_schema _ _ _ Hi Hschema) Hkept).
  destruct (work_off reqs w1) as [failed w2] eqn:Hrest.
  intros req e He Hd Hf. pose proof (entries_keyed _ _ _ He : (entry_namespace e, entry_name e) = req) as Hkey.
  destruct (decide (req0 = req)) as [->|Hne].
  - clear Hkey. split; [intros Hno; by destruct Hno; left|]. intros _ Hnot.
    destruct r as [d|err|]; cbn [is_ok] in Hnot; [|by destruct Hnot; left|by destruct Hnot; left].
    rewrite <- (caught_up_entry req) in He by done.
    remember (Ok d) as r0 eqn:Hr0. destruct Hrec as [w1 r _ _ Hok|e0 w1 err He0 Hd0|e0 w1 r He0 Hd0
      |e0 w1 r He0 Hd0 Hf0|e0 w1 r He0 Hd0 Hf0 _ Hent _ Hok]; simplify_eq; try done.
    + destruct (Hok d eq_refl). congruence.
    + destruct (Hok d eq_refl) as (_ & h & Hh & Hready).
      refine (proj1 (IH req _ _ _ _) Hfresh _); [|done|done|exists h; split; [done|by apply Hready]].
      rewrite Hent, <- (caught_up_entry req) by done. done.
  - pose proof Hi as (_ & _ & _ & Hent & _). rewrite <- Hent in He by done.
    destruct (IH req e He Hd Hf) as [IH1 IH2]. split.
    + intros [_ Hno]%not_elem_of_cons Hin. apply IH1; [done|].
      eapply in_place_stable; [exact Hi|congruence|done].
    + intros [->|Hin]%elem_of_cons Hnot; [done|]. apply IH2; [done|].
      destruct (is_ok r); [done|]. intros Hin'. apply Hnot. by right.
Qed.

(** C23: a full sync serves every resource that does not fail by itself. When the
    requests of a tick are worked off, in whatever order and with whatever
    outcomes for the others, every resource that the client's cache shows at the
    tick, that carries the finalizer, is not being deleted and whose own run did
    not fail has its ConfigMap, its Service and its pods in place at the end,
    if the cache has caught up with the name space whenever a run starts. *)
Theorem full_sync_serves_each w w1 w' events reqs failed req e :
  (∀ k e, entries w !! k = Some e → crd_valid (e_spec e)) →
  sync_tick w = (events, w1) → events ≠ [] → reqs ≡ₚ events → kept_up reqs w1 →
  work_off (R := R) reqs w1 = (failed, w') →
  entries w !! req = Some e → cached_entries w !! req = Some e →
  om_deletionTimestamp (e_meta e) = None → finalizer ∈ om_finalizers (e_meta e) → req ∉ failed →
  in_place e w'.
Proof.
  intros Hschema Htick Hevents Hperm Hkept Hwork He Hce Hd Hf Hnot.
  unfold sync_tick in Htick. pose proof (list_entries_law (R := R) w) as Hl. unfold wp in Hl.
  destruct (list_entries w) as [[items|err|] w0]; cbn [fst snd] in Hl; simplify_eq; [|done..].
  destruct Hl as (_ & (_ & _ & _ & Hent) & Hitems). destruct (Hitems items eq_refl) as [Hnd Hin].
  pose proof (work_off_spec reqs w1) as Hspec. rewrite Hwork in Hspec.
  pose proof (entries_keyed _ _ _ He) as Hkey.
  apply (Hspec ltac:(by rewrite Hperm) ltac:(by rewrite Hent) Hkept req e);
    [by rewrite Hent|done|done| |done].
  rewrite Hperm. rewrite <- Hkey. apply (list_elem_of_fmap_2 (λ e, meta_key (e_meta e))).
  apply Hin. by rewrite Hkey.
Qed.
End sync_spec.

(** ** On a concrete cluster *)

#[global] Instance cluster_list_entries : ListEntries Res cluster := λ w,
  (Ok (snd <$> map_to_list (entries w)), w).
#[global] Instance cluster_list_entries_laws : ListEntriesLaws Res cluster.
Proof.
  intros w. unfold wp. cbn [list_entries cluster_list_entries fst snd]. split_and!; [done|done|].
  assert (Hk : ∀ k e, entries w !! k = Some e → meta_key (e_meta e) = k).
  { intros k e. apply (entries_keyed (KubeAPI0 := cluster_api false)). }
  intros es [= <-]. split.
  - rewrite <- list_fmap_compose. erewrite list_fmap_ext; [apply NoDup_fst_map_to_list|].
    intros i [k e] Hi%list_elem_of_lookup_2%elem_of_map_to_list. by apply Hk.
  - intros e. rewrite list_elem_of_fmap. split.
    + intros ([k e'] & -> & Hin%elem_of_map_to_list). cbn. by rewrite (Hk k e').
    + intros He. exists (meta_key (e_meta e), e). split; [done|]. by apply elem_of_map_to_list.
Qed.

Lemma full_sync_serves_each_witness :
  in_place (demo_entry [finalizer] None 2)
    (work_off (R := Res) [("default", "other"); demo] (sync_tick scaled).2).2.
Proof.
  eapply (full_sync_serves_each scaled (sync_tick scaled).2 _ (sync_tick scaled).1
    [("default", "other"); demo] [] demo (demo_entry [finalizer] None 2)).
  - intros k e He. apply (schema_checked_of scaled ltac:(decide_by_vm) k). by left.
  - apply surjective_pairing.
  - vm_compute. discriminate.
  - assert ((sync_tick scaled).1 ≡ₚ [("default", "other"); demo]) as -> by decide_by_vm.
    reflexivity.
  - split; [|split; [|exact I]]; apply cluster_caught_up; vm_compute; reflexivity.
  - assert ((work_off (R := Res) [("default", "other"); demo] (sync_tick scaled).2).1 = []) as E
      by (vm_compute; reflexivity).
    rewrite <- E. apply surjective_pairing.
  - vm_compute. reflexivity.
  - vm_compute. reflexivity.
  - reflexivity.
  - decide_by_vm.
  - apply not_elem_of_nil.
Defined.
