(* ===== verification/LegacySpec.v ===== *)
(** * The polling controller: what its passes establish

    Its pod reconciliation and its clean-up make exactly the API calls of the
    operator's, so the operator's lemmas apply; what is its own is the parsing
    of untyped resources, the comparison of ConfigMaps and Services, and the
    loop over all resources that goes on after an error. *)

From S2P Require Import Prelude GoStrings GoEncoding GoCrypto Json Kube KubeClient Operator Legacy OperatorHash OperatorPods OperatorReconcile OperatorSafety.

(** ** Copies of an object *)

Section objects.
Context {U : Type} `{!Unstructured U, !UnstructuredLaws U}.

#[global] Instance same_object_equiv : Equivalence (same_object (U := U)).
Proof.
  split; unfold same_object.
  - intros u. done.
  - intros u v (? & ? & ? & ?). split_and!; intros; symmetry; auto.
  - intros u v t (? & ? & ? & ?) (? & ? & ? & ?). split_and!; intros; etrans; eauto.
Qed.

Lemma SetFinalizers_same fs (u : U) :
  (∀ path, NestedString (SetFinalizers fs u) ("spec" :: path) = NestedString u ("spec" :: path)) ∧
  (∀ path, NestedInt64 (SetFinalizers fs u) ("spec" :: path) = NestedInt64 u ("spec" :: path)) ∧
  (∀ path, NestedStringMap (SetFinalizers fs u) ("spec" :: path) =
           NestedStringMap u ("spec" :: path)).
Proof.
  split_and!; intros; [apply NestedString_SetFinalizers|apply NestedInt64_SetFinalizers
    |apply NestedStringMap_SetFinalizers].
Qed.

(** A spec is read from the spec fields only. *)
Context {Q : Type} `{!ParseQuantity Q, !MapRange}.

Lemma parseSpec_spec_fields (u v : U) :
  (∀ path, NestedString u ("spec" :: path) = NestedString v ("spec" :: path)) →
  (∀ path, NestedInt64 u ("spec" :: path) = NestedInt64 v ("spec" :: path)) →
  (∀ path, NestedStringMap u ("spec" :: path) = NestedStringMap v ("spec" :: path)) →
  Legacy.parseSpec (Q := Q) u = Legacy.parseSpec v.
Proof.
  intros Hs Hi Hm.
  unfold Legacy.parseSpec, Legacy.parseResources, Legacy.parseResourceList,
    Legacy.required_string, Legacy.required_int.
  by rewrite !Hs, !Hi, !Hm.
Qed.

#[global] Instance parseSpec_proper : Proper (same_object ==> eq) (Legacy.parseSpec (U := U) (Q := Q)).
Proof. intros u v (_ & ? & ? & ?). by apply parseSpec_spec_fields. Qed.

Lemma parseSpec_SetFinalizers fs (u : U) :
  Legacy.parseSpec (Q := Q) (SetFinalizers fs u) = Legacy.parseSpec u.
Proof. destruct (SetFinalizers_same fs u) as (? & ? & ?). by apply parseSpec_spec_fields. Qed.
End objects.

(** ** The same calls as the operator *)

Section same_calls.
Context {U Q W : Type} `{!Unstructured U, !ParseQuantity Q, !MapRange, !SelectorSyntax,
  !SelectorLaws}.
Abbreviation R := (ResourceRequirements Q).
Context `{!ClusterView R W, !KubeAPI R W, !KubeLaws R W, !SortSlice, !SortSliceLaws}.

(** The resource as the operator would have it. *)
Definition cr_entry (cr : U) (spec : DbcpEntryServiceSpec R) : DbcpEntryService R :=
  {| e_meta := GetMeta cr; e_version := ""; e_spec := spec |}.

Lemma list_selected_owned ns name :
  label_value name →
  Legacy.list_selected (Q := Q) (W := W) ns (Legacy.managedSelector name) =
    list_pods ns (owned_selector name).
Proof.
  intros Hname. unfold Legacy.list_selected, Legacy.managedSelector.
  rewrite parse_selector_pair; [done|by vm_compute..|done].
Qed.

(** A name can be too long for a label, or end in a way labels may not; then the
    list is refused. *)
Definition bad_selector : api_error := ApiOther "unable to parse requirement".

Lemma list_selected_refused ns name (w : W) :
  dns_subdomain name → ¬ label_value name →
  Legacy.list_selected (Q := Q) (W := W) ns (Legacy.managedSelector name) w = (Err bad_selector, w).
Proof.
  intros Hname Hno. unfold Legacy.list_selected, Legacy.managedSelector.
  rewrite parse_selector_refused; [done|by vm_compute..|done|done].
Qed.

Definition in_namespace (ns : string) (p : Pod R) : Prop := om_namespace (pod_meta p) = ns.

Lemma delete_named_key ns (p : Pod R) :
  in_namespace ns p →
  Legacy.delete_named (W := W) ns p = ignore_not_found (delete_pod (R := R) (pod_key p)).
Proof. by intros <-. Qed.

Lemma select_current_same ns h items cur (w : W) :
  Forall (in_namespace ns) items →
  Legacy.select_current ns h items cur w = select_current h items cur w.
Proof.
  intros Hns. revert cur w. induction Hns as [|p items Hp _ IH]; intros cur w; [done|].
  cbn [Legacy.select_current select_current]. rewrite delete_named_key by done.
  assert (Hdel : (_ ← ignore_not_found (delete_pod (R := R) (pod_key p));
     Legacy.select_current ns h items cur) w =
    (_ ← ignore_not_found (delete_pod (R := R) (pod_key p)); select_current h items cur) w).
  { unfold mbind, eff_bind. destruct (ignore_not_found _ w) as [[]?]; auto. }
  by repeat case_decide; auto.
Qed.

Lemma select_current_subset h items cur (w : W) l w' :
  select_current h items cur w = (Ok l, w') → ∀ p : Pod R, p ∈ l → p ∈ cur ++ items.
Proof.
  revert cur w. induction items as [|p items IH]; intros cur w; cbn [select_current].
  { intros [= <- <-] q. set_solver. }
  repeat case_decide; [| | |intros Hrun q Hq; specialize (IH _ _ Hrun q Hq); set_solver];
    [intros Hrun|intros (? & ? & _ & Hrun)%eff_bind_run..];
    intros q Hq; specialize (IH _ _ Hrun q Hq); set_solver.
Qed.

Lemma scale_down_same fuel ns cur n (w : W) :
  Forall (in_namespace ns) cur →
  Legacy.scale_down fuel ns cur n w = scale_down fuel cur n w.
Proof.
  revert cur w. induction fuel as [|fuel IH]; intros cur w Hns;
    cbn [Legacy.scale_down scale_down]; [done|].
  destruct (n <? _); [|done]. destruct cur as [|p cur _] using rev_ind; [done|].
  rewrite last_snoc, removelast_last. apply Forall_app in Hns as [Hcur Hp].
  rewrite delete_named_key by (by inversion Hp).
  unfold mbind, eff_bind. destruct (ignore_not_found _ w) as [[]?]; auto.
Qed.

Lemma listed_in_namespace ns sel (w : W) ps w' :
  list_pods ns sel w = (Ok ps, w') → Forall (in_namespace ns) ps.
Proof.
  intros Hl. pose proof (wp_run _ _ _ _ _ (list_pods_law (R := R) ns sel w) Hl) as (_ & _ & Hps).
  destruct (Hps ps eq_refl) as [_ Hin]. apply Forall_forall. intros p (n & Hp & _)%Hin.
  apply cached_pods_keyed in Hp. by injection Hp.
Qed.

Lemma delete_all_same ns l (w : W) :
  Forall (in_namespace ns) l → Legacy.delete_all ns l w = delete_pods (R := R) l w.
Proof.
  intros Hns. revert w. induction Hns as [|p l Hp _ IH]; intros w; [done|].
  cbn [Legacy.delete_all delete_pods]. rewrite delete_named_key by done.
  unfold mbind, eff_bind. destruct (ignore_not_found _ w) as [[]?]; auto.
Qed.

Lemma reconcilePods_pods_to (cr : U) spec h (w : W) :
  label_value (Legacy.GetName cr) →
  Legacy.reconcilePods cr spec h w =
    pods_to (Legacy.GetNamespace cr) (Legacy.GetName cr) (Replicas (spec_Service spec)) h
      (Legacy.desiredPod cr spec h) w.
Proof.
  intros Hname. unfold Legacy.reconcilePods, pods_to. rewrite list_selected_owned by done.
  unfold mbind at 1 5, eff_bind at 1 5.
  destruct (list_pods _ _ w) as [[ps|e|] w1] eqn:Hlist; [|done..].
  pose proof (listed_in_namespace _ _ _ _ _ Hlist) as Hns.
  unfold mbind at 1 4, eff_bind at 1 4. rewrite select_current_same by done.
  destruct (select_current h ps [] w1) as [[cur|e|] w2] eqn:Hsel; [|done..].
  assert (Forall (in_namespace (Legacy.GetNamespace cr)) cur).
  { apply Forall_forall. intros p Hp. apply (select_current_subset _ _ _ _ _ _ Hsel) in Hp.
    by apply (proj1 (Forall_forall _ _) Hns). }
  match goal with |- context [scale_down _ ?c _] => set (sorted := c) end.
  assert (Forall (in_namespace (Legacy.GetNamespace cr)) sorted).
  { subst sorted. by rewrite sort_slice_perm. }
  unfold mbind at 1 3, eff_bind at 1 3. by rewrite scale_down_same.
Qed.

Lemma reconcilePods_refused (cr : U) spec h (w : W) :
  dns_subdomain (Legacy.GetName cr) → ¬ label_value (Legacy.GetName cr) →
  Legacy.reconcilePods cr spec h w = (Err bad_selector, w).
Proof.
  intros Hname Hno. unfold Legacy.reconcilePods, mbind, eff_bind.
  by rewrite list_selected_refused.
Qed.

Lemma cleanup_refused (cr : U) (w : W) :
  dns_subdomain (Legacy.GetName cr) → ¬ label_value (Legacy.GetName cr) →
  Legacy.cleanupOwnedResources cr w = (Err bad_selector, w).
Proof.
  intros Hname Hno. unfold Legacy.cleanupOwnedResources, mbind, eff_bind.
  by rewrite list_selected_refused.
Qed.

Lemma cleanup_same (cr : U) spec (w : W) :
  label_value (Legacy.GetName cr) →
  Legacy.cleanupOwnedResources cr w = cleanupOwnedResources (cr_entry cr spec) w.
Proof.
  intros Hname. unfold Legacy.cleanupOwnedResources, cleanupOwnedResources.
  rewrite list_selected_owned by done. unfold mbind at 1 5, eff_bind at 1 5.
  destruct (list_pods _ _ w) as [[ps|e|] w1] eqn:Hlist; [|done..].
  pose proof (listed_in_namespace _ _ _ _ _ Hlist) as Hns.
  unfold mbind at 1 4, eff_bind at 1 4. by rewrite delete_all_same.
Qed.
End same_calls.

(** ** What the controller leaves alone *)

Lemma keeps_ignore_not_found {W X} (f : W → X) (m : api W unit) :
  keeps f m → keeps f (ignore_not_found m).
Proof.
  intros Hm w. specialize (Hm w). unfold ignore_not_found.
  by destruct (m w) as [[|[]|] ?].
Qed.
#[export] Hint Resolve keeps_ignore_not_found : keeps.

Section keeps_crs.
Context {R U W : Type} `{!Unstructured U, !ClusterView R W, !KubeAPI R W, !CoreClient W,
  !DynamicClient U W, !ClientLaws R U W, !SortSlice}.
Abbreviation keeps_crs m := (keeps (crs (U := U)) m).

Lemma keeps_select_current h (items cur : list (Pod R)) :
  keeps_crs (select_current (W := W) h items cur).
Proof.
  revert cur. induction items as [|p items IH]; intros cur; cbn [select_current];
    [apply keeps_ret|].
  repeat case_decide; [apply IH| | |apply IH];
    apply keeps_bind; auto; apply keeps_ignore_not_found, (crs_delete_pod (R := R)).
Qed.

Lemma keeps_scale_down fuel (cur : list (Pod R)) n : keeps_crs (scale_down (W := W) fuel cur n).
Proof.
  revert cur. induction fuel as [|fuel IH]; intros cur; cbn [scale_down];
    destruct (n <? _); try done; destruct (last cur); try done.
  apply keeps_bind; auto. apply keeps_ignore_not_found, (crs_delete_pod (R := R)).
Qed.

Lemma keeps_scale_up fuel template (cur : list (Pod R)) n :
  keeps_crs (scale_up (W := W) fuel template cur n).
Proof.
  revert cur. induction fuel as [|fuel IH]; intros cur; cbn [scale_up]; destruct (_ <? n); try done.
  apply keeps_bind; auto. apply (crs_create_pod (R := R)).
Qed.

Lemma keeps_pods_to ns name n h (template : Pod R) :
  keeps_crs (pods_to (W := W) ns name n h template).
Proof.
  apply keeps_bind; [apply crs_list_pods|]. intros ps.
  apply keeps_bind; [apply keeps_select_current|]. intros cur.
  apply keeps_bind; [apply keeps_scale_down|]. intros kept.
  apply keeps_bind; [apply keeps_scale_up|done].
Qed.

Lemma keeps_delete_pods (l : list (Pod R)) : keeps_crs (delete_pods (W := W) l).
Proof.
  induction l as [|p l IH]; [done|]. apply keeps_bind; [|done].
  apply keeps_ignore_not_found, (crs_delete_pod (R := R)).
Qed.

Lemma keeps_cleanup (e : DbcpEntryService R) : keeps_crs (cleanupOwnedResources (W := W) e).
Proof.
  apply keeps_bind; [apply crs_list_pods|]. intros ps.
  apply keeps_bind; [apply keeps_delete_pods|]. intros _.
  apply keeps_bind; [apply keeps_ignore_not_found, (crs_delete_service (R := R))|]. intros _.
  apply keeps_bind; [apply keeps_ignore_not_found, (crs_delete_configmap (R := R))|done].
Qed.
End keeps_crs.

(** ** The ConfigMap and the Service *)

Section ensure.
Context {U Q W : Type} `{!Unstructured U, !ParseQuantity Q, !MapRange}.
Abbreviation R := (ResourceRequirements Q).
Context `{!ClusterView R W, !KubeAPI R W, !KubeLaws R W, !CoreClient W, !DynamicClient U W,
  !ClientLaws R U W}.
Context (cr : U) (spec : DbcpEntryServiceSpec R).
Abbreviation e := (cr_entry cr spec).
Abbreviation req := (entry_namespace e, entry_name e).
Abbreviation cm_key := (entry_namespace e, configMapName (entry_name e)).

(** The resource is the controlling owner of what it has made. *)
Lemma ownerRefs_controller :
  ∃ o, o ∈ Legacy.ownerRefs cr ∧ or_uid o = om_uid (e_meta e) ∧ or_controller o = Some true.
Proof. eexists. split; [apply list_elem_of_singleton; reflexivity|]. done. Qed.

Lemma configmap_ready_stored w c c' :
  cm_data c = desiredConfigData e → om_labels (cm_meta c) = managedLabels (entry_name e) →
  om_ownerReferences (cm_meta c) = Legacy.ownerRefs cr →
  configmap_stored c c' → configmaps w !! cm_key = Some c' → configmap_ready e w.
Proof.
  intros Hd Hl Ho ((_ & _ & Hl' & _ & Ho') & Hd') Hc. exists c'. split; [done|].
  rewrite Hd', Hl', Ho', Hd, Hl, Ho. split; [done|]. split; [done|]. apply ownerRefs_controller.
Qed.

Lemma service_ready_stored w s s' :
  ss_type (svc_spec s) = "ClusterIP" → ss_selector (svc_spec s) = managedLabels (entry_name e) →
  ss_ports (svc_spec s) = ss_ports (desired_service_spec e) →
  om_labels (svc_meta s) = managedLabels (entry_name e) →
  om_ownerReferences (svc_meta s) = Legacy.ownerRefs cr →
  service_stored s s' → services w !! req = Some s' → service_ready e w.
Proof.
  intros Ht Hs Hp Hl Ho ((_ & _ & Hl' & _ & Ho') & Ht' & Hs' & Hp') Hc. exists s'. split; [done|].
  rewrite Ht', Hs', Hp', Hl', Ho', Ht, Hs, Hp, Hl, Ho. split_and!; try done.
  apply ownerRefs_controller.
Qed.

Lemma configmap_stored_refl c : configmap_stored c c.
Proof. by split_and!. Qed.
Lemma service_stored_refl s : service_stored s s.
Proof. by split_and!. Qed.

Lemma only_configmap_after k w w1 w2 :
  view_eq w w1 → only_configmap k w1 w2 → only_configmap k w w2.
Proof. intros (E1 & E2 & E3 & E4). unfold only_configmap. by rewrite E1, E2, E3, E4. Qed.
Lemma only_service_after k w w1 w2 :
  view_eq w w1 → only_service k w1 w2 → only_service k w w2.
Proof. intros (E1 & E2 & E3 & E4). unfold only_service. by rewrite E1, E2, E3, E4. Qed.
Lemma only_configmap_view k w w1 : view_eq w w1 → only_configmap k w w1.
Proof. intros (E1 & E2 & E3 & E4). unfold only_configmap. by rewrite E1, E2, E3, E4. Qed.
Lemma only_service_view k w w1 : view_eq w w1 → only_service k w w1.
Proof. intros (E1 & E2 & E3 & E4). unfold only_service. by rewrite E1, E2, E3, E4. Qed.

(** Writing the desired ConfigMap, by whatever call, makes it ready. *)
Lemma configmap_written (m : api W ConfigMap) c w w1 :
  cm_data c = desiredConfigData e → om_labels (cm_meta c) = managedLabels (entry_name e) →
  om_ownerReferences (cm_meta c) = Legacy.ownerRefs cr →
  view_eq w w1 → crs w1 = crs w → keeps (crs (U := U)) m →
  wp m (λ r w', no_panic r ∧ only_configmap cm_key w1 w' ∧
    (∀ c', r = Ok c' → configmaps w' !! cm_key = Some c' ∧ configmap_stored c c')) w1 →
  wp (_ ← m; mret tt) (λ r w', no_panic r ∧ only_configmap cm_key w w' ∧ crs w' = crs w ∧
    (r = Ok tt → configmap_ready e w')) w1.
Proof.
  intros Hd Hl Ho Hv Hcrs Hkeep Hm. pose proof (Hkeep w1) as Hk. apply wp_bind. unfold wp in *.
  destruct (m w1) as [r2 w2]. cbn [fst snd] in *. destruct Hm as (Hnp2 & Honly & Hst).
  pose proof (only_configmap_after _ _ _ _ Hv Honly). rewrite Hcrs in Hk.
  destruct r2 as [c'|err|]; [|by split_and!|done]. apply wp_ret. split_and!; try done. intros _.
  destruct (Hst c' eq_refl). by eapply configmap_ready_stored.
Qed.

Lemma legacy_ensureConfigMap_spec w :
  wp (Legacy.ensureConfigMap cr spec)
    (λ r w', no_panic r ∧ only_configmap cm_key w w' ∧ crs w' = crs w ∧
      (r = Ok tt → configmap_ready e w')) w.
Proof.
  unfold wp, Legacy.ensureConfigMap.
  pose proof (get_configmap_law (R := R) cm_key w) as Hget.
  pose proof (crs_get_configmap (R := R) cm_key w) as Hcrs. unfold wp in Hget.
  destruct (get_configmap _ w) as [r w1]. cbn [fst snd] in *. destruct Hget as (Hnp & Hv & Hok).
  destruct r as [existing|[]|]; [| |by split_and!; auto using only_configmap_view..|done].
  - specialize (Hok existing eq_refl). case_decide as Hd.
    + split_and!; [done|by apply only_configmap_view|done|]. intros _.
      eapply configmap_ready_stored; [apply Hd..|apply configmap_stored_refl|].
      cbn [snd]. destruct Hv as (_ & _ & -> & _). done.
    + match goal with |- context [update_configmap ?n ?c] =>
        apply (configmap_written (update_configmap n c) c); try done; [apply crs_update_configmap|];
        assert (Hk : meta_key (cm_meta c) = cm_key) by exact (configmaps_keyed _ _ _ Hok);
        pose proof (update_configmap_law (R := R) n c w1) as Hlaw end.
      cbn zeta in Hlaw. rewrite Hk in Hlaw. by apply Hlaw.
  - match goal with |- context [create_configmap ?n ?c] =>
      apply (configmap_written (create_configmap n c) c); try done; [apply crs_create_configmap|];
      exact (create_configmap_law (R := R) n c w1 eq_refl) end.
Qed.

(** Writing the desired Service, by whatever call, makes it ready. *)
Lemma service_written (m : api W Service) c w w1 :
  ss_type (svc_spec c) = "ClusterIP" → ss_selector (svc_spec c) = managedLabels (entry_name e) →
  ss_ports (svc_spec c) = ss_ports (desired_service_spec e) →
  om_labels (svc_meta c) = managedLabels (entry_name e) →
  om_ownerReferences (svc_meta c) = Legacy.ownerRefs cr →
  view_eq w w1 → crs w1 = crs w → keeps (crs (U := U)) m →
  wp m (λ r w', no_panic r ∧ only_service req w1 w' ∧
    (∀ c', r = Ok c' → services w' !! req = Some c' ∧ service_stored c c')) w1 →
  wp (_ ← m; mret tt) (λ r w', no_panic r ∧ only_service req w w' ∧ crs w' = crs w ∧
    (r = Ok tt → service_ready e w')) w1.
Proof.
  intros Ht Hs Hp Hl Ho Hv Hcrs Hkeep Hm. pose proof (Hkeep w1) as Hk. apply wp_bind. unfold wp in *.
  destruct (m w1) as [r2 w2]. cbn [fst snd] in *. destruct Hm as (Hnp2 & Honly & Hst).
  pose proof (only_service_after _ _ _ _ Hv Honly). rewrite Hcrs in Hk.
  destruct r2 as [c'|err|]; [|by split_and!|done]. apply wp_ret. split_and!; try done. intros _.
  destruct (Hst c' eq_refl). by eapply service_ready_stored.
Qed.

Lemma legacy_ensureService_spec w :
  wp (Legacy.ensureService cr spec)
    (λ r w', no_panic r ∧ only_service req w w' ∧ crs w' = crs w ∧
      (r = Ok tt → service_ready e w')) w.
Proof.
  unfold wp, Legacy.ensureService.
  pose proof (get_service_law (R := R) req w) as Hget.
  pose proof (crs_get_service (R := R) req w) as Hcrs. unfold wp in Hget.
  destruct (get_service _ w) as [r w1]. cbn [fst snd] in *. destruct Hget as (Hnp & Hv & Hok).
  destruct r as [existing|[]|]; [| |by split_and!; auto using only_service_view..|done].
  - specialize (Hok existing eq_refl). case_decide as Hd.
    + split_and!; [done|by apply only_service_view|done|]. intros _.
      eapply service_ready_stored; [apply Hd..|apply service_stored_refl|].
      cbn [snd]. destruct Hv as (_ & -> & _ & _). done.
    + match goal with |- context [update_service ?n ?c] =>
        apply (service_written (update_service n c) c); try done; [apply crs_update_service|];
        assert (Hk : meta_key (svc_meta c) = req) by exact (services_keyed _ _ _ Hok);
        pose proof (update_service_law (R := R) n c w1) as Hlaw end.
      cbn zeta in Hlaw. rewrite Hk in Hlaw. by apply Hlaw.
  - match goal with |- context [create_service ?n ?c] =>
      apply (service_written (create_service n c) c); try done; [apply crs_create_service|];
      exact (create_service_law (R := R) n c w1 eq_refl) end.
Qed.

End ensure.

(** ** One resource *)

Section one_resource.
Context {U Q W : Type} `{!Unstructured U, !UnstructuredLaws U, !ParseQuantity Q, !MapRange,
  !SelectorSyntax, !SelectorLaws}.
Abbreviation R := (ResourceRequirements Q).
Context `{!ClusterView R W, !KubeAPI R W, !KubeLaws R W, !LiveReads R W, !CoreClient W,
  !DynamicClient U W, !ClientLaws R U W, !ResourceJSON R, !SortSlice, !SortSliceLaws}.
Implicit Types cr u : U.

(** What reconciling the resource under [k] may change: what the operator may
    change for it, and the resource itself. *)
Definition cr_isolated (k : key) (w w' : W) : Prop :=
  isolated k w w' ∧ ∀ k', k' ≠ k → crs w' !! k' = crs w !! k'.

Lemma cr_isolated_trans k w1 w2 w3 :
  cr_isolated k w1 w2 → cr_isolated k w2 w3 → cr_isolated k w1 w3.
Proof.
  intros [Hi Hc] [Hi' Hc']. split; [by eapply isolated_trans|]. intros k' Hk. by rewrite Hc', Hc.
Qed.
Lemma cr_isolated_same k w w' : isolated k w w' → crs w' = crs w → cr_isolated k w w'.
Proof. intros ? E. split; [done|]. by rewrite E. Qed.

(** Live objects of a resource imply that it is there and has the finalizer. *)
Definition protected (k : key) (w : W) : Prop :=
  has_resources k w → ∃ u, crs w !! k = Some u ∧ Legacy.finalizer ∈ Legacy.GetFinalizers u.

(** Some spec, for what does not depend on it. *)
Definition no_spec : DbcpEntryServiceSpec R :=
  {| spec_Config := {| TargetDB := ""; TargetRedis := ""; ServiceExportPort := 0 |};
     spec_Service := {| Image := ""; Replicas := 0;
                        Resources := {| Requests := None; Limits := None |} |} |}.

(** The outcome a pass is meant to bring about for a resource: everything
    removed and the finalizer released if it is being deleted, everything in
    place under the finalizer otherwise. *)
Inductive served (cr : U) (w : W) : Prop :=
  | served_deleted :
      om_deletionTimestamp (GetMeta cr) ≠ None → cleaned (cr_entry cr no_spec) w →
      (∀ u, crs w !! cr_key cr = Some u → Legacy.finalizer ∉ Legacy.GetFinalizers u) →
      served cr w
  | served_live spec h u :
      om_deletionTimestamp (GetMeta cr) = None → Legacy.parseSpec cr = Ok spec →
      Legacy.desiredSpecHash cr spec = Ok h →
      configmap_ready (cr_entry cr spec) w → service_ready (cr_entry cr spec) w →
      converged (cr_entry cr spec) h w →
      crs w !! cr_key cr = Some u → Legacy.finalizer ∈ Legacy.GetFinalizers u →
      served cr w.

(** Nothing but the finalizers of a resource differs. *)
Definition refinalized (cr cr' : U) : Prop :=
  ∃ fs, GetMeta cr' = with_finalizers fs (GetMeta cr) ∧
    Legacy.parseSpec (Q := Q) cr' = Legacy.parseSpec cr.

Lemma refinalized_served cr cr' spec h u (w : W) :
  refinalized cr cr' → om_deletionTimestamp (GetMeta cr) = None →
  Legacy.parseSpec cr' = Ok spec → Legacy.desiredSpecHash cr' spec = Ok h →
  configmap_ready (cr_entry cr' spec) w → service_ready (cr_entry cr' spec) w →
  converged (cr_entry cr' spec) h w →
  crs w !! cr_key cr = Some u → Legacy.finalizer ∈ Legacy.GetFinalizers u → served cr w.
Proof.
  intros (fs & Hm & Hp) Hd Hspec Hh Hcm Hsvc Hconv Hu Hf.
  assert (Hsec : Legacy.stableTokenSecret cr' = Legacy.stableTokenSecret cr)
    by (unfold Legacy.stableTokenSecret, Legacy.GetNamespace, Legacy.GetName, Legacy.ownerUID;
        by rewrite Hm).
  assert (Hdata : desiredConfigData (cr_entry cr' spec) = desiredConfigData (cr_entry cr spec))
    by (unfold desiredConfigData, Operator.stableTokenSecret, entry_namespace, entry_name; cbn;
        by rewrite Hm).
  rewrite Hp in Hspec. apply (served_live cr w spec h u Hd Hspec); [| | | |exact Hu|exact Hf].
  - rewrite <- Hh. unfold Legacy.desiredSpecHash, Legacy.spec_hash_input, Legacy.desiredConfigData.
    by rewrite Hsec.
  - unfold configmap_ready in *. rewrite Hdata in Hcm. unfold entry_namespace, entry_name in *.
    cbn in *. by rewrite Hm in Hcm.
  - unfold service_ready, entry_namespace, entry_name in *. cbn in *. by rewrite Hm in Hsvc.
  - unfold converged, converged_in, entry_namespace, entry_name in *. cbn in *. by rewrite Hm in Hconv.
Qed.

(** The second half of [reconcileCR]: the resource has its finalizer. *)
Definition manage cr : api W unit :=
  spec ← lift (Legacy.parseSpec cr);
  specHash ← lift (Legacy.desiredSpecHash cr spec);
  _ ← Legacy.ensureConfigMap cr spec;
  _ ← Legacy.ensureService cr spec;
  _ ← Legacy.reconcilePods cr spec specHash;
  mret tt.

Lemma manage_spec cr w :
  dns_subdomain (Legacy.GetName cr) →
  wp (manage cr) (λ r w', isolated (cr_key cr) w w' ∧ crs w' = crs w ∧
    (r = Ok tt → ∃ spec h, Legacy.parseSpec cr = Ok spec ∧ Legacy.desiredSpecHash cr spec = Ok h ∧
       configmap_ready (cr_entry cr spec) w' ∧ service_ready (cr_entry cr spec) w' ∧
       converged (cr_entry cr spec) h w')) w.
Proof.
  intros Hname. unfold manage. apply wp_bind. unfold lift at 1, wp at 1. cbn [fst snd].
  pose proof (isolated_refl (cr_key cr) w) as Hi0.
  destruct (Legacy.parseSpec cr) as [spec|err|] eqn:Hspec; [|by split_and!..].
  apply wp_bind. unfold lift at 1, wp at 1. cbn [fst snd].
  destruct (Legacy.desiredSpecHash cr spec) as [h|err|] eqn:Hh; [|by split_and!..].
  apply wp_bind. eapply wp_mono; [|apply (legacy_ensureConfigMap_spec cr spec)].
  intros r1 w1 (Hnp1 & Hoc & Hk1 & Hready1).
  pose proof (isolated_configmap (cr_key cr) _ _ Hoc) as Hi1. clear Hoc.
  destruct r1 as [[]|err|]; [|by split_and!|done]. specialize (Hready1 eq_refl).
  apply wp_bind. eapply wp_mono; [|apply (legacy_ensureService_spec cr spec)].
  intros r2 w2 (Hnp2 & Hos & Hk2 & Hready2).
  pose proof (isolated_trans _ _ _ _ Hi1 (isolated_service (cr_key cr) _ _ Hos)) as Hi2.
  destruct Hos as (_ & _ & Hc2 & _). rewrite Hk1 in Hk2.
  destruct r2 as [[]|err|]; [|by split_and!|done]. specialize (Hready2 eq_refl).
  apply wp_bind. unfold wp at 1.
  destruct (label_value (Legacy.GetName cr)) eqn:Hlab.
  2: { rewrite reconcilePods_refused by (done || (rewrite Hlab; by intros [])). by split_and!. }
  rewrite reconcilePods_pods_to by (by rewrite Hlab).
  match goal with |- context [pods_to ?ns ?n ?k ?h ?t] => set (m := pods_to ns n k h t) end.
  assert (Hm : wp m (λ r w', pods_isolated (cr_key cr).1 (cr_key cr).2 w2 w' ∧
    crs w' = crs w ∧ (r = Ok tt → converged (cr_entry cr spec) h w')) w2).
  { split; [|split].
    - eapply (pods_to_spec (Legacy.GetNamespace cr)); try done.
      apply pods_shown_labels, (live_caught_up (R := R)).
    - rewrite <- Hk2. apply keeps_pods_to.
    - intros Hr. eapply (pods_to_converges (cr_entry cr spec)); [| | |by apply run_eq]; [done|done|].
      apply (live_caught_up (R := R)). }
  unfold wp in Hm. destruct (m w2) as [r3 w3]. cbn [fst snd] in *. destruct Hm as (Hiso & Hk3 & Hok).
  pose proof (isolated_trans _ _ _ _ Hi2 (isolated_pods (cr_key cr) _ _ Hiso)) as Hi3.
  destruct Hiso as (Hs3 & Hc3 & _).
  destruct r3 as [[]|err|]; [|by split_and!..]. apply wp_ret. split_and!; try done. intros _.
  exists spec, h. split_and!; try done.
  - unfold configmap_ready in *. by rewrite Hc3, Hc2.
  - unfold service_ready in *. by rewrite Hs3.
  - by apply Hok.
Qed.

Lemma dbcpResources_id ns : Legacy.dbcpResources ns = ns.
Proof. unfold Legacy.dbcpResources. by case_decide. Qed.

Lemma hasFinalizer_spec cr v : Legacy.hasFinalizer cr v = true ↔ v ∈ Legacy.GetFinalizers cr.
Proof.
  unfold Legacy.hasFinalizer. induction (Legacy.GetFinalizers cr) as [|x l IH]; cbn.
  { by rewrite elem_of_nil. }
  rewrite elem_of_cons. case_decide; [naive_solver|]. rewrite IH. naive_solver.
Qed.

Lemma SetFinalizers_key fs cr : cr_key (SetFinalizers fs cr) = cr_key cr.
Proof. unfold cr_key. by rewrite GetMeta_SetFinalizers. Qed.

(** What an update of the finalizers does. *)
Lemma update_finalizers_spec fs cr w :
  let removed := om_deletionTimestamp (GetMeta cr) ≠ None ∧ fs = [] in
  let applied w' cr' :=
    GetMeta cr' = with_finalizers fs (GetMeta cr) ∧ refinalized cr cr' ∧
    crs w' = if decide removed then delete (cr_key cr) (crs w)
             else <[cr_key cr := cr']> (crs w) in
  wp (update_cr (Legacy.dbcpResources (Legacy.GetNamespace cr)) (SetFinalizers fs cr))
    (λ r w', no_panic r ∧ view_eq w w' ∧ cr_isolated (cr_key cr) w w' ∧
      (crs w' = crs w ∨ ∃ cr', applied w' cr') ∧ (∀ cr', r = Ok cr' → applied w' cr')) w.
Proof.
  intros removed applied. rewrite dbcpResources_id.
  pose proof (update_cr_law (R := R) (Legacy.GetNamespace cr) (SetFinalizers fs cr) w) as Hlaw.
  cbn zeta in Hlaw. rewrite SetFinalizers_key in Hlaw. specialize (Hlaw eq_refl).
  eapply wp_mono; [|exact Hlaw]. clear Hlaw. rewrite GetMeta_SetFinalizers. cbn [om_deletionTimestamp
    om_finalizers with_finalizers].
  intros r w' (Hnp & Hv & Hcase & Hok).
  assert (Happ : ∀ u', same_object (SetFinalizers fs cr) u' ∧
    crs w' = (if decide removed then delete (cr_key cr) (crs w) else <[cr_key cr:=u']> (crs w)) →
    applied w' u').
  { intros u' [Hsame Hcrs]. pose proof Hsame as (Hmeta & _). rewrite GetMeta_SetFinalizers in Hmeta.
    split_and!; [done| |done]. exists fs. split; [done|].
    by rewrite <- (parseSpec_SetFinalizers fs cr), Hsame. }
  split_and!; [done|done| | |by intros u' Hr; apply Happ, Hok].
  - split; [by apply isolated_view|]. intros k' Hk.
    clear Happ. destruct Hcase as [-> |(u' & _ & ->)]; [done|]. case_decide.
    + by rewrite lookup_delete_ne.
    + by rewrite lookup_insert_ne.
  - destruct Hcase as [?|(u' & Hu')]; [by left|right]. exists u'. by apply Happ.
Qed.

(** The promise of a run on one resource, whatever its outcome. *)
Definition cr_promise cr (w : W) (r : outcome api_error unit) (w' : W) : Prop :=
  cr_isolated (cr_key cr) w w' ∧
  (protected (cr_key cr) w → protected (cr_key cr) w') ∧
  (r = Ok tt → served cr w').

Lemma cleaned_protected cr w : cleaned (cr_entry cr no_spec) w → protected (cr_key cr) w.
Proof. intros Hcl Hres. by apply cleaned_no_resources in Hcl. Qed.

Lemma cleaned_view cr w w' :
  view_eq w w' → cleaned (cr_entry cr no_spec) w → cleaned (cr_entry cr no_spec) w'.
Proof.
  intros (Hp & Hs & Hc & _). unfold cleaned, live_pods, service_gone, configmap_gone.
  by rewrite Hp, Hs, Hc.
Qed.

Lemma reconcile_deleted_cr cr w :
  crs w !! cr_key cr = Some cr → om_deletionTimestamp (GetMeta cr) ≠ None →
  wp (_ ← Legacy.cleanupOwnedResources cr;
      if Legacy.hasFinalizer cr Legacy.finalizer then Legacy.removeFinalizer cr else mret tt)
    (cr_promise cr w) w.
Proof.
  intros Hcr Hdel. apply wp_bind. unfold wp at 1.
  destruct (crs_keyed (R := R) w _ _ Hcr) as [_ Hname].
  destruct (label_value (Legacy.GetName cr)) eqn:Hlab.
  2: { rewrite cleanup_refused by (done || (rewrite Hlab; by intros [])). split_and!; [|done|done].
       apply cr_isolated_same; [apply isolated_refl|done]. }
  rewrite (cleanup_same cr no_spec) by (by rewrite Hlab).
  destruct (live_caught_up (R := R) (Legacy.GetNamespace cr) w) as [Hshown _].
  pose proof (cleanup_spec (cr_entry cr no_spec) w (pods_shown_labels _ _ Hshown)) as Hspec.
  pose proof (cleanup_shrinks (cr_entry cr no_spec) w) as Hshr.
  pose proof (keeps_cleanup (cr_entry cr no_spec) w) as Hkeep. unfold wp in Hspec, Hshr.
  destruct (cleanupOwnedResources _ w) as [r1 w1]. cbn [fst snd] in *.
  destruct Hspec as (Hnp & Hi & _ & Hclean).
  pose proof (cr_isolated_same (cr_key cr) _ _ Hi Hkeep) as Hi1.
  destruct r1 as [[]|err|]; [|split_and!; [done| |done]|done].
  2: { intros Hprot Hres. rewrite Hkeep. eapply Hprot, shrinks_has; [exact Hshr|done]. }
  specialize (Hclean eq_refl Hshown). destruct (Legacy.hasFinalizer cr _) eqn:Hf.
  - unfold Legacy.removeFinalizer. apply wp_bind.
    set (out := filter (λ item, item ≠ Legacy.finalizer) (Legacy.GetFinalizers cr)).
    eapply wp_mono; [|apply (update_finalizers_spec out cr)].
    intros r2 w2 (Hnp2 & Hv & Hi2 & _ & Hok). pose proof (cleaned_view _ _ _ Hv Hclean) as Hcl2.
    pose proof (cr_isolated_trans _ _ _ _ Hi1 Hi2) as Hi12.
    pose proof (cleaned_protected _ _ Hcl2) as Hprot2.
    destruct r2 as [u'|err|]; [|by split_and!|done]. apply wp_ret. split_and!; try done.
    intros _. apply served_deleted; try done.
    destruct (Hok u' eq_refl) as (Hm & _ & ->). intros u. case_decide.
    + by rewrite lookup_delete_eq.
    + rewrite lookup_insert_eq. intros [= <-]. unfold Legacy.GetFinalizers. rewrite Hm. cbn.
      intros Hin. unfold out in Hin. apply list_elem_of_filter in Hin. tauto.
  - apply wp_ret. split_and!; [done|by intros _; apply cleaned_protected|]. intros _.
    apply served_deleted; try done. rewrite Hkeep, Hcr. intros u [= <-] Hin%hasFinalizer_spec.
    congruence.
Qed.

Lemma manage_promise cr cr' w0 w :
  refinalized cr cr' → om_deletionTimestamp (GetMeta cr) = None → dns_subdomain (Legacy.GetName cr) →
  cr_isolated (cr_key cr) w0 w →
  crs w !! cr_key cr = Some cr' → Legacy.finalizer ∈ Legacy.GetFinalizers cr' →
  wp (manage cr') (cr_promise cr w0) w.
Proof.
  intros Href Hd Hname Hi0 Hcr Hf. pose proof Href as (fs & Hm & _).
  assert (Hkey : cr_key cr' = cr_key cr) by (unfold cr_key; by rewrite Hm).
  eapply wp_mono; [|apply (manage_spec cr')].
  2: { unfold Legacy.GetName. by rewrite Hm. }
  rewrite Hkey. intros r w' (Hi & Hkeep & Hok). split_and!.
  - eapply cr_isolated_trans; [done|]. by apply cr_isolated_same.
  - intros _ _. rewrite Hkeep. eauto.
  - intros Hr. destruct (Hok Hr) as (spec & h & ? & ? & ? & ? & ?).
    eapply refinalized_served; eauto. by rewrite Hkeep.
Qed.

(** Whatever the API answers, [reconcileCR] keeps its promise. *)
Lemma reconcileCR_spec cr w :
  crs w !! cr_key cr = Some cr → wp (Legacy.reconcileCR cr) (cr_promise cr w) w.
Proof.
  intros Hcr. destruct (crs_keyed (R := R) w _ _ Hcr) as [_ Hname].
  unfold Legacy.reconcileCR. case_decide as Hd; [by apply reconcile_deleted_cr|].
  assert (Hlive : om_deletionTimestamp (GetMeta cr) = None)
    by (destruct (om_deletionTimestamp (GetMeta cr)); [by destruct Hd|done]).
  assert (Hrefl : cr_isolated (cr_key cr) w w)
    by (apply cr_isolated_same; [apply isolated_refl|done]).
  apply wp_bind. destruct (Legacy.hasFinalizer cr _) eqn:Hf.
  - apply wp_ret, manage_promise; try done; [|by apply hasFinalizer_spec].
    exists (om_finalizers (GetMeta cr)). by destruct (GetMeta cr).
  - unfold Legacy.addFinalizer. eapply wp_mono; [|apply update_finalizers_spec].
    intros r w1 (Hnp & Hv & Hi & Hcase & Hok).
    assert (Hprot : protected (cr_key cr) w → protected (cr_key cr) w1).
    { intros Hprot Hres. exfalso.
      assert (has_resources (cr_key cr) w) as (u & Hu & Hin)%Hprot.
      { destruct Hv as (E1 & E2 & E3 & _).
        unfold has_resources, has_pod, has_service, has_configmap in *. by rewrite E1, E2, E3 in Hres. }
      rewrite Hcr in Hu. injection Hu as <-. apply hasFinalizer_spec in Hin. congruence. }
    destruct r as [cr'|err|]; [|by split_and!|done].
    destruct (Hok cr' eq_refl) as (Hm & Href & Hcrs). rewrite decide_False in Hcrs by (by intros [? _]).
    apply manage_promise; try done.
    + by rewrite Hcrs, lookup_insert_eq.
    + unfold Legacy.GetFinalizers. rewrite Hm. cbn. set_solver.
Qed.
End one_resource.
