(* ===== verification/LegacySafety.v ===== *)
(** * The polling controller over all resources

    What a pass guarantees for each resource in spite of the others, that
    nothing is orphaned, which resources are accepted, and what becomes of a
    replica count that does not fit in 32 bits. *)

From S2P Require Import Prelude GoStrings Json Kube KubeClient Operator Legacy Cluster Demo LegacyCluster OperatorHash OperatorPods OperatorReconcile OperatorSafety OperatorSync LegacySpec.
From stdpp Require Import relations.
#[local] Open Scope Z_scope.

Section other_resources.
Context {U Q W : Type} `{!Unstructured U, !UnstructuredLaws U, !ParseQuantity Q, !MapRange,
  !SelectorSyntax, !SelectorLaws}.
Abbreviation R := (ResourceRequirements Q).
Context `{!ClusterView R W, !KubeAPI R W, !KubeLaws R W, !LiveReads R W, !CoreClient W,
  !DynamicClient U W, !ClientLaws R U W, !ResourceJSON R, !SortSlice, !SortSliceLaws}.
Implicit Types (cr u : U) (w : W).

(** ** Reconciling one resource does not undo another *)

Lemma served_stable k cr w w' :
  cr_isolated k w w' → k ≠ cr_key cr → served cr w → served cr w'.
Proof.
  intros [Hi Hk] Hne Hserved.
  assert (Hlive : live_pods (Legacy.GetNamespace cr) (Legacy.GetName cr) w' =
    live_pods (Legacy.GetNamespace cr) (Legacy.GetName cr) w) by by eapply isolated_live_pods.
  assert (Hcrs : crs w' !! cr_key cr = crs w !! cr_key cr) by by apply Hk.
  destruct Hserved as [Hd Hcl Hf|spec h u Hd Hs Hh Hcm Hsvc Hconv Hu Hf].
  - apply served_deleted; [done| |by rewrite Hcrs]. destruct Hcl as (Hp & Hsg & Hcg).
    destruct (isolated_objects k (cr_entry cr no_spec) w w' Hi Hne) as [E1 E2].
    unfold cleaned, service_gone, configmap_gone in *. rewrite E1, E2. split_and!; try done.
    exact (eq_trans Hlive Hp).
  - destruct (isolated_objects k (cr_entry cr spec) w w' Hi Hne) as [E1 E2].
    apply (served_live cr w' spec h u Hd Hs Hh).
    + unfold configmap_ready in *. by rewrite E2.
    + unfold service_ready in *. by rewrite E1.
    + by apply (converged_live (cr_entry cr spec) h w w' Hlive).
    + by rewrite Hcrs.
    + exact Hf.
Qed.

Lemma protected_stable k k' w w' :
  cr_isolated k' w w' → k ≠ k' → protected k w → protected k w'.
Proof.
  intros [Hi Hk] Hne Hprot Hres. rewrite Hk by done. eapply Hprot, isolated_other; eauto.
Qed.

(** ** The loop *)

Lemma reconcile_items_spec items w :
  NoDup (cr_key <$> items) → (∀ cr, cr ∈ items → crs w !! cr_key cr = Some cr) →
  wp (Legacy.reconcile_items items)
    (λ r w', (∀ k, protected k w → protected k w') ∧
      (∀ cr, cr_key cr ∉ cr_key <$> items → served cr w → served cr w') ∧
      ∀ log, r = Ok log →
        (∀ k err, (k, err) ∈ log → k ∈ cr_key <$> items) ∧
        ∀ cr, cr ∈ items → (∀ err, (cr_key cr, err) ∉ log) → served cr w') w.
Proof.
  revert w. induction items as [|cr items IH]; intros w Hnd Hin; cbn [Legacy.reconcile_items].
  { split_and!; [done|done|]. intros log [= <-]. split; [|set_solver].
    intros k err Hk. by apply elem_of_nil in Hk. }
  rewrite fmap_cons in *. apply NoDup_cons in Hnd as [Hfresh Hnd]. unfold wp at 1.
  pose proof (reconcileCR_spec cr w (Hin cr ltac:(set_solver))) as Hspec. unfold wp in Hspec.
  destruct (Legacy.reconcileCR cr w) as [r w1]. cbn [fst snd] in Hspec.
  destruct Hspec as (Hi & Hprot & Hserved).
  assert (Hprot1 : ∀ k, protected k w → protected k w1).
  { intros k. destruct (decide (k = cr_key cr)) as [->|]; [done|]. by eapply protected_stable. }
  assert (Hother : ∀ cr', cr_key cr' ∉ cr_key cr :: (cr_key <$> items) →
    (cr_key cr' ∉ cr_key <$> items) ∧ (served cr' w → served cr' w1)).
  { intros cr' [Hne ?]%not_elem_of_cons. split; [done|]. eapply served_stable; [exact Hi|congruence]. }
  assert (Hin1 : ∀ cr', cr' ∈ items → crs w1 !! cr_key cr' = Some cr').
  { intros cr' Hcr'. destruct Hi as [_ Hk]. rewrite Hk; [apply Hin; set_solver|].
    intros E. apply Hfresh. rewrite <- E. by apply list_elem_of_fmap_2. }
  specialize (IH w1 Hnd Hin1). unfold wp in IH.
  destruct r as [[]|err|]; cbn [fst snd].
  - destruct (Legacy.reconcile_items items w1) as [r2 w2]. cbn [fst snd] in *.
    destruct IH as (IHp & IHo & IHl). split_and!; [by auto|by intros cr' [? ?]%Hother; auto|].
    intros log Hr. destruct (IHl log Hr) as [Hlog Hdone].
    split; [intros k e1 Hk; right; by eapply Hlog|].
    intros cr' [->|Hcr']%elem_of_cons Hnot; [|by auto]. apply IHo; [done|]. by apply Hserved.
  - unfold mbind, eff_bind. destruct (Legacy.reconcile_items items w1) as [r2 w2].
    cbn [fst snd] in *. destruct IH as (IHp & IHo & IHl).
    destruct r2 as [log'|e2|]; cbn; (split_and!; [by auto|by intros cr' [? ?]%Hother; auto|]); [|done..].
    intros log [= <-]. destruct (IHl log' eq_refl) as [Hlog Hdone]. split.
    + intros k e1 [[= -> ->]|Hk]%elem_of_cons; [by left|]. right. by eapply Hlog.
    + intros cr' [->|Hcr']%elem_of_cons Hnot.
      * destruct (Hnot err). by left.
      * apply Hdone; [done|]. intros e1 He1. destruct (Hnot e1). by right.
  - split_and!; [done|by intros cr' [? ?]%Hother; auto|done].
Qed.

Lemma reconcileAll_spec ns w :
  wp (Legacy.reconcileAll ns)
    (λ r w', (∀ k, protected k w → protected k w') ∧
      ∀ log, r = Ok log → ∀ cr, crs w !! cr_key cr = Some cr →
        ns = "" ∨ om_namespace (GetMeta cr) = ns →
        (∀ err, (cr_key cr, err) ∉ log) → served cr w') w.
Proof.
  unfold Legacy.reconcileAll. rewrite dbcpResources_id. apply wp_bind.
  eapply wp_mono; [|apply (list_crs_law (R := R) ns)].
  intros r w1 (Hnp & Hv & Hcrs & Hlist).
  assert (Hprot : ∀ k, protected k w → protected k w1).
  { intros k. unfold protected, has_resources, has_pod, has_service, has_configmap.
    destruct Hv as (-> & -> & -> & _). by rewrite Hcrs. }
  destruct r as [items|err|]; [|by split|done].
  destruct (Hlist items eq_refl) as [Hnd Hin]. eapply wp_mono; [|apply reconcile_items_spec]; [|done|].
  2: { intros cr [Hcr _]%Hin. by rewrite Hcrs. }
  intros r w2 (Hprot2 & _ & Hlog). split; [by auto|]. intros log Hr cr Hcr Hns Hnot.
  apply (Hlog log Hr); [by apply Hin|done].
Qed.

(** C17: a pass serves every resource it does not report. If [reconcileAll]
    returns, then for each resource in the watched name space about which no
    error was logged, whatever happened to the others: if it is being deleted,
    no live pod, Service or ConfigMap of it is left and the finalizer is
    released; otherwise its spec was accepted, its ConfigMap and Service are as
    the spec demands and owned by it, it has exactly the desired number of live
    pods with the current hash, and the stored resource carries the finalizer. *)
Theorem reconcileAll_serves_each ns (w w' : W) log cr :
  Legacy.reconcileAll ns w = (Ok log, w') →
  crs w !! cr_key cr = Some cr → ns = "" ∨ om_namespace (GetMeta cr) = ns →
  (∀ err, (cr_key cr, err) ∉ log) → served cr w'.
Proof.
  intros Hrun Hcr Hns Hnot.
  exact (proj2 (wp_run _ _ _ _ _ (reconcileAll_spec ns w) Hrun) log eq_refl cr Hcr Hns Hnot).
Qed.

(** ** Nothing is orphaned *)

Lemma Run_protects ticks ns err w k : protected k w → protected k (Legacy.Run ticks ns err w).2.
Proof.
  revert w. induction ticks as [|ticks IH]; intros w Hk; cbn [Legacy.Run];
    destruct (reconcileAll_spec ns w) as [Hprot _];
    destruct (Legacy.reconcileAll ns w) as [[log|e|] w1]; cbn [fst snd] in *; auto.
Qed.

Inductive legacy_step : W → W → Prop :=
  (** The controller runs for some passes, ends, and may be started again. *)
  | step_run ticks ns err w : legacy_step w (Legacy.Run ticks ns err w).2
  (** A user creates, edits or requests the deletion of a resource, and leaves
      the finalizer alone. *)
  | step_cr k u' w w' :
      view_eq w w' → (∀ k', k' ≠ k → crs w' !! k' = crs w !! k') → crs w' !! k = Some u' →
      (∀ u, crs w !! k = Some u → Legacy.finalizer ∈ Legacy.GetFinalizers u →
         Legacy.finalizer ∈ Legacy.GetFinalizers u') →
      legacy_step w w'
  (** The API server removes a resource that has no finalizer. *)
  | step_cr_gone k u w w' :
      view_eq w w' → (∀ k', k' ≠ k → crs w' !! k' = crs w !! k') →
      crs w !! k = Some u → Legacy.GetFinalizers u = [] → crs w' !! k = None → legacy_step w w'
  (** Pods run, fail, end and vanish; others delete objects. *)
  | step_others w w' :
      crs w' = crs w → (∀ k, shrinks k w w') → legacy_step w w'.

Lemma view_resources k w w' : view_eq w w' → has_resources k w' → has_resources k w.
Proof. intros Hv. by apply shrinks_has, shrinks_view. Qed.

Lemma protected_step w w' :
  legacy_step w w' → (∀ k, protected k w) → ∀ k, protected k w'.
Proof.
  destruct 1 as [ticks ns err w|k0 u' w w' Hv Hk Hu' Hkeep|k0 u w w' Hv Hk Hu Hnil Hnone
    |w w' Hcrs Hsh]; intros Hall k.
  - apply Run_protects, Hall.
  - intros Hres. apply (view_resources _ _ _ Hv), Hall in Hres as (u & Hu & Hf).
    destruct (decide (k = k0)) as [->|]; [by eauto|]. exists u. by rewrite Hk.
  - intros Hres. apply (view_resources _ _ _ Hv), Hall in Hres as (u0 & Hu0 & Hf).
    destruct (decide (k = k0)) as [->|].
    + rewrite Hu in Hu0. injection Hu0 as <-. rewrite Hnil in Hf. by apply elem_of_nil in Hf.
    + exists u0. by rewrite Hk.
  - intros Hres. rewrite Hcrs. eapply Hall, shrinks_has; [apply Hsh|done].
Qed.

(** C18: the polling controller orphans nothing either. From any cluster where
    live managed objects belong to resources that carry the finalizer, such as
    an empty one, every interleaving of runs of the controller (of any number
    of passes, with any answers of the API, ended or crashed at any pass), users and the
    rest of Kubernetes keeps it that way: when a resource is gone, no live
    pod, Service or ConfigMap made for it is left. *)
Theorem legacy_no_orphans (w0 w : W) k :
  (∀ k, protected k w0) → rtc legacy_step w0 w →
  protected k w ∧ (crs w !! k = None → ¬ has_resources k w).
Proof.
  intros Hinit Hsteps. assert (protected k w) as Hk.
  { revert k. induction Hsteps as [|w1 w2 w3 Hstep _ IH]; [done|].
    apply IH. by eapply protected_step. }
  split; [done|]. intros Hnone Hres. destruct (Hk Hres) as (u & Hu & _). congruence.
Qed.
End other_resources.

(** ** Which resources are accepted *)

Section parsing.
Context {U Q : Type} `{!Unstructured U, !ParseQuantity Q, !MapRange, !MapRangeLaws}.
Implicit Types cr : U.

Lemma required_string_Ok cr path msg s :
  Legacy.required_string cr path msg = Ok s ↔ NestedString cr path = Found s ∧ s ≠ "".
Proof.
  unfold Legacy.required_string. destruct (NestedString cr path); [case_decide| |]; naive_solver.
Qed.

Lemma required_int_Ok cr path ok msg n :
  Legacy.required_int cr path ok msg = Ok n ↔ NestedInt64 cr path = Found n ∧ ok n = true.
Proof.
  unfold Legacy.required_int. destruct (NestedInt64 cr path) as [m| |]; [|naive_solver..].
  destruct (ok m) eqn:Hm; split; [by intros [= <-]|by intros [[= <-] _]|done|].
  intros [[= <-] ?]. congruence.
Qed.

(** Every entry parses, and the result has their values. *)
Definition quantities (values : labels) (out : gmap string Q) : Prop :=
  ∀ k, match values !! k, out !! k with
       | Some v, Some q => parse_quantity v = Datatypes.inr q
       | None, None => True
       | _, _ => False
       end.

Lemma parse_quantities_Ok field l out m :
  NoDup l.*1 →
  Legacy.parse_quantities (Q := Q) field l out = Ok m ↔
  (∀ k v, (k, v) ∈ l → ∃ q, parse_quantity v = Datatypes.inr q ∧ m !! k = Some q) ∧
  (∀ k, k ∉ l.*1 → m !! k = out !! k).
Proof.
  revert out. induction l as [|[k v] l IH]; intros out Hnd; cbn [Legacy.parse_quantities].
  { split.
    - intros [= <-]. split; [|done]. intros k v Hin. by apply elem_of_nil in Hin.
    - intros [_ Hm]. f_equal. apply map_eq. intros k. symmetry. apply Hm. set_solver. }
  rewrite fmap_cons in *. apply NoDup_cons in Hnd as [Hk Hnd]. cbn in Hk.
  destruct (parse_quantity v) as [err|q] eqn:Hq.
  { split; [done|]. intros [Hall _]. destruct (Hall k v ltac:(by left)) as (q & Hq' & _). congruence. }
  rewrite IH by done. split; intros [Hall Hrest]; split.
  - intros k' v' [[= -> ->]|Hin]%elem_of_cons; [|by auto].
    exists q. split; [done|]. rewrite Hrest by done. apply lookup_insert_eq.
  - intros k' [Hne Hin]%not_elem_of_cons. rewrite Hrest by done. by apply lookup_insert_ne.
  - intros k' v' Hin. apply Hall. by right.
  - intros k' Hin. destruct (decide (k' = k)) as [->|].
    + rewrite lookup_insert_eq. destruct (Hall k v ltac:(by left)) as (q' & Hq' & ->). congruence.
    + rewrite lookup_insert_ne by done. apply Hrest. cbn. by apply not_elem_of_cons.
Qed.

Lemma parse_quantities_range field values m :
  Legacy.parse_quantities field (map_range values) ∅ = Ok m ↔ quantities values m.
Proof.
  assert (Hin : ∀ k v, (k, v) ∈ map_range values ↔ values !! k = Some v).
  { intros k v. by rewrite map_range_perm, elem_of_map_to_list. }
  assert (Hdom : ∀ k, k ∈ (map_range values).*1 ↔ is_Some (values !! k)).
  { intros k. rewrite list_elem_of_fmap. split.
    - intros ([k' v] & -> & Hkv%Hin). by exists v.
    - intros [v Hv%Hin]. by exists (k, v). }
  rewrite parse_quantities_Ok.
  2: { rewrite map_range_perm. apply NoDup_fst_map_to_list. }
  unfold quantities. split.
  - intros [Hall Hrest] k. destruct (values !! k) as [v|] eqn:Hv.
    + apply Hin in Hv. by destruct (Hall k v Hv) as (q & ? & ->).
    + rewrite Hrest, lookup_empty; [done|]. rewrite Hdom, Hv. by apply is_Some_None.
  - intros Hq. split.
    + intros k v Hv%Hin. specialize (Hq k). rewrite Hv in Hq. destruct (m !! k); [by eauto|done].
    + intros k Hk. specialize (Hq k). rewrite lookup_empty.
      destruct (values !! k) eqn:Hv; [destruct Hk; apply Hdom; by eauto|]. by destruct (m !! k).
Qed.

(** A resource list of a spec, and what it is parsed to. *)
Definition resource_list cr (field : string) (out : option (gmap string Q)) : Prop :=
  match NestedStringMap cr ["spec"; "service"; "resources"; field], out with
  | Missing, None => True
  | Found values, Some m => quantities values m
  | _, _ => False
  end.

Lemma parseResourceList_Ok cr field out :
  Legacy.parseResourceList cr field = Ok out ↔ resource_list cr field out.
Proof.
  unfold Legacy.parseResourceList, resource_list.
  destruct (NestedStringMap cr _) as [values| |msg]; [|destruct out; naive_solver..].
  rewrite outcome_bind_Ok. destruct out as [m|].
  - rewrite <- (parse_quantities_range field). naive_solver.
  - naive_solver.
Qed.

Lemma parseSpec_replicas cr spec n :
  Legacy.parseSpec (Q := Q) cr = Ok spec →
  NestedInt64 cr ["spec"; "service"; "replicas"] = Found n →
  Replicas (spec_Service spec) = wraps 32 n.
Proof.
  unfold Legacy.parseSpec. repeat setoid_rewrite outcome_bind_Ok. setoid_rewrite required_int_Ok.
  intros (db & _ & redis & _ & port & _ & image & _ & replicas & [Hr _] & res & _ & [= <-]) Hn.
  rewrite Hn in Hr. by injection Hr as ->.
Qed.

(** C24: [parseSpec] accepts exactly the resources whose endpoints and image
    are non-empty strings, whose port is between 1 and 65535, whose replica
    count is at least 1 and whose resource quantities all parse, in whatever
    order Go visits them; what it returns are these values, the port exactly
    and the replica count cut to 32 bits. *)
Theorem parseSpec_accepts_exactly cr spec :
  Legacy.parseSpec cr = Ok spec ↔
  let '(config, service) := (spec_Config spec, spec_Service spec) in
  NestedString cr ["spec"; "config"; "targetDB"] = Found (TargetDB config) ∧ TargetDB config ≠ "" ∧
  NestedString cr ["spec"; "config"; "targetRedis"] = Found (TargetRedis config) ∧
  TargetRedis config ≠ "" ∧
  NestedInt64 cr ["spec"; "config"; "serviceExportPort"] = Found (ServiceExportPort config) ∧
  1 ≤ ServiceExportPort config ≤ 65535 ∧
  NestedString cr ["spec"; "service"; "image"] = Found (Image service) ∧ Image service ≠ "" ∧
  (∃ replicas, NestedInt64 cr ["spec"; "service"; "replicas"] = Found replicas ∧ 1 ≤ replicas ∧
     Replicas service = wraps 32 replicas) ∧
  resource_list cr "requests" (Requests (Resources service)) ∧
  resource_list cr "limits" (Limits (Resources service)).
Proof.
  unfold Legacy.parseSpec, Legacy.parseResources. repeat setoid_rewrite outcome_bind_Ok.
  setoid_rewrite required_string_Ok. setoid_rewrite required_int_Ok.
  setoid_rewrite parseResourceList_Ok.
  assert (Hport : ∀ port, (1 <=? port) && (port <=? 65535) = true ↔ 1 ≤ port ≤ 65535) by lia.
  setoid_rewrite Hport. setoid_rewrite Z.leb_le. split.
  - intros (db & [Hdb ?] & redis & [Hredis ?] & port & [Hport' ?] & image & [Himg ?] & n & [Hn ?] &
      res & (requests & ? & limits & ? & [= <-]) & [= <-]). cbn.
    rewrite wraps_id by lia. split_and!; try done; [lia|lia|]. by exists n.
  - destruct spec as [[db redis port] [image n [requests limits]]]. cbn.
    intros (? & ? & ? & ? & ? & ? & ? & ? & (replicas & ? & ? & ->) & ? & ?).
    exists db. split; [done|]. exists redis. split; [done|]. exists port. split; [done|].
    exists image. split; [done|]. exists replicas. split; [done|].
    exists {| Requests := requests; Limits := limits |}. split; [by eauto 6|].
    rewrite wraps_id by lia. done.
Qed.

Lemma bind_no_panic {E A B} (m : outcome E A) (f : A → outcome E B) :
  no_panic m → (∀ a, no_panic (f a)) → no_panic (m ≫= f).
Proof. intros Hm Hf. destruct m; cbn; [apply Hf|done|by destruct Hm]. Qed.

Lemma parse_quantities_no_panic field l (out : gmap string Q) :
  no_panic (Legacy.parse_quantities field l out).
Proof.
  revert out. induction l as [|[k v] l IH]; intros out; cbn; [done|].
  by destruct (parse_quantity v).
Qed.

(** Otherwise it returns an error; it never panics. *)
Lemma parseSpec_total cr : no_panic (Legacy.parseSpec (Q := Q) cr).
Proof.
  assert (Hlist : ∀ field, no_panic (Legacy.parseResourceList (Q := Q) cr field)).
  { intros field. unfold Legacy.parseResourceList. destruct (NestedStringMap cr _); try done.
    apply bind_no_panic; [apply parse_quantities_no_panic|done]. }
  assert (Hs : ∀ path msg, no_panic (Legacy.required_string cr path msg)).
  { intros. unfold Legacy.required_string. destruct (NestedString _ _); [case_decide|..]; done. }
  assert (Hi : ∀ path ok msg, no_panic (Legacy.required_int cr path ok msg)).
  { intros path ok msg. unfold Legacy.required_int.
    destruct (NestedInt64 _ _) as [n| |]; [destruct (ok n)|..]; done. }
  unfold Legacy.parseSpec, Legacy.parseResources.
  repeat first [apply Hs|apply Hi|apply Hlist|apply bind_no_panic; [|intros ?]|done].
Qed.
End parsing.

(** ** Compared with the operator *)

Section compared.
Context {U Q W : Type} `{!Unstructured U, !ParseQuantity Q, !MapRange, !SelectorSyntax,
  !SelectorLaws}.
Abbreviation R := (ResourceRequirements Q).
Context `{!ClusterView R W, !KubeAPI R W, !KubeLaws R W, !ResourceJSON R, !ControllerUtil R,
  !ControllerUtilLaws R, !SortSlice, !SortSliceLaws, !LiveReads R W}.
Implicit Types cr : U.

(** C19: the two controllers treat pods alike. For a resource with the same
    metadata and spec whose name is a label value, [reconcilePods] of the polling
    controller and of the operator are the same computation, from every cluster
    and with every answer of the API, run on two pod templates that agree in
    everything but the owner reference; the clean-up is the same computation. If
    the name is not a label value, for instance because it has more than 63
    letters, the selector of the polling controller is refused: both functions
    fail before they have changed anything, whatever the operator would do. The
    rendered configuration is the same in any case. *)
Theorem controllers_equivalent cr spec h (w : W) :
  dns_subdomain (Legacy.GetName cr) →
  let e := cr_entry cr spec in
  let reference := pods_to (entry_namespace e) (entry_name e) (Replicas (spec_Service spec)) h in
  (label_value (Legacy.GetName cr) →
     Legacy.reconcilePods cr spec h w = reference (Legacy.desiredPod cr spec h) w ∧
     reconcilePods e h w = reference (desiredPod e h) w ∧
     Legacy.cleanupOwnedResources cr w = cleanupOwnedResources e w) ∧
  (¬ label_value (Legacy.GetName cr) →
     Legacy.reconcilePods cr spec h w = (Err bad_selector, w) ∧
     Legacy.cleanupOwnedResources cr w = (Err bad_selector, w)) ∧
  Legacy.desiredPod cr spec h =
    {| pod_meta := with_owners (Legacy.ownerRefs cr) (pod_meta (desiredPod e h));
       pod_spec := pod_spec (desiredPod e h); pod_phase := pod_phase (desiredPod e h) |} ∧
  Legacy.desiredConfigData cr spec = desiredConfigData e.
Proof.
  intros Hname e reference. split; [|split; [|split]].
  - intros Hlab. split_and!; [by apply reconcilePods_pods_to|reflexivity|by apply cleanup_same].
  - intros Hno. split; [by apply reconcilePods_refused|by apply cleanup_refused].
  - destruct (desiredPod_meta e h) as [os ->]. reflexivity.
  - reflexivity.
Qed.

Lemma legacy_hash_input_wf cr (spec : DbcpEntryServiceSpec R) res :
  spec_text spec → json_wf res → jdepth res < max_depth →
  json_wf (Legacy.spec_hash_input cr spec res) ∧
  jdepth (Legacy.spec_hash_input cr spec res) ≤ max_depth.
Proof.
  intros Htext Hres Hdepth. unfold Legacy.spec_hash_input.
  change (Legacy.desiredConfigData cr spec) with (desiredConfigData (cr_entry cr spec)).
  pose proof (desiredConfigData_text (cr_entry cr spec) Htext) as Hcm.
  pose proof (json_of_map_depth (desiredConfigData (cr_entry cr spec))) as Hmd.
  apply json_of_map_wf in Hcm. set (m := json_of_map _) in *. clearbody m. split.
  - constructor. repeat (apply Forall_cons; split; [split; [done|]|]); try done.
    + constructor. apply Htext.
    + constructor. by repeat (apply Forall_cons; split; [split; [done|by constructor]|]).
    + constructor. by repeat (apply Forall_cons; split; [split; [done|by constructor]|]).
  - unfold max_depth in *. cbn [jdepth foldr]. cbn [JInt jdepth]. lia.
Qed.

(** The text that the polling controller hashes is never the one the operator
    hashes: its fields are in another order.  Pods made by one controller are
    outdated for the other, unless the two hashes collide. *)
Lemma hash_texts_differ cr (spec : DbcpEntryServiceSpec R) res :
  spec_text spec → json_wf res → jdepth res < max_depth →
  encode (Legacy.spec_hash_input cr spec res) ≠ encode (spec_hash_data (cr_entry cr spec) res).
Proof.
  intros Htext Hres Hdepth E.
  destruct (legacy_hash_input_wf cr spec res) as [? ?]; [done..|].
  destruct (spec_hash_data_wf (cr_entry cr spec) res) as [? ?]; [done..|].
  apply encode_inj in E; [|done..].
  apply (f_equal (λ j, match j with JObj (_ :: _ :: (k, _) :: _) => k | _ => "" end)) in E.
  discriminate E.
Qed.

(** C25: a replica count of 2^31 to 2^32 - 1, which [parseSpec] accepts, turns
    negative when it is cut to 32 bits; [reconcilePods] then deletes every live
    pod of the resource and panics on the empty list, even when every API call
    succeeds. *)
Theorem replicas_overflow_panics cr spec n h (w : W) :
  Legacy.parseSpec cr = Ok spec →
  NestedInt64 cr ["spec"; "service"; "replicas"] = Found n → 2 ^ 31 ≤ n < 2 ^ 32 →
  reliable (R := R) (W := W) → label_value (Legacy.GetName cr) →
  Replicas (spec_Service spec) = n - 2 ^ 32 ∧
  ∃ w', Legacy.reconcilePods cr spec h w = (Panic, w') ∧
    live_pods (R := R) (Legacy.GetNamespace cr) (Legacy.GetName cr) w' = ∅.
Proof.
  intros Hspec Hn Hrange Hrel Hname.
  assert (Hrep : Replicas (spec_Service spec) = n - 2 ^ 32).
  { rewrite (parseSpec_replicas _ _ _ Hspec Hn). unfold wraps.
    rewrite <- (Z_mod_plus_full _ (-1)), Z.mod_small; lia. }
  split; [done|]. rewrite reconcilePods_pods_to by done.
  set (m := pods_to _ _ _ _ _).
  destruct (pods_to_panics (Legacy.GetNamespace cr) (Legacy.GetName cr) (Replicas (spec_Service spec)) h
    (Legacy.desiredPod cr spec h) w Hrel ltac:(lia)) as [w' Hw'].
  exists w'. split; [exact Hw'|]. apply tracks_nil_live.
  refine (proj1 (proj2 (proj2 (wp_run _ _ _ _ _ (pods_to_spec _ _ _ _ _ _ _ w) Hw'))) eq_refl _);
    [done|done|]. apply (live_caught_up (R := R)).
Qed.
End compared.

(** ** On concrete clusters *)

(** One pass over a new resource and an invalid one: the first is served, the
    second is reported. *)
Lemma reconcileAll_serves_each_witness :
  served (demo_cr [] None 2)
    (Legacy.reconcileAll "default" (lworld (demo_cr [] None 2))).2.
Proof.
  apply (reconcileAll_serves_each "default" (lworld (demo_cr [] None 2)) _
    [(("default", "another"),
      ApiOther "spec.config.serviceExportPort must be between 1 and 65535")] (demo_cr [] None 2)).
  - apply run_eq. vm_compute. reflexivity.
  - vm_compute. reflexivity.
  - right. reflexivity.
  - intros err [Heq|Hnil]%elem_of_cons; [discriminate Heq|by apply elem_of_nil in Hnil].
Defined.

(** The cluster after the controller has run and its context was done. *)
Abbreviation ran ticks w := (Legacy.Run (U := ucr) (Q := string) ticks "" (ApiOther "context canceled") w).2.

Definition l_edit (cr : ucr) (w : lcluster) : lcluster :=
  {| l_base := l_base w; l_crs := <[demo := cr]> (l_crs w) |}.

Lemma l_edit_other cr w k : k ≠ demo → crs (l_edit cr w) !! k = crs w !! k.
Proof.
  intros Hk. cbn. unfold valid_crs. by rewrite !map_lookup_imap, lookup_insert_ne by congruence.
Qed.

Lemma l_edit_view cr w : view_eq w (l_edit cr w).
Proof. done. Qed.

Lemma lworld_protected cr k : protected (Q := string) k (lworld cr).
Proof.
  intros [(i & p & Hp & _)|[(s & Hs & _)|(c & Hc & _)]].
  - cbn in Hp. by rewrite map_imap_empty, lookup_empty in Hp.
  - cbn in Hs. by rewrite map_imap_empty, lookup_empty in Hs.
  - cbn in Hc. by rewrite map_imap_empty, lookup_empty in Hc.
Qed.

(** The controller runs, a user deletes the resource, the controller runs again. *)
Lemma legacy_no_orphans_witness :
  let gone := ran 1 (l_edit (demo_cr [Legacy.finalizer] (Some 200) 2)
                       (ran 2 (lworld (demo_cr [] None 2)))) in
  crs gone !! demo = None ∧ ¬ has_resources demo gone.
Proof.
  intros gone. assert (crs gone !! demo = None) as Hgone by (vm_compute; reflexivity).
  split; [exact Hgone|].
  apply (legacy_no_orphans (Q := string) (lworld (demo_cr [] None 2)) gone);
    [apply lworld_protected| |exact Hgone].
  eapply rtc_l; [apply (step_run 2 "")|].
  eapply rtc_l; [eapply (step_cr demo (demo_cr [Legacy.finalizer] (Some 200) 2) _
    (l_edit (demo_cr [Legacy.finalizer] (Some 200) 2) (ran 2 (lworld (demo_cr [] None 2)))))|].
  { apply l_edit_view. }
  { intros k. apply l_edit_other. }
  { vm_compute. reflexivity. }
  { intros u _ _. decide_by_vm. }
  apply rtc_once, (step_run 1 "").
Defined.

Definition demo_legacy_spec : DbcpEntryServiceSpec Res :=
  match Legacy.parseSpec (demo_cr [] None 2) with Ok spec => spec | _ => no_spec end.

Lemma parseSpec_accepts_exactly_witness :
  NestedString (demo_cr [] None 2) ["spec"; "service"; "image"] =
    Found (Image (spec_Service demo_legacy_spec)) ∧
  ∃ replicas, NestedInt64 (demo_cr [] None 2) ["spec"; "service"; "replicas"] = Found replicas ∧
    Replicas (spec_Service demo_legacy_spec) = wraps 32 replicas.
Proof.
  destruct (proj1 (parseSpec_accepts_exactly (demo_cr [] None 2) demo_legacy_spec))
    as (_ & _ & _ & _ & _ & _ & Hi & _ & (n & Hn & _ & Hr) & _).
  - vm_compute. reflexivity.
  - split; [exact Hi|]. exists n. split; [exact Hn|exact Hr].
Defined.

Lemma controllers_equivalent_witness :
  Legacy.cleanupOwnedResources (demo_cr [] None 2) (lworld (demo_cr [] None 2)) =
    cleanupOwnedResources (cr_entry (demo_cr [] None 2) demo_legacy_spec) (lworld (demo_cr [] None 2)).
Proof.
  apply (controllers_equivalent (demo_cr [] None 2) demo_legacy_spec demo_hash
    (lworld (demo_cr [] None 2))); by vm_compute.
Defined.

(** Three thousand million replicas, asked of a resource that runs with two. *)
Definition huge_cr : ucr := demo_cr [Legacy.finalizer] None 3000000000.
Definition huge_spec : DbcpEntryServiceSpec Res :=
  match Legacy.parseSpec huge_cr with Ok spec => spec | _ => no_spec end.
Definition huge_world : lcluster := l_edit huge_cr (ran 1 (lworld (demo_cr [] None 2))).

Lemma lcluster_reliable : reliable (R := Res) (W := lcluster).
Proof.
  split_and!.
  - intros ns sel w. by eexists _, _.
  - intros p w. by eexists _, _.
  - intros k w. cbn [delete_pod lcluster_api cluster_api faulty]. unfold on_base, faulty, cl_delete_pod.
    destruct (c_pods (l_base w) !! k); eexists; [left|right]; reflexivity.
Qed.

Lemma replicas_overflow_panics_witness :
  size (live_pods "default" "demo" huge_world) = 2%nat ∧
  Replicas (spec_Service huge_spec) = -1294967296 ∧
  ∃ w', Legacy.reconcilePods huge_cr huge_spec "0123456789ab" huge_world = (Panic, w') ∧
    live_pods "default" "demo" w' = ∅.
Proof.
  split; [vm_compute; reflexivity|].
  destruct (replicas_overflow_panics huge_cr huge_spec 3000000000 "0123456789ab" huge_world)
    as (Hr & w' & Hp & Hl).
  - vm_compute. reflexivity.
  - vm_compute. reflexivity.
  - lia.
  - apply lcluster_reliable.
  - by vm_compute.
  - split; [rewrite Hr; reflexivity|]. exists w'. split; [exact Hp|exact Hl].
Defined.

(** One such resource ends the controller in its first pass, and with it the
    service of every other resource. *)
Example huge_replicas_end_the_controller :
  (Legacy.Run 10 "" (ApiOther "context canceled") (lworld huge_cr)).1 = Panic.
Proof. vm_compute. reflexivity. Qed.
