(* ===== verification/GoFloat.v ===== *)
(** * [float64]

    The IEEE-754 operations of [SpecFloat] at 53 bits, as far as durations use
    them, and that they are exact on integers below [2^53]. *)

From S2P Require Import Prelude.
From Stdlib Require Import Floats.SpecFloat.

#[local] Abbreviation prec := 53.
#[local] Abbreviation emax := 1024.

Definition float_of (z : Z) : spec_float := binary_normalize prec emax z 0 false.
Definition float_mul : spec_float → spec_float → spec_float := SFmul prec emax.
Definition float_div : spec_float → spec_float → spec_float := SFdiv prec emax.

(** [uint64(x)] for a float in range: the integral part. *)
Definition float_trunc (x : spec_float) : Z :=
  match x with
  | S754_finite false m e => if 0 <=? e then Z.shiftl (Z.pos m) e else Z.shiftr (Z.pos m) (- e)
  | _ => 0
  end.

(** ** Mantissas *)

#[local] Abbreviation digits p := (Zpos (digits2_pos p)).

(** [p] with [k] zeros behind it. *)
Definition zeros (k : nat) (p : positive) : positive := Nat.iter k xO p.

Lemma zeros_add a b p : zeros (a + b) p = zeros a (zeros b p).
Proof. unfold zeros. by rewrite Nat.iter_add. Qed.

Lemma zeros_value k p : Z.pos (zeros k p) = Z.pos p * 2 ^ Z.of_nat k.
Proof.
  induction k as [|k IH]; [cbn; lia|]. change (zeros (S k) p) with (xO (zeros k p)).
  rewrite Pos2Z.inj_xO, IH, Nat2Z.inj_succ, Z.pow_succ_r; lia.
Qed.

Lemma zeros_digits k p : digits (zeros k p) = digits p + Z.of_nat k.
Proof.
  induction k as [|k IH]; [cbn; lia|]. change (zeros (S k) p) with (xO (zeros k p)).
  cbn [digits2_pos]. rewrite Pos2Z.inj_succ, IH. lia.
Qed.

Lemma digits_bounds p : 2 ^ (digits p - 1) ≤ Z.pos p < 2 ^ digits p.
Proof.
  induction p as [p IH|p IH|]; cbn [digits2_pos]; [..|done].
  all: rewrite Pos2Z.inj_succ, Z.pow_succ_r by lia.
  all: replace (Z.succ (digits p) - 1) with (Z.succ (digits p - 1)) by lia.
  all: rewrite Z.pow_succ_r by lia; lia.
Qed.

Lemma digits_le p n : Z.pos p < 2 ^ n → digits p ≤ n.
Proof.
  intros H. destruct (digits_bounds p) as [Hlo _].
  assert (0 ≤ n) by (destruct (Z.le_gt_cases 0 n); [done|]; rewrite Z.pow_neg_r in H; lia).
  assert (digits p - 1 < n); [|lia]. apply (Z.pow_lt_mono_r_iff 2); lia.
Qed.

Lemma digits_mul p q : digits p + digits q - 1 ≤ digits (p * q).
Proof.
  pose proof (digits_bounds p) as [Hp _]. pose proof (digits_bounds q) as [Hq _].
  pose proof (digits_bounds (p * q)) as [_ H].
  assert (Hpq : 2 ^ (digits p - 1 + (digits q - 1)) ≤ Z.pos (p * q)).
  { rewrite Z.pow_add_r by lia. rewrite Pos2Z.inj_mul. nia. }
  assert (digits p - 1 + (digits q - 1) < digits (p * q)); [|lia].
  apply (Z.pow_lt_mono_r_iff 2); lia.
Qed.

(** ** Rounding what is exact *)

Lemma iter_pos_iter {A} (f : A → A) n x : iter_pos f n x = Nat.iter (Pos.to_nat n) f x.
Proof.
  revert x. induction n as [n IH|n IH|]; intros x; cbn [iter_pos]; [..|done].
  - rewrite !IH, Pos2Nat.inj_xI. replace (S (2 * Pos.to_nat n)) with (Pos.to_nat n + (Pos.to_nat n + 1))%nat by lia.
    by rewrite !Nat.iter_add.
  - rewrite !IH, Pos2Nat.inj_xO. replace (2 * Pos.to_nat n)%nat with (Pos.to_nat n + Pos.to_nat n)%nat by lia.
    by rewrite Nat.iter_add.
Qed.

Lemma shr_zeros k q e :
  shr (Build_shr_record (Z.pos (zeros k q)) false false) e (Z.of_nat k) =
  (Build_shr_record (Z.pos q) false false, e + Z.of_nat k).
Proof.
  destruct k as [|k]; [cbn; by rewrite Z.add_0_r|].
  unfold shr. cbn [Z.of_nat]. f_equal. rewrite iter_pos_iter, SuccNat2Pos.id_succ.
  generalize (S k). intros n. induction n as [|n IH]; [done|]. rewrite Nat.iter_succ_r.
  exact IH.
Qed.

Lemma shr_fexp_zeros k q e :
  digits q = prec → -1074 ≤ e + Z.of_nat k →
  shr_fexp prec emax (Z.pos (zeros k q)) e loc_Exact =
  (Build_shr_record (Z.pos q) false false, e + Z.of_nat k).
Proof.
  intros Hq He. unfold shr_fexp. cbn [Zdigits2 shr_record_of_loc]. rewrite zeros_digits, Hq.
  unfold fexp, emin. replace (Z.max _ _ - e) with (Z.of_nat k) by lia. apply shr_zeros.
Qed.

Lemma round_zeros k q e :
  digits q = prec → -1074 ≤ e + Z.of_nat k ≤ 971 →
  binary_round_aux prec emax false (Z.pos (zeros k q)) e loc_Exact =
  S754_finite false q (e + Z.of_nat k).
Proof.
  intros Hq He. unfold binary_round_aux. rewrite shr_fexp_zeros by (done || lia).
  cbn [shr_m loc_of_shr_record round_nearest_even].
  pose proof (shr_fexp_zeros 0 q (e + Z.of_nat k) Hq ltac:(lia)) as E. cbn [zeros Nat.iter] in E.
  change (zeros 0 q) with q in E. rewrite E. cbn [shr_m Z.of_nat]. rewrite Z.add_0_r.
  by rewrite (proj2 (Z.leb_le _ _)) by lia.
Qed.

(** ** Integers below [2^53] *)

Definition missing (p : positive) : nat := Z.to_nat (prec - digits p).

Lemma float_of_pos p :
  Z.pos p < 2 ^ prec → float_of (Z.pos p) = S754_finite false (zeros (missing p) p) (digits p - prec).
Proof.
  intros Hp%digits_le. unfold float_of, binary_normalize, binary_round, shl_align, fexp, emin.
  replace (Z.max _ _ - 0) with (digits p - prec) by lia.
  assert (Hq : digits (zeros (missing p) p) = prec) by (rewrite zeros_digits; unfold missing; lia).
  pose proof (round_zeros 0 _ (digits p - prec) Hq ltac:(lia)) as E. rewrite Z.add_0_r in E.
  change (zeros 0 ?x) with x in E.
  destruct (digits p - prec) as [|d|d] eqn:Ed; [..|lia|].
  - unfold missing in *. replace (prec - digits p) with 0 in * by lia. exact E.
  - replace (Z.max _ _) with (Z.neg d) by lia. rewrite <-E. f_equal. f_equal.
    rewrite Pos2Nat.inj_iter. by replace (Pos.to_nat d) with (missing p) by (unfold missing; lia).
Qed.

Lemma float_trunc_of p : Z.pos p < 2 ^ prec → float_trunc (float_of (Z.pos p)) = Z.pos p.
Proof.
  intros Hp. rewrite float_of_pos by done. apply digits_le in Hp. cbn [float_trunc].
  rewrite zeros_value. unfold missing. rewrite Z2Nat.id by lia.
  destruct (Z.leb_spec 0 (digits p - prec)).
  - replace (digits p - prec) with 0 by lia. replace (prec - digits p) with 0 by lia.
    rewrite Z.shiftl_0_r. lia.
  - rewrite Z.shiftr_div_pow2 by lia.
    replace (- (digits p - prec)) with (prec - digits p) by lia. apply Z.div_mul. lia.
Qed.

Lemma zeros_mul a b p q : (zeros a p * zeros b q)%positive = zeros (a + b) (p * q).
Proof.
  apply Pos2Z.inj. rewrite Pos2Z.inj_mul, !zeros_value, Nat2Z.inj_add, Z.pow_add_r, Pos2Z.inj_mul by lia.
  lia.
Qed.

(** A product of integers that is itself below [2^53] is exact. *)
Lemma float_mul_exact p q :
  Z.pos p * Z.pos q < 2 ^ prec →
  float_mul (float_of (Z.pos p)) (float_of (Z.pos q)) = float_of (Z.pos p * Z.pos q).
Proof.
  intros H. rewrite <-Pos2Z.inj_mul in *. rewrite !float_of_pos by (rewrite ?Pos2Z.inj_mul in *; nia).
  cbn [float_mul SFmul]. unfold float_mul, SFmul. rewrite zeros_mul.
  pose proof (digits_mul p q) as Hd. pose proof (digits_le _ _ H) as Hr.
  assert (digits p ≤ prec ∧ digits q ≤ prec) as [Hp Hq]
    by (split; apply digits_le; rewrite Pos2Z.inj_mul in H; nia).
  set (k := Z.to_nat (105 - digits p - digits q + 1 - (prec - digits (p * q)))).
  replace (missing p + missing q)%nat with (k + missing (p * q))%nat by (unfold missing, k; lia).
  rewrite zeros_add, round_zeros.
  - f_equal. unfold k. lia.
  - rewrite zeros_digits. unfold missing. lia.
  - unfold k. lia.
Qed.
