(* ===== verification/GoDuration.v ===== *)
(** * [time.ParseDuration] and [Duration.String]

    Durations are nanoseconds in an [int64].  The fractional part of a number
    goes through a [float64] ([GoFloat]). *)

From S2P Require Import Prelude GoStrings GoFloat.
From Stdlib Require Import Strings.Byte Floats.SpecFloat.

Definition digit_value (b : byte) : Z := byteZ b - 48.

(** [None] is an overflow; otherwise the number and the rest. *)
Fixpoint leadingInt (x : Z) (s : bytes) : option (Z * bytes) :=
  match s with
  | b :: r =>
      if is_digit b then
        if 2 ^ 63 / 10 <? x then None
        else let x := x * 10 + digit_value b in
             if 2 ^ 63 <? x then None else leadingInt x r
      else Some (x, s)
  | [] => Some (x, [])
  end.

Fixpoint leadingFraction (overflow : bool) (x : Z) (scale : spec_float) (s : bytes) :
    Z * spec_float * bytes :=
  match s with
  | b :: r =>
      if is_digit b then
        if overflow then leadingFraction true x scale r
        else if (2 ^ 63 - 1) / 10 <? x then leadingFraction true x scale r
        else let y := x * 10 + digit_value b in
             if 2 ^ 63 <? y then leadingFraction true x scale r
             else leadingFraction false y (float_mul scale (float_of 10)) r
      else (x, scale, s)
  | [] => (x, scale, [])
  end.

(** The unit: everything up to the next digit or dot. *)
Fixpoint span_unit (s : bytes) : bytes * bytes :=
  match s with
  | b :: r => if is_digit b || bool_decide (b = x2e) then ([], s)
              else let '(u, r) := span_unit r in (b :: u, r)
  | [] => ([], [])
  end.

Definition unitMap (u : bytes) : option Z :=
  if decide (u = bytes_of "ns") then Some 1
  else if decide (u = bytes_of "us") then Some 1000
  else if decide (u = [xc2; xb5; x73] ∨ u = [xce; xbc; x73]) then Some 1000   (* both micro signs *)
  else if decide (u = bytes_of "ms") then Some 1000000
  else if decide (u = bytes_of "s") then Some 1000000000
  else if decide (u = bytes_of "m") then Some 60000000000
  else if decide (u = bytes_of "h") then Some 3600000000000
  else None.

(** One number with its unit. *)
Definition duration_term (s : bytes) : option (Z * bytes) :=
  match s with
  | [] => None
  | b :: _ =>
      if negb (bool_decide (b = x2e) || is_digit b) then None
      else
        '(v, s1) ← leadingInt 0 s;
        let pre := negb (Nat.eqb (length s1) (length s)) in
        let '(f, scale, s2, post) :=
          match s1 with
          | c :: r =>
              if decide (c = x2e) then
                let '(f, scale, s2) := leadingFraction false 0 (float_of 1) r in
                (f, scale, s2, negb (Nat.eqb (length s2) (length r)))
              else (0, float_of 1, s1, false)
          | [] => (0, float_of 1, s1, false)
          end in
        if negb pre && negb post then None
        else
          let '(u, s3) := span_unit s2 in
          if decide (u = []) then None
          else
            unit ← unitMap u;
            if 2 ^ 63 / unit <? v then None
            else
              let v := v * unit in
              let v := if 0 <? f
                       then v + float_trunc (float_mul (float_of f) (float_div (float_of unit) scale))
                       else v in
              if (0 <? f) && (2 ^ 63 <? v) then None else Some (v, s3)
  end.

(** Every round consumes input, so the length of the input is enough fuel. *)
Fixpoint duration_terms (fuel : nat) (d : Z) (s : bytes) : option Z :=
  match s with
  | [] => Some d
  | _ =>
      match fuel with
      | O => None
      | S fuel =>
          '(v, s) ← duration_term s;
          if 2 ^ 63 <? d + v then None else duration_terms fuel (d + v) s
      end
  end.

Definition parse_duration (s : bytes) : option Z :=
  let '(neg, s) := match s with
                   | x2d :: r => (true, r)
                   | x2b :: r => (false, r)
                   | _ => (false, s)
                   end in
  if decide (s = bytes_of "0") then Some 0
  else if decide (s = []) then None
  else
    d ← duration_terms (length s) 0 s;
    if (neg : bool) then Some (- d)
    else if 2 ^ 63 - 1 <? d then None else Some d.

Definition ParseDuration (s : string) : option Z := parse_duration (bytes_of s).

Example duration_24h : ParseDuration "24h" = Some 86400000000000.
Proof. vm_compute. reflexivity. Qed.
Example duration_mixed : ParseDuration "-1h30m0.5s" = Some (- 5400500000000).
Proof. vm_compute. reflexivity. Qed.
Example duration_fraction : ParseDuration "1.0000000001h" = Some 3600000000360.
Proof. vm_compute. reflexivity. Qed.
Example duration_no_unit : ParseDuration "5" = None.
Proof. vm_compute. reflexivity. Qed.
Example duration_overflow : ParseDuration "3000000h" = None.
Proof. vm_compute. reflexivity. Qed.

(** ** [Duration.String]

    Go fills a buffer from its end; here a text grows at its front. *)

(** [fmtFrac]: the last [prec] digits of [v] behind a point, without the zeros at
    their end, and the number in front of them. *)
Fixpoint fmtFrac (prec : nat) (print : bool) (v : Z) (buf : bytes) : bytes * Z :=
  match prec with
  | O => (if print then x2e :: buf else buf, v)
  | S prec =>
      let digit := v mod 10 in
      let print := print || negb (digit =? 0) in
      fmtFrac prec print (v / 10) (if print then Zbyte (48 + digit) :: buf else buf)
  end.

Definition fmtInt (v : Z) (buf : bytes) : bytes := format_uint v ++ buf.

(** An integral number of seconds: seconds, minutes if there are any, and hours
    if there are any. *)
Definition fmt_clock (u : Z) (buf : bytes) : bytes :=
  let buf := fmtInt (u mod 60) buf in
  let u := u / 60 in
  if 0 <? u then
    let buf := fmtInt (u mod 60) (x6d :: buf) in
    let u := u / 60 in
    if 0 <? u then fmtInt u (x68 :: buf) else buf
  else buf.

Definition micro : bytes := [xc2; xb5].

Definition duration_format (u : Z) : bytes :=
  let fraction prec unit := fmtFrac prec false u (unit ++ [x73]) in
  if u <? 1000000000 then
    if u =? 0 then bytes_of "0s"
    else
      let '(buf, v) :=
        if u <? 1000 then fraction 0%nat [x6e]
        else if u <? 1000000 then fraction 3%nat micro
        else fraction 6%nat [x6d] in
      fmtInt v buf
  else let '(buf, v) := fraction 9%nat [] in fmt_clock v buf.

Definition duration_bytes (d : Z) : bytes :=
  let u := wrapu 64 d in
  let u := if d <? 0 then wrapu 64 (- u) else u in
  if d <? 0 then x2d :: duration_format u else duration_format u.

Definition Duration_String (d : Z) : string := string_of (duration_bytes d).

Example string_hours : Duration_String 5400500000000 = "1h30m0.5s".
Proof. vm_compute. reflexivity. Qed.
Example string_millis : Duration_String (-1500000) = "-1.5ms".
Proof. vm_compute. reflexivity. Qed.
Example string_micros : Duration_String 1001 = string_of (bytes_of "1.001" ++ micro ++ [x73]).
Proof. vm_compute. reflexivity. Qed.
Example string_zero : Duration_String 0 = "0s".
Proof. vm_compute. reflexivity. Qed.
Example string_min : Duration_String (- 2 ^ 63) = "-2562047h47m16.854775808s".
Proof. vm_compute. reflexivity. Qed.

(** ** Enough fuel *)

Lemma leadingInt_length x s y r : leadingInt x s = Some (y, r) → (length r ≤ length s)%nat.
Proof.
  revert x. induction s as [|b s IH]; intros x; cbn; [by intros [= <- <-]|].
  destruct (is_digit b); [|by intros [= <- <-]]. destruct (_ <? _); [done|].
  destruct (_ <? _); [done|]. intros E%IH. lia.
Qed.

Lemma leadingFraction_length o x sc s : (length (leadingFraction o x sc s).2 ≤ length s)%nat.
Proof.
  revert o x sc. induction s as [|b s IH]; intros o x sc; cbn; [done|].
  destruct (is_digit b); [|done].
  destruct o; [etrans; [apply IH|lia]|].
  destruct (_ <? _); [etrans; [apply IH|lia]|].
  destruct (_ <? _); etrans; try apply IH; lia.
Qed.

Lemma span_unit_length s u r : span_unit s = (u, r) → length s = (length u + length r)%nat.
Proof.
  revert u. induction s as [|b s IH]; intros u; cbn; [by intros [= <- <-]|].
  destruct (_ || _); [by intros [= <- <-]|]. destruct (span_unit s) as [u' r'] eqn:E.
  intros [= <- <-]. cbn. by rewrite (IH u' eq_refl).
Qed.

Lemma duration_term_shrinks s v r : duration_term s = Some (v, r) → (length r < length s)%nat.
Proof.
  unfold duration_term. destruct s as [|b s0]; [done|]. set (s := b :: s0).
  destruct (negb _); [done|]. destruct (leadingInt 0 s) as [[x s1]|] eqn:H1; [|done].
  apply leadingInt_length in H1. cbn [mbind option_bind].
  set (frac := match s1 with [] => _ | _ => _ end).
  assert (Hf : (length frac.1.2 ≤ length s1)%nat).
  { subst frac. destruct s1 as [|c r1]; [done|]. destruct (decide (c = x2e)); [|done].
    pose proof (leadingFraction_length false 0 (float_of 1) r1).
    destruct (leadingFraction _ _ _ r1) as [[? ?] ?]; cbn in *. lia. }
  destruct frac as [[[f sc] s2] post]. cbn [fst snd] in Hf.
  destruct (_ && _); [done|]. destruct (span_unit s2) as [u s3] eqn:H3.
  apply span_unit_length in H3. destruct (decide (u = [])); [done|].
  destruct (unitMap u); [|done]. cbn [mbind option_bind]. destruct (_ <? _); [done|].
  destruct (_ && _); [done|]. intros [= <- <-]. destruct u; [done|]. cbn [length] in *. lia.
Qed.

(** More fuel than bytes changes nothing: [None] is always a parse error. *)
Lemma duration_terms_fuel fuel k d s :
  (length s ≤ fuel)%nat → duration_terms (fuel + k) d s = duration_terms fuel d s.
Proof.
  revert d s. induction fuel as [|fuel IH]; intros d s Hs.
  - destruct s; [|cbn in Hs; lia]. by destruct k.
  - destruct s as [|b s]; [done|]. cbn [duration_terms Nat.add].
    destruct (duration_term (b :: s)) as [[v r]|] eqn:E; [|done]. cbn [mbind option_bind].
    destruct (_ <? _); [done|]. apply IH. apply duration_term_shrinks in E. lia.
Qed.
