(* ===== verification/GoPath.v ===== *)
(** * [path/filepath] on Unix, and the case folding of file extensions *)

From S2P Require Import Prelude GoStrings.
From Stdlib Require Import Strings.Byte.

Definition slash : byte := x2f.
Definition dot : bytes := [x2e].
Definition dotdot : bytes := [x2e; x2e].

Definition is_rooted (p : bytes) : bool := bool_decide (head p = Some slash).
Definition IsAbs (path : string) : bool := is_rooted (bytes_of path).

(** One element of a path against the elements kept so far, last first. *)
Definition clean_step (rooted : bool) (kept : list bytes) (e : bytes) : list bytes :=
  if decide (e = [] ∨ e = dot) then kept
  else if decide (e = dotdot) then
    match kept with
    | k :: rest => if decide (k = dotdot) then e :: kept else rest
    | [] => if rooted then [] else [e]
    end
  else e :: kept.

Fixpoint join_slash (es : list bytes) : bytes :=
  match es with
  | [] => []
  | [e] => e
  | e :: es => e ++ slash :: join_slash es
  end.

Definition clean_elems (rooted : bool) (es : list bytes) : list bytes :=
  foldl (clean_step rooted) [] es.

Definition clean (p : bytes) : bytes :=
  let rooted := is_rooted p in
  let out := (if rooted then [slash] else [])
             ++ join_slash (rev (clean_elems rooted (split_byte slash p))) in
  if decide (out = []) then dot else out.

Definition Clean (path : string) : string := string_of (clean (bytes_of path)).

(** [filepath.Join]: empty elements are ignored. *)
Definition join (elems : list bytes) : bytes :=
  match filter (λ e, e ≠ []) elems with
  | [] => []
  | es => clean (join_slash es)
  end.
Definition JoinPath (a b : string) : string := string_of (join [bytes_of a; bytes_of b]).

(** Up to and including the last separator. *)
Fixpoint upto_slash (p : bytes) : bytes :=
  match p with
  | [] => []
  | b :: r =>
      match upto_slash r with
      | [] => if decide (b = slash) then [b] else []
      | d => b :: d
      end
  end.
Definition Dir (path : string) : string := string_of (clean (upto_slash (bytes_of path))).

(** From the last dot of the last element. *)
Fixpoint ext_rev (rp acc : bytes) : bytes :=
  match rp with
  | [] => []
  | b :: rp =>
      if decide (b = slash) then []
      else if decide (b = x2e) then b :: acc
      else ext_rev rp (b :: acc)
  end.
Definition Ext (path : string) : string := string_of (ext_rev (rev (bytes_of path)) []).

(** [strings.ToLower], exact on the strings whose lower case is ASCII: besides
    the letters, U+0130 and U+212A are the runes with an ASCII lower case. *)
Fixpoint to_lower (s : bytes) : bytes :=
  match s with
  | b :: r =>
      match s with
      | xc4 :: xb0 :: t => x69 :: to_lower t
      | xe2 :: x84 :: xaa :: t => x6b :: to_lower t
      | _ => (if inr 65 90 b then Zbyte (byteZ b + 32) else b) :: to_lower r
      end
  | [] => []
  end.
Definition ToLower (s : string) : string := string_of (to_lower (bytes_of s)).

Example clean_1 : Clean "a//b/./../c/" = "a/c".
Proof. reflexivity. Qed.
Example clean_2 : Clean "/../../x" = "/x".
Proof. reflexivity. Qed.
Example join_1 : JoinPath "/app/runtime/" "7/12.png" = "/app/runtime/7/12.png".
Proof. reflexivity. Qed.
Example dir_1 : Dir "/app/runtime/7/12.png" = "/app/runtime/7".
Proof. reflexivity. Qed.
Example ext_1 : Ext "holiday.tar.JPG" = ".JPG".
Proof. reflexivity. Qed.

(** ** Plain elements *)

(** An element that is kept as it is. *)
Definition plain (e : bytes) : Prop := e ≠ [] ∧ e ≠ dot ∧ e ≠ dotdot ∧ (slash ∉ e).

Lemma clean_step_plain rooted kept e : plain e → clean_step rooted kept e = e :: kept.
Proof.
  intros (? & ? & ? & _). unfold clean_step. rewrite !decide_False by naive_solver. done.
Qed.

Lemma clean_step_nonempty rooted kept e :
  Forall (λ e, e ≠ []) kept → Forall (λ e, e ≠ []) (clean_step rooted kept e).
Proof.
  intros Hk. unfold clean_step. destruct (decide (e = [] ∨ e = dot)) as [|He]; [done|].
  destruct (decide (e = dotdot)) as [->|]; [|constructor; naive_solver].
  destruct kept as [|k rest]; [by destruct rooted; repeat constructor|].
  case_decide; [by constructor|]. by inversion Hk.
Qed.

Lemma clean_elems_nonempty rooted es : Forall (λ e, e ≠ []) (clean_elems rooted es).
Proof.
  unfold clean_elems. assert (Hacc : ∀ acc, Forall (λ e, e ≠ []) acc →
    Forall (λ e, e ≠ []) (foldl (clean_step rooted) acc es)); [|by apply Hacc].
  induction es as [|e es IH]; intros acc Hacc; cbn; [done|].
  by apply IH, clean_step_nonempty.
Qed.

Lemma join_slash_snoc es e : es ≠ [] → join_slash (es ++ [e]) = join_slash es ++ slash :: e.
Proof.
  induction es as [|a [|b es] IH]; [done|done|]. intros _.
  change (join_slash ((a :: b :: es) ++ [e])) with (a ++ slash :: join_slash ((b :: es) ++ [e])).
  rewrite IH by done. cbn [join_slash]. by rewrite <- app_assoc.
Qed.

(** Splitting a path that ends in given elements. *)
Lemma split_snoc sep d e : (sep ∉ e) → split_byte sep (d ++ sep :: e) = split_byte sep d ++ [e].
Proof.
  intros He. induction d as [|b d IH]; cbn.
  - rewrite decide_True by done. by rewrite split_byte_none.
  - rewrite IH. destruct (decide (b = sep)); [done|].
    by destruct (split_byte_cons sep d) as (w & ws & ->).
Qed.

(** A path of two plain elements is clean. *)
Lemma clean_two e1 e2 : plain e1 → plain e2 → clean (e1 ++ slash :: e2) = e1 ++ slash :: e2.
Proof.
  intros H1 H2. pose proof H1 as (Hne1 & _ & _ & Hs1). pose proof H2 as (_ & _ & _ & Hs2).
  assert (Hr : is_rooted (e1 ++ slash :: e2) = false).
  { unfold is_rooted. apply bool_decide_eq_false. destruct e1 as [|b e1]; [done|]. cbn.
    intros [= ->]. apply Hs1. by left. }
  unfold clean. rewrite Hr, split_snoc, split_byte_none by done. unfold clean_elems. cbn.
  rewrite !clean_step_plain by done. cbn. by rewrite decide_False by (by destruct e1).
Qed.

(** Joining a directory with plain elements stays below the directory. *)
Lemma join_below d e1 e2 :
  d ≠ [] → plain e1 → plain e2 →
  ∃ base, join [d; e1 ++ slash :: e2] = base ++ e1 ++ slash :: e2 ∧
    (base = [] ∧ clean d = dot ∨ base = [slash] ∧ clean d = [slash] ∨
     base = clean d ++ [slash]).
Proof.
  intros Hd H1 H2. unfold join. rewrite !filter_cons_True; [|by destruct e1|done].
  rewrite filter_nil. cbn [join_slash].
  pose proof H1 as (Hne1 & _ & _ & Hs1). pose proof H2 as (Hne2 & _ & _ & Hs2).
  replace (d ++ slash :: e1 ++ slash :: e2) with ((d ++ slash :: e1) ++ slash :: e2)
    by (by rewrite <- app_assoc).
  unfold clean.
  assert (Hr : is_rooted ((d ++ slash :: e1) ++ slash :: e2) = is_rooted d) by (by destruct d).
  rewrite Hr, !split_snoc by done. unfold clean_elems. rewrite !foldl_app. cbn [foldl].
  rewrite !clean_step_plain by done.
  set (kept := foldl (clean_step (is_rooted d)) [] (split_byte slash d)).
  cbn [rev]. rewrite join_slash_snoc by (by destruct (rev kept)).
  destruct (rev kept) as [|k ks] eqn:Ek.
  - cbn [app join_slash]. rewrite decide_False by (by destruct (is_rooted d), e1).
    exists (if is_rooted d then [slash] else []). split; [done|].
    destruct (is_rooted d); cbn; auto.
  - rewrite join_slash_snoc by done.
    set (j := join_slash (k :: ks)). set (r := if is_rooted d then [slash] else []).
    rewrite decide_False by (by destruct r, j).
    exists ((r ++ j) ++ [slash]). split; [by rewrite <- !app_assoc|].
    destruct (decide (r ++ j = [])) as [E|E]; [|by right; right].
    exfalso. apply app_eq_nil in E as [_ E].
    assert (Hk : k ∈ kept) by (apply list_elem_of_In, in_rev; rewrite Ek; by left).
    enough (Forall (λ e, e ≠ []) kept) as HF.
    { rewrite Forall_forall in HF. apply HF in Hk. subst j. cbn in E. destruct ks; [done|].
      by destruct k. }
    apply clean_elems_nonempty.
Qed.
