(* ===== verification/Errors.v ===== *)
(** * Error values ([src/internal/service/errors.go])

    A Go error is a chain: a sentinel compared by identity, an [*AppError] with
    the error it wraps, or a message with or without a wrapped error.
    [errors.Is] and [errors.As] walk the chain from the outside. *)

From S2P Require Import Prelude.

Inductive sentinel :=
  | ErrBadRequest | ErrUnauthorized | ErrNotFound | ErrPayloadTooLarge | ErrUnsupportedType
  | store_ErrNotFound      (* mysqlstore.ErrNotFound *)
  | sql_ErrNoRows
  | redis_ErrMissing       (* redisstore.ErrMissing *)
  | os_ErrNotExist
  | http_ErrServerClosed.

#[global] Instance sentinel_eq_dec : EqDecision sentinel.
Proof. solve_decision. Defined.

Inductive error :=
  | Sentinel (s : sentinel)
  | AppError (Code Message : string) (Wrapped : option error)
  | Errorf (msg : string) (wrapped : error)    (* fmt.Errorf with %w *)
  | Plain (msg : string).

(** [errors.Is(err, s)] for a sentinel. *)
Fixpoint errors_Is (err : error) (s : sentinel) : bool :=
  match err with
  | Sentinel s' => bool_decide (s' = s)
  | AppError _ _ (Some err) | Errorf _ err => errors_Is err s
  | AppError _ _ None | Plain _ => false
  end.

(** [errors.As(err, &app)]: the outermost [*AppError] of the chain. *)
Fixpoint errors_As_App (err : error) : option (string * string) :=
  match err with
  | AppError code message _ => Some (code, message)
  | Errorf _ err => errors_As_App err
  | Sentinel _ | Plain _ => None
  end.

Definition NewAppError (code message : string) (err : error) : error :=
  AppError code message (Some err).

Definition ErrorCode (err : error) : string * string :=
  match errors_As_App err with
  | Some (code, message) => (code, message)
  | None =>
      if errors_Is err ErrBadRequest then ("bad_request", "Invalid request.")
      else if errors_Is err ErrUnauthorized then ("unauthorized", "Authentication failed.")
      else if errors_Is err ErrNotFound then ("not_found", "Resource not found.")
      else if errors_Is err ErrPayloadTooLarge then
        ("payload_too_large", "Uploaded file is too large.")
      else if errors_Is err ErrUnsupportedType then
        ("unsupported_media_type", "Unsupported file type.")
      else ("internal_error", "Internal server error.")
  end.

(** An error that names no application error and no sentinel of the service
    never shows its text to a client. *)
Lemma ErrorCode_hides msg : ErrorCode (Plain msg) = ("internal_error", "Internal server error.").
Proof. done. Qed.
