(* ===== verification/Config.v ===== *)
(** * Configuration ([src/internal/config/config.go])

    Records carry the fields of the Go structs (a prefix keeps apart those that
    share a name).  The environment is a map; [os.Getenv] of an unset variable
    is the empty string.  A [Duration] is its nanoseconds. *)

From S2P Require Import Prelude GoStrings GoPath Json GoDuration Errors.

Record DBCPConfig := { TargetDB : string; TargetRedis : string; ServiceExportPort : Z }.
Record TCPConfig := {
  tcp_Addr : string; ReadTimeout : Z; WriteTimeout : Z; MaxFrameBytes : Z;
  WorkerCount : Z; QueueSize : Z }.
Record HTTPConfig := {
  http_Addr : string; TCPAddr : string; RequestTimeout : Z; MaxBodyBytes : Z;
  CookieName : string; ProfilePictureBaseURL : string }.
Record DatabaseConfig := {
  DSN : string; MaxOpenConns : Z; MaxIdleConns : Z; ConnMaxLifetime : Z }.
Record RedisConfig := {
  redis_Addr : string; redis_Password : string; redis_DB : Z; KeyPrefix : string;
  DialTimeout : Z; IOTimeout : Z }.
Record SecurityConfig := { TokenSecret : string; PasswordIterations : Z; SessionTTL : Z }.
Record UploadConfig := {
  ProfilePictureDir : string; MaxBytes : Z; AllowedMIMETypes : list string }.
Record SeedConfig := { Count : Z; BatchSize : Z; Concurrency : Z; DefaultPassword : string }.

Record Config := {
  DBCP : DBCPConfig; TCP : TCPConfig; HTTP : HTTPConfig; Database : DatabaseConfig;
  Redis : RedisConfig; Security : SecurityConfig; Upload : UploadConfig; Seed : SeedConfig }.

Definition seconds (n : Z) : Z := n * 1000000000.

Definition Default : Config := {|
  DBCP := {| TargetDB := ""; TargetRedis := ""; ServiceExportPort := 0 |};
  TCP := {| tcp_Addr := "127.0.0.1:9000"; ReadTimeout := seconds 5; WriteTimeout := seconds 5;
            MaxFrameBytes := Z.shiftl 8 20; WorkerCount := 64; QueueSize := 2048 |};
  HTTP := {| http_Addr := "127.0.0.1:8081"; TCPAddr := "127.0.0.1:9000";
             RequestTimeout := seconds 5; MaxBodyBytes := Z.shiftl 4 20;
             CookieName := "session_token"; ProfilePictureBaseURL := "/profile-pictures/" |};
  Database := {| DSN := ""; MaxOpenConns := 128; MaxIdleConns := 32;
                 ConnMaxLifetime := seconds 300 |};
  Redis := {| redis_Addr := ""; redis_Password := ""; redis_DB := 0; KeyPrefix := "go-entry-task";
              DialTimeout := seconds 2; IOTimeout := seconds 2 |};
  Security := {| TokenSecret := ""; PasswordIterations := 210000; SessionTTL := seconds 86400 |};
  Upload := {| ProfilePictureDir := "runtime/profile-pictures"; MaxBytes := Z.shiftl 2 20;
               AllowedMIMETypes := ["image/jpeg"; "image/png"; "image/webp"; "image/gif"] |};
  Seed := {| Count := 10000000; BatchSize := 1000; Concurrency := 4;
             DefaultPassword := "Password123!" |} |}.

(** ** The JSON file *)

(** [Duration.UnmarshalJSON]: [null] decodes to the empty string, which is no duration. *)
Definition get_duration (v : json) : option Z :=
  match v with JStr s => ParseDuration s | JNull => ParseDuration "" | _ => None end.

(** [Duration.MarshalJSON]. *)
Definition Duration_MarshalJSON (d : Z) : bytes := encode (JStr (Duration_String d)).

(** A [[]string]: [null] is the nil slice.  Elements are decoded into the array
    behind the old slice, so a [null] element leaves what was there. *)
Fixpoint get_elems (old : list string) (l : list json) : option (list string) :=
  match l with
  | [] => Some []
  | v :: l => s ← get_string (default "" (head old)) v; r ← get_elems (tail old) l; Some (s :: r)
  end.
Definition get_strings (old : list string) (v : json) : option (list string) :=
  match v with
  | JNull => Some []
  | JArr l => get_elems old l
  | _ => None
  end.

Definition DBCP_field (k : string) (v : json) (c : DBCPConfig) : option DBCPConfig :=
  let '(Build_DBCPConfig a b p) := c in
  if key_is "target_db" k then a ← get_string a v; Some (Build_DBCPConfig a b p)
  else if key_is "target_redis" k then b ← get_string b v; Some (Build_DBCPConfig a b p)
  else if key_is "service_export_port" k then p ← get_int 64 p v; Some (Build_DBCPConfig a b p)
  else Some c.

Definition TCP_field (k : string) (v : json) (c : TCPConfig) : option TCPConfig :=
  let '(Build_TCPConfig a r w m n q) := c in
  if key_is "addr" k then a ← get_string a v; Some (Build_TCPConfig a r w m n q)
  else if key_is "read_timeout" k then r ← get_duration v; Some (Build_TCPConfig a r w m n q)
  else if key_is "write_timeout" k then w ← get_duration v; Some (Build_TCPConfig a r w m n q)
  else if key_is "max_frame_bytes" k then m ← get_uint 32 m v; Some (Build_TCPConfig a r w m n q)
  else if key_is "worker_count" k then n ← get_int 64 n v; Some (Build_TCPConfig a r w m n q)
  else if key_is "queue_size" k then q ← get_int 64 q v; Some (Build_TCPConfig a r w m n q)
  else Some c.

Definition HTTP_field (k : string) (v : json) (c : HTTPConfig) : option HTTPConfig :=
  let '(Build_HTTPConfig a t r m n u) := c in
  if key_is "addr" k then a ← get_string a v; Some (Build_HTTPConfig a t r m n u)
  else if key_is "tcp_addr" k then t ← get_string t v; Some (Build_HTTPConfig a t r m n u)
  else if key_is "request_timeout" k then r ← get_duration v; Some (Build_HTTPConfig a t r m n u)
  else if key_is "max_body_bytes" k then m ← get_int 64 m v; Some (Build_HTTPConfig a t r m n u)
  else if key_is "cookie_name" k then n ← get_string n v; Some (Build_HTTPConfig a t r m n u)
  else if key_is "profile_picture_base_url" k then u ← get_string u v; Some (Build_HTTPConfig a t r m n u)
  else Some c.

Definition Database_field (k : string) (v : json) (c : DatabaseConfig) : option DatabaseConfig :=
  let '(Build_DatabaseConfig d o i l) := c in
  if key_is "dsn" k then d ← get_string d v; Some (Build_DatabaseConfig d o i l)
  else if key_is "max_open_conns" k then o ← get_int 64 o v; Some (Build_DatabaseConfig d o i l)
  else if key_is "max_idle_conns" k then i ← get_int 64 i v; Some (Build_DatabaseConfig d o i l)
  else if key_is "conn_max_lifetime" k then l ← get_duration v; Some (Build_DatabaseConfig d o i l)
  else Some c.

Definition Redis_field (k : string) (v : json) (c : RedisConfig) : option RedisConfig :=
  let '(Build_RedisConfig a p d x t i) := c in
  if key_is "addr" k then a ← get_string a v; Some (Build_RedisConfig a p d x t i)
  else if key_is "password" k then p ← get_string p v; Some (Build_RedisConfig a p d x t i)
  else if key_is "db" k then d ← get_int 64 d v; Some (Build_RedisConfig a p d x t i)
  else if key_is "key_prefix" k then x ← get_string x v; Some (Build_RedisConfig a p d x t i)
  else if key_is "dial_timeout" k then t ← get_duration v; Some (Build_RedisConfig a p d x t i)
  else if key_is "io_timeout" k then i ← get_duration v; Some (Build_RedisConfig a p d x t i)
  else Some c.

Definition Security_field (k : string) (v : json) (c : SecurityConfig) : option SecurityConfig :=
  let '(Build_SecurityConfig s i t) := c in
  if key_is "token_secret" k then s ← get_string s v; Some (Build_SecurityConfig s i t)
  else if key_is "password_iterations" k then i ← get_int 64 i v; Some (Build_SecurityConfig s i t)
  else if key_is "session_ttl" k then t ← get_duration v; Some (Build_SecurityConfig s i t)
  else Some c.

Definition Upload_field (k : string) (v : json) (c : UploadConfig) : option UploadConfig :=
  let '(Build_UploadConfig d m t) := c in
  if key_is "profile_picture_dir" k then d ← get_string d v; Some (Build_UploadConfig d m t)
  else if key_is "max_bytes" k then m ← get_int 64 m v; Some (Build_UploadConfig d m t)
  else if key_is "allowed_mime_types" k then t ← get_strings t v; Some (Build_UploadConfig d m t)
  else Some c.

Definition Seed_field (k : string) (v : json) (c : SeedConfig) : option SeedConfig :=
  let '(Build_SeedConfig n b w p) := c in
  if key_is "count" k then n ← get_int 64 n v; Some (Build_SeedConfig n b w p)
  else if key_is "batch_size" k then b ← get_int 64 b v; Some (Build_SeedConfig n b w p)
  else if key_is "concurrency" k then w ← get_int 64 w v; Some (Build_SeedConfig n b w p)
  else if key_is "default_password" k then p ← get_string p v; Some (Build_SeedConfig n b w p)
  else Some c.

Definition Config_field (k : string) (v : json) (c : Config) : option Config :=
  let '(Build_Config a b d e f g h i) := c in
  if key_is "dbcp" k then a ← get_struct DBCP_field a v; Some (Build_Config a b d e f g h i)
  else if key_is "tcp" k then b ← get_struct TCP_field b v; Some (Build_Config a b d e f g h i)
  else if key_is "http" k then d ← get_struct HTTP_field d v; Some (Build_Config a b d e f g h i)
  else if key_is "database" k then e ← get_struct Database_field e v; Some (Build_Config a b d e f g h i)
  else if key_is "redis" k then f ← get_struct Redis_field f v; Some (Build_Config a b d e f g h i)
  else if key_is "security" k then g ← get_struct Security_field g v; Some (Build_Config a b d e f g h i)
  else if key_is "upload" k then h ← get_struct Upload_field h v; Some (Build_Config a b d e f g h i)
  else if key_is "seed" k then i ← get_struct Seed_field i v; Some (Build_Config a b d e f g h i)
  else Some c.

(** [json.Unmarshal(data, &cfg)]. *)
Definition unmarshal_config (data : bytes) (c : Config) : option Config :=
  v ← parse data; get_struct Config_field c v.

(** ** The environment *)

Abbreviation environ := (gmap string string).
Definition Getenv (env : environ) (key : string) : string := default "" (env !! key).

Section env.
Context (env : environ).

Definition setString (dst key : string) : string :=
  let v := Getenv env key in if decide (v = "") then dst else v.

(** [v != ""] and the text parses; the destination is kept otherwise. *)
Definition set_parsed (parse : string → option Z) (dst : Z) (key : string) : Z :=
  let v := Getenv env key in
  if decide (v = "") then dst else default dst (parse v).

Definition setInt : Z → string → Z := set_parsed Atoi.
Definition setInt64 : Z → string → Z := set_parsed (λ v, ParseInt v 64).
Definition setUint32 : Z → string → Z := set_parsed (λ v, ParseUint v 32).
Definition setDuration : Z → string → Z := set_parsed ParseDuration.

Definition applyDBCP (c : Config) : Config := {|
  DBCP := DBCP c; TCP := TCP c; HTTP := HTTP c;
  Database := {|
    DSN := if decide (TargetDB (DBCP c) = "") then DSN (Database c) else TargetDB (DBCP c);
    MaxOpenConns := MaxOpenConns (Database c); MaxIdleConns := MaxIdleConns (Database c);
    ConnMaxLifetime := ConnMaxLifetime (Database c) |};
  Redis := {|
    redis_Addr := if decide (TargetRedis (DBCP c) = "") then redis_Addr (Redis c)
                  else TargetRedis (DBCP c);
    redis_Password := redis_Password (Redis c); redis_DB := redis_DB (Redis c);
    KeyPrefix := KeyPrefix (Redis c); DialTimeout := DialTimeout (Redis c);
    IOTimeout := IOTimeout (Redis c) |};
  Security := Security c; Upload := Upload c; Seed := Seed c |}.

(** Every variable sets its own field, so the assignments commute. *)
Definition env_fields (c : Config) : Config := {|
  DBCP := {|
    TargetDB := setString (TargetDB (DBCP c)) "DBCP_TARGET_DB";
    TargetRedis := setString (TargetRedis (DBCP c)) "DBCP_TARGET_REDIS";
    ServiceExportPort := setInt (ServiceExportPort (DBCP c)) "DBCP_SERVICE_EXPORT_PORT" |};
  TCP := {|
    tcp_Addr := setString (tcp_Addr (TCP c)) "APP_TCP_ADDR";
    ReadTimeout := setDuration (ReadTimeout (TCP c)) "APP_TCP_READ_TIMEOUT";
    WriteTimeout := setDuration (WriteTimeout (TCP c)) "APP_TCP_WRITE_TIMEOUT";
    MaxFrameBytes := setUint32 (MaxFrameBytes (TCP c)) "APP_TCP_MAX_FRAME_BYTES";
    WorkerCount := setInt (WorkerCount (TCP c)) "APP_TCP_WORKERS";
    QueueSize := setInt (QueueSize (TCP c)) "APP_TCP_QUEUE_SIZE" |};
  HTTP := {|
    http_Addr := setString (http_Addr (HTTP c)) "APP_HTTP_ADDR";
    TCPAddr := setString (TCPAddr (HTTP c)) "APP_HTTP_TCP_ADDR";
    RequestTimeout := setDuration (RequestTimeout (HTTP c)) "APP_HTTP_REQUEST_TIMEOUT";
    MaxBodyBytes := setInt64 (MaxBodyBytes (HTTP c)) "APP_HTTP_MAX_BODY_BYTES";
    CookieName := setString (CookieName (HTTP c)) "APP_COOKIE_NAME";
    ProfilePictureBaseURL :=
      setString (ProfilePictureBaseURL (HTTP c)) "APP_PROFILE_PICTURE_BASE_URL" |};
  Database := {|
    DSN := setString (DSN (Database c)) "APP_DB_DSN";
    MaxOpenConns := setInt (MaxOpenConns (Database c)) "APP_DB_MAX_OPEN_CONNS";
    MaxIdleConns := setInt (MaxIdleConns (Database c)) "APP_DB_MAX_IDLE_CONNS";
    ConnMaxLifetime := setDuration (ConnMaxLifetime (Database c)) "APP_DB_CONN_MAX_LIFETIME" |};
  Redis := {|
    redis_Addr := setString (redis_Addr (Redis c)) "APP_REDIS_ADDR";
    redis_Password := setString (redis_Password (Redis c)) "APP_REDIS_PASSWORD";
    redis_DB := setInt (redis_DB (Redis c)) "APP_REDIS_DB";
    KeyPrefix := setString (KeyPrefix (Redis c)) "APP_REDIS_KEY_PREFIX";
    DialTimeout := setDuration (DialTimeout (Redis c)) "APP_REDIS_DIAL_TIMEOUT";
    IOTimeout := setDuration (IOTimeout (Redis c)) "APP_REDIS_IO_TIMEOUT" |};
  Security := {|
    TokenSecret := setString (TokenSecret (Security c)) "APP_TOKEN_SECRET";
    PasswordIterations := setInt (PasswordIterations (Security c)) "APP_PASSWORD_ITERATIONS";
    SessionTTL := setDuration (SessionTTL (Security c)) "APP_SESSION_TTL" |};
  Upload := {|
    ProfilePictureDir := setString (ProfilePictureDir (Upload c)) "APP_PROFILE_PICTURE_DIR";
    MaxBytes := setInt64 (MaxBytes (Upload c)) "APP_UPLOAD_MAX_BYTES";
    AllowedMIMETypes := AllowedMIMETypes (Upload c) |};
  Seed := {|
    Count := setInt (Count (Seed c)) "APP_SEED_COUNT";
    BatchSize := setInt (BatchSize (Seed c)) "APP_SEED_BATCH_SIZE";
    Concurrency := setInt (Concurrency (Seed c)) "APP_SEED_CONCURRENCY";
    DefaultPassword := setString (DefaultPassword (Seed c)) "APP_SEED_DEFAULT_PASSWORD" |} |}.

Definition applyEnv (c : Config) : Config := applyDBCP (env_fields c).
End env.

(** ** Validation and loading *)

Definition missing (c : Config) : list string :=
  filter (λ _, tcp_Addr (TCP c) = "") ["tcp.addr"] ++
  filter (λ _, http_Addr (HTTP c) = "") ["http.addr"] ++
  filter (λ _, TCPAddr (HTTP c) = "") ["http.tcp_addr"] ++
  filter (λ _, DSN (Database c) = "") ["database.dsn"] ++
  filter (λ _, TokenSecret (Security c) = "") ["security.token_secret"].

Definition Validate (c : Config) : outcome error unit :=
  if decide (missing c ≠ []) then
    Err (Plain ("missing required config: " +:+ Join (missing c) ", "))
  else if MaxFrameBytes (TCP c) =? 0 then
    Err (Plain "tcp.max_frame_bytes must be greater than zero")
  else if MaxBytes (Upload c) <=? 0 then Err (Plain "upload.max_bytes must be greater than zero")
  else Ok tt.

(** [file] is what reading the file gave, [None] when no path was given. *)
Definition Load (file : option (outcome error bytes)) (env : environ) : outcome error Config :=
  cfg ← match file with
        | None => Ok Default
        | Some data =>
            data ← data;
            of_option (Plain "json: cannot unmarshal config") (unmarshal_config data Default)
        end;
  let cfg := applyEnv env (applyDBCP cfg) in
  _ ← Validate cfg;
  Ok cfg.

(** [wd] is what [os.Getwd] gave. *)
Definition ProfilePictureDirAbs (c : Config) (wd : outcome error string) : outcome error string :=
  if IsAbs (ProfilePictureDir (Upload c)) then Ok (ProfilePictureDir (Upload c))
  else wd ← wd; Ok (JoinPath wd (ProfilePictureDir (Upload c))).

(** ** Correctness *)

(** The first string that is not empty. *)
Fixpoint first_nonempty (l : list string) : string :=
  match l with
  | [] => ""
  | s :: l => if decide (s = "") then first_nonempty l else s
  end.

(** What [Load] starts from before the environment is applied. *)
Definition file_config (file : option (outcome error bytes)) : outcome error Config :=
  match file with
  | None => Ok Default
  | Some data =>
      data ← data;
      of_option (Plain "json: cannot unmarshal config") (unmarshal_config data Default)
  end.

Lemma missing_nil c :
  missing c = [] ↔
  tcp_Addr (TCP c) ≠ "" ∧ http_Addr (HTTP c) ≠ "" ∧ TCPAddr (HTTP c) ≠ "" ∧
  DSN (Database c) ≠ "" ∧ TokenSecret (Security c) ≠ "".
Proof.
  assert (Hone : ∀ (P : Prop) `{!Decision P} (k : string), filter (λ _, P) [k] = [] ↔ ¬ P).
  { intros P HP k. rewrite filter_cons, filter_nil. destruct (decide P); naive_solver. }
  unfold missing. rewrite !app_nil, !Hone. tauto.
Qed.

Lemma Validate_Ok c :
  Validate c = Ok tt ↔ missing c = [] ∧ MaxFrameBytes (TCP c) ≠ 0 ∧ 0 < MaxBytes (Upload c).
Proof.
  unfold Validate. case_decide as Hm; [split; [done|by intros [? _]]|].
  destruct (Z.eqb_spec (MaxFrameBytes (TCP c)) 0); [split; [done|by intros (_ & ? & _)]|].
  destruct (Z.leb_spec (MaxBytes (Upload c)) 0); [split; [done|lia]|].
  split; [|done]. intros _. split; [|done]. by destruct (missing c).
Qed.

Lemma Load_Ok file env c :
  Load file env = Ok c ↔
  ∃ c0, file_config file = Ok c0 ∧ c = applyEnv env (applyDBCP c0) ∧ Validate c = Ok tt.
Proof.
  unfold Load. fold (file_config file).
  destruct (file_config file) as [c0| |]; cbn [mbind outcome_bind];
    [|split; [done|by intros (? & ? & _)]..].
  destruct (Validate (applyEnv env (applyDBCP c0))) as [[]| |] eqn:Hv; cbn [mbind outcome_bind];
    (split; [|intros (c1 & [= <-] & -> & Hv'); congruence]); try done.
  intros [= <-]. by exists c0.
Qed.

(** A configuration that loads has every required value, a frame limit and
    a positive upload limit, whatever the file and the environment say. *)
Lemma Load_complete file env c :
  Load file env = Ok c →
  tcp_Addr (TCP c) ≠ "" ∧ http_Addr (HTTP c) ≠ "" ∧ TCPAddr (HTTP c) ≠ "" ∧
  DSN (Database c) ≠ "" ∧ TokenSecret (Security c) ≠ "" ∧
  MaxFrameBytes (TCP c) ≠ 0 ∧ 0 < MaxBytes (Upload c).
Proof.
  intros (c0 & _ & _ & (Hm & Hf & Hu)%Validate_Ok)%Load_Ok.
  apply missing_nil in Hm. tauto.
Qed.

Lemma setString_first env dst key : setString env dst key = first_nonempty [Getenv env key; dst].
Proof. unfold setString. cbn. repeat case_decide; congruence. Qed.

(** Where the endpoints come from. The database is the first non-empty one
    of [DBCP_TARGET_DB], the file's [dbcp.target_db], [APP_DB_DSN] and the
    file's [database.dsn]; the Redis address likewise. The two [dbcp] values
    win over the application's own, even over its environment variables. *)
Lemma endpoint_precedence file env c c0 :
  file_config file = Ok c0 → Load file env = Ok c →
  DSN (Database c) = first_nonempty
    [Getenv env "DBCP_TARGET_DB"; TargetDB (DBCP c0); Getenv env "APP_DB_DSN"; DSN (Database c0)] ∧
  redis_Addr (Redis c) = first_nonempty
    [Getenv env "DBCP_TARGET_REDIS"; TargetRedis (DBCP c0); Getenv env "APP_REDIS_ADDR";
     redis_Addr (Redis c0)].
Proof.
  intros Hf (c0' & Hf' & -> & _)%Load_Ok. assert (c0' = c0) as -> by congruence.
  unfold applyEnv. cbn [applyDBCP env_fields DBCP Database Redis TargetDB TargetRedis DSN redis_Addr].
  rewrite !setString_first. cbn [first_nonempty]. split; repeat case_decide; congruence.
Qed.

