(* ===== verification/DurationSpec.v ===== *)
(** * Durations are read back as they were written

    [Duration.UnmarshalJSON] after [Duration.MarshalJSON]
    ([src/internal/config/config.go]).  The fraction of a duration is parsed
    through a [float64]; for what [Duration.String] writes, every operation on it
    is exact ([GoFloat]). *)

From S2P Require Import Prelude GoStrings GoFloat GoDuration Json Config.
From Stdlib Require Import Strings.Byte Floats.SpecFloat.

(** ** Digits *)

(** The text does not go on with a digit. *)
Definition no_digit_next (s : bytes) : Prop := ∀ b, head s = Some b → is_digit b = false.

Lemma parse_digits_app acc a b : parse_digits acc (a ++ b) = parse_digits acc a ≫= λ x, parse_digits x b.
Proof.
  revert acc. induction a as [|c a IH]; intros acc; [done|]. cbn [app parse_digits].
  destruct (is_digit c); [apply IH|done].
Qed.

Lemma parse_digits_mono acc s n : 0 ≤ acc → parse_digits acc s = Some n → acc ≤ n.
Proof.
  revert acc. induction s as [|b s IH]; intros acc Hacc; cbn; [by intros [= ->]|].
  destruct (is_digit b) eqn:Hb; [|done]. unfold is_digit, inr in Hb. intros H%IH; lia.
Qed.

Lemma leadingInt_digits x ds n rest :
  0 ≤ x → parse_digits x ds = Some n → n ≤ 2 ^ 63 → no_digit_next rest →
  leadingInt x (ds ++ rest) = Some (n, rest).
Proof.
  intros Hx Hds Hn Hrest. revert x Hx Hds. induction ds as [|b ds IH]; intros x Hx; cbn [app].
  - intros [= ->]. destruct rest as [|c rest]; [done|]. cbn. by rewrite (Hrest c).
  - cbn [parse_digits leadingInt]. destruct (is_digit b) eqn:Hb; [|done]. intros Hds.
    fold (digit_value b) in Hds.
    assert (0 ≤ digit_value b) by (unfold is_digit, inr, digit_value in *; lia).
    pose proof (λ H, parse_digits_mono _ _ _ H Hds) as Hmono. specialize (Hmono ltac:(lia)).
    rewrite !(proj2 (Z.ltb_ge _ _)) by (try apply Z.div_le_lower_bound; lia).
    apply IH; [lia|done].
Qed.

Lemma leadingFraction_digits x sc ds n rest :
  0 ≤ x → parse_digits x ds = Some n → n < 2 ^ 63 → no_digit_next rest →
  leadingFraction false x sc (ds ++ rest) =
  (n, Nat.iter (length ds) (λ s, float_mul s (float_of 10)) sc, rest).
Proof.
  intros Hx Hds Hn Hrest. revert x sc Hx Hds. induction ds as [|b ds IH]; intros x sc Hx; cbn [app].
  - intros [= ->]. destruct rest as [|c rest]; [done|]. cbn. by rewrite (Hrest c).
  - cbn [parse_digits leadingFraction length]. destruct (is_digit b) eqn:Hb; [|done]. intros Hds.
    fold (digit_value b) in Hds.
    assert (0 ≤ digit_value b) by (unfold is_digit, inr, digit_value in *; lia).
    pose proof (λ H, parse_digits_mono _ _ _ H Hds) as Hmono. specialize (Hmono ltac:(lia)).
    rewrite !(proj2 (Z.ltb_ge _ _)) by (try apply Z.div_le_lower_bound; lia).
    rewrite IH; [|lia|done]. by rewrite Nat.iter_succ_r.
Qed.

(** ** What [fmtFrac] writes *)

Lemma mod_pow10_succ v n :
  v mod 10 ^ Z.of_nat (S n) = 10 * ((v / 10) mod 10 ^ Z.of_nat n) + v mod 10.
Proof.
  rewrite Nat2Z.inj_succ, Z.pow_succ_r by lia. rewrite Z.rem_mul_r by lia. lia.
Qed.

Lemma div_pow10_succ v n : v / 10 / 10 ^ Z.of_nat n = v / 10 ^ Z.of_nat (S n).
Proof. rewrite Nat2Z.inj_succ, Z.pow_succ_r by lia. by rewrite Z.div_div by lia. Qed.

Lemma parse_digit d acc :
  0 ≤ d < 10 → parse_digits acc [Zbyte (48 + d)] = Some (acc * 10 + d).
Proof. intros H. cbn. destruct (is_digit_Zbyte d H) as [-> ->]. f_equal. lia. Qed.

(** All [n] digits, once one has been printed. *)
Lemma fmtFrac_print n v buf :
  ∃ ds, fmtFrac n true v buf = (x2e :: ds ++ buf, v / 10 ^ Z.of_nat n) ∧ length ds = n ∧
    parse_digits 0 ds = Some (v mod 10 ^ Z.of_nat n).
Proof.
  revert v buf. induction n as [|n IH]; intros v buf; cbn [fmtFrac orb].
  - exists []. by rewrite Z.div_1_r, Z.mod_1_r.
  - destruct (IH (v / 10) (Zbyte (48 + v mod 10) :: buf)) as (ds & -> & <- & Hds).
    exists (ds ++ [Zbyte (48 + v mod 10)]). rewrite <-app_assoc, length_app.
    rewrite div_pow10_succ, mod_pow10_succ, parse_digits_app, Hds.
    split; [done|]. split; [cbn; lia|]. cbn [mbind option_bind].
    rewrite parse_digit by (apply Z.mod_pos_bound; lia). f_equal. lia.
Qed.

(** The digits written, [f], are those of the fraction without [n - k] zeros. *)
Lemma fmtFrac_spec n v buf :
  (v mod 10 ^ Z.of_nat n = 0 ∧ fmtFrac n false v buf = (buf, v / 10 ^ Z.of_nat n)) ∨
  ∃ ds f, fmtFrac n false v buf = (x2e :: ds ++ buf, v / 10 ^ Z.of_nat n) ∧
    (0 < length ds ≤ n)%nat ∧ parse_digits 0 ds = Some f ∧ 0 < f ∧
    f * 10 ^ (Z.of_nat n - Z.of_nat (length ds)) = v mod 10 ^ Z.of_nat n.
Proof.
  revert v. induction n as [|n IH]; intros v; cbn [fmtFrac orb].
  { left. by rewrite Z.div_1_r, Z.mod_1_r. }
  destruct (Z.eqb_spec (v mod 10) 0) as [H0|H0]; cbn [negb].
  - rewrite mod_pow10_succ, H0, <-div_pow10_succ. destruct (IH (v / 10)) as [[Hz ->]|H].
    + left. split; [lia|done].
    + right. destruct H as (ds & f & -> & Hlen & Hds & Hf & Heq). exists ds, f.
      split; [done|]. split; [lia|]. split; [done|]. split; [done|].
      replace (Z.of_nat (S n) - Z.of_nat (length ds))
        with (Z.succ (Z.of_nat n - Z.of_nat (length ds))) by lia.
      rewrite Z.pow_succ_r by lia. lia.
  - right. destruct (fmtFrac_print n (v / 10) (Zbyte (48 + v mod 10) :: buf)) as (ds & -> & <- & Hds).
    exists (ds ++ [Zbyte (48 + v mod 10)]), (v mod 10 ^ Z.of_nat (S (length ds))).
    rewrite <-app_assoc, length_app, div_pow10_succ. cbn [length app].
    pose proof (Z.mod_pos_bound v 10 ltac:(lia)).
    pose proof (Z.mod_pos_bound (v / 10) (10 ^ Z.of_nat (length ds)) ltac:(lia)).
    split; [done|]. split; [lia|]. rewrite mod_pow10_succ. split; [|split; [lia|]].
    + rewrite parse_digits_app, Hds. cbn [mbind option_bind]. rewrite parse_digit by done. f_equal. lia.
    + replace (Z.of_nat (S (length ds)) - Z.of_nat (length ds + 1)) with 0 by lia. lia.
Qed.

(** ** One number with its unit *)

(** What stands where a number has ended: nothing, or the next number. *)
Definition number_next (s : bytes) : Prop := ∀ b, head s = Some b → is_digit b = true.

Definition unit_text (u : bytes) : Prop :=
  u ≠ [] ∧ Forall (λ b, is_digit b || bool_decide (b = x2e) = false) u.

Lemma span_unit_text u rest :
  Forall (λ b, is_digit b || bool_decide (b = x2e) = false) u → number_next rest →
  span_unit (u ++ rest) = (u, rest).
Proof.
  intros Hu Hrest. induction Hu as [|b u Hb _ IH]; cbn [app].
  - destruct rest as [|c rest]; [done|]. cbn. by rewrite (Hrest c).
  - cbn [span_unit]. by rewrite Hb, IH.
Qed.

Lemma unit_not_digit u rest : unit_text u → no_digit_next (u ++ rest).
Proof.
  intros [Hne Hu] b. destruct Hu as [|c u Hc _]; [done|]. intros [= <-].
  by apply orb_false_iff in Hc as [? _].
Qed.

Lemma unit_not_dot u rest c r : unit_text u → u ++ rest = c :: r → c ≠ x2e.
Proof.
  intros [Hne Hu]. destruct Hu as [|b u Hb _]; [done|]. intros [= <- _] ->.
  by apply orb_false_iff in Hb as [_ ?].
Qed.

Lemma leadingInt_format n rest :
  0 ≤ n ≤ 2 ^ 63 → no_digit_next rest → leadingInt 0 (format_uint n ++ rest) = Some (n, rest).
Proof. intros Hn. apply leadingInt_digits; [lia|apply parse_digits_format; lia|lia]. Qed.

(** A number consists of at least one digit. *)
Lemma format_number n rest :
  (∃ b s, format_uint n ++ rest = b :: s ∧
     negb (bool_decide (b = x2e) || is_digit b) = false) ∧
  negb (Nat.eqb (length rest) (length (format_uint n ++ rest))) = true.
Proof.
  destruct (format_uint_cons n) as (b & s & E & Hb). split.
  - exists b, (s ++ rest). rewrite E. by rewrite Hb, orb_true_r.
  - rewrite E. cbn [app length]. rewrite length_app, negb_true_iff. apply Nat.eqb_neq. lia.
Qed.

Lemma duration_term_int n u U rest :
  unit_text u → unitMap u = Some U → 0 < U → 0 ≤ n → n * U ≤ 2 ^ 63 → number_next rest →
  duration_term (format_uint n ++ u ++ rest) = Some (n * U, rest).
Proof.
  intros Hu HU HU0 Hn Hle Hrest.
  destruct (format_number n (u ++ rest)) as [(b & s & E & Hb) Hpre].
  unfold duration_term. rewrite E at 1. rewrite Hb. rewrite leadingInt_format; [|nia|by apply unit_not_digit].
  cbn [mbind option_bind]. rewrite Hpre. cbn [negb andb].
  destruct (u ++ rest) as [|c r] eqn:Er; [by apply app_eq_nil in Er as [-> _]; destruct Hu|].
  rewrite (decide_False (P := c = x2e)) by (by eapply unit_not_dot). rewrite <-Er.
  rewrite span_unit_text by (by destruct Hu). rewrite decide_False by (by destruct Hu).
  rewrite HU. cbn [mbind option_bind]. rewrite (proj2 (Z.ltb_ge _ _)) by (apply Z.div_le_lower_bound; lia).
  done.
Qed.

(** ** The fraction *)

Lemma scale_exact k :
  (k ≤ 9)%nat → Nat.iter k (λ s, float_mul s (float_of 10)) (float_of 1) = float_of (10 ^ Z.of_nat k).
Proof. intros Hk. do 10 (destruct k as [|k]; [vm_compute; reflexivity|]). lia. Qed.

Lemma unit_over_scale p k :
  (k ≤ p ≤ 9)%nat →
  float_div (float_of (10 ^ Z.of_nat p)) (float_of (10 ^ Z.of_nat k)) =
  float_of (10 ^ (Z.of_nat p - Z.of_nat k)).
Proof.
  intros Hk. do 10 (destruct p as [|p];
    [do 10 (destruct k as [|k]; [vm_compute; reflexivity || (exfalso; lia)|]); lia|]). lia.
Qed.

Lemma fraction_exact p k f :
  (k ≤ p ≤ 9)%nat → 0 < f → f * 10 ^ (Z.of_nat p - Z.of_nat k) < 10 ^ Z.of_nat p →
  float_trunc (float_mul (float_of f) (float_div (float_of (10 ^ Z.of_nat p))
    (Nat.iter k (λ s, float_mul s (float_of 10)) (float_of 1)))) =
  f * 10 ^ (Z.of_nat p - Z.of_nat k).
Proof.
  intros Hk Hf Hlt. rewrite scale_exact, unit_over_scale by lia.
  assert (10 ^ Z.of_nat p ≤ 10 ^ 9) by (apply Z.pow_le_mono_r; lia).
  assert (0 < 10 ^ (Z.of_nat p - Z.of_nat k)) by lia.
  set (t := 10 ^ (Z.of_nat p - Z.of_nat k)) in *. clearbody t.
  destruct f as [|f|]; [lia| |lia]. destruct t as [|t|]; [lia| |lia].
  rewrite float_mul_exact by lia. rewrite <-Pos2Z.inj_mul in *. apply float_trunc_of. lia.
Qed.

(** The value of a number whose fraction [fmtFrac] wrote. *)
Lemma duration_term_frac p n v u rest :
  (p ≤ 9)%nat → unit_text u → unitMap u = Some (10 ^ Z.of_nat p) → 0 ≤ n →
  n * 10 ^ Z.of_nat p + v mod 10 ^ Z.of_nat p ≤ 2 ^ 63 → number_next rest →
  duration_term (format_uint n ++ (fmtFrac p false v (u ++ rest)).1) =
  Some (n * 10 ^ Z.of_nat p + v mod 10 ^ Z.of_nat p, rest).
Proof.
  intros Hp Hu HU Hn Hle Hrest. set (U := 10 ^ Z.of_nat p) in *.
  assert (HU0 : 0 < U) by (subst U; lia).
  assert (HU9 : U ≤ 10 ^ 9) by (apply Z.pow_le_mono_r; lia).
  pose proof (Z.mod_pos_bound v U HU0) as Hmod.
  destruct (fmtFrac_spec p v (u ++ rest)) as [[Hz ->]|(ds & f & -> & Hlen & Hds & Hf & Hval)]; cbn [fst].
  { fold U in Hz. rewrite Hz, Z.add_0_r in *. apply duration_term_int; auto. }
  fold U in Hval. rewrite <-Hval in *. set (s1 := x2e :: ds ++ u ++ rest).
  destruct (format_number n s1) as [(b & s & E & Hb) Hpre].
  unfold duration_term. rewrite E at 1. rewrite Hb.
  rewrite leadingInt_format; [|nia|by intros ? [= <-]].
  cbn [mbind option_bind]. rewrite Hpre. subst s1. cbn [negb andb].
  rewrite (decide_True (P := x2e = x2e)) by done.
  assert (Hfn : f < 2 ^ 63) by (assert (0 < 10 ^ (Z.of_nat p - Z.of_nat (length ds))) by lia; nia).
  rewrite (leadingFraction_digits 0 _ ds f) by (done || lia || by apply unit_not_digit).
  rewrite span_unit_text by (by destruct Hu). rewrite decide_False by (by destruct Hu).
  rewrite HU. cbn [mbind option_bind].
  rewrite (proj2 (Z.ltb_ge _ n)) by (apply Z.div_le_lower_bound; lia).
  rewrite (proj2 (Z.ltb_lt 0 f)) by done. cbn [andb].
  pose proof (fraction_exact p (length ds) f) as Hexact. fold U in Hexact.
  rewrite Hexact by lia.
  by rewrite (proj2 (Z.ltb_ge _ _)) by lia.
Qed.

(** ** A whole duration *)

Definition terms (d : Z) (s : bytes) : option Z := duration_terms (length s) d s.

Lemma terms_step d s v r :
  duration_term s = Some (v, r) → d + v ≤ 2 ^ 63 → terms d s = terms (d + v) r.
Proof.
  intros Hs Hle. pose proof (duration_term_shrinks _ _ _ Hs) as Hlen. unfold terms.
  destruct s as [|b s]; [done|]. cbn [length duration_terms] in *. rewrite Hs. cbn [mbind option_bind].
  rewrite (proj2 (Z.ltb_ge _ _)) by lia.
  replace (length s) with (length r + (length s - length r))%nat by lia. by apply duration_terms_fuel.
Qed.

Lemma number_next_format n s : number_next (format_uint n ++ s).
Proof. destruct (format_uint_cons n) as (b & r & -> & Hb). by intros ? [= <-]. Qed.

Lemma unit_text_dec u :
  bool_decide (u ≠ []) && forallb (λ b, negb (is_digit b || bool_decide (b = x2e))) u = true →
  unit_text u.
Proof.
  intros [Hne Hu]%andb_true_iff. split; [by apply bool_decide_eq_true in Hne|].
  apply Forall_forall. intros b Hb%list_elem_of_In.
  apply negb_true_iff. by apply (proj1 (forallb_forall _ _) Hu).
Qed.

#[local] Ltac unit_ok := apply unit_text_dec; vm_compute; reflexivity.

Lemma terms_frac p n v u d :
  (p ≤ 9)%nat → unit_text u → unitMap u = Some (10 ^ Z.of_nat p) → 0 ≤ n →
  d + (n * 10 ^ Z.of_nat p + v mod 10 ^ Z.of_nat p) ≤ 2 ^ 63 → 0 ≤ d →
  terms d (format_uint n ++ (fmtFrac p false v u).1) =
  Some (d + (n * 10 ^ Z.of_nat p + v mod 10 ^ Z.of_nat p)).
Proof.
  intros Hp Hu HU Hn Hle Hd. pose proof (duration_term_frac p n v u [] Hp Hu HU Hn) as E.
  rewrite app_nil_r in E.
  rewrite (terms_step d _ _ [] (E ltac:(lia) ltac:(by intros ?)) Hle). reflexivity.
Qed.

Lemma terms_int n u U rest d :
  unit_text u → unitMap u = Some U → 0 < U → 0 ≤ n → 0 ≤ d → d + n * U ≤ 2 ^ 63 → number_next rest →
  terms d (format_uint n ++ u ++ rest) = terms (d + n * U) rest.
Proof. intros. apply terms_step; [|done]. apply duration_term_int; auto; lia. Qed.

(** Below a second: one number. *)
Lemma terms_small p v u :
  (p ≤ 9)%nat → unit_text u → unitMap u = Some (10 ^ Z.of_nat p) → 0 ≤ v < 10 ^ 9 →
  terms 0 (let '(buf, w) := fmtFrac p false v u in fmtInt w buf) = Some v.
Proof.
  intros Hp Hu HU Hv. set (U := 10 ^ Z.of_nat p) in *.
  assert (0 < U) by (subst U; lia). pose proof (Z.div_mod v U ltac:(lia)) as Hdm.
  assert (E2 : (fmtFrac p false v u).2 = v / U).
  { by destruct (fmtFrac_spec p v u) as [[_ ->]|(? & ? & -> & _)]. }
  destruct (fmtFrac p false v u) as [buf w] eqn:E. cbn [snd] in E2. subst w.
  pose proof (Z.div_pos v U ltac:(lia) ltac:(lia)).
  pose proof (terms_frac p (v / U) v u 0 Hp Hu HU ltac:(done)) as Ht. rewrite E in Ht. fold U in Ht.
  cbn [fst] in Ht. unfold fmtInt. rewrite Ht by lia. f_equal. lia.
Qed.

(** From a second on: hours, minutes and seconds with their fraction. *)
Lemma terms_clock u :
  0 ≤ u ≤ 2 ^ 63 →
  terms 0 (let '(buf, v) := fmtFrac 9 false u (bytes_of "s") in fmt_clock v buf) = Some u.
Proof.
  intros Hu. pose proof (Z.div_mod u (10 ^ 9) ltac:(lia)) as Hdm.
  pose proof (Z.mod_pos_bound u (10 ^ 9) ltac:(lia)) as Hmod.
  assert (E2 : (fmtFrac 9 false u (bytes_of "s")).2 = u / 10 ^ 9).
  { by destruct (fmtFrac_spec 9 u (bytes_of "s")) as [[_ ->]|(? & ? & -> & _)]. }
  destruct (fmtFrac 9 false u (bytes_of "s")) as [buf v] eqn:E. cbn [snd] in E2. subst v.
  set (q := u / 10 ^ 9) in *. assert (0 ≤ q) by (apply Z.div_pos; lia).
  pose proof (Z.div_mod q 60 ltac:(lia)). pose proof (Z.mod_pos_bound q 60 ltac:(lia)).
  pose proof (Z.div_mod (q / 60) 60 ltac:(lia)). pose proof (Z.mod_pos_bound (q / 60) 60 ltac:(lia)).
  assert (Hs : ∀ d, 0 ≤ d → d + (q mod 60 * 10 ^ 9 + u mod 10 ^ 9) ≤ 2 ^ 63 →
    terms d (fmtInt (q mod 60) buf) = Some (d + (q mod 60 * 10 ^ 9 + u mod 10 ^ 9))).
  { intros d Hd Hle. pose proof (terms_frac 9 (q mod 60) u (bytes_of "s") d ltac:(lia)) as Ht.
    rewrite E in Ht. apply Ht; [unit_ok|reflexivity|lia..]. }
  assert (Hm : ∀ d, 0 ≤ d → d + (q / 60) mod 60 * 60000000000 + (q mod 60 * 10 ^ 9 + u mod 10 ^ 9) ≤ 2 ^ 63 →
    terms d (fmtInt ((q / 60) mod 60) (x6d :: fmtInt (q mod 60) buf)) =
    Some (d + (q / 60) mod 60 * 60000000000 + (q mod 60 * 10 ^ 9 + u mod 10 ^ 9))).
  { intros d Hd Hle. rewrite <-Hs by lia.
    apply (terms_int _ [x6d]); [unit_ok|reflexivity|lia..|apply number_next_format]. }
  unfold fmt_clock. destruct (Z.ltb_spec 0 (q / 60)); [|rewrite Hs by lia; f_equal; lia].
  destruct (Z.ltb_spec 0 (q / 60 / 60)); [|rewrite Hm by lia; f_equal; lia].
  unfold fmtInt at 1. etrans; [apply (terms_int _ [x68] 3600000000000); [unit_ok|reflexivity|lia..|]|].
  - apply number_next_format.
  - rewrite Hm by lia. f_equal. lia.
Qed.

Lemma terms_format u : 0 ≤ u ≤ 2 ^ 63 → terms 0 (duration_format u) = Some u.
Proof.
  intros Hu. unfold duration_format. destruct (Z.ltb_spec u 1000000000); [|by apply (terms_clock u)].
  destruct (Z.eqb_spec u 0) as [->|]; [vm_compute; reflexivity|].
  destruct (u <? 1000); [apply (terms_small 0); [lia|unit_ok|reflexivity|lia]|].
  destruct (u <? 1000000); [apply (terms_small 3)|apply (terms_small 6)]; try lia; [unit_ok|reflexivity|unit_ok|reflexivity].
Qed.

(** ** The text of a duration *)

Lemma ValidUTF8_cons b s : is_ascii b → ValidUTF8 s = true → ValidUTF8 (b :: s) = true.
Proof.
  intros Hb Hs. unfold ValidUTF8 in *. change (b :: s) with ([b] ++ s).
  rewrite enc_ok_app; [exact Hs|]. by apply Z.ltb_lt.
Qed.

Lemma ValidUTF8_after a s : Forall is_ascii a → ValidUTF8 s = true → ValidUTF8 (a ++ s) = true.
Proof. intros Ha Hs. induction Ha; [done|]. by apply ValidUTF8_cons. Qed.

Lemma fmtInt_valid v s : ValidUTF8 s = true → ValidUTF8 (fmtInt v s) = true.
Proof.
  apply ValidUTF8_after. eapply Forall_impl; [apply format_uint_digits|apply is_digit_ascii].
Qed.

Lemma fmtFrac_valid n print v s : ValidUTF8 s = true → ValidUTF8 (fmtFrac n print v s).1 = true.
Proof.
  revert print v s. induction n as [|n IH]; intros print v s Hs; cbn [fmtFrac].
  - destruct print; [by apply ValidUTF8_cons|done].
  - apply IH. destruct (_ || _); [|done]. apply ValidUTF8_cons; [|done].
    apply is_digit_ascii, is_digit_Zbyte, Z.mod_pos_bound. lia.
Qed.

Lemma fmt_clock_valid v s : ValidUTF8 s = true → ValidUTF8 (fmt_clock v s) = true.
Proof.
  intros Hs. unfold fmt_clock. destruct (_ <? _); [|by apply fmtInt_valid].
  assert (∀ b, is_ascii b → ValidUTF8 (b :: fmtInt (v mod 60) s) = true)
    by (intros; by apply ValidUTF8_cons, fmtInt_valid).
  destruct (_ <? _); [|by apply fmtInt_valid, H].
  by apply fmtInt_valid, ValidUTF8_cons, fmtInt_valid, H.
Qed.

Lemma duration_format_valid u : ValidUTF8 (duration_format u) = true.
Proof.
  assert (H : ∀ p s f, (∀ v t, ValidUTF8 t = true → ValidUTF8 (f v t) = true) → ValidUTF8 s = true →
    ValidUTF8 (let '(buf, v) := fmtFrac p false u s in f v buf) = true).
  { intros p s f Hf Hs. pose proof (fmtFrac_valid p false u s Hs). destruct (fmtFrac _ _ _ _). by apply Hf. }
  unfold duration_format. destruct (_ <? _); [|by apply H; [apply fmt_clock_valid|]].
  destruct (_ =? _); [done|]. destruct (_ <? _); [|destruct (_ <? _)]; (apply H; [apply fmtInt_valid|done]).
Qed.

Lemma duration_format_starts u :
  ∃ b s, duration_format u = b :: s ∧ is_digit b = true.
Proof.
  assert (H : ∀ v s, ∃ b t, fmtInt v s = b :: t ∧ is_digit b = true).
  { intros v s. unfold fmtInt. destruct (format_uint_cons v) as (b & t & -> & Hb). by exists b, (t ++ s). }
  unfold duration_format, fmt_clock.
  destruct (_ <? _).
  - destruct (_ =? _); [eexists _, _; by split|].
    destruct (if _ : bool then _ else _). apply H.
  - destruct (fmtFrac _ _ _ _). destruct (_ <? _); [destruct (_ <? _)|]; apply H.
Qed.

(** The two's complement of [uint64] gives the absolute value of every [int64]. *)
Lemma abs_uint64 d :
  - 2 ^ 63 ≤ d < 2 ^ 63 → (if d <? 0 then wrapu 64 (- wrapu 64 d) else wrapu 64 d) = Z.abs d.
Proof.
  intros Hd. unfold wrapu. destruct (Z.ltb_spec d 0); [|rewrite Z.mod_small; lia].
  rewrite <-(Z.mod_add d 1), (Z.mod_small (d + _)) by lia.
  rewrite <-(Z.mod_add (- _) 1), Z.mod_small by lia. lia.
Qed.

Lemma parse_duration_bytes d : - 2 ^ 63 ≤ d < 2 ^ 63 → parse_duration (duration_bytes d) = Some d.
Proof.
  intros Hd. unfold duration_bytes. rewrite abs_uint64 by done. cbv zeta.
  pose proof (terms_format (Z.abs d) ltac:(lia)) as Ht.
  destruct (duration_format_starts (Z.abs d)) as (b & s & E & Hb). rewrite E in *.
  destruct (digit_not_sign b Hb) as [Hplus Hminus].
  assert (H0 : b :: s ≠ bytes_of "0") by (intros H; rewrite H in Ht; discriminate Ht).
  unfold parse_duration. destruct (Z.ltb_spec d 0) as [Hneg|Hpos].
  - rewrite decide_False, decide_False by done. fold (terms 0 (b :: s)). rewrite Ht.
    cbn [mbind option_bind]. f_equal. lia.
  - assert (Esign : (match b :: s with
                     | x2d :: r => (true, r) | x2b :: r => (false, r) | _ => (false, b :: s)
                     end) = (false, b :: s)) by (destruct b; done).
    rewrite Esign. rewrite decide_False, decide_False by done. fold (terms 0 (b :: s)). rewrite Ht.
    cbn [mbind option_bind]. rewrite (proj2 (Z.ltb_ge _ _)) by lia. f_equal. lia.
Qed.

(** C38: a duration survives JSON.  For every [int64] number of nanoseconds, what
    [MarshalJSON] writes is a JSON text that [UnmarshalJSON] reads back as the same
    number: hours, minutes and seconds, fractions of a second, of a millisecond and
    of a microsecond, negative durations, zero and the smallest [int64] included.
    The parser computes fractions with [float64] operations, which are exact on all
    of them. *)
Theorem Duration_json_round_trip d :
  - 2 ^ 63 ≤ d < 2 ^ 63 →
  parse (Duration_MarshalJSON d) ≫= get_duration = Some d.
Proof.
  intros Hd. unfold Duration_MarshalJSON. rewrite parse_encode; [|constructor|done].
  - cbn [mbind option_bind get_duration]. unfold ParseDuration, Duration_String.
    rewrite bytes_of_string_of. by apply parse_duration_bytes.
  - unfold ValidString, Duration_String. rewrite bytes_of_string_of. unfold duration_bytes.
    destruct (d <? 0); [apply ValidUTF8_cons; [done|]|]; apply duration_format_valid.
Qed.

Lemma Duration_json_round_trip_witness :
  parse (Duration_MarshalJSON (- 2 ^ 63)) ≫= get_duration = Some (- 2 ^ 63) ∧
  parse (Duration_MarshalJSON 3600000000001) ≫= get_duration = Some 3600000000001.
Proof.
  split; [apply (Duration_json_round_trip (- 2 ^ 63)); lia|].
  apply (Duration_json_round_trip 3600000000001). lia.
Defined.
