(* ===== verification/Token.v ===== *)
(** * Session tokens ([src/internal/service/token.go])

    A token is [payload "." signature]: the base64url text of the JSON claims
    and the base64url text of an HMAC over that text.  Times are nanoseconds
    since the epoch; [Unix] rounds down to seconds. *)

From S2P Require Import Prelude GoStrings GoEncoding GoCrypto Json Errors.
From Stdlib Require Import Strings.Byte.

Definition Second : Z := 1000000000.
Definition Unix (t : Z) : Z := t / Second.

Record TokenManager := { secret : bytes; ttl : Z }.

Record tokenClaims := { UserID : Z; Exp : Z; Nonce : string }.

Definition NewTokenManager (secret : string) (ttl : Z) : outcome error TokenManager :=
  if decide (secret = "") then Err (Plain "token secret is required")
  else
    let decoded := match hex_decode (bytes_of secret) with
                   | Some d => d
                   | None => bytes_of secret
                   end in
    if Z.of_nat (length decoded) <? 32 then Err (Plain "token secret must be at least 32 bytes")
    else Ok {| secret := decoded; ttl := ttl |}.

Definition claims_json (c : tokenClaims) : json :=
  JObj [("uid", JInt (UserID c)); ("exp", JInt (Exp c)); ("nonce", JStr (Nonce c))].

Definition claims_field (key : string) (v : json) (c : tokenClaims) : option tokenClaims :=
  if key_is "uid" key then
    uid ← get_uint 64 (UserID c) v; Some {| UserID := uid; Exp := Exp c; Nonce := Nonce c |}
  else if key_is "exp" key then
    exp ← get_int 64 (Exp c) v; Some {| UserID := UserID c; Exp := exp; Nonce := Nonce c |}
  else if key_is "nonce" key then
    nonce ← get_string (Nonce c) v; Some {| UserID := UserID c; Exp := Exp c; Nonce := nonce |}
  else Some c.

Definition claims0 : tokenClaims := {| UserID := 0; Exp := 0; Nonce := "" |}.

Definition unmarshal_claims (payload : bytes) : option tokenClaims :=
  v ← parse payload; get_struct claims_field claims0 v.

Definition sign (m : TokenManager) (payload : bytes) : bytes :=
  b64_encode RawURLEncoding
    (HMAC (secret m)
       (payload ++ bytes_of ":v1:" ++ format_int (Z.of_nat (length payload)))).

(** [nonce] is what [rand.Read] put into the sixteen bytes. *)
Definition Issue (m : TokenManager) (userID now : Z) (nonce : outcome error bytes) :
    outcome error (string * Z) :=
  nonce ← nonce;
  let exp := Unix (now + ttl m) in
  let claims := {| UserID := userID; Exp := exp;
                   Nonce := string_of (b64_encode RawURLEncoding nonce) |} in
  let payloadPart := b64_encode RawURLEncoding (encode (claims_json claims)) in
  Ok (string_of (payloadPart ++ x2e :: sign m payloadPart), exp).

Definition Verify (m : TokenManager) (token : string) (now : Z) : outcome error Z :=
  match split_byte x2e (bytes_of token) with
  | [payloadPart; sig] =>
      if decide (sign m payloadPart ≠ sig) then Err (Sentinel ErrUnauthorized)
      else match b64_decode RawURLEncoding payloadPart with
           | None => Err (Sentinel ErrUnauthorized)
           | Some payload =>
               match unmarshal_claims payload with
               | None => Err (Sentinel ErrUnauthorized)
               | Some claims =>
                   if (UserID claims =? 0) || (Exp claims <=? Unix now)
                   then Err (Sentinel ErrUnauthorized)
                   else Ok (UserID claims)
               end
           end
  | _ => Err (Sentinel ErrUnauthorized)
  end.

Definition TTL (m : TokenManager) : Z := ttl m.

(** [fmt.Sprintf("user:%d", userID)]. *)
Definition tokenDebugString (userID : Z) : string := "user:" +:+ FormatUint userID.

(** ** Correctness *)

Lemma nonce_text nonce : ValidString (string_of (b64_encode RawURLEncoding nonce)) = true.
Proof.
  apply ValidString_ascii, b64_encode_ascii.
  apply (bool_decide_unpack _). vm_compute. exact I.
Qed.

(** The user a token names: its range, and that time has no say in it. *)
Lemma unmarshal_claims_uid payload c : unmarshal_claims payload = Some c → 0 ≤ UserID c < 2 ^ 64.
Proof.
  unfold unmarshal_claims. intros (v & _ & Hv)%bind_Some.
  apply (get_struct_keeps claims_field (λ c, 0 ≤ UserID c < 2 ^ 64) claims0 v c); [|done|done].
  intros k j c1 c2 Hf Hc1. unfold claims_field in Hf. repeat case_match; simplify_eq; try done.
  - apply bind_Some in Hf as (uid & Hu & [= <-]). cbn. unfold get_uint in Hu.
    destruct j; simplify_eq; [done|]. by apply parse_uint_range in Hu.
  - by apply bind_Some in Hf as (? & _ & [= <-]).
  - by apply bind_Some in Hf as (? & _ & [= <-]).
Qed.

Lemma Verify_uid m token now uid : Verify m token now = Ok uid → 0 ≤ uid < 2 ^ 64.
Proof.
  unfold Verify. destruct (split_byte x2e _) as [|p [|sig [|]]]; try done. case_decide; [done|].
  destruct (b64_decode _ _) as [payload|]; [|done].
  destruct (unmarshal_claims payload) as [c|] eqn:Hc; [|done]. destruct (_ || _); [done|].
  intros [= <-]. by eapply unmarshal_claims_uid.
Qed.

Lemma Verify_same_uid m token now now' uid uid' :
  Verify m token now = Ok uid → Verify m token now' = Ok uid' → uid' = uid.
Proof.
  unfold Verify. destruct (split_byte x2e _) as [|p [|sig [|]]]; try done. case_decide; [done|].
  destruct (b64_decode _ _) as [payload|]; [|done].
  destruct (unmarshal_claims payload) as [c|]; [|done].
  destruct (_ || (_ <=? Unix now)); [done|]. destruct (_ || _); [done|]. congruence.
Qed.

Lemma unmarshal_claims_json c :
  0 ≤ UserID c < 2 ^ 64 → - 2 ^ 63 ≤ Exp c < 2 ^ 63 → ValidString (Nonce c) = true →
  unmarshal_claims (encode (claims_json c)) = Some c.
Proof.
  intros Hu He Hn. unfold unmarshal_claims. rewrite parse_encode.
  - destruct c as [uid exp nonce]; cbn [UserID Exp Nonce] in *.
    change (get_struct claims_field claims0 (claims_json {| UserID := uid; Exp := exp; Nonce := nonce |})
      = Some {| UserID := uid; Exp := exp; Nonce := nonce |}).
    assert (E1 : get_uint 64 0 (JInt uid) = Some uid).
    { cbn [JInt get_uint]. unfold format_int. rewrite (proj2 (Z.ltb_ge _ _)) by lia.
      by apply parse_format_uint. }
    assert (E2 : get_int 64 0 (JInt exp) = Some exp) by (by apply parse_format_int).
    transitivity (uid ← get_uint 64 0 (JInt uid); exp ← get_int 64 0 (JInt exp);
      Some {| UserID := uid; Exp := exp; Nonce := nonce |}); [|by rewrite E1, E2].
    cbn [claims_json UserID Exp Nonce get_struct get_members].
    generalize (JInt uid) as ju, (JInt exp) as je. intros ju je. clear.
    change (claims_field "uid" ju claims0) with
      (uid ← get_uint 64 0 ju; Some {| UserID := uid; Exp := 0; Nonce := "" |}).
    destruct (get_uint 64 0 ju) as [uid|]; cbn [mbind option_bind]; [|done].
    change (claims_field "exp" je {| UserID := uid; Exp := 0; Nonce := "" |}) with
      (exp ← get_int 64 0 je; Some {| UserID := uid; Exp := exp; Nonce := "" |}).
    by destruct (get_int 64 0 je) as [exp|].
  - constructor. repeat (apply Forall_cons; split; [split; [done|by constructor]|]). done.
  - cbn [claims_json jdepth foldr JInt]. unfold max_depth. lia.
Qed.

(** An accepted token is the signed text of unexpired claims, and nothing else
    is accepted. *)
Lemma Verify_Ok m token now uid :
  Verify m token now = Ok uid ↔
  ∃ p payload claims,
    token = string_of (p ++ x2e :: sign m p) ∧ (x2e ∉ p) ∧
    b64_decode RawURLEncoding p = Some payload ∧ unmarshal_claims payload = Some claims ∧
    UserID claims = uid ∧ uid ≠ 0 ∧ Unix now < Exp claims.
Proof.
  unfold Verify. split.
  - destruct (split_byte x2e (bytes_of token)) as [|p [|sig [|]]] eqn:Hs; try done.
    apply split_byte_two in Hs as (Ht & Hp & Hsig).
    case_decide as Hsign; [done|]. destruct (decide (sign m p = sig)) as [<-|]; [|done].
    destruct (b64_decode RawURLEncoding p) as [payload|] eqn:Hb; [|done].
    destruct (unmarshal_claims payload) as [claims|] eqn:Hc; [|done].
    destruct (Z.eqb_spec (UserID claims) 0), (Z.leb_spec (Exp claims) (Unix now)); cbn; try done.
    intros [= <-]. exists p, payload, claims. split_and!; try done.
    by rewrite <- Ht, string_of_bytes_of.
  - intros (p & payload & claims & -> & Hp & Hb & Hc & <- & Hu & He).
    rewrite bytes_of_string_of, (proj2 (split_byte_two x2e _ p (sign m p))).
    2: { split; [done|]. split; [done|]. apply RawURL_no_dot. }
    rewrite decide_False by (by intros []). rewrite Hb, Hc.
    rewrite (proj2 (Z.eqb_neq _ _)), (proj2 (Z.leb_gt _ _)) by lia. done.
Qed.

(** C30: [Verify] accepts exactly the tokens of the form [p "." sign p] whose
    payload [p] is the base64url text of JSON claims with a non-zero user id
    that have not expired, and returns that user id. *)
Theorem Verify_accepts_exactly m token now uid :
  Verify m token now = Ok uid ↔
  ∃ p payload claims,
    token = string_of (p ++ x2e :: sign m p) ∧ (x2e ∉ p) ∧
    b64_decode RawURLEncoding p = Some payload ∧ unmarshal_claims payload = Some claims ∧
    UserID claims = uid ∧ uid ≠ 0 ∧ Unix now < Exp claims.
Proof. apply Verify_Ok. Qed.

Lemma issued_verifies m userID now nonce token exp later :
  0 < userID < 2 ^ 64 → - 2 ^ 63 ≤ Unix (now + ttl m) < 2 ^ 63 →
  Issue m userID now (Ok nonce) = Ok (token, exp) →
  Verify m token later =
    (if Unix later <? exp then Ok userID else Err (Sentinel ErrUnauthorized)).
Proof.
  intros Hu He. unfold Issue. cbn [mbind outcome_bind].
  set (claims := {| UserID := userID; Exp := Unix (now + ttl m); Nonce := _ |}).
  set (p := b64_encode RawURLEncoding (encode (claims_json claims))).
  intros E. injection E as <- <-.
  unfold Verify. rewrite bytes_of_string_of, (proj2 (split_byte_two x2e _ p (sign m p))).
  2: { split; [done|]. split; apply RawURL_no_dot. }
  rewrite decide_False by (by intros []). unfold p at 1. rewrite b64_decode_encode by apply _.
  rewrite unmarshal_claims_json by (try apply nonce_text; cbn [claims UserID Exp]; lia).
  cbn [claims UserID Exp]. rewrite (proj2 (Z.eqb_neq _ _)) by lia. cbn [orb].
  by destruct (Z.ltb_spec (Unix later) (Unix (now + ttl m))), (Z.leb_spec (Unix (now + ttl m)) (Unix later));
    try lia.
Qed.

Lemma issued_token m userID now nonce token exp :
  Issue m userID now (Ok nonce) = Ok (token, exp) →
  exp = Unix (now + ttl m) ∧ (x2e ∈ bytes_of token).
Proof.
  unfold Issue. cbn [mbind outcome_bind].
  generalize (b64_encode RawURLEncoding (encode (claims_json {|
    UserID := userID; Exp := Unix (now + ttl m);
    Nonce := string_of (b64_encode RawURLEncoding nonce) |}))).
  intros p E. injection E as <- <-. split; [done|].
  rewrite bytes_of_string_of. apply elem_of_app. right. by left.
Qed.

(** A token that [Issue] hands out for a user is accepted by [Verify], for
    that user, at every time before the second at which it expires, and
    refused as unauthorized from then on. *)
Lemma Issue_Verify m userID now nonce token exp later :
  0 < userID < 2 ^ 64 → - 2 ^ 63 ≤ Unix (now + ttl m) < 2 ^ 63 →
  Issue m userID now (Ok nonce) = Ok (token, exp) →
  exp = Unix (now + ttl m) ∧
  Verify m token later =
    (if Unix later <? exp then Ok userID else Err (Sentinel ErrUnauthorized)).
Proof.
  intros Hu He Hissue. split; [by eapply issued_token|by eapply issued_verifies].
Qed.

Definition demo_manager : TokenManager := {| secret := replicate 32 x2a; ttl := 86400 * Second |}.

