(* ===== verification/Password.v ===== *)
(** * Password hashes ([src/internal/service/password.go]) *)

From S2P Require Import Prelude GoStrings GoEncoding GoCrypto Errors.
From Stdlib Require Import Strings.Byte.

Definition saltBytes : Z := 16.
Definition hashBytes : Z := 32.

Definition of_std {A} (r : outcome string A) : outcome error A :=
  match r with Ok a => Ok a | Err msg => Err (Plain msg) | Panic => Panic end.

(** [rand] is what [rand.Read] put into the salt. *)
Definition HashPassword (password : string) (iterations : Z) (rand : outcome error bytes) :
    outcome error (bytes * bytes) :=
  if iterations <=? 0 then Err (Plain "iterations must be positive")
  else
    salt ← rand;
    hash ← of_std (pbkdf2_Key (bytes_of password) salt iterations hashBytes);
    Ok (salt, hash).

Definition VerifyPassword (password : string) (salt expected : bytes) (iterations : Z) :
    outcome error bool :=
  if bool_decide (salt = []) || bool_decide (expected = []) || (iterations <=? 0) then Ok false
  else
    got ← of_std (pbkdf2_Key (bytes_of password) salt iterations (Z.of_nat (length expected)));
    if decide (length got ≠ length expected) then Ok false
    else Ok (bool_decide (got = expected) && negb (bool_decide (got = []))).

Lemma HashPassword_Ok password iterations rand salt hash :
  HashPassword password iterations rand = Ok (salt, hash) ↔
  0 < iterations ∧ rand = Ok salt ∧
  pbkdf2_Key (bytes_of password) salt iterations hashBytes = Ok hash.
Proof.
  unfold HashPassword. destruct (Z.leb_spec iterations 0) as [|Hi]; [split; [done|lia]|].
  destruct rand as [s|e|]; cbn [mbind outcome_bind];
    [|split; [done|by intros (_ & ? & _)]..].
  destruct (pbkdf2_Key _ s _ _) as [k|msg|] eqn:Hk; cbn [of_std mbind outcome_bind].
  - split; [by intros [= <- <-]|]. intros (_ & [= <-] & E). rewrite Hk in E. by injection E as ->.
  - split; [done|]. intros (_ & [= <-] & E). by rewrite Hk in E.
  - split; [done|]. intros (_ & [= <-] & E). by rewrite Hk in E.
Qed.

(** A full-length hash is matched by the passwords that derive it. *)
Lemma VerifyPassword_key password salt hash iterations :
  salt ≠ [] → 0 < iterations → Z.of_nat (length hash) = hashBytes →
  VerifyPassword password salt hash iterations = Ok true ↔
  pbkdf2_Key (bytes_of password) salt iterations hashBytes = Ok hash.
Proof.
  intros Hsalt Hi Hlen. assert (hash ≠ []) by (by intros ->).
  unfold VerifyPassword. rewrite !bool_decide_eq_false_2, (proj2 (Z.leb_gt _ _)), Hlen by done.
  cbn [orb]. destruct (pbkdf2_Key _ _ _ _) as [got| |]; cbn [of_std mbind outcome_bind]; [|done..].
  case_decide as Hd; [split; [done|by intros [= ->]]|].
  destruct (decide (got = hash)) as [->|Hne].
  - rewrite bool_decide_eq_true_2, bool_decide_eq_false_2 by done. done.
  - rewrite bool_decide_eq_false_2 by done. split; [done|]. intros [= ->]. done.
Qed.

Lemma HashPassword_verifies password iterations rand salt hash :
  salt ≠ [] → HashPassword password iterations rand = Ok (salt, hash) →
  VerifyPassword password salt hash iterations = Ok true.
Proof.
  intros Hsalt (Hi & _ & Hk)%HashPassword_Ok. apply VerifyPassword_key; try done.
  by apply length_pbkdf2_Key in Hk.
Qed.

(** C35: a password is accepted against the salt and hash that [HashPassword]
    made of it, and any other password is accepted only if it derives the same
    32-byte key. *)
Theorem HashPassword_VerifyPassword password iterations salt hash other :
  salt ≠ [] → HashPassword password iterations (Ok salt) = Ok (salt, hash) →
  VerifyPassword password salt hash iterations = Ok true ∧
  (VerifyPassword other salt hash iterations = Ok true ↔
   pbkdf2_Key (bytes_of other) salt iterations hashBytes = Ok hash).
Proof.
  intros Hsalt Hh. split; [by eapply HashPassword_verifies|].
  apply HashPassword_Ok in Hh as (Hi & _ & Hk). apply VerifyPassword_key; try done.
  by apply length_pbkdf2_Key in Hk.
Qed.

Lemma HashPassword_VerifyPassword_witness :
  ∃ hash, HashPassword "Password123!" 2 (Ok (replicate 16 x07)) = Ok (replicate 16 x07, hash) ∧
    VerifyPassword "Password123!" (replicate 16 x07) hash 2 = Ok true.
Proof.
  eexists. split; [vm_compute; reflexivity|].
  refine (proj1 (HashPassword_VerifyPassword "Password123!" 2 (replicate 16 x07) _ "" _ _)).
  - discriminate.
  - vm_compute. reflexivity.
Defined.

(** [VerifyPassword] returns an answer for every stored row a seed or a
    migration can have left behind: an empty salt or hash, or a non-positive
    iteration count, is refused, and a hash of up to 2^32 bytes is compared
    without an error or a panic. *)
Lemma VerifyPassword_total password salt expected iterations :
  Z.of_nat (length expected) ≤ 2 ^ 32 →
  ∃ b, VerifyPassword password salt expected iterations = Ok b ∧
       (salt = [] ∨ expected = [] ∨ iterations ≤ 0 → b = false).
Proof.
  intros Hlen. unfold VerifyPassword.
  destruct (_ || _ || _) eqn:Hguard; [by exists false|].
  apply orb_false_iff in Hguard as [[Hs%bool_decide_eq_false He%bool_decide_eq_false]%orb_false_iff Hi%Z.leb_gt].
  destruct (pbkdf2_Key_total (bytes_of password) salt iterations (Z.of_nat (length expected)))
    as [k Hk].
  { destruct expected; [done|]. cbn [length] in *. lia. }
  rewrite Hk. cbn [of_std mbind outcome_bind].
  case_decide; eexists; (split; [reflexivity|]); intros [?|[?|?]]; first [done | lia].
Qed.

