(* ===== verification/Protocol.v ===== *)
(** * The wire protocol ([src/internal/protocol/protocol.go])

    Requests and responses are JSON objects, one per frame.  A
    [json.RawMessage] is kept as the value it holds; [None] is the empty one,
    which [omitempty] leaves out.  Records carry the field names of the Go
    structs, [*_json] is [json.Marshal] and [*_of] is [json.Unmarshal]. *)

From S2P Require Import Prelude GoStrings Json.

Definition Version : Z := 1.

Definition OpLogin : string := "Login".
Definition OpGetProfile : string := "GetProfile".
Definition OpGetProfilePicture : string := "GetProfilePicture".
Definition OpUpdateNickname : string := "UpdateNickname".
Definition OpUploadProfilePicture : string := "UploadProfilePicture".
Definition OpLogout : string := "Logout".

Record Request := {
  req_Version : Z; req_RequestID : string; req_Op : string; req_Token : string;
  req_Body : option json }.

Record Response := {
  resp_Version : Z; resp_RequestID : string; resp_OK : bool; resp_ErrorCode : string;
  resp_Message : string; resp_Body : option json }.

Record LoginBody := { Username : string; Password : string }.
Record UserProfile := {
  up_ID : Z; up_Username : string; up_Nickname : string; up_ProfilePictureURL : string }.
Record LoginResult := { lr_Token : string; lr_ExpiresAt : Z; lr_User : UserProfile }.
Record UploadProfilePictureBody := {
  FileName : string; ContentType : string; DataBase64 : string }.
Record ProfilePictureResult := { pp_ContentType : string; pp_DataBase64 : string }.

(** ** Marshalling *)

(** Fields tagged [omitempty]. *)
Definition omit_empty (key s : string) : list (string * json) :=
  if decide (s = "") then [] else [(key, JStr s)].
Definition omit_nil (key : string) (v : option json) : list (string * json) :=
  match v with Some v => [(key, v)] | None => [] end.

Definition Request_json (r : Request) : json :=
  JObj ([("version", JInt (req_Version r)); ("request_id", JStr (req_RequestID r));
         ("op", JStr (req_Op r))]
        ++ omit_empty "token" (req_Token r) ++ omit_nil "body" (req_Body r)).

Definition Response_json (r : Response) : json :=
  JObj ([("version", JInt (resp_Version r)); ("request_id", JStr (resp_RequestID r));
         ("ok", JBool (resp_OK r))]
        ++ omit_empty "error_code" (resp_ErrorCode r) ++ omit_empty "message" (resp_Message r)
        ++ omit_nil "body" (resp_Body r)).

Definition LoginBody_json (b : LoginBody) : json :=
  JObj [("username", JStr (Username b)); ("password", JStr (Password b))].

Definition UserProfile_json (u : UserProfile) : json :=
  JObj ([("id", JInt (up_ID u)); ("username", JStr (up_Username u));
         ("nickname", JStr (up_Nickname u))]
        ++ omit_empty "profile_picture_url" (up_ProfilePictureURL u)).

Definition LoginResult_json (r : LoginResult) : json :=
  JObj [("token", JStr (lr_Token r)); ("expires_at", JInt (lr_ExpiresAt r));
        ("user", UserProfile_json (lr_User r))].

Definition UpdateNicknameBody_json (nickname : string) : json :=
  JObj [("nickname", JStr nickname)].

Definition UploadProfilePictureBody_json (b : UploadProfilePictureBody) : json :=
  JObj [("file_name", JStr (FileName b)); ("content_type", JStr (ContentType b));
        ("data_base64", JStr (DataBase64 b))].

Definition ProfilePictureResult_json (r : ProfilePictureResult) : json :=
  JObj [("content_type", JStr (pp_ContentType r)); ("data_base64", JStr (pp_DataBase64 r))].

(** ** Unmarshalling *)

Definition Request0 : Request := Build_Request 0 "" "" "" None.
Definition Request_field (k : string) (v : json) (r : Request) : option Request :=
  let '(Build_Request version rid op token body) := r in
  if key_is "version" k then version ← get_int 64 version v; Some (Build_Request version rid op token body)
  else if key_is "request_id" k then rid ← get_string rid v; Some (Build_Request version rid op token body)
  else if key_is "op" k then op ← get_string op v; Some (Build_Request version rid op token body)
  else if key_is "token" k then token ← get_string token v; Some (Build_Request version rid op token body)
  else if key_is "body" k then Some (Build_Request version rid op token (Some v))
  else Some r.
Definition Request_of : json → option Request := get_struct Request_field Request0.

Definition Response0 : Response := Build_Response 0 "" false "" "" None.
Definition Response_field (k : string) (v : json) (r : Response) : option Response :=
  let '(Build_Response version rid ok code msg body) := r in
  if key_is "version" k then version ← get_int 64 version v; Some (Build_Response version rid ok code msg body)
  else if key_is "request_id" k then rid ← get_string rid v; Some (Build_Response version rid ok code msg body)
  else if key_is "ok" k then ok ← get_bool ok v; Some (Build_Response version rid ok code msg body)
  else if key_is "error_code" k then code ← get_string code v; Some (Build_Response version rid ok code msg body)
  else if key_is "message" k then msg ← get_string msg v; Some (Build_Response version rid ok code msg body)
  else if key_is "body" k then Some (Build_Response version rid ok code msg (Some v))
  else Some r.
Definition Response_of : json → option Response := get_struct Response_field Response0.

Definition LoginBody_field (k : string) (v : json) (b : LoginBody) : option LoginBody :=
  let '(Build_LoginBody user pw) := b in
  if key_is "username" k then user ← get_string user v; Some (Build_LoginBody user pw)
  else if key_is "password" k then pw ← get_string pw v; Some (Build_LoginBody user pw)
  else Some b.
Definition LoginBody_of : json → option LoginBody :=
  get_struct LoginBody_field (Build_LoginBody "" "").

Definition UserProfile0 : UserProfile := Build_UserProfile 0 "" "" "".
Definition UserProfile_field (k : string) (v : json) (u : UserProfile) : option UserProfile :=
  let '(Build_UserProfile id user nick url) := u in
  if key_is "id" k then id ← get_uint 64 id v; Some (Build_UserProfile id user nick url)
  else if key_is "username" k then user ← get_string user v; Some (Build_UserProfile id user nick url)
  else if key_is "nickname" k then nick ← get_string nick v; Some (Build_UserProfile id user nick url)
  else if key_is "profile_picture_url" k then url ← get_string url v; Some (Build_UserProfile id user nick url)
  else Some u.
Definition UserProfile_of : json → option UserProfile := get_struct UserProfile_field UserProfile0.

Definition LoginResult_field (k : string) (v : json) (r : LoginResult) : option LoginResult :=
  let '(Build_LoginResult token exp user) := r in
  if key_is "token" k then token ← get_string token v; Some (Build_LoginResult token exp user)
  else if key_is "expires_at" k then exp ← get_int 64 exp v; Some (Build_LoginResult token exp user)
  else if key_is "user" k then
    user ← get_struct UserProfile_field user v; Some (Build_LoginResult token exp user)
  else Some r.
Definition LoginResult_of : json → option LoginResult :=
  get_struct LoginResult_field (Build_LoginResult "" 0 UserProfile0).

Definition UpdateNicknameBody_field (k : string) (v : json) (n : string) : option string :=
  if key_is "nickname" k then get_string n v else Some n.
Definition UpdateNicknameBody_of : json → option string := get_struct UpdateNicknameBody_field "".

Definition UploadProfilePictureBody_field (k : string) (v : json) (b : UploadProfilePictureBody) :
    option UploadProfilePictureBody :=
  let '(Build_UploadProfilePictureBody file ct data) := b in
  if key_is "file_name" k then file ← get_string file v; Some (Build_UploadProfilePictureBody file ct data)
  else if key_is "content_type" k then ct ← get_string ct v; Some (Build_UploadProfilePictureBody file ct data)
  else if key_is "data_base64" k then data ← get_string data v; Some (Build_UploadProfilePictureBody file ct data)
  else Some b.
Definition UploadProfilePictureBody_of : json → option UploadProfilePictureBody :=
  get_struct UploadProfilePictureBody_field (Build_UploadProfilePictureBody "" "" "").

Definition ProfilePictureResult_field (k : string) (v : json) (r : ProfilePictureResult) :
    option ProfilePictureResult :=
  let '(Build_ProfilePictureResult ct data) := r in
  if key_is "content_type" k then ct ← get_string ct v; Some (Build_ProfilePictureResult ct data)
  else if key_is "data_base64" k then data ← get_string data v; Some (Build_ProfilePictureResult ct data)
  else Some r.
Definition ProfilePictureResult_of : json → option ProfilePictureResult :=
  get_struct ProfilePictureResult_field (Build_ProfilePictureResult "" "").

(** ** Round trips *)

(** Evaluate comparisons of literal keys. *)
Ltac eval_keys :=
  repeat match goal with
  | |- context [key_is ?a ?b] =>
      let v := eval vm_compute in (key_is a b) in change (key_is a b) with v
  end; cbv iota.

Definition int64 (z : Z) : Prop := - 2 ^ 63 ≤ z < 2 ^ 63.
Definition uint64 (z : Z) : Prop := 0 ≤ z < 2 ^ 64.
Definition text (s : string) : Prop := ValidString s = true.

Lemma get_int_JInt old z : int64 z → get_int 64 old (JInt z) = Some z.
Proof. intros Hz. by apply parse_format_int. Qed.
Lemma get_uint_JInt old z : uint64 z → get_uint 64 old (JInt z) = Some z.
Proof.
  intros Hz. cbn. unfold format_int, uint64 in *. rewrite (proj2 (Z.ltb_ge _ _)) by lia.
  by apply parse_format_uint.
Qed.

Section struct_steps.
Context {S : Type} (field : string → json → S → option S).
Lemma get_members_cons k v m st st' :
  field k v st = Some st' → get_members field ((k, v) :: m) st = get_members field m st'.
Proof. cbn. by intros ->. Qed.
(** An omitted field is one whose zero value is what decoding starts from. *)
Lemma get_members_omit_empty k s m st st' :
  field k (JStr s) st = Some st' → (s = "" → st' = st) →
  get_members field (omit_empty k s ++ m) st = get_members field m st'.
Proof.
  intros Hf Hz. unfold omit_empty. case_decide as Hs; cbn [app]; [by rewrite Hz|].
  by apply get_members_cons.
Qed.
End struct_steps.

Ltac step_member :=
  first
    [ erewrite get_members_cons; [|cbn [Request_field Response_field LoginBody_field UserProfile_field
        LoginResult_field UploadProfilePictureBody_field ProfilePictureResult_field]; eval_keys;
        rewrite ?get_int_JInt, ?get_uint_JInt by done; reflexivity]
    | erewrite get_members_omit_empty; [|cbn [Request_field Response_field UserProfile_field]; eval_keys; reflexivity
        |by intros ->] ].

Lemma UserProfile_rt u : uint64 (up_ID u) → UserProfile_of (UserProfile_json u) = Some u.
Proof.
  destruct u as [id user nick url]; cbn [up_ID]. intros Hid.
  unfold UserProfile_of, UserProfile_json, UserProfile0.
  cbn [get_struct app up_ID up_Username up_Nickname up_ProfilePictureURL].
  rewrite <- (app_nil_r (omit_empty _ _)). by repeat step_member.
Qed.

Lemma Request_rt r : int64 (req_Version r) → Request_of (Request_json r) = Some r.
Proof.
  destruct r as [version rid op token body]; cbn [req_Version]. intros Hv.
  unfold Request_of, Request_json, Request0.
  cbn [get_struct app req_Version req_RequestID req_Op req_Token req_Body].
  repeat step_member. by destruct body as [b|]; cbn [omit_nil]; repeat step_member.
Qed.

Lemma Response_rt r : int64 (resp_Version r) → Response_of (Response_json r) = Some r.
Proof.
  destruct r as [version rid ok code msg body]; cbn [resp_Version]. intros Hv.
  unfold Response_of, Response_json, Response0.
  cbn [get_struct app resp_Version resp_RequestID resp_OK resp_ErrorCode resp_Message resp_Body].
  repeat step_member. by destruct body as [b|]; cbn [omit_nil]; repeat step_member.
Qed.

Lemma LoginBody_rt b : LoginBody_of (LoginBody_json b) = Some b.
Proof.
  destruct b. unfold LoginBody_of, LoginBody_json. cbn [get_struct Username Password].
  by repeat step_member.
Qed.

Lemma LoginResult_rt r :
  int64 (lr_ExpiresAt r) → uint64 (up_ID (lr_User r)) →
  LoginResult_of (LoginResult_json r) = Some r.
Proof.
  destruct r as [token exp user]; cbn [lr_ExpiresAt lr_User]. intros He Hu.
  unfold LoginResult_of, LoginResult_json. cbn [get_struct lr_Token lr_ExpiresAt lr_User].
  repeat step_member. erewrite get_members_cons; [done|].
  cbn [LoginResult_field]. eval_keys. pose proof (UserProfile_rt user Hu) as E.
  unfold UserProfile_of in E. by rewrite E.
Qed.

Lemma UpdateNicknameBody_rt n : UpdateNicknameBody_of (UpdateNicknameBody_json n) = Some n.
Proof. reflexivity. Qed.

Lemma UploadProfilePictureBody_rt b :
  UploadProfilePictureBody_of (UploadProfilePictureBody_json b) = Some b.
Proof.
  destruct b. unfold UploadProfilePictureBody_of, UploadProfilePictureBody_json.
  cbn [get_struct FileName ContentType DataBase64]. by repeat step_member.
Qed.

Lemma ProfilePictureResult_rt r : ProfilePictureResult_of (ProfilePictureResult_json r) = Some r.
Proof.
  destruct r. unfold ProfilePictureResult_of, ProfilePictureResult_json.
  cbn [get_struct pp_ContentType pp_DataBase64]. by repeat step_member.
Qed.

(** ** Text on the wire *)

Definition raw_ok (b : option json) : Prop :=
  ∀ v, b = Some v → json_wf v ∧ jdepth v < max_depth.

Definition Request_ok (r : Request) : Prop :=
  int64 (req_Version r) ∧ text (req_RequestID r) ∧ text (req_Op r) ∧ text (req_Token r) ∧
  raw_ok (req_Body r).

Definition Response_ok (r : Response) : Prop :=
  int64 (resp_Version r) ∧ text (resp_RequestID r) ∧ text (resp_ErrorCode r) ∧
  text (resp_Message r) ∧ raw_ok (resp_Body r).

(** An object is well formed and shallow if its members are. *)
Definition member_ok (kv : string * json) : Prop :=
  text kv.1 ∧ json_wf kv.2 ∧ jdepth kv.2 < max_depth.

Lemma JObj_ok m : Forall member_ok m → json_wf (JObj m) ∧ jdepth (JObj m) ≤ max_depth.
Proof.
  intros Hm. split.
  - constructor. eapply Forall_impl; [exact Hm|]. by intros [k v] (? & ? & ?).
  - cbn [jdepth]. unfold max_depth in *. induction Hm as [|[k v] m (_ & _ & Hv) _ IH]; cbn in *; [lia|].
    unfold max_depth in *. lia.
Qed.

Lemma member_str k s : text k → text s → member_ok (k, JStr s).
Proof. intros Hk Hs. split_and!; [done|by constructor|done]. Qed.
Lemma member_int k z : text k → member_ok (k, JInt z).
Proof. intros Hk. split_and!; [done|by constructor|done]. Qed.
Lemma member_bool k b : text k → member_ok (k, JBool b).
Proof. intros Hk. split_and!; [done|by constructor|done]. Qed.
Lemma member_omit k s : text k → text s → Forall member_ok (omit_empty k s).
Proof. intros Hk Hs. unfold omit_empty. case_decide; auto using member_str. Qed.
Lemma member_raw k b : text k → raw_ok b → Forall member_ok (omit_nil k b).
Proof.
  intros Hk Hb. destruct b as [v|]; cbn; [|done]. destruct (Hb v eq_refl).
  constructor; [|done]. by split_and!.
Qed.

Create HintDb wire.
#[export] Hint Resolve member_str member_int member_bool member_omit member_raw : wire.
#[export] Hint Extern 1 (text _) => reflexivity : wire.
#[export] Hint Resolve Forall_nil_2 Forall_cons_2 Forall_app_2 : wire.

Lemma Request_json_ok r :
  Request_ok r → json_wf (Request_json r) ∧ jdepth (Request_json r) ≤ max_depth.
Proof.
  intros (_ & ? & ? & ? & ?). apply JObj_ok. apply Forall_app_2; auto 10 with wire.
Qed.

Lemma Response_json_ok r :
  Response_ok r → json_wf (Response_json r) ∧ jdepth (Response_json r) ≤ max_depth.
Proof.
  intros (_ & ? & ? & ? & ?). apply JObj_ok. apply Forall_app_2; auto 10 with wire.
Qed.

Lemma Request_wire r : Request_ok r → parse (encode (Request_json r)) ≫= Request_of = Some r.
Proof.
  intros Hr. destruct (Request_json_ok r Hr). rewrite parse_encode by done.
  by apply Request_rt, Hr.
Qed.

Lemma Response_wire r : Response_ok r → parse (encode (Response_json r)) ≫= Response_of = Some r.
Proof.
  intros Hr. destruct (Response_json_ok r Hr). rewrite parse_encode by done.
  by apply Response_rt, Hr.
Qed.

(** ** Any bytes on the wire

    Strings that are not UTF-8 arrive with U+FFFD in place of their bad bytes. *)

Definition Request_sent (r : Request) : Request :=
  {| req_Version := req_Version r; req_RequestID := sent (req_RequestID r); req_Op := sent (req_Op r);
     req_Token := sent (req_Token r); req_Body := jsent <$> req_Body r |}.

Definition Response_sent (r : Response) : Response :=
  {| resp_Version := resp_Version r; resp_RequestID := sent (resp_RequestID r); resp_OK := resp_OK r;
     resp_ErrorCode := sent (resp_ErrorCode r); resp_Message := sent (resp_Message r);
     resp_Body := jsent <$> resp_Body r |}.

Definition raw_out (b : option json) : Prop :=
  ∀ v, b = Some v → json_out v ∧ jdepth v < max_depth.

Definition member_out (kv : string * json) : Prop := json_out kv.2 ∧ jdepth kv.2 < max_depth.

Lemma JObj_out m : Forall member_out m → json_out (JObj m) ∧ jdepth (JObj m) ≤ max_depth.
Proof.
  intros Hm. split.
  - constructor. eapply Forall_impl; [exact Hm|]. by intros kv [? _].
  - cbn [jdepth]. unfold max_depth in *. induction Hm as [|[k v] m [_ Hv] _ IH]; cbn in *; [lia|].
    unfold max_depth in *. lia.
Qed.

Lemma out_str_member k s : member_out (k, JStr s).
Proof. split; [constructor|done]. Qed.
Lemma out_int_member k z : member_out (k, JInt z).
Proof. split; [constructor|done]. Qed.
Lemma out_bool_member k b : member_out (k, JBool b).
Proof. split; [constructor|done]. Qed.
Lemma out_omit k s : Forall member_out (omit_empty k s).
Proof. unfold omit_empty. case_decide; auto using out_str_member. Qed.
Lemma out_raw k b : raw_out b → Forall member_out (omit_nil k b).
Proof. intros Hb. destruct b as [v|]; cbn; [|done]. constructor; [by apply Hb|done]. Qed.
#[export] Hint Resolve out_str_member out_int_member out_bool_member out_omit out_raw : wire.

Lemma omit_empty_sent k s :
  sent k = k → map (λ '(k, v), (sent k, jsent v)) (omit_empty k s) = omit_empty k (sent s).
Proof.
  intros Hk. unfold omit_empty. destruct (decide (s = "")) as [->|Hs]; [done|].
  rewrite decide_False by (by rewrite sent_empty). cbn. by rewrite Hk.
Qed.

Lemma omit_nil_sent k v :
  sent k = k → map (λ '(k, v), (sent k, jsent v)) (omit_nil k v) = omit_nil k (jsent <$> v).
Proof. intros Hk. destruct v; cbn; by rewrite ?Hk. Qed.

Lemma Request_json_sent r : jsent (Request_json r) = Request_json (Request_sent r).
Proof.
  unfold Request_json. cbn [jsent]. by rewrite !map_app, omit_empty_sent, omit_nil_sent.
Qed.

Lemma Response_json_sent r : jsent (Response_json r) = Response_json (Response_sent r).
Proof.
  unfold Response_json. cbn [jsent]. by rewrite !map_app, !omit_empty_sent, omit_nil_sent.
Qed.

Lemma Request_wire_sent r :
  int64 (req_Version r) → raw_out (req_Body r) →
  parse (encode (Request_json r)) ≫= Request_of = Some (Request_sent r).
Proof.
  intros Hv Hb. assert (json_out (Request_json r) ∧ jdepth (Request_json r) ≤ max_depth) as [Ho Hd].
  { apply JObj_out. apply Forall_app_2; auto 10 with wire. }
  rewrite parse_encode_sent, Request_json_sent by done. by apply Request_rt.
Qed.

Lemma Response_wire_sent r :
  int64 (resp_Version r) → raw_out (resp_Body r) →
  parse (encode (Response_json r)) ≫= Response_of = Some (Response_sent r).
Proof.
  intros Hv Hb. assert (json_out (Response_json r) ∧ jdepth (Response_json r) ≤ max_depth) as [Ho Hd].
  { apply JObj_out. apply Forall_app_2; auto 10 with wire. }
  rewrite parse_encode_sent, Response_json_sent by done. by apply Response_rt.
Qed.
