(* ===== verification/Sniff.v ===== *)
(** * [http.DetectContentType]

    The signature table of [net/http], in its order, on the first 512 bytes.
    Uploads are checked against what it returns. *)

From S2P Require Import Prelude GoStrings.
From Stdlib Require Import Strings.Byte.

Definition sniffLen : nat := 512.

Definition is_ws (b : byte) : bool := bool_decide (b ∈ [x09; x0a; x0c; x0d; x20]).

(** The end of a tag. *)
Definition is_tt (b : byte) : bool := bool_decide (b ∈ [x20; x3e]).

Inductive sniff_sig :=
  | ExactSig (pat : bytes) (ct : string)
  | MaskedSig (mask pat : bytes) (skipWS : bool) (ct : string)
  | HtmlSig (tag : bytes)
  | Mp4Sig
  | TextSig.

Fixpoint skip_blank (s : bytes) : bytes :=
  match s with b :: r => if is_ws b then skip_blank r else s | [] => [] end.

Definition band (a b : byte) : byte := Zbyte (Z.land (byteZ a) (byteZ b)).

(** [pat] holds at the start of [s] under [mask]; equal lengths are assumed. *)
Fixpoint masked_prefix (mask pat s : bytes) : bool :=
  match mask, pat, s with
  | [], [], _ => true
  | m :: mask, p :: pat, b :: s => bool_decide (band b m = p) && masked_prefix mask pat s
  | _, _, _ => false
  end.

(** A tag, in either case, followed by a byte that ends it. *)
Fixpoint html_prefix (tag s : bytes) : bool :=
  match tag, s with
  | [], b :: _ => is_tt b
  | t :: tag, b :: s =>
      let db := if inr 65 90 t then band b xdf else b in
      bool_decide (db = t) && html_prefix tag s
  | _, [] => false
  end.

Definition is_binary_byte (b : byte) : bool :=
  inr 0 8 b || bool_decide (b = x0b) || inr 0x0e 0x1a b || inr 0x1c 0x1f b.

Definition be32 (s : bytes) : Z :=
  match s with
  | a :: b :: c :: d :: _ =>
      byteZ a * 16777216 + byteZ b * 65536 + byteZ c * 256 + byteZ d
  | _ => 0
  end.

(** A brand of the [ftyp] box, other than the version at offset 12, starts with
    [mp4]. *)
Definition mp4_match (data : bytes) : bool :=
  let boxSize := be32 data in
  (12 <=? Z.of_nat (length data)) && (boxSize <=? Z.of_nat (length data)) &&
  (boxSize mod 4 =? 0) && bool_decide (take 4 (drop 4 data) = bytes_of "ftyp") &&
  existsb (λ i, let st := (8 + 4 * i)%nat in
             (Z.of_nat st <? boxSize) && negb (Nat.eqb st 12) &&
             bool_decide (take 3 (drop st data) = bytes_of "mp4"))
    (seq 0 (length data)).

(** The content type, or the empty string when the signature does not match. *)
Definition sig_match (sig : sniff_sig) (data : bytes) : string :=
  match sig with
  | ExactSig pat ct => if bool_decide (pat `prefix_of` data) then ct else ""
  | MaskedSig mask pat skipWS ct =>
      let data := if skipWS then skip_blank data else data in
      if masked_prefix mask pat data then ct else ""
  | HtmlSig tag => if html_prefix tag (skip_blank data) then "text/html; charset=utf-8" else ""
  | Mp4Sig => if mp4_match data then "video/mp4" else ""
  | TextSig =>
      if forallb (λ b, negb (is_binary_byte b)) (skip_blank data)
      then "text/plain; charset=utf-8" else ""
  end.

Definition ff (n : nat) : bytes := replicate n xff.
Definition nul (n : nat) : bytes := replicate n x00.

Definition sniffSignatures : list sniff_sig :=
  map (λ tag, HtmlSig (bytes_of tag))
    ["<!DOCTYPE HTML"; "<HTML"; "<HEAD"; "<SCRIPT"; "<IFRAME"; "<H1"; "<DIV"; "<FONT"; "<TABLE";
     "<A"; "<STYLE"; "<TITLE"; "<B"; "<BODY"; "<BR"; "<P"; "<!--"] ++
  [MaskedSig (ff 5) (bytes_of "<?xml") true "text/xml; charset=utf-8";
   ExactSig (bytes_of "%PDF-") "application/pdf";
   ExactSig (bytes_of "%!PS-Adobe-") "application/postscript";
   MaskedSig (ff 2 ++ nul 2) [xfe; xff; x00; x00] false "text/plain; charset=utf-16be";
   MaskedSig (ff 2 ++ nul 2) [xff; xfe; x00; x00] false "text/plain; charset=utf-16le";
   MaskedSig (ff 3 ++ nul 1) [xef; xbb; xbf; x00] false "text/plain; charset=utf-8";
   ExactSig [x00; x00; x01; x00] "image/x-icon";
   ExactSig [x00; x00; x02; x00] "image/x-icon";
   ExactSig (bytes_of "BM") "image/bmp";
   ExactSig (bytes_of "GIF87a") "image/gif";
   ExactSig (bytes_of "GIF89a") "image/gif";
   MaskedSig (ff 4 ++ nul 4 ++ ff 6) (bytes_of "RIFF" ++ nul 4 ++ bytes_of "WEBPVP") false "image/webp";
   ExactSig [x89; x50; x4e; x47; x0d; x0a; x1a; x0a] "image/png";
   ExactSig [xff; xd8; xff] "image/jpeg";
   MaskedSig (ff 4 ++ nul 4 ++ ff 4) (bytes_of "FORM" ++ nul 4 ++ bytes_of "AIFF") false "audio/aiff";
   MaskedSig (ff 3) (bytes_of "ID3") false "audio/mpeg";
   MaskedSig (ff 5) (bytes_of "OggS" ++ nul 1) false "application/ogg";
   MaskedSig (ff 8) (bytes_of "MThd" ++ [x00; x00; x00; x06]) false "audio/midi";
   MaskedSig (ff 4 ++ nul 4 ++ ff 4) (bytes_of "RIFF" ++ nul 4 ++ bytes_of "AVI ") false "video/avi";
   MaskedSig (ff 4 ++ nul 4 ++ ff 4) (bytes_of "RIFF" ++ nul 4 ++ bytes_of "WAVE") false "audio/wave";
   Mp4Sig;
   ExactSig [x1a; x45; xdf; xa3] "video/webm";
   MaskedSig (nul 34 ++ ff 2) (nul 34 ++ bytes_of "LP") false "application/vnd.ms-fontobject";
   ExactSig [x00; x01; x00; x00] "font/ttf";
   ExactSig (bytes_of "OTTO") "font/otf";
   ExactSig (bytes_of "ttcf") "font/collection";
   ExactSig (bytes_of "wOFF") "font/woff";
   ExactSig (bytes_of "wOF2") "font/woff2";
   ExactSig [x1f; x8b; x08] "application/x-gzip";
   ExactSig (bytes_of "PK" ++ [x03; x04]) "application/zip";
   ExactSig (bytes_of "Rar!" ++ [x1a; x07; x00]) "application/x-rar-compressed";
   ExactSig (bytes_of "Rar!" ++ [x1a; x07; x01; x00]) "application/x-rar-compressed";
   ExactSig [x00; x61; x73; x6d] "application/wasm";
   TextSig].

Fixpoint first_match (sigs : list sniff_sig) (data : bytes) : string :=
  match sigs with
  | [] => "application/octet-stream"
  | sig :: sigs =>
      if decide (sig_match sig data = "") then first_match sigs data else sig_match sig data
  end.

Definition DetectContentType (data : bytes) : string :=
  first_match sniffSignatures (take sniffLen data).

Example sniff_png : DetectContentType ([x89; x50; x4e; x47; x0d; x0a; x1a; x0a] ++ nul 40) = "image/png".
Proof. vm_compute. reflexivity. Qed.
Example sniff_html : DetectContentType (bytes_of " <html><body>") = "text/html; charset=utf-8".
Proof. vm_compute. reflexivity. Qed.
Example sniff_text : DetectContentType (bytes_of "hello") = "text/plain; charset=utf-8".
Proof. vm_compute. reflexivity. Qed.
Example sniff_binary : DetectContentType [x01; x02] = "application/octet-stream".
Proof. vm_compute. reflexivity. Qed.
