(* ===== verification/Store.v ===== *)
(** * The user store ([src/internal/store/mysqlstore/store.go], [src/db/schema.sql])

    The database is reached through the statements the store sends.  [MySQL]
    gives them a meaning; [MySQLLaws] states what MySQL documents for them on
    the table [users], with the number of affected rows counting the rows that
    changed or, with [clientFoundRows=true] in the DSN, those that matched. *)

From S2P Require Import Prelude GoStrings Errors.
From Stdlib Require Import Strings.Byte.

(** A row of [users]. *)
Record user_row := {
  id : Z; username : string; nickname : string;
  password_salt : bytes; password_hash : bytes; password_iter : Z;
  profile_picture_path : option string; profile_picture_mime : option string;
  profile_picture_size : Z; profile_picture_version : Z }.

#[global] Instance user_row_eq_dec : EqDecision user_row.
Proof. solve_decision. Defined.

Record UserAuth := {
  ua_ID : Z; ua_Username : string; ua_Nickname : string;
  PasswordSalt : bytes; PasswordHash : bytes; PasswordIter : Z;
  ua_ProfilePicturePath : option string; ProfilePictureVersion : Z }.

Record UserProfile := {
  ID : Z; Username : string; Nickname : string;
  ProfilePicturePath : option string; ProfilePictureMIME : option string;
  ProfilePictureSize : Z; ProfileVersion : Z }.

Record SeedUser := {
  su_Username : string; su_Nickname : string;
  su_PasswordSalt : bytes; su_PasswordHash : bytes; su_PasswordIter : Z }.

(** ** Statements *)

(** [SELECT ... FROM users WHERE username = ? LIMIT 1], [... WHERE id = ? LIMIT 1]. *)
Inductive query := WhereUsername (name : string) | WhereId (uid : Z).

Inductive statement :=
  | SetNickname (nick : string) (uid : Z)
  | SetProfilePicture (relPath mime : string) (size : Z) (uid : Z)
  | InsertUsers (users : list SeedUser)
  | Schema (sql : string).

(** [RowsAffected] of a result may itself fail. *)
Class MySQL (W : Type) := {
  query_row : query → eff W error user_row;
  exec : statement → eff W error (outcome error Z);
  count_users : eff W error Z;
}.

(** [database/sql]: a pool of connections and its settings. *)
Class SqlDB (W : Type) := {
  sql_Open : string → string → eff W error unit;
  SetMaxOpenConns : Z → W → W;
  SetMaxIdleConns : Z → W → W;
  SetConnMaxLifetime : Z → W → W;
  db_Ping : eff W error unit;
}.

Definition Open {W} `{!SqlDB W} (dsn : string) (maxOpen maxIdle maxLifetime : Z) : eff W error unit :=
  _ ← sql_Open "mysql" dsn;
  (λ w, (Ok tt, SetConnMaxLifetime maxLifetime
                  (SetMaxIdleConns maxIdle (SetMaxOpenConns maxOpen w)))) : eff W error unit.

Section store.
Context {W : Type} `{!MySQL W}.
Abbreviation store_op A := (eff W error A).

Definition mapNoRows {A} (m : store_op A) : store_op A := λ w,
  match m w with
  | (Err e, w') => (Err (if errors_Is e sql_ErrNoRows then Sentinel store_ErrNotFound else e), w')
  | r => r
  end.

Definition auth_of (r : user_row) : UserAuth :=
  {| ua_ID := id r; ua_Username := username r; ua_Nickname := nickname r;
     PasswordSalt := password_salt r; PasswordHash := password_hash r;
     PasswordIter := password_iter r; ua_ProfilePicturePath := profile_picture_path r;
     ProfilePictureVersion := profile_picture_version r |}.

Definition profile_of (r : user_row) : UserProfile :=
  {| ID := id r; Username := username r; Nickname := nickname r;
     ProfilePicturePath := profile_picture_path r; ProfilePictureMIME := profile_picture_mime r;
     ProfilePictureSize := profile_picture_size r; ProfileVersion := profile_picture_version r |}.

Definition GetUserAuthByUsername (name : string) : store_op UserAuth :=
  mapNoRows (r ← query_row (WhereUsername name); mret (auth_of r)).

Definition GetUserProfileByID (uid : Z) : store_op UserProfile :=
  mapNoRows (r ← query_row (WhereId uid); mret (profile_of r)).

(** [if affected, err := res.RowsAffected(); err == nil && affected == 0] *)
Definition none_affected (res : outcome error Z) : bool :=
  match res with Ok n => n =? 0 | _ => false end.

Definition UpdateNickname (uid : Z) (nick : string) : store_op UserProfile :=
  res ← exec (SetNickname nick uid);
  if none_affected res then throw (Sentinel store_ErrNotFound)
  else GetUserProfileByID uid.

Definition UpdateProfilePicture (uid : Z) (relPath mime : string) (size : Z) :
    store_op UserProfile :=
  res ← exec (SetProfilePicture relPath mime size uid);
  if none_affected res then throw (Sentinel store_ErrNotFound)
  else GetUserProfileByID uid.

Definition InsertSeedUsers (users : list SeedUser) : store_op unit :=
  if decide (users = []) then mret tt
  else _ ← exec (InsertUsers users); mret tt.

Definition CountUsers : store_op Z := count_users.

(** The statements of a script: the non-blank pieces between semicolons. *)
Definition splitSQL (sqlText : string) : list string :=
  filter (λ s, s ≠ "") (map (λ part, TrimSpace (string_of part)) (split_byte x3b (bytes_of sqlText))).

Fixpoint exec_all (stmts : list string) : store_op unit :=
  match stmts with
  | [] => mret tt
  | stmt :: stmts =>
      if decide (TrimSpace stmt = "") then exec_all stmts
      else λ w,
        match exec (Schema stmt) w with
        | (Ok _, w') => exec_all stmts w'
        | (Err e, w') => (Err (Errorf "exec schema statement" e), w')
        | (Panic, w') => (Panic, w')
        end
  end.

(** [file] is what [os.ReadFile(schemaPath)] gave. *)
Definition Migrate (file : outcome error string) : store_op unit :=
  sqlText ← lift file; exec_all (splitSQL sqlText).
End store.

(** ** What MySQL documents *)

Definition set_nickname (nick : string) (r : user_row) : user_row :=
  {| id := id r; username := username r; nickname := nick;
     password_salt := password_salt r; password_hash := password_hash r;
     password_iter := password_iter r; profile_picture_path := profile_picture_path r;
     profile_picture_mime := profile_picture_mime r;
     profile_picture_size := profile_picture_size r;
     profile_picture_version := profile_picture_version r |}.

Definition set_picture (relPath mime : string) (size : Z) (r : user_row) : user_row :=
  {| id := id r; username := username r; nickname := nickname r;
     password_salt := password_salt r; password_hash := password_hash r;
     password_iter := password_iter r; profile_picture_path := Some relPath;
     profile_picture_mime := Some mime; profile_picture_size := size;
     profile_picture_version := profile_picture_version r + 1 |}.

(** The effect of an [UPDATE] of one row on the table and on the count. *)
Definition updated_table (f : user_row → user_row) (uid : Z) (t : gmap Z user_row) : gmap Z user_row :=
  match t !! uid with Some r => <[uid := f r]> t | None => t end.
Definition updated_count (found_rows : bool) (f : user_row → user_row) (uid : Z)
    (t : gmap Z user_row) : Z :=
  match t !! uid with
  | Some r => if found_rows || bool_decide (f r ≠ r) then 1 else 0
  | None => 0
  end.

(** An [UPDATE ... WHERE id = uid] that computes the row with [f].  One that
    reports an error may still have been applied.  The driver knows nothing of
    the store's own [ErrNotFound]. *)
Definition updates_row {W} (users : W → gmap Z user_row) (found_rows : bool)
    (f : user_row → user_row) (uid : Z) (m : eff W error (outcome error Z)) : Prop :=
  ∀ w, wp m (λ r w', r ≠ Panic ∧
    (∀ res, r = Ok res → users w' = updated_table f uid (users w) ∧
       (∀ n, res = Ok n → n = updated_count found_rows f uid (users w))) ∧
    (∀ e, r = Err e → errors_Is e store_ErrNotFound = false ∧
       (users w' = users w ∨ users w' = updated_table f uid (users w)))) w.

(** The row a [SELECT] returns, and when it may find none. [same_name a b]: the
    collation of the column takes the two for equal. *)
Definition selected (t : gmap Z user_row) (same_name : string → string → Prop) (q : query)
    (row : user_row) : Prop :=
  t !! id row = Some row ∧
  match q with
  | WhereUsername name => same_name (username row) name
  | WhereId uid => id row = uid
  end.

(** The row of a new user; MySQL assigns the id. *)
Definition seed_row (uid : Z) (su : SeedUser) : user_row :=
  {| id := uid; username := su_Username su; nickname := su_Nickname su;
     password_salt := su_PasswordSalt su; password_hash := su_PasswordHash su;
     password_iter := su_PasswordIter su; profile_picture_path := None;
     profile_picture_mime := None; profile_picture_size := 0; profile_picture_version := 0 |}.

Class MySQLLaws (W : Type) `{!MySQL W} (users : W → gmap Z user_row)
    (same_name : string → string → Prop) (found_rows : bool) : Prop := {
  query_row_law q w :
    wp (query_row q) (λ r w', r ≠ Panic ∧ users w' = users w ∧
      (∀ row, r = Ok row → selected (users w) same_name q row) ∧
      (∀ e, r = Err e → errors_Is e store_ErrNotFound = false ∧
         (errors_Is e sql_ErrNoRows = true → ∀ row, ¬ selected (users w) same_name q row))) w;
  set_nickname_law nick uid :
    updates_row users found_rows (set_nickname nick) uid (exec (SetNickname nick uid));
  set_picture_law relPath mime size uid :
    updates_row users found_rows (set_picture relPath mime size) uid
      (exec (SetProfilePicture relPath mime size uid));
  (** [INSERT ... ON DUPLICATE KEY UPDATE username = username]: present rows stay
      as they are, and the other users get a row each; one that reports an
      error may have been applied. *)
  insert_users_law us w :
    wp (exec (InsertUsers us)) (λ r w', r ≠ Panic ∧
      (∀ uid row, users w !! uid = Some row → users w' !! uid = Some row) ∧
      (∀ uid row, users w' !! uid = Some row →
         users w !! uid = Some row ∨ ∃ su, su ∈ us ∧ row = seed_row uid su) ∧
      (∀ res, r = Ok res → ∀ su, su ∈ us →
         ∃ uid row, users w' !! uid = Some row ∧ same_name (username row) (su_Username su))) w;
  users_keyed w uid row : users w !! uid = Some row → id row = uid;
}.

(** ** Correctness *)

Section store_spec.
Context {W : Type} `{!MySQL W} {users : W → gmap Z user_row}
  {same_name : string → string → Prop} {found_rows : bool}
  `{!MySQLLaws W users same_name found_rows}.

Lemma GetUserProfileByID_spec uid w :
  wp (GetUserProfileByID uid) (λ r w', r ≠ Panic ∧ users w' = users w ∧
    (∀ p, r = Ok p → ∃ row, users w !! uid = Some row ∧ p = profile_of row) ∧
    (∀ e, r = Err e → errors_Is e store_ErrNotFound = true → users w !! uid = None)) w.
Proof.
  pose proof (query_row_law (users := users) (WhereId uid) w) as Hl.
  unfold GetUserProfileByID, mapNoRows, mbind, eff_bind, wp in *.
  destruct (query_row (WhereId uid) w) as [[row|e|] w1]; cbn [fst snd mret eff_ret] in *;
    destruct Hl as (? & ? & Hok & Herr); split_and!; try done.
  - intros p [= <-]. destruct (Hok row eq_refl) as [Hrow <-]. eauto.
  - intros e' [= <-] Hnf. destruct (Herr e eq_refl) as [Hforeign Hno].
    destruct (errors_Is e sql_ErrNoRows) eqn:He; [|congruence].
    destruct (users w !! uid) as [row|] eqn:Hrow; [|done].
    destruct (Hno eq_refl row). pose proof (users_keyed _ _ _ Hrow) as <-. by split.
Qed.

Lemma updated_table_ne f uid t uid' : uid' ≠ uid → updated_table f uid t !! uid' = t !! uid'.
Proof. intros Hne. unfold updated_table. destruct (t !! uid); [|done]. by rewrite lookup_insert_ne. Qed.

(** Both updates: run the statement, look at the count, read the row back. *)
Lemma update_spec stmt f uid w :
  updates_row users found_rows f uid (exec stmt) →
  wp (res ← exec stmt;
      if none_affected res then throw (Sentinel store_ErrNotFound) else GetUserProfileByID uid)
    (λ r w', r ≠ Panic ∧ (∀ uid', uid' ≠ uid → users w' !! uid' = users w !! uid') ∧
      (∀ p, r = Ok p → ∃ row, users w !! uid = Some row ∧
         users w' = <[uid := f row]> (users w) ∧ p = profile_of (f row)) ∧
      (∀ e, r = Err e → errors_Is e store_ErrNotFound = true →
         users w !! uid = None ∨
         found_rows = false ∧ ∃ row, users w !! uid = Some row ∧ f row = row)) w.
Proof.
  intros Hupd. apply wp_bind. eapply wp_mono, Hupd. intros [res|e|] w1 (Hnp & Hok & Herr); [| |done].
  2: { destruct (Herr e eq_refl) as [Hf Hcase]. split; [done|]. split; [|split; [done|congruence]].
       intros uid' Hne. destruct Hcase as [-> | ->]; [done|by apply updated_table_ne]. }
  destruct (Hok res eq_refl) as [Htab Hcount]. clear Hok Herr.
  assert (Hframe : ∀ uid', uid' ≠ uid → users w1 !! uid' = users w !! uid').
  { intros uid' Hne. rewrite Htab. by apply updated_table_ne. }
  destruct (none_affected res) eqn:Hz.
  - split; [done|]. split; [done|]. split; [done|]. intros _ _ _. destruct res as [n| |]; [|done..].
    apply Z.eqb_eq in Hz as ->. specialize (Hcount 0 eq_refl). unfold updated_count in Hcount.
    destruct (users w !! uid) as [row|]; [right|by left].
    destruct found_rows; [done|]. cbn in Hcount.
    split; [done|]. exists row. split; [done|]. by destruct (decide (f row = row)); [|rewrite bool_decide_eq_true_2 in Hcount].
  - eapply wp_mono, GetUserProfileByID_spec. intros r w2 (? & Hw2 & Hp & Hnf).
    rewrite Hw2. split; [done|]. split; [done|]. split.
    + intros p Hr. destruct (Hp p Hr) as (row & Hrow & ->). rewrite Htab in *.
      unfold updated_table in *. destruct (users w !! uid) as [row0|] eqn:E; [|congruence].
      rewrite lookup_insert_eq in Hrow. injection Hrow as <-. eauto.
    + intros e Hr He. specialize (Hnf e Hr He). rewrite Htab in Hnf. unfold updated_table in Hnf.
      destruct (users w !! uid) eqn:E; [|by left]. by rewrite lookup_insert_eq in Hnf.
Qed.

(** [UpdateProfilePicture] changes no other user's row; on success the row
    of the user has the given path, type and size and the next version, and
    the profile returned is that of the new row; [ErrNotFound] means that
    there is no such user. *)
Lemma UpdateProfilePicture_correct uid relPath mime size w r w' :
  UpdateProfilePicture uid relPath mime size w = (r, w') →
  r ≠ Panic ∧ (∀ uid', uid' ≠ uid → users w' !! uid' = users w !! uid') ∧
  (∀ p, r = Ok p → ∃ row, users w !! uid = Some row ∧
     users w' = <[uid := set_picture relPath mime size row]> (users w) ∧
     p = profile_of (set_picture relPath mime size row) ∧
     ProfileVersion p = profile_picture_version row + 1) ∧
  (∀ e, r = Err e → errors_Is e store_ErrNotFound = true → users w !! uid = None).
Proof.
  intros Hrun. pose proof (wp_run _ _ _ _ _
    (update_spec _ _ uid w (set_picture_law relPath mime size uid)) Hrun) as (Hnp & Hfr & Hok & Hnf).
  split; [done|]. split; [done|]. split.
  - intros p Hp. destruct (Hok p Hp) as (row & ? & ? & ->). by exists row.
  - intros e Hr He. destruct (Hnf e Hr He) as [?|(_ & row & _ & Heq)]; [done|].
    apply (f_equal profile_picture_version) in Heq. cbn in Heq. lia.
Qed.

(** [UpdateNickname] changes no other user's row; on success the user's
    row has the new nickname and nothing else changed; [ErrNotFound] means
    that there is no such user or, unless the DSN sets [clientFoundRows],
    that the nickname was the same already. *)
Lemma UpdateNickname_correct uid nick w r w' :
  UpdateNickname uid nick w = (r, w') →
  r ≠ Panic ∧ (∀ uid', uid' ≠ uid → users w' !! uid' = users w !! uid') ∧
  (∀ p, r = Ok p → ∃ row, users w !! uid = Some row ∧
     users w' = <[uid := set_nickname nick row]> (users w) ∧
     p = profile_of (set_nickname nick row)) ∧
  (∀ e, r = Err e → errors_Is e store_ErrNotFound = true →
     users w !! uid = None ∨
     found_rows = false ∧ ∃ row, users w !! uid = Some row ∧ nickname row = nick).
Proof.
  intros Hrun. pose proof (wp_run _ _ _ _ _
    (update_spec _ _ uid w (set_nickname_law nick uid)) Hrun) as (Hnp & Hfr & Hok & Hnf).
  split; [done|]. split; [done|]. split; [done|].
  intros e Hr He. destruct (Hnf e Hr He) as [?|(Hf & row & Hrow & Heq)]; [by left|right].
  split; [done|]. exists row. split; [done|]. by apply (f_equal nickname) in Heq.
Qed.

(** Saving the nickname a user already has is answered with
    [ErrNotFound] (HTTP 404), although the user exists: without
    [clientFoundRows] MySQL reports no affected row. *)
Lemma UpdateNickname_same_not_found uid row w n w1 :
  found_rows = false → users w !! uid = Some row →
  exec (SetNickname (nickname row) uid) w = (Ok (Ok n), w1) →
  UpdateNickname uid (nickname row) w = (Err (Sentinel store_ErrNotFound), w1).
Proof.
  intros Hf Hrow Hexec. unfold UpdateNickname. rewrite (eff_bind_step _ _ _ _ _ Hexec).
  pose proof (wp_run _ _ _ _ _ (set_nickname_law (nickname row) uid w) Hexec) as (_ & Hok & _).
  destruct (Hok _ eq_refl) as [_ Hn]. rewrite (Hn n eq_refl). unfold updated_count.
  rewrite Hrow, Hf. cbn [orb]. by rewrite bool_decide_eq_false_2 by (destruct row; by intros []).
Qed.
End store_spec.

(** ** A table in memory *)

Abbreviation table := (gmap Z user_row).

(** Rows are shown with the key they are stored under as their id. *)
Definition set_id (uid : Z) (r : user_row) : user_row :=
  {| id := uid; username := username r; nickname := nickname r;
     password_salt := password_salt r; password_hash := password_hash r;
     password_iter := password_iter r; profile_picture_path := profile_picture_path r;
     profile_picture_mime := profile_picture_mime r;
     profile_picture_size := profile_picture_size r;
     profile_picture_version := profile_picture_version r |}.
Definition table_users (t : table) : table := map_imap (λ uid r, Some (set_id uid r)) t.

Definition find_user (q : query) (t : table) : option user_row :=
  match q with
  | WhereId uid => t !! uid
  | WhereUsername name =>
      snd <$> head (filter (λ kr, username kr.2 = name) (map_to_list t))
  end.

Definition run_update (f : user_row → user_row) (uid : Z) : eff table error (outcome error Z) :=
  λ t, (Ok (Ok (updated_count false f uid (table_users t))), updated_table f uid (table_users t)).

(** One row of an insert, unless the user name is taken. *)
Definition insert_user (t : table) (su : SeedUser) : table :=
  match find_user (WhereUsername (su_Username su)) t with
  | Some _ => t
  | None => let uid := fresh (dom t) in <[uid := seed_row uid su]> t
  end.
Definition insert_users (us : list SeedUser) (t : table) : table := foldl insert_user t us.

#[global] Instance table_mysql : MySQL table := {|
  query_row q t := (of_option (Sentinel sql_ErrNoRows) (find_user q (table_users t)), t);
  exec stmt :=
    match stmt with
    | SetNickname nick uid => run_update (set_nickname nick) uid
    | SetProfilePicture relPath mime size uid => run_update (set_picture relPath mime size) uid
    | InsertUsers us => λ t, (Ok (Ok (Z.of_nat (length us))), insert_users us (table_users t))
    | Schema _ => λ t, (Err (Plain "unsupported"), t)
    end;
  count_users t := (Ok (Z.of_nat (size t)), t);
|}.

Lemma table_users_lookup t uid : table_users t !! uid = set_id uid <$> t !! uid.
Proof. unfold table_users. rewrite map_lookup_imap. by destruct (t !! uid). Qed.

Lemma table_users_keyed t uid r : table_users t !! uid = Some r → id r = uid.
Proof. rewrite table_users_lookup. destruct (t !! uid); [|done]. by intros [= <-]. Qed.

Lemma table_users_updated f uid t :
  (∀ r, id (f r) = id r) →
  table_users (updated_table f uid (table_users t)) = updated_table f uid (table_users t).
Proof.
  intros Hf. apply map_eq. intros k. rewrite table_users_lookup. unfold updated_table.
  assert (Hid : ∀ k r, table_users t !! k = Some r → set_id k r = r).
  { intros k' r Hr. apply table_users_keyed in Hr. destruct r; cbn in *. by subst. }
  destruct (table_users t !! uid) as [r|] eqn:Hr.
  - destruct (decide (k = uid)) as [->|].
    + rewrite lookup_insert_eq. cbn. apply table_users_keyed in Hr. f_equal.
      specialize (Hf r). unfold set_id. destruct (f r); cbn in *. congruence.
    + rewrite lookup_insert_ne by done. destruct (table_users t !! k) eqn:Hk; cbn; [|done].
      by rewrite (Hid k).
  - destruct (table_users t !! k) eqn:Hk; cbn; [|done]. by rewrite (Hid k).
Qed.

Lemma run_update_law f uid :
  (∀ r, id (f r) = id r) → updates_row table_users false f uid (run_update f uid).
Proof.
  intros Hf t. unfold wp, run_update. cbn [fst snd]. split_and!; [done| |done].
  intros res [= <-]. split; [by apply table_users_updated|]. by intros n [= <-].
Qed.

Lemma table_users_id t uid row : table_users t !! uid = Some row → set_id uid row = row.
Proof. intros Hr%table_users_keyed. destruct row; cbn in *. by subst. Qed.

(** A user is found by name exactly if there is a row with it. *)
Lemma find_username name (t : table) :
  match find_user (WhereUsername name) t with
  | Some row => ∃ uid, t !! uid = Some row ∧ username row = name
  | None => ∀ uid row, t !! uid = Some row → username row ≠ name
  end.
Proof.
  cbn. destruct (filter _ _) as [|[k r] l] eqn:Hl; cbn.
  - intros uid row Hrow Hname.
    assert ((uid, row) ∈ filter (λ kr, username kr.2 = name) (map_to_list t)) as Hin
      by (apply list_elem_of_filter; split; [done|]; by apply elem_of_map_to_list).
    rewrite Hl in Hin. by apply not_elem_of_nil in Hin.
  - assert ((k, r) ∈ filter (λ kr, username kr.2 = name) (map_to_list t)) as Hin
      by (rewrite Hl; by left).
    apply list_elem_of_filter in Hin as [Hn Hin%elem_of_map_to_list]. by exists k.
Qed.

Lemma insert_user_spec t su :
  (∀ uid row, t !! uid = Some row → insert_user t su !! uid = Some row) ∧
  (∀ uid row, insert_user t su !! uid = Some row →
     t !! uid = Some row ∨ row = seed_row uid su) ∧
  (∃ uid row, insert_user t su !! uid = Some row ∧ username row = su_Username su).
Proof.
  unfold insert_user. pose proof (find_username (su_Username su) t) as Hf.
  destruct (find_user _ t) as [row0|].
  - split; [done|]. split; [by left|]. naive_solver.
  - assert (Hfresh : t !! fresh (dom t) = None) by apply not_elem_of_dom, is_fresh.
    split; [|split].
    + intros uid row Hr. rewrite lookup_insert_ne; [done|]. intros <-. congruence.
    + intros uid row [[<- <-]|[_ ?]]%lookup_insert_Some; [by right|by left].
    + eexists _, _. rewrite lookup_insert_eq. done.
Qed.

Lemma insert_users_spec us t :
  (∀ uid row, t !! uid = Some row → insert_users us t !! uid = Some row) ∧
  (∀ uid row, insert_users us t !! uid = Some row →
     t !! uid = Some row ∨ ∃ su, su ∈ us ∧ row = seed_row uid su) ∧
  (∀ su, su ∈ us → ∃ uid row, insert_users us t !! uid = Some row ∧ username row = su_Username su).
Proof.
  unfold insert_users. revert t. induction us as [|su us IH]; intros t; cbn [foldl].
  { split_and!; [done|by left|]. intros su Hin. by apply not_elem_of_nil in Hin. }
  destruct (insert_user_spec t su) as (Hkeep & Hnew & uid0 & row0 & Hrow0 & Hname0).
  destruct (IH (insert_user t su)) as (IHkeep & IHnew & IHin). split_and!.
  - intros uid row Hr. by apply IHkeep, Hkeep.
  - intros uid row Hr. destruct (IHnew uid row Hr) as [Hr'|(su' & ? & ->)].
    + destruct (Hnew uid row Hr') as [?|Heq]; [by left|]. right. exists su. split; [by left|done].
    + right. exists su'. split; [by right|done].
  - intros su' [->|Hin]%elem_of_cons; [|by apply IHin]. exists uid0, row0. by auto.
Qed.

#[global] Instance table_laws : MySQLLaws table table_users eq false.
Proof.
  split.
  - intros q t. unfold wp. cbn [query_row table_mysql fst snd].
    assert (Hsel : ∀ row, find_user q (table_users t) = Some row → selected (table_users t) eq q row).
    { intros row. destruct q as [name|uid]; cbn.
      - destruct (filter _ _) as [|[k r] l] eqn:Hl; [done|]. intros [= <-].
        assert ((k, r) ∈ filter (λ kr, username kr.2 = name) (map_to_list (table_users t))) as Hin
          by (rewrite Hl; by left).
        apply list_elem_of_filter in Hin as [Hn Hin%elem_of_map_to_list].
        split; [|done]. by rewrite (table_users_keyed _ _ _ Hin).
      - intros Hr. pose proof (table_users_keyed _ _ _ Hr) as E. split; [by rewrite E|done]. }
    destruct (find_user q (table_users t)) as [row|] eqn:Hf; cbn; split_and!; try done.
    + intros row' [= <-]. by apply Hsel.
    + intros e [= <-]. split; [done|]. intros _ row [Hrow Hq].
      destruct q as [name|uid]; cbn in *; [|congruence].
      destruct (filter _ _) as [|[k r] l] eqn:Hl; [|done].
      assert ((id row, row) ∈ filter (λ kr, username kr.2 = name) (map_to_list (table_users t))) as Hin.
      { apply list_elem_of_filter. split; [done|]. by apply elem_of_map_to_list. }
      rewrite Hl in Hin. by apply not_elem_of_nil in Hin.
  - intros nick uid. by apply run_update_law.
  - intros relPath mime size uid. by apply run_update_law.
  - intros us t. unfold wp. cbn [exec table_mysql fst snd].
    destruct (insert_users_spec us (table_users t)) as (Hkeep & Hnew & Hin).
    assert (Hid : table_users (insert_users us (table_users t)) = insert_users us (table_users t)).
    { apply map_eq. intros uid. rewrite table_users_lookup.
      destruct (insert_users us (table_users t) !! uid) as [row|] eqn:Hr; [|done]. cbn. f_equal.
      destruct (Hnew uid row Hr) as [?%table_users_id|(su & _ & ->)]; done. }
    rewrite Hid. split_and!; [done|done|done|]. intros res _ su Hsu.
    destruct (Hin su Hsu) as (uid & row & ? & ?). by exists uid, row.
  - intros t uid row. apply table_users_keyed.
Qed.

Definition demo_row : user_row :=
  {| id := 7; username := "alice"; nickname := "Al"; password_salt := [x01]; password_hash := [x02];
     password_iter := 1; profile_picture_path := None; profile_picture_mime := None;
     profile_picture_size := 0; profile_picture_version := 0 |}.
Definition demo_table : table := {[7 := demo_row]}.

Lemma UpdateNickname_same_not_found_witness :
  ∃ w1, UpdateNickname 7 "Al" demo_table = (Err (Sentinel store_ErrNotFound), w1).
Proof.
  eexists. refine (UpdateNickname_same_not_found (users := table_users) 7 demo_row demo_table 0 _ _ _ _).
  - reflexivity.
  - vm_compute. reflexivity.
  - vm_compute. reflexivity.
Defined.

