(* ===== verification/Seed.v ===== *)
(** * Seeding users ([src/cmd/seed/main.go])

    A producer sends the first id of each batch into a buffered channel; worker
    goroutines take batches from it, hash passwords, insert the users and add to
    a counter; the program reports an error if fewer users than asked for were
    inserted.  The goroutines are a state machine: [step who s] is what the
    goroutine [who] does next, or [None] if it is blocked or has ended, and any
    order of steps is an execution. *)

From S2P Require Import Prelude GoStrings Errors Config Password Store.
From stdpp Require Import relations.
From Stdlib Require Import Strings.Byte.
#[local] Open Scope Z_scope.

(** [fmt.Sprintf("%08d", n)] of a number that is not negative. *)
Definition pad8 (n : Z) : bytes :=
  let digits := format_uint n in replicate (8 - length digits) x30 ++ digits.

Definition seed_username (uid : Z) : string := "user" +:+ string_of (pad8 uid).
Definition seed_nickname (uid : Z) : string := "User " +:+ string_of (pad8 uid).

Section seed.
Context {W : Type} `{!MySQL W}.
(** What [rand.Read] gives for the salt of a user. *)
Context (rand : Z → outcome error bytes).

Fixpoint make_users (ids : list Z) (iterations : Z) (password : string) :
    outcome error (list SeedUser) :=
  match ids with
  | [] => Ok []
  | uid :: ids =>
      '(salt, hash) ← HashPassword password iterations (rand uid);
      users ← make_users ids iterations password;
      Ok ({| su_Username := seed_username uid; su_Nickname := seed_nickname uid;
             su_PasswordSalt := salt; su_PasswordHash := hash;
             su_PasswordIter := iterations |} :: users)
  end.

(** The loop counts [id] from [startID]; [make] panics on a negative capacity. *)
Definition makeUsers (startID count iterations : Z) (password : string) :
    outcome error (list SeedUser) :=
  if count <? 0 then Panic else make_users (seqZ startID count) iterations password.

(** ** Goroutines *)

(** Waiting at [range jobs]; with a batch; about to add to the counter; ended;
    crashed, and the program with it. *)
Inductive worker := Ranging | Handling (startID : Z) | Adding (size : Z) | Gone | Crashed.

Context (cfg : Config) (count : Z).

Definition batchSize : Z := if BatchSize (Seed cfg) <=? 0 then 1000 else BatchSize (Seed cfg).
Definition workers : Z := if Concurrency (Seed cfg) <=? 0 then 1 else Concurrency (Seed cfg).

Definition batch_size (startID : Z) : Z := Z.min batchSize (wraps 64 (count - startID + 1)).

(** [handled] records the batches that are done with, and whether they were
    inserted. *)
Record state := State {
  nextID : Z;
  closed : bool;
  jobs : list Z;
  pool : list worker;
  inserted : Z;
  world : W;
  handled : list (Z * bool);
}.

Definition start (w : W) : state :=
  State 1 false [] (replicate (Z.to_nat workers) Ranging) 0 w [].

(** The main goroutine: [jobs <- startID] blocks when the channel is full. *)
Definition step_main (s : state) : option state :=
  if nextID s <=? count then
    if Z.of_nat (length (jobs s)) <? workers * 2 then
      Some (State (wraps 64 (nextID s + batchSize)) (closed s) (jobs s ++ [nextID s]) (pool s)
              (inserted s) (world s) (handled s))
    else None
  else if closed s then None
  else Some (State (nextID s) true (jobs s) (pool s) (inserted s) (world s) (handled s)).

Definition set_worker (i : nat) (v : worker) (s : state) : state :=
  State (nextID s) (closed s) (jobs s) (<[i := v]> (pool s)) (inserted s) (world s) (handled s).

(** A batch that failed is logged and left. *)
Definition batch_failed (i : nat) (startID : Z) (w : W) (s : state) : state :=
  State (nextID s) (closed s) (jobs s) (<[i := Ranging]> (pool s)) (inserted s) w
    ((startID, false) :: handled s).

Definition handle (i : nat) (startID : Z) (s : state) : state :=
  let size := batch_size startID in
  match makeUsers startID size (PasswordIterations (Security cfg)) (DefaultPassword (Seed cfg)) with
  | Err _ => batch_failed i startID (world s) s
  | Panic => set_worker i Crashed s
  | Ok users =>
      match InsertSeedUsers users (world s) with
      | (Err _, w) => batch_failed i startID w s
      | (Panic, w) => set_worker i Crashed s
      | (Ok _, w) =>
          State (nextID s) (closed s) (jobs s) (<[i := Adding size]> (pool s)) (inserted s) w
            ((startID, true) :: handled s)
      end
  end.

Definition step_worker (i : nat) (s : state) : option state :=
  match pool s !! i with
  | Some Ranging =>
      match jobs s with
      | startID :: rest =>
          Some (State (nextID s) (closed s) rest (<[i := Handling startID]> (pool s)) (inserted s)
                  (world s) (handled s))
      | [] => if closed s then Some (set_worker i Gone s) else None
      end
  | Some (Handling startID) => Some (handle i startID s)
  | Some (Adding size) =>
      Some (State (nextID s) (closed s) (jobs s) (<[i := Ranging]> (pool s))
              (wraps 64 (inserted s + size)) (world s) (handled s))
  | _ => None
  end.

Definition step (who : option nat) (s : state) : option state :=
  match who with None => step_main s | Some i => step_worker i s end.

(** After [close] and [wg.Wait]. *)
Definition returned (s : state) : Prop := closed s = true ∧ Forall (eq Gone) (pool s).

Definition result (s : state) : outcome error unit :=
  if inserted s <? count
  then Err (Plain ("seed inserted " +:+ Itoa (inserted s) +:+ " of " +:+ Itoa count +:+ " users"))
  else Ok tt.

Definition steps : state → state → Prop := λ s s', ∃ who, step who s = Some s'.

(** [seed] returns at once when there is nothing to do. *)
Inductive seed (w : W) : outcome error unit → W → Prop :=
  | seed_nothing : count ≤ 0 → seed w (Ok tt) w
  | seed_runs s : 0 < count → rtc steps (start w) s → returned s → seed w (result s) (world s).

(** Follow a schedule, skipping goroutines that cannot move. *)
Fixpoint follow (schedule : list (option nat)) (s : state) : state :=
  match schedule with
  | [] => s
  | who :: schedule => follow schedule (default s (step who s))
  end.

Lemma follow_steps schedule s : rtc steps s (follow schedule s).
Proof.
  revert s. induction schedule as [|who schedule IH]; intros s; cbn [follow]; [done|].
  destruct (step who s) as [s1|] eqn:E; [|apply IH]. eapply rtc_l; [by exists who|apply IH].
Qed.
End seed.
