(* ===== verification/SeedSpec.v ===== *)
(** * Seeding ends, and says whether it is complete

    Every execution of the seeding program is finite and ends by returning; the
    batches cover the ids exactly once in whatever order the workers take them;
    and when no error is returned every user is in the table. *)

From S2P Require Import Prelude GoStrings GoCrypto Errors Config Password Store Seed.
From stdpp Require Import relations.
From Stdlib Require Import Strings.Byte.
#[local] Open Scope Z_scope.

(** ** Lists *)

Lemma list_split_at {A} (l : list A) i x :
  l !! i = Some x → ∃ l1 l2, l = l1 ++ x :: l2 ∧ ∀ v, <[i := v]> l = l1 ++ v :: l2.
Proof.
  intros Hi. exists (take i l), (drop (S i) l). split; [by symmetry; apply take_drop_middle|].
  intros v. apply insert_take_drop. by eapply lookup_lt_Some.
Qed.

Definition zsum (l : list Z) : Z := foldr Z.add 0 l.

Lemma zsum_app l1 l2 : zsum (l1 ++ l2) = zsum l1 + zsum l2.
Proof. unfold zsum. induction l1 as [|x l1 IH]; cbn [foldr app]; lia. Qed.

#[global] Instance zsum_proper : Proper ((≡ₚ) ==> eq) zsum.
Proof. unfold zsum. induction 1; cbn [foldr] in *; lia. Qed.

(** ** The batches *)

Section batches.
Context (cfg : Config) (count : Z) (count_int : count < 2 ^ 63).
Abbreviation b := (batchSize cfg).

Lemma batchSize_pos : 0 < b.
Proof. unfold batchSize. destruct (Z.leb_spec (BatchSize (Config.Seed cfg)) 0); lia. Qed.

Lemma workers_pos : 0 < workers cfg.
Proof. unfold workers. destruct (Z.leb_spec (Concurrency (Config.Seed cfg)) 0); lia. Qed.

(** The number of batches, and their first ids. *)
Definition batch_count : Z := (count - 1) / b + 1.
Definition first_id (k : Z) : Z := 1 + k * b.
Definition first_ids (n : Z) : list Z := first_id <$> seqZ 0 n.

Lemma first_id_le k : first_id k ≤ count ↔ k < batch_count.
Proof.
  pose proof batchSize_pos. unfold first_id, batch_count.
  pose proof (Z.mul_div_le (count - 1) b). pose proof (Z.mul_succ_div_gt (count - 1) b).
  split; intros; nia.
Qed.

Lemma batch_count_nonneg : 0 < count → 0 < batch_count.
Proof.
  intros Hc. pose proof batchSize_pos. unfold batch_count.
  pose proof (Z.div_pos (count - 1) b). lia.
Qed.

Lemma first_ids_succ n : 0 ≤ n → first_ids (n + 1) = first_ids n ++ [first_id n].
Proof.
  intros Hn. unfold first_ids. rewrite seqZ_app by lia. by rewrite fmap_app.
Qed.

Lemma batch_size_eq j : 1 ≤ j ≤ count → batch_size cfg count j = Z.min b (count - j + 1).
Proof. intros Hj. unfold batch_size. by rewrite wraps_id by lia. Qed.

Lemma first_id_pos k : 0 ≤ k → 1 ≤ first_id k.
Proof. pose proof batchSize_pos. unfold first_id. nia. Qed.

Lemma batch_size_pos k : 0 ≤ k < batch_count → 0 < batch_size cfg count (first_id k).
Proof.
  intros [H0%first_id_pos Hk%first_id_le]. pose proof batchSize_pos. rewrite batch_size_eq; lia.
Qed.

(** The batches cover the ids from 1 to [count], each in one batch. *)
Lemma batch_of uid :
  1 ≤ uid ≤ count →
  let k := (uid - 1) / b in
  0 ≤ k < batch_count ∧ first_id k ≤ uid < first_id k + batch_size cfg count (first_id k).
Proof.
  intros Hu k. pose proof batchSize_pos.
  pose proof (Z.mul_div_le (uid - 1) b). pose proof (Z.mul_succ_div_gt (uid - 1) b).
  pose proof (Z.div_pos (uid - 1) b).
  assert (first_id k ≤ uid) by (unfold first_id; subst k; nia).
  assert (0 ≤ k) by (subst k; lia). split; [split; [done|]|].
  - apply first_id_le. lia.
  - split; [done|]. pose proof (first_id_pos k ltac:(done)). rewrite batch_size_eq by lia.
    unfold first_id in *. subst k. nia.
Qed.

Lemma batch_sizes_sum n :
  0 < count → 0 ≤ n ≤ batch_count →
  zsum (batch_size cfg count <$> first_ids n) = Z.min (n * b) count.
Proof.
  intros Hc [Hn Hle]. revert n Hn Hle. apply (natlike_ind (λ n, n ≤ batch_count → _)).
  - intros _. change (0 = Z.min (0 * b) count). lia.
  - intros n Hn IH Hle. rewrite <- Z.add_1_r, first_ids_succ, fmap_app, zsum_app, IH by lia.
    assert (Hk : first_id n ≤ count) by (apply first_id_le; lia).
    pose proof (first_id_pos n Hn). cbn [fmap list_fmap zsum foldr]. rewrite batch_size_eq by lia.
    unfold first_id in *. pose proof batchSize_pos. lia.
Qed.

Lemma batch_sizes_total :
  0 < count → zsum (batch_size cfg count <$> first_ids batch_count) = count.
Proof.
  intros Hc. pose proof (batch_count_nonneg Hc). rewrite batch_sizes_sum by lia.
  pose proof batchSize_pos. unfold batch_count.
  pose proof (Z.mul_succ_div_gt (count - 1) b). nia.
Qed.
End batches.

(** ** The batch in a worker's hands *)

Definition in_hand (v : worker) : option Z := match v with Handling j => Some j | _ => None end.
Definition to_add (v : worker) : Z := match v with Adding n => n | _ => 0 end.

(** How many steps a worker has left before it waits or ends. *)
Definition weight (v : worker) : Z :=
  match v with Ranging => 1 | Adding _ => 2 | Handling _ => 3 | Gone | Crashed => 0 end.

Section executions.
Context {W : Type} `{!MySQL W} {users : W → gmap Z user_row}
  {same_name : string → string → Prop} {found_rows : bool}
  `{!MySQLLaws W users same_name found_rows}.
Context (rand : Z → outcome error bytes) (cfg : Config) (count : Z).
(** [rand.Read] fills the salt; ids and their sums fit in an [int]. *)
Context (rand_salt : ∀ uid, rand uid ≠ Panic ∧ ∀ salt, rand uid = Ok salt → salt ≠ [])
  (count_pos : 0 < count) (count_fits : count + batchSize cfg < 2 ^ 63).
Abbreviation b := (batchSize cfg).
Abbreviation state := (state (W := W)).
Abbreviation steps := (steps rand cfg count).
Abbreviation size := (batch_size cfg count).

Lemma count_int : count < 2 ^ 63.
Proof. pose proof (batchSize_pos cfg). lia. Qed.

(** The batches that were inserted, and those that were not. *)
Definition batches (ok : bool) (s : state) : list Z :=
  fst <$> filter (λ jb, jb.2 = ok) (handled s).

Record accounted (s : state) : Prop := {
  acc_next : ∃ n, 0 ≤ n ≤ batch_count cfg count ∧ nextID s = first_id cfg n ∧
    first_ids cfg n ≡ₚ jobs s ++ omap in_hand (pool s) ++ (handled s).*1 ∧
    (closed s = true → n = batch_count cfg count);
  acc_inserted : inserted s + zsum (to_add <$> pool s) = zsum (size <$> batches true s);
  acc_nonneg : 0 ≤ inserted s;
  acc_pool : Z.of_nat (length (pool s)) = workers cfg;
  acc_gone : Gone ∈ pool s → closed s = true ∧ jobs s = [];
  acc_crashed : Crashed ∉ pool s;
  acc_adding : Forall (λ v, 0 ≤ to_add v) (pool s);
}.

Lemma accounted_start w : accounted (start cfg w).
Proof.
  assert (Hpool : ∀ v : worker, v ∈ replicate (Z.to_nat (workers cfg)) Ranging → v = Ranging)
    by (intros v Hv; by apply elem_of_replicate in Hv as [-> _]).
  split; cbn.
  - exists 0. pose proof (batch_count_nonneg cfg count count_pos). split_and!; try lia; try done.
    unfold first_ids. cbn. clear Hpool. induction (Z.to_nat _) as [|n IH]; [done|]. exact IH.
  - clear Hpool. induction (Z.to_nat _) as [|n IH]; [done|]. exact IH.
  - done.
  - rewrite length_replicate. pose proof (workers_pos cfg). lia.
  - intros Hg%Hpool. done.
  - intros Hg%Hpool. done.
  - apply Forall_forall. by intros v ->%Hpool.
Qed.

Lemma zsum_nonneg l : Forall (λ x, 0 ≤ x) l → 0 ≤ zsum l.
Proof. unfold zsum. induction 1; cbn [foldr]; lia. Qed.

(** Every batch that has been sent is a batch. *)
Lemma accounted_batch s j :
  accounted s → j ∈ jobs s ++ omap in_hand (pool s) ++ (handled s).*1 →
  ∃ k, 0 ≤ k < batch_count cfg count ∧ j = first_id cfg k.
Proof.
  intros [(n & Hn & _ & Hperm & _)] Hj. rewrite <- Hperm in Hj.
  apply list_elem_of_fmap in Hj as (k & -> & Hk%elem_of_seqZ). exists k. split; [lia|done].
Qed.

Lemma accounted_size s j :
  accounted s → j ∈ jobs s ++ omap in_hand (pool s) ++ (handled s).*1 → 0 < size j.
Proof. intros Hs (k & ? & ->)%accounted_batch; [|done]. apply batch_size_pos; [apply count_int|lia]. Qed.

Lemma batches_cons ok j ok' s s' :
  handled s' = (j, ok') :: handled s →
  batches ok s' = if decide (ok' = ok) then j :: batches ok s else batches ok s.
Proof.
  intros E. unfold batches. rewrite E. case_decide as Hd.
  - by rewrite filter_cons_True.
  - by rewrite filter_cons_False.
Qed.

(** The inserted batches are among those that were handled. *)
Lemma batches_split s :
  batches true s ++ batches false s ≡ₚ (handled s).*1.
Proof.
  unfold batches. induction (handled s) as [|[j []] l IH]; [done|..].
  - rewrite filter_cons_True, filter_cons_False by done. cbn. by rewrite IH.
  - rewrite filter_cons_False, filter_cons_True by done. cbn.
    rewrite <- IH. by rewrite Permutation_middle.
Qed.

Lemma sizes_nonneg s l :
  accounted s → l ⊆ jobs s ++ omap in_hand (pool s) ++ (handled s).*1 →
  0 ≤ zsum (size <$> l).
Proof.
  intros Hs Hl. apply zsum_nonneg, Forall_fmap, Forall_forall. intros j Hj%Hl.
  by apply Z.lt_le_incl, (accounted_size s).
Qed.

Lemma batches_handled ok s : batches ok s ⊆ (handled s).*1.
Proof. intros j Hj. rewrite <- batches_split. destruct ok; set_solver. Qed.

Lemma inserted_bounded s :
  accounted s → 0 ≤ inserted s + zsum (to_add <$> pool s) ≤ count.
Proof.
  intros Hs. rewrite (acc_inserted s Hs).
  pose proof (batches_handled true s). pose proof (batches_handled false s).
  pose proof (sizes_nonneg s (batches true s) Hs ltac:(set_solver)).
  pose proof (sizes_nonneg s (batches false s) Hs ltac:(set_solver)).
  pose proof (sizes_nonneg s (jobs s) Hs ltac:(set_solver)).
  pose proof (sizes_nonneg s (omap in_hand (pool s)) Hs ltac:(set_solver)).
  destruct Hs as [(n & Hn & _ & Hperm & _) _ _ _ _ _ _].
  pose proof (batch_sizes_sum cfg count count_int n count_pos Hn) as Hsum.
  rewrite Hperm, !fmap_app, !zsum_app, <- batches_split, fmap_app, zsum_app in Hsum. lia.
Qed.

(** ** Each step keeps the accounts and uses up work *)

(** Steps that are left: four for a batch to be sent, three for one in the
    channel, those of the workers, and closing the channel. *)
Definition work (s : state) : Z :=
  4 * (batch_count cfg count - (nextID s - 1) / b) + (if closed s then 0 else 1) +
  3 * Z.of_nat (length (jobs s)) + zsum (weight <$> pool s).

Lemma makeUsers_no_panic j iterations password :
  0 < size j → makeUsers rand j (size j) iterations password ≠ Panic.
Proof.
  intros Hj. unfold makeUsers. rewrite (proj2 (Z.ltb_ge _ _)) by lia.
  induction (seqZ j (size j)) as [|uid ids IH]; cbn [make_users]; [done|].
  unfold HashPassword. destruct (_ <=? 0) eqn:Hi; [done|]. destruct (rand_salt uid) as [Hnp _].
  destruct (rand uid) as [salt|e|]; [|done..]. cbn [mbind outcome_bind].
  destruct (pbkdf2_Key_total (bytes_of password) salt iterations hashBytes) as [k ->]; [done|].
  cbn [of_std mbind outcome_bind]. by destruct (make_users rand ids iterations password).
Qed.

Lemma first_id_index n : (first_id cfg n - 1) / b = n.
Proof.
  pose proof (batchSize_pos cfg). unfold first_id. replace (1 + n * b - 1) with (n * b) by lia.
  apply Z.div_mul. lia.
Qed.

Lemma main_step_spec s s' :
  accounted s → step_main cfg count s = Some s' → accounted s' ∧ work s' < work s.
Proof.
  intros Hs. pose proof (batchSize_pos cfg) as Hb.
  destruct Hs as [(n & Hn & Hnext & Hperm & Hclosed) Hins H0 Hlen Hgone Hcr Hadd].
  unfold step_main. rewrite Hnext.
  destruct (Z.leb_spec (first_id cfg n) count) as [Hle|Hgt].
  - pose proof (proj1 (first_id_le cfg count n) Hle) as HnN.
    destruct (_ <? _); [|done]. intros [= <-].
    assert (Hopen : closed s = false).
    { destruct (closed s); [|done]. specialize (Hclosed eq_refl). lia. }
    assert (Hsucc : wraps 64 (first_id cfg n + b) = first_id cfg (n + 1)).
    { rewrite wraps_id; unfold first_id in *; [nia|lia|nia]. }
    split.
    + split; cbn; try done.
      * exists (n + 1). rewrite Hopen. split_and!; [lia|lia|done| |done].
        rewrite first_ids_succ, Hperm by lia. solve_Permutation.
      * intros Hg. destruct (Hgone Hg). congruence.
    + unfold work. cbn [nextID closed jobs pool]. rewrite Hsucc, Hnext, !first_id_index, length_app. cbn [length]. lia.
  - destruct (closed s) eqn:Hopen; [done|]. intros [= <-]. split.
    + split; cbn; try done.
      * exists n. split_and!; try lia; try done. intros _. pose proof (first_id_le cfg count n). lia.
      * intros Hg. destruct (Hgone Hg). congruence.
    + unfold work. cbn [nextID closed jobs pool]. rewrite Hopen, Hnext. lia.
Qed.

Lemma in_hand_cons (y : worker) l :
  omap in_hand (y :: l) = option_list (in_hand y) ++ omap in_hand l.
Proof. cbn. by destruct (in_hand y). Qed.

(** A worker that stays at work keeps the accounts if the batches in hand, the
    sizes to add and the totals agree. *)
Lemma accounted_worker s l1 l2 x v jobs' inserted' w' handled' :
  accounted s → pool s = l1 ++ x :: l2 → v ≠ Gone → v ≠ Crashed → 0 ≤ to_add v → 0 ≤ inserted' →
  jobs s ++ option_list (in_hand x) ++ (handled s).*1 ≡ₚ
    jobs' ++ option_list (in_hand v) ++ handled'.*1 →
  inserted' + to_add v - (inserted s + to_add x) =
    zsum (size <$> (fst <$> filter (λ jb, jb.2 = true) handled')) - zsum (size <$> batches true s) →
  (jobs s = [] → jobs' = []) →
  accounted (State (nextID s) (closed s) jobs' (l1 ++ v :: l2) inserted' w' handled').
Proof.
  intros [(n & Hn & Hnext & Hperm & Hclosed) Hins H0 Hlen Hgone Hcr Hadd] Hpool Hg Hc Hv H0' Hj Hi Hjobs.
  rewrite Hpool in *. split; cbn [nextID closed jobs pool inserted world handled].
  - exists n. split_and!; try done; try lia. rewrite Hperm, !omap_app, !in_hand_cons.
    transitivity ((jobs s ++ option_list (in_hand x) ++ (handled s).*1) ++
      omap in_hand l1 ++ omap in_hand l2); [solve_Permutation|].
    rewrite Hj. solve_Permutation.
  - unfold batches in *. cbn [handled] in *. rewrite !fmap_app, !zsum_app in *.
    rewrite !fmap_cons in *. cbn [zsum foldr] in *. unfold zsum in *. lia.
  - done.
  - rewrite length_app in *. cbn [length] in *. lia.
  - intros Hin. destruct Hgone as [? ?]; [set_solver|]. auto.
  - set_solver.
  - apply Forall_app in Hadd as [? [? ?]%Forall_cons]. apply Forall_app; split; [done|]. by constructor.
Qed.

Lemma work_worker s l1 l2 x v jobs' inserted' w' handled' :
  pool s = l1 ++ x :: l2 →
  weight v + 3 * Z.of_nat (length jobs') < weight x + 3 * Z.of_nat (length (jobs s)) →
  work (State (nextID s) (closed s) jobs' (l1 ++ v :: l2) inserted' w' handled') < work s.
Proof.
  intros Hpool Hw. unfold work. cbn [nextID closed jobs pool].
  rewrite Hpool, !fmap_app, !zsum_app, !fmap_cons. cbn [zsum foldr] in *. unfold zsum. lia.
Qed.

Lemma handled_inserted s j :
  zsum (size <$> (fst <$> filter (λ jb, jb.2 = true) ((j, true) :: handled s))) =
    size j + zsum (size <$> batches true s).
Proof. by rewrite filter_cons_True. Qed.
Lemma handled_failed s j :
  zsum (size <$> (fst <$> filter (λ jb, jb.2 = true) ((j, false) :: handled s))) =
    zsum (size <$> batches true s).
Proof. by rewrite filter_cons_False. Qed.

Lemma to_add_nonneg l : Forall (λ v, 0 ≤ to_add v) l → 0 ≤ zsum (to_add <$> l).
Proof. intros Hl. apply zsum_nonneg, Forall_fmap, Hl. Qed.

Lemma InsertSeedUsers_no_panic us w : (InsertSeedUsers us w).1 ≠ Panic.
Proof.
  unfold InsertSeedUsers. case_decide; [done|]. pose proof (insert_users_law us w) as Hl.
  unfold wp in Hl. unfold mbind, eff_bind. by destruct (exec (InsertUsers us) w) as [[] ?], Hl.
Qed.

(** A worker ends when the channel is closed and empty. *)
Lemma gone_step_spec i s :
  accounted s → pool s !! i = Some Ranging → jobs s = [] → closed s = true →
  accounted (set_worker i Gone s) ∧ work (set_worker i Gone s) < work s.
Proof.
  intros Hs Hx Hjobs Hclosed. destruct (list_split_at _ _ _ Hx) as (l1 & l2 & Hpool & Hset).
  unfold set_worker. rewrite Hset. split; [|eapply work_worker; [done|]; cbn; lia].
  pose proof Hs as [(n & Hn & Hnext & Hperm & Hc) Hins H0 Hlen Hgone Hcr Hadd].
  rewrite Hpool in *. split; cbn [nextID closed jobs pool inserted world handled]; try done.
  - exists n. split_and!; try done; try lia. rewrite Hperm, !omap_app, !in_hand_cons. done.
  - unfold batches in *. cbn [handled] in *. rewrite !fmap_app, !zsum_app in *. exact Hins.
  - rewrite length_app in *. exact Hlen.
  - set_solver.
  - apply Forall_app in Hadd as [? [? ?]%Forall_cons]. apply Forall_app; split; [done|].
    by constructor.
Qed.

Lemma handle_step_spec i j s :
  accounted s → pool s !! i = Some (Handling j) →
  accounted (handle rand cfg count i j s) ∧ work (handle rand cfg count i j s) < work s.
Proof.
  intros Hs Hx. destruct (list_split_at _ _ _ Hx) as (l1 & l2 & Hpool & Hset). unfold handle.
  assert (Hsize : 0 < size j).
  { apply (accounted_size s); [done|]. rewrite Hpool, omap_app, in_hand_cons. cbn. set_solver. }
  assert (Hfail : ∀ w, accounted (batch_failed i j w s) ∧ work (batch_failed i j w s) < work s).
  { intros w. unfold batch_failed. rewrite Hset. split.
    - eapply accounted_worker; try done; try apply Hs; cbn [in_hand to_add option_list]; try lia.
      rewrite handled_failed. lia.
    - eapply work_worker; [done|]. cbn [weight]. lia. }
  pose proof (makeUsers_no_panic j (PasswordIterations (Security cfg))
    (DefaultPassword (Config.Seed cfg)) Hsize) as Hnp.
  destruct (makeUsers _ _ _ _ _) as [us|e|]; [|by apply Hfail|done].
  pose proof (InsertSeedUsers_no_panic us (world s)) as Hnp2.
  destruct (InsertSeedUsers us (world s)) as [[[]|e|] w]; [|by apply Hfail|done].
  rewrite Hset. split.
  - eapply accounted_worker; try done; try apply Hs; cbn [in_hand to_add option_list]; try lia.
    rewrite handled_inserted. lia.
  - eapply work_worker; [done|]. cbn [weight]. lia.
Qed.

(** The counter does not overflow. *)
Lemma adding_fits s l1 l2 n :
  accounted s → pool s = l1 ++ Adding n :: l2 →
  wraps 64 (inserted s + n) = inserted s + n ∧ 0 ≤ inserted s + n.
Proof.
  intros Hs Hpool. pose proof (inserted_bounded s Hs) as Hb. destruct Hs as [_ _ H0 _ _ _ Hadd].
  rewrite Hpool in *. rewrite fmap_app, zsum_app, fmap_cons in Hb.
  apply Forall_app in Hadd as [Ha1 [? Ha2]%Forall_cons]. apply to_add_nonneg in Ha1, Ha2.
  cbn [zsum foldr to_add] in *. unfold zsum in *. pose proof (batchSize_pos cfg).
  split; [apply wraps_id|]; lia.
Qed.

Lemma worker_step_spec i s s' :
  accounted s → step_worker rand cfg count i s = Some s' → accounted s' ∧ work s' < work s.
Proof.
  intros Hs. unfold step_worker. destruct (pool s !! i) as [x|] eqn:Hx; [|done].
  destruct (list_split_at _ _ _ Hx) as (l1 & l2 & Hpool & Hset).
  destruct x as [|j|n| |]; [| | |done..].
  - destruct (jobs s) as [|j rest] eqn:Hjobs.
    + destruct (closed s) eqn:Hclosed; [|done]. intros [= <-]. by apply gone_step_spec.
    + intros [= <-]. rewrite Hset. split.
      * eapply accounted_worker; try done; try apply Hs; cbn [in_hand to_add option_list]; try lia.
        { rewrite Hjobs. solve_Permutation. }
        { unfold batches. lia. }
        { by rewrite Hjobs. }
      * eapply work_worker; [done|]. rewrite Hjobs. cbn [weight length]. lia.
  - intros [= <-]. by apply handle_step_spec.
  - intros [= <-]. rewrite Hset. destruct (adding_fits s l1 l2 n Hs Hpool) as [-> Hw]. split.
    + eapply accounted_worker; try done; try apply Hs; cbn [in_hand to_add option_list]; try lia.
      unfold batches. lia.
    + eapply work_worker; [done|]. cbn [weight]. lia.
Qed.

Lemma step_spec s s' : accounted s → steps s s' → accounted s' ∧ work s' < work s.
Proof.
  intros Hs [[i|] Hstep]; [by eapply worker_step_spec|by eapply main_step_spec].
Qed.

Lemma steps_accounted s s' : accounted s → rtc steps s s' → accounted s'.
Proof. intros Hs Hrtc. induction Hrtc; [done|]. apply IHHrtc. by eapply step_spec. Qed.

(** ** Termination *)

Lemma work_nonneg s : accounted s → 0 ≤ work s.
Proof.
  intros [(n & Hn & Hnext & _) _ _ _ _ _ _]. unfold work. rewrite Hnext, first_id_index.
  assert (0 ≤ zsum (weight <$> pool s)).
  { apply zsum_nonneg, Forall_fmap, Forall_forall. intros [] _; cbn; lia. }
  destruct (closed s); lia.
Qed.

Lemma work_start (w : W) : work (start cfg w) = 4 * batch_count cfg count + 1 + workers cfg.
Proof.
  unfold work. cbn [start nextID closed jobs pool length].
  assert (Hr : ∀ n : nat, zsum (weight <$> replicate n Ranging) = Z.of_nat n).
  { induction n as [|n IH]; [done|]. rewrite replicate_S, fmap_cons. cbn [zsum foldr weight].
    unfold zsum in IH. lia. }
  rewrite Hr. pose proof (workers_pos cfg). pose proof (batchSize_pos cfg).
  rewrite Z.div_0_l by lia. lia.
Qed.

Definition can_move (s : state) (v : worker) : bool :=
  match v with
  | Handling _ | Adding _ => true
  | Ranging => closed s || bool_decide (jobs s ≠ [])
  | Gone | Crashed => false
  end.

Lemma can_move_steps s i v : pool s !! i = Some v → can_move s v = true → ∃ s', steps s s'.
Proof.
  intros Hi Hv. enough (is_Some (step rand cfg count (Some i) s)) as [s' ?] by (by exists s', (Some i)).
  cbn. unfold step_worker. rewrite Hi. destruct v; try done.
  revert Hv. cbn. destruct (jobs s); [|done]. by destruct (closed s).
Qed.

(** Somebody can move until the program has returned. *)
Lemma seed_progress s : accounted s → returned s ∨ ∃ s', steps s s'.
Proof.
  intros Hs. destruct (existsb (can_move s) (pool s)) eqn:Hex.
  { right. apply existsb_exists in Hex as (v & [i Hi]%list_elem_of_In%list_elem_of_lookup & Hv).
    by eapply can_move_steps. }
  assert (Hstuck : ∀ v, v ∈ pool s → can_move s v = false).
  { intros v Hv%list_elem_of_In. apply not_true_is_false. intros Hm.
    enough (existsb (can_move s) (pool s) = true) by congruence. apply existsb_exists. by exists v. }
  destruct Hs as [(n & Hn & Hnext & _ & _) _ _ Hlen Hgone Hcr _]. pose proof (workers_pos cfg).
  destruct (closed s) eqn:Hclosed.
  - left. split; [done|]. apply Forall_forall. intros v Hv. specialize (Hstuck v Hv).
    destruct v; cbn in Hstuck; try done. by rewrite Hclosed in Hstuck.
  - right. enough (is_Some (step_main cfg count s)) as [s' ?] by (by exists s', None).
    destruct (pool s) as [|v l] eqn:Hpool; [cbn in Hlen; lia|].
    specialize (Hstuck v ltac:(by left)). unfold step_main.
    destruct v; cbn in Hstuck; try done.
    + rewrite Hclosed in *. cbn in Hstuck. apply bool_decide_eq_false, dec_stable in Hstuck.
      rewrite Hstuck. cbn [length]. rewrite (proj2 (Z.ltb_lt _ _)) by lia. by case_match.
    + destruct Hgone as [? _]; [by left|done].
    + by destruct Hcr; left.
Qed.

(** C20: seeding always ends (for a positive [count] that together with the batch
    size is below 2^63, and a salt source that fills its buffer). Whatever the order in which the goroutines run and
    whatever the database answers, no execution takes more than four steps per
    batch, one per worker and one, and an execution that cannot be continued
    has closed the channel, all workers have ended and [seed] has returned. *)
Theorem seed_terminates (w : W) :
  (∀ n s, nsteps steps n (start cfg w) s →
     Z.of_nat n ≤ 4 * batch_count cfg count + 1 + workers cfg) ∧
  (∀ s, rtc steps (start cfg w) s → (¬ ∃ s', steps s s') → returned s).
Proof.
  split.
  - intros n s Hn. rewrite <- work_start with (w := w).
    pose proof (accounted_start w) as Hs. revert Hn Hs. generalize (start cfg w). intros s0 Hn Hs.
    enough (work s + Z.of_nat n ≤ work s0 ∧ accounted s) as [? ?%work_nonneg] by lia.
    induction Hn as [s0|n s0 s1 s2 H01 _ IH]; [split; [lia|done]|].
    destruct (step_spec s0 s1 Hs H01) as [Hs1 Hw]. destruct (IH Hs1). split; [lia|done].
  - intros s Hrtc Hno. destruct (seed_progress s) as [?|?]; [|done..].
    eapply steps_accounted; [apply accounted_start|done].
Qed.

(** ** What is in the table *)

Definition has_user (uid : Z) (w : W) : Prop :=
  ∃ k row, users w !! k = Some row ∧ same_name (username row) (seed_username uid).

(** The row accepts the default password. *)
Definition default_password (row : user_row) : Prop :=
  VerifyPassword (DefaultPassword (Config.Seed cfg)) (password_salt row) (password_hash row)
    (password_iter row) = Ok true.

Lemma make_users_spec ids iterations password us :
  make_users rand ids iterations password = Ok us →
  (∀ uid, uid ∈ ids → ∃ su, su ∈ us ∧ su_Username su = seed_username uid) ∧
  (∀ su, su ∈ us → VerifyPassword password (su_PasswordSalt su) (su_PasswordHash su)
     (su_PasswordIter su) = Ok true).
Proof.
  revert us. induction ids as [|uid ids IH]; intros us; cbn [make_users].
  { intros [= <-]. split; intros x Hx; by apply not_elem_of_nil in Hx. }
  intros ([salt hash] & Hh & Hrest)%outcome_bind_Ok.
  apply outcome_bind_Ok in Hrest as (us' & Hus & [= <-]). destruct (IH us' Hus) as [IH1 IH2].
  pose proof Hh as (_ & Hr & _)%HashPassword_Ok.
  pose proof (proj2 (rand_salt uid) salt Hr) as Hsalt. split.
  - intros x [->|Hx]%elem_of_cons; [by eexists; split; [by left|]|].
    destruct (IH1 x Hx) as (su & ? & ?). exists su. split; [by right|done].
  - intros su [->|Hsu]%elem_of_cons; [|by apply IH2].
    cbn [su_PasswordSalt su_PasswordHash su_PasswordIter]. by eapply HashPassword_verifies.
Qed.

Record stored (w0 : W) (s : state) : Prop := {
  st_keep : ∀ k row, users w0 !! k = Some row → users (world s) !! k = Some row;
  st_new : ∀ k row, users (world s) !! k = Some row →
    users w0 !! k = Some row ∨ default_password row;
  st_batches : ∀ j, j ∈ batches true s → ∀ uid, j ≤ uid < j + size j → has_user uid (world s);
}.

Lemma stored_same w0 s s' :
  world s' = world s → handled s' = handled s → stored w0 s → stored w0 s'.
Proof. intros Ew Eh [? ? ?]. split; unfold batches in *; rewrite ?Ew, ?Eh; done. Qed.

(** An insert, whatever it reports, keeps the rows and adds only users with the
    default password; one that succeeds has them all. *)
Lemma insert_spec j us w w' r :
  0 < size j →
  makeUsers rand j (size j) (PasswordIterations (Security cfg))
    (DefaultPassword (Config.Seed cfg)) = Ok us →
  InsertSeedUsers us w = (r, w') →
  (∀ k row, users w !! k = Some row → users w' !! k = Some row) ∧
  (∀ k row, users w' !! k = Some row → users w !! k = Some row ∨ default_password row) ∧
  (r = Ok tt → ∀ uid, j ≤ uid < j + size j → has_user uid w').
Proof.
  intros Hsize Hmake. unfold makeUsers in Hmake. rewrite (proj2 (Z.ltb_ge _ _)) in Hmake by lia.
  destruct (make_users_spec _ _ _ _ Hmake) as [Hnames Hpw].
  unfold InsertSeedUsers. case_decide as Hnil.
  { intros [= <- <-]. split_and!; [done|by left|]. intros _ uid Hu.
    destruct (Hnames uid) as (su & Hsu & _); [by apply elem_of_seqZ|].
    rewrite Hnil in Hsu. by apply not_elem_of_nil in Hsu. }
  pose proof (insert_users_law us w) as Hl. unfold wp in Hl. unfold mbind, eff_bind.
  destruct (exec (InsertUsers us) w) as [r0 w0]. cbn [fst snd] in Hl.
  destruct Hl as (_ & Hkeep & Hnew & Hin).
  assert (Hrows : ∀ k row, users w0 !! k = Some row → users w !! k = Some row ∨ default_password row).
  { intros k row Hk. destruct (Hnew k row Hk) as [?|(su & Hsu & ->)]; [by left|right]. by apply Hpw. }
  destruct r0 as [res|e|]; intros [= <- <-]; split_and!; try done. intros _ uid Hu.
  destruct (Hnames uid) as (su & Hsu & Hn); [by apply elem_of_seqZ|].
  destruct (Hin res eq_refl su Hsu) as (k & row & ? & ?). exists k, row. by rewrite <- Hn.
Qed.

Lemma handle_stored w0 i j s :
  0 < size j → stored w0 s → stored w0 (handle rand cfg count i j s).
Proof.
  intros Hsize Hst. pose proof Hst as [Hkeep Hnew Hb]. unfold handle.
  destruct (makeUsers _ _ _ _ _) as [us|e|] eqn:Hmake;
    [|by split|by apply (stored_same w0 s)].
  destruct (InsertSeedUsers us (world s)) as [r w] eqn:Hins.
  destruct (insert_spec j us _ _ _ Hsize Hmake Hins) as (Hk1 & Hn1 & Hu1).
  assert (Hkeep1 : ∀ k row, users w0 !! k = Some row → users w !! k = Some row) by auto.
  assert (Hnew1 : ∀ k row, users w !! k = Some row → users w0 !! k = Some row ∨ default_password row).
  { intros k row [?|?]%Hn1; [by auto|by right]. }
  assert (Hold : ∀ x, x ∈ batches true s → ∀ uid, x ≤ uid < x + size x → has_user uid w).
  { intros x Hx uid Hu. destruct (Hb x Hx uid Hu) as (k & row & Hrow & ?). exists k, row. auto. }
  destruct r as [[]|e|]; [|by split|by apply (stored_same w0 s)]. split; try done. intros x.
  rewrite (batches_cons true j true s), decide_True by done.
  intros [->|Hx]%elem_of_cons; [by apply Hu1|by apply Hold].
Qed.

Lemma step_stored w0 s s' : accounted s → stored w0 s → steps s s' → stored w0 s'.
Proof.
  intros Hs Hst [[i|] Hstep]; cbn in Hstep.
  - unfold step_worker in Hstep. destruct (pool s !! i) as [x|] eqn:Hx; [|done].
    destruct x as [|j|n| |]; [| | |done..].
    + destruct (jobs s); [destruct (closed s); [|done]|]; injection Hstep as <-;
        by apply (stored_same w0 s).
    + injection Hstep as <-. apply handle_stored; [|done]. apply (accounted_size s); [done|].
      rewrite !elem_of_app. right; left. apply list_elem_of_omap. exists (Handling j).
      split; [by eapply list_elem_of_lookup_2|done].
    + injection Hstep as <-. by apply (stored_same w0 s).
  - unfold step_main in Hstep. repeat case_match; try done; injection Hstep as <-;
      by apply (stored_same w0 s).
Qed.

Lemma steps_stored w0 s s' : accounted s → stored w0 s → rtc steps s s' → stored w0 s'.
Proof.
  intros Hs Hst Hrtc. induction Hrtc as [|s s1 s2 H01 _ IH]; [done|].
  apply IH; [by eapply step_spec|by eapply step_stored].
Qed.

(** ** The result *)

(** At the end every batch has been handled once, and the counter has the users
    of the inserted ones. *)
Lemma returned_spec s :
  accounted s → returned s →
  (handled s).*1 ≡ₚ first_ids cfg (batch_count cfg count) ∧
  inserted s = zsum (size <$> batches true s) ∧
  inserted s + zsum (size <$> batches false s) = count.
Proof.
  intros Hs [Hclosed Hgone]. pose proof (batch_sizes_total cfg count count_int count_pos) as Htotal.
  destruct Hs as [(n & _ & _ & Hperm & Hn) Hins _ Hlen Hjobs _ _]. rewrite (Hn Hclosed) in Hperm.
  assert (Hpool : ∀ l, Forall (eq Gone) l → omap in_hand l = [] ∧ zsum (to_add <$> l) = 0).
  { induction 1 as [|? l <- _ [IH1 IH2]]; [done|]. by split. }
  destruct (Hpool (pool s) Hgone) as [E1 E2]. rewrite E1 in Hperm. rewrite E2 in Hins.
  assert (jobs s = []) as Hj.
  { apply Hjobs. destruct (pool s) as [|v l] eqn:Hp; [|apply Forall_cons in Hgone as [<- _]; by left].
    cbn in Hlen. pose proof (workers_pos cfg). lia. }
  rewrite Hj in Hperm. cbn [app] in Hperm. split; [by symmetry|]. split; [lia|].
  rewrite Hperm, <- batches_split, fmap_app, zsum_app in Htotal. lia.
Qed.

(** The program reports an error exactly when a batch was not inserted. *)
Lemma result_spec s :
  accounted s → returned s → result count s = Ok tt ↔ batches false s = [].
Proof.
  intros Hs Hret. destruct (returned_spec s Hs Hret) as (_ & Hins & Htot). unfold result.
  destruct (batches false s) as [|j l] eqn:Hf.
  - cbn in Htot. by rewrite (proj2 (Z.ltb_ge _ _)) by lia.
  - pose proof (batches_handled false s) as Hsub. rewrite Hf in Hsub.
    assert (0 < size j).
    { apply (accounted_size s); [done|]. rewrite !elem_of_app. right; right. apply Hsub. by left. }
    pose proof (sizes_nonneg s l Hs ltac:(set_solver)).
    cbn [fmap list_fmap zsum foldr] in Htot. unfold zsum in *.
    rewrite (proj2 (Z.ltb_lt _ _)) by lia. done.
Qed.

Lemma stored_start (w : W) : stored w (start cfg w).
Proof. split; [done|by left|]. intros j Hj. by apply not_elem_of_nil in Hj. Qed.

(** A worker has this batch in hand, and its users cannot be made, or the database
    answers their [INSERT] with an error. *)
Definition batch_refused (i : nat) (j : Z) (s : state) : Prop :=
  pool s !! i = Some (Handling j) ∧
  ((∃ e, makeUsers rand j (size j) (PasswordIterations (Security cfg))
           (DefaultPassword (Config.Seed cfg)) = Err e) ∨
   ∃ us e, makeUsers rand j (size j) (PasswordIterations (Security cfg))
             (DefaultPassword (Config.Seed cfg)) = Ok us ∧ (InsertSeedUsers us (world s)).1 = Err e).

Lemma step_refused who s s' j :
  step rand cfg count who s = Some s' → (j, false) ∈ handled s' →
  (j, false) ∈ handled s ∨ ∃ i, who = Some i ∧ batch_refused i j s.
Proof.
  destruct who as [i|]; cbn.
  - unfold step_worker. destruct (pool s !! i) as [v|] eqn:Hi; [|done]. destruct v as [|j'|n| |]; [| | |done..].
    + destruct (jobs s); [destruct (closed s); [|done]|]; intros [= <-]; by left.
    + intros [= <-]. unfold handle, batch_failed.
      destruct (makeUsers _ _ _ _ _) as [us|e|] eqn:Hmake; [|cbn|by left].
      * destruct (InsertSeedUsers us (world s)) as [[[]|e|] w] eqn:Hins; cbn; [..|by left].
        -- intros [[= ]|Hin]%elem_of_cons. by left.
        -- intros [[= ->]|Hin]%elem_of_cons; [right|by left]. exists i. split; [done|]. split; [done|].
           right. exists us, e. by rewrite Hins.
      * intros [[= ->]|Hin]%elem_of_cons; [right|by left]. exists i. split; [done|]. split; [done|]. left. eauto.
    + intros [= <-]. by left.
  - unfold step_main. repeat case_match; try done; intros [= <-]; by left.
Qed.

(** A batch that was not inserted was refused at some moment of the run. *)
Lemma failed_batch w s j :
  rtc steps (start cfg w) s → (j, false) ∈ handled s →
  ∃ s1 i s2, rtc steps (start cfg w) s1 ∧ batch_refused i j s1 ∧
    step rand cfg count (Some i) s1 = Some s2 ∧ rtc steps s2 s.
Proof.
  revert s. apply (rtc_ind_r (λ s, (j, false) ∈ handled s → _)); [by intros ?%not_elem_of_nil|].
  intros s s' Hrun [who Hstep] IH Hin. destruct (step_refused _ _ _ _ Hstep Hin) as [Hold|(i & -> & Href)].
  - destruct (IH Hold) as (s1 & i & s2 & H1 & H2 & H3 & H4). exists s1, i, s2. split_and!; [done..|].
    eapply rtc_r; [exact H4|by exists who].
  - exists s, i, s'. done.
Qed.
End executions.

(** C21: seeding reports success only when it is complete, and an error only when a
    batch was refused. However the workers are scheduled and whatever the database
    answers, rows that were in the table stay as they are and every new row accepts the default password; if
    [seed] returns no error, every user from 1 to [count] is in the table; and if it
    returns one, then at some moment of this very run a worker had a batch in hand
    whose users could not be made or whose [INSERT] the database answered with an
    error (for a salt source that fills its buffer, and [count] plus the batch size
    below 2^63). *)
Theorem seed_complete {W : Type} `{!MySQL W} (users : W → gmap Z user_row)
    (same_name : string → string → Prop) (found_rows : bool)
    `{!MySQLLaws W users same_name found_rows}
    (rand : Z → outcome error bytes) (cfg : Config) (count : Z) (w w' : W) r :
  (∀ uid, rand uid ≠ Panic ∧ ∀ salt, rand uid = Ok salt → salt ≠ []) →
  count + batchSize cfg < 2 ^ 63 → seed rand cfg count w r w' →
  (∀ k row, users w !! k = Some row → users w' !! k = Some row) ∧
  (∀ k row, users w' !! k = Some row → users w !! k = Some row ∨ default_password cfg row) ∧
  (r = Ok tt → ∀ uid, 1 ≤ uid ≤ count →
     has_user (users := users) (same_name := same_name) uid w') ∧
  (r ≠ Ok tt → ∃ s1 i j s2 s,
     rtc (steps rand cfg count) (start cfg w) s1 ∧ batch_refused rand cfg count i j s1 ∧
     step rand cfg count (Some i) s1 = Some s2 ∧ rtc (steps rand cfg count) s2 s ∧
     returned s ∧ r = result count s ∧ w' = world s).
Proof.
  intros Hrand Hfits [Hc|s Hc Hrtc Hret].
  { split_and!; [done|by left|lia|done]. }
  pose proof (steps_accounted rand cfg count Hrand Hc Hfits _ _
    (accounted_start cfg count Hc w) Hrtc) as Hs.
  destruct (steps_stored rand cfg count Hrand Hc Hfits w _ _
    (accounted_start cfg count Hc w) (stored_start cfg count w) Hrtc) as [Hkeep Hnew Hin].
  destruct (returned_spec cfg count Hc Hfits s Hs Hret) as (Hperm & _ & _).
  pose proof (result_spec rand cfg count Hrand Hc Hfits s Hs Hret) as Hres. split_and!; [done|done| |].
  - intros Hok uid Hu. apply Hres in Hok.
    destruct (batch_of cfg count (count_int cfg count Hfits) uid Hu) as [Hk Hrange].
    apply (Hin _) in Hrange; [done|].
    assert (first_id cfg ((uid - 1) / batchSize cfg) ∈ (handled s).*1) as Hh.
    { rewrite Hperm. apply list_elem_of_fmap_2, elem_of_seqZ. lia. }
    rewrite <- batches_split, Hok, app_nil_r in Hh. exact Hh.
  - intros Hno. destruct (batches false s) as [|j l] eqn:Hf; [by destruct Hno; apply Hres|].
    assert (j ∈ batches false s) as Hj by (rewrite Hf; by left).
    apply list_elem_of_fmap in Hj as ([j' ok] & -> & [Hok Hin']%list_elem_of_filter).
    cbn in Hok. subst. destruct (failed_batch rand cfg count w s j' Hrtc Hin') as (s1 & i & s2 & H1 & H2 & H3 & H4).
    by exists s1, i, j', s2, s.
Qed.

(** ** Names of different users differ *)

Lemma parse_pad8 n : 0 ≤ n → parse_digits 0 (pad8 n) = Some n.
Proof.
  intros Hn. unfold pad8. transitivity (parse_digits 0 (format_uint n)).
  2: by apply parse_digits_format.
  induction (8 - length (format_uint n))%nat as [|k IH]; [done|]. exact IH.
Qed.

Lemma seed_username_inj m n : 0 ≤ m → 0 ≤ n → seed_username m = seed_username n → m = n.
Proof.
  intros Hm Hn E%(f_equal bytes_of). unfold seed_username in E. autorewrite with gobytes in E.
  apply app_inv_head in E.
  apply (f_equal (parse_digits 0)) in E. rewrite !parse_pad8 in E by done. congruence.
Qed.

(** ** A small run *)

(** Two workers, batches of two, and a database in memory. *)
Definition seed_cfg : Config := {|
  DBCP := DBCP Default; TCP := TCP Default; HTTP := HTTP Default; Database := Database Default;
  Config.Redis := Config.Redis Default;
  Security := {| TokenSecret := ""; SessionTTL := 0; PasswordIterations := 2 |};
  Upload := Upload Default;
  Config.Seed := {| Count := 3; BatchSize := 2; Concurrency := 2; DefaultPassword := "Password123!" |} |}.
Definition fixed_salt (uid : Z) : outcome error bytes := Ok (replicate 16 x07).

(** Both batches are sent; the second worker takes the first one; both workers
    run to their ends. *)
Definition seed_schedule : list (option nat) :=
  [None; None; None; Some 1; Some 0; Some 0; Some 1; Some 1; Some 0; Some 0; Some 1]%nat.

Lemma fixed_salt_ok uid : fixed_salt uid ≠ Panic ∧ ∀ salt, fixed_salt uid = Ok salt → salt ≠ [].
Proof. split; [done|]. by intros salt [= <-]. Qed.

Lemma seed_run :
  seed fixed_salt seed_cfg 3 demo_table (Ok tt)
    (world (follow fixed_salt seed_cfg 3 seed_schedule (start seed_cfg demo_table))).
Proof.
  set (s := follow _ _ _ _ _).
  assert (result 3 s = Ok tt) as <- by (vm_compute; reflexivity).
  apply seed_runs; [lia|apply follow_steps|].
  split; [vm_compute; reflexivity|]. vm_compute. repeat constructor.
Qed.

Lemma seed_complete_witness :
  has_user (users := table_users) (same_name := eq) 3
    (world (follow fixed_salt seed_cfg 3 seed_schedule (start seed_cfg demo_table))).
Proof.
  destruct (seed_complete table_users eq false fixed_salt seed_cfg 3 demo_table _ _
    fixed_salt_ok ltac:(vm_compute; reflexivity) seed_run) as (_ & _ & Hall & _).
  apply Hall; [reflexivity|lia].
Defined.

Definition seed_end : state :=
  Eval vm_compute in follow fixed_salt seed_cfg 3 seed_schedule (start seed_cfg demo_table).

Lemma seed_end_reached : rtc (steps fixed_salt seed_cfg 3) (start seed_cfg demo_table) seed_end.
Proof.
  assert (follow fixed_salt seed_cfg 3 seed_schedule (start seed_cfg demo_table) = seed_end) as <-
    by (vm_compute; reflexivity). apply follow_steps.
Qed.

Lemma seed_end_stuck : ¬ ∃ s', steps fixed_salt seed_cfg 3 seed_end s'.
Proof. intros (s' & [[|[|i]]|] & Hstep); vm_compute in Hstep; discriminate Hstep. Qed.

Lemma seed_terminates_witness : returned seed_end.
Proof.
  apply (seed_terminates (users := table_users) fixed_salt seed_cfg 3 fixed_salt_ok
    ltac:(lia) ltac:(vm_compute; reflexivity) demo_table).
  - exact seed_end_reached.
  - exact seed_end_stuck.
Defined.
