(* ===== verification/Service.v ===== *)
(** * The user service ([src/internal/service/service.go])

    The stores are interfaces of the Go code: records of operations here.  The
    clock, the random source, the file system and the MIME database of the host
    are operations of [Host]. *)

From S2P Require Import Prelude GoStrings GoEncoding GoCrypto GoPath Json Sniff Errors Token Password Protocol Store.
From Stdlib Require Import Strings.Byte.

(** ** Interfaces *)

Record UserStore (W : Type) := {
  us_GetUserAuthByUsername : string → eff W error UserAuth;
  us_GetUserProfileByID : Z → eff W error Store.UserProfile;
  us_UpdateNickname : Z → string → eff W error Store.UserProfile;
  us_UpdateProfilePicture : Z → string → string → Z → eff W error Store.UserProfile;
}.

Record SessionStore (W : Type) := {
  SaveSession : string → Z → Z → eff W error unit;
  GetSession : string → eff W error (Z * bool);
  DeleteSession : string → eff W error unit;
}.

Record PictureCache (W : Type) := {
  SaveProfilePicture : Z → Z → string → bytes → eff W error unit;
  pc_GetProfilePicture : Z → Z → eff W error (string * bytes * bool);
  DeleteProfilePicture : Z → Z → eff W error unit;
}.

Arguments us_GetUserAuthByUsername {W}. Arguments us_GetUserProfileByID {W}.
Arguments us_UpdateNickname {W}. Arguments us_UpdateProfilePicture {W}.
Arguments SaveSession {W}. Arguments GetSession {W}. Arguments DeleteSession {W}.
Arguments SaveProfilePicture {W}. Arguments pc_GetProfilePicture {W}.
Arguments DeleteProfilePicture {W}.

Class Host (W : Type) := {
  time_now : W → Z * W;                       (* time.Now, in nanoseconds *)
  rand_Read : Z → eff W error bytes;
  os_MkdirAll : string → eff W error unit;
  os_WriteFile : string → bytes → eff W error unit;
  os_Remove : string → eff W error unit;
  os_ReadFile : string → eff W error bytes;
  ExtensionsByType : string → option (list string);   (* None is an error *)
}.

Record Service (W : Type) := {
  store : UserStore W;
  sessions : option (SessionStore W);
  pictureCache : option (PictureCache W);
  tokens : TokenManager;
  uploadDir : string;
  allowedMIMEs : gset string;
  maxUploadBytes : Z;
  profilePictureBaseURL : string;
  passwordIterations : Z;
  maxNicknameBytes : Z;
}.
Arguments store {W}. Arguments sessions {W}. Arguments pictureCache {W}. Arguments tokens {W}.
Arguments uploadDir {W}. Arguments allowedMIMEs {W}. Arguments maxUploadBytes {W}.
Arguments profilePictureBaseURL {W}. Arguments passwordIterations {W}.
Arguments maxNicknameBytes {W}.

(** [mysqlstore.Store] as the service's store. *)
Definition mysql_store {W} `{!MySQL W} : UserStore W := {|
  us_GetUserAuthByUsername := GetUserAuthByUsername;
  us_GetUserProfileByID := GetUserProfileByID;
  us_UpdateNickname := Store.UpdateNickname;
  us_UpdateProfilePicture := Store.UpdateProfilePicture;
|}.

Definition invalid_credentials : error :=
  NewAppError "invalid_credentials" "Invalid username or password." (Sentinel ErrUnauthorized).

Section service.
Context {W : Type} `{!Host W} (s : Service W).
Abbreviation svc A := (eff W error A).

Definition time_Now : svc Z := λ w, let (t, w') := time_now w in (Ok t, w').

(** [_ = m]: an error is dropped. *)
Definition ignore_error (m : svc unit) : svc unit := λ w,
  match m w with
  | (Err _, w') => (Ok tt, w')
  | r => r
  end.

(** [if errors.Is(err, mysqlstore.ErrNotFound) { return e }; return err] *)
Definition on_not_found {A} (e : error) (m : svc A) : svc A := λ w,
  match m w with
  | (Err err, w') => (Err (if errors_Is err store_ErrNotFound then e else err), w')
  | r => r
  end.

Definition contains_byte (b : byte) (str : string) : bool := bool_decide (b ∈ bytes_of str).

Definition valid_path (p : option string) : bool :=
  match p with Some path => negb (bool_decide (path = "")) | None => false end.

Definition toProtocolProfile (profile : Store.UserProfile) : Protocol.UserProfile :=
  {| up_ID := ID profile; up_Username := Store.Username profile; up_Nickname := Nickname profile;
     up_ProfilePictureURL :=
       if valid_path (ProfilePicturePath profile) then
         let sep := if contains_byte x3f (profilePictureBaseURL s) then "&" else "?" in
         profilePictureBaseURL s +:+ sep +:+ "v=" +:+ FormatUint (ProfileVersion profile)
       else "" |}.

Definition requireUser (token : string) : svc Z :=
  if decide (TrimSpace token = "") then throw (Sentinel ErrUnauthorized)
  else
    now ← time_Now;
    userID ← lift (Verify (tokens s) token now);
    match sessions s with
    | None => mret userID
    | Some ss =>
        '(storedUserID, ok) ← GetSession ss token;
        if negb ok || negb (storedUserID =? userID) then throw (Sentinel ErrUnauthorized)
        else mret userID
    end.

Definition Logout (token : string) : svc unit :=
  match sessions s with
  | Some ss => if decide (TrimSpace token = "") then mret tt else DeleteSession ss token
  | None => mret tt
  end.

Definition GetProfile (userID : Z) : svc Protocol.UserProfile :=
  profile ← on_not_found (Sentinel ErrNotFound) (us_GetUserProfileByID (store s) userID);
  mret (toProtocolProfile profile).

Definition Login (body : LoginBody) : svc LoginResult :=
  let name := TrimSpace (Protocol.Username body) in
  if decide (name = "" ∨ Protocol.Password body = "") then throw invalid_credentials
  else
    user ← on_not_found invalid_credentials (us_GetUserAuthByUsername (store s) name);
    ok ← lift (VerifyPassword (Protocol.Password body) (PasswordSalt user) (PasswordHash user)
                 (PasswordIter user));
    if negb ok then throw invalid_credentials
    else
      now ← time_Now;
      nonce ← rand_Read 16;
      '(token, exp) ← lift (Issue (tokens s) (ua_ID user) now (Ok nonce));
      _ ← match sessions s with
          | Some ss =>
              now ← time_Now;
              SaveSession ss token (ua_ID user) (exp * Second - now)
          | None => mret tt
          end;
      profile ← us_GetUserProfileByID (store s) (ua_ID user);
      mret {| lr_Token := token; lr_ExpiresAt := exp; lr_User := toProtocolProfile profile |}.

Definition invalid_nickname : error :=
  NewAppError "invalid_nickname" "Nickname must be valid UTF-8 and within the configured length."
    (Sentinel ErrBadRequest).

Definition UpdateNickname (userID : Z) (nick : string) : svc Protocol.UserProfile :=
  let nick := TrimSpace nick in
  if decide (nick = "" ∨ ValidString nick = false ∨ maxNicknameBytes s < slen nick)
  then throw invalid_nickname
  else
    profile ← on_not_found (Sentinel ErrNotFound) (us_UpdateNickname (store s) userID nick);
    mret (toProtocolProfile profile).

Definition extensionFor (contentType fileName : string) : string :=
  match ExtensionsByType contentType with
  | Some (ext :: _) => ext
  | _ =>
      let ext := ToLower (Ext fileName) in
      if decide (ext ∈ [".jpg"; ".jpeg"; ".png"; ".webp"; ".gif"]) then ext else ".bin"
  end.

(** [strings.TrimSpace(strings.Split(ct, ";")[0])], or what was detected. *)
Definition media_type (ct detected : string) : string :=
  let t := TrimSpace (string_of (default [] (head (split_byte x3b (bytes_of ct))))) in
  if decide (t = "") then detected else t.

Definition upload_rel_path (userID nanos : Z) (ext : string) : string :=
  FormatUint userID +:+ "/" +:+ Itoa nanos +:+ ext.

Definition zero_profile : Store.UserProfile :=
  {| ID := 0; Store.Username := ""; Nickname := ""; ProfilePicturePath := None;
     ProfilePictureMIME := None; ProfilePictureSize := 0; ProfileVersion := 0 |}.

(** [oldProfile, _ := s.store.GetUserProfileByID(...)] *)
Definition old_profile (userID : Z) : svc Store.UserProfile := λ w,
  match us_GetUserProfileByID (store s) userID w with
  | (Err _, w') => (Ok zero_profile, w')
  | r => r
  end.

(** The row is updated last; when that fails the file just written is removed. *)
Definition update_picture_row (userID : Z) (relPath contentType : string) (size : Z)
    (absPath : string) : svc Store.UserProfile := λ w,
  match us_UpdateProfilePicture (store s) userID relPath contentType size w with
  | (Err err, w') =>
      (_ ← ignore_error (os_Remove absPath);
       throw (if errors_Is err store_ErrNotFound then Sentinel ErrNotFound else err)) w'
  | r => r
  end.

Definition UploadProfilePicture (userID : Z) (body : UploadProfilePictureBody) :
    svc Protocol.UserProfile :=
  match b64_decode StdEncoding (bytes_of (DataBase64 body)) with
  | None => throw (NewAppError "invalid_upload" "Uploaded file is not valid base64."
                     (Sentinel ErrBadRequest))
  | Some data =>
      if maxUploadBytes s <? Z.of_nat (length data) then throw (Sentinel ErrPayloadTooLarge)
      else
        let detected := DetectContentType data in
        let contentType := media_type (ContentType body) detected in
        if decide (contentType ∉ allowedMIMEs s) then throw (Sentinel ErrUnsupportedType)
        else if decide (detected ≠ "application/octet-stream" ∧ (detected ∉ allowedMIMEs s))
        then throw (Sentinel ErrUnsupportedType)
        else
          let ext := extensionFor contentType (FileName body) in
          now ← time_Now;
          let relPath := upload_rel_path userID now ext in
          let absPath := JoinPath (uploadDir s) relPath in
          oldProfile ← old_profile userID;
          _ ← os_MkdirAll (Dir absPath);
          _ ← os_WriteFile absPath data;
          profile ← update_picture_row userID relPath contentType (Z.of_nat (length data)) absPath;
          _ ← match pictureCache s with
              | Some pc =>
                  _ ← (if 0 <? ProfileVersion oldProfile
                       then ignore_error (DeleteProfilePicture pc userID (ProfileVersion oldProfile))
                       else mret tt);
                  ignore_error (SaveProfilePicture pc userID (ProfileVersion profile) contentType data)
              | None => mret tt
              end;
          mret (toProtocolProfile profile)
  end.

Definition picture_result (mimeType : string) (data : bytes) : ProfilePictureResult :=
  {| pp_ContentType := mimeType; pp_DataBase64 := string_of (b64_encode StdEncoding data) |}.

(** The picture from the upload directory; it is put into the cache. *)
Definition read_picture (userID : Z) (profile : Store.UserProfile) (path : string) :
    svc ProfilePictureResult :=
  let absPath := JoinPath (uploadDir s) (Clean path) in
  data ← (λ w, match os_ReadFile absPath w with
               | (Err err, w') =>
                   (Err (if errors_Is err os_ErrNotExist then Sentinel ErrNotFound else err), w')
               | r => r
               end);
  let mimeType := match ProfilePictureMIME profile with
                  | Some m => if decide (m = "") then "application/octet-stream" else m
                  | None => "application/octet-stream"
                  end in
  _ ← match pictureCache s with
      | Some pc => ignore_error (SaveProfilePicture pc userID (ProfileVersion profile) mimeType data)
      | None => mret tt
      end;
  mret (picture_result mimeType data).

Definition GetProfilePicture (userID : Z) : svc ProfilePictureResult :=
  profile ← on_not_found (Sentinel ErrNotFound) (us_GetUserProfileByID (store s) userID);
  match ProfilePicturePath profile with
  | Some path =>
      if decide (path = "" ∨ ProfileVersion profile = 0) then throw (Sentinel ErrNotFound)
      else
        match pictureCache s with
        | Some pc =>
            '(mimeType, data, ok) ← pc_GetProfilePicture pc userID (ProfileVersion profile);
            if (ok : bool) then mret (picture_result mimeType data)
            else read_picture userID profile path
        | None => read_picture userID profile path
        end
  | None => throw (Sentinel ErrNotFound)
  end.

(** [decodeBody], wrapped by the caller as an application error. *)
Definition decodeBody {A} (message : string) (of_json : json → option A) (raw : option json) :
    svc A :=
  match raw with
  | None => throw (NewAppError "bad_request" message (Sentinel ErrBadRequest))
  | Some v =>
      match of_json v with
      | Some b => mret b
      | None => throw (NewAppError "bad_request" message (Plain "json: cannot unmarshal"))
      end
  end.

Definition marshal {A} (to_json : A → json) (m : svc A) : svc json :=
  v ← m; mret (to_json v).

Definition Handle (req : Request) : svc json :=
  if decide (req_Op req = OpLogin) then
    body ← decodeBody "Invalid login body." LoginBody_of (req_Body req);
    marshal LoginResult_json (Login body)
  else if decide (req_Op req = OpGetProfile) then
    userID ← requireUser (req_Token req);
    marshal UserProfile_json (GetProfile userID)
  else if decide (req_Op req = OpGetProfilePicture) then
    userID ← requireUser (req_Token req);
    marshal ProfilePictureResult_json (GetProfilePicture userID)
  else if decide (req_Op req = OpUpdateNickname) then
    userID ← requireUser (req_Token req);
    body ← decodeBody "Invalid nickname body." UpdateNicknameBody_of (req_Body req);
    marshal UserProfile_json (UpdateNickname userID body)
  else if decide (req_Op req = OpUploadProfilePicture) then
    userID ← requireUser (req_Token req);
    body ← decodeBody "Invalid upload body." UploadProfilePictureBody_of (req_Body req);
    marshal UserProfile_json (UploadProfilePicture userID body)
  else if decide (req_Op req = OpLogout) then
    _ ← Logout (req_Token req); mret (JObj [])
  else throw (NewAppError "unknown_operation" "Unknown TCP operation." (Sentinel ErrBadRequest)).
End service.
