(* ===== verification/ServiceSpec.v ===== *)
(** * What the user service guarantees

    Authentication of every protected operation, sessions, the checks on
    credentials, nicknames and uploads. *)

From S2P Require Import Prelude GoStrings GoEncoding GoCrypto GoPath Json Sniff Errors Token Password Protocol Store Service.
From Stdlib Require Import Strings.Byte.

(** The operations that need a session. *)
Definition protected_ops : list string :=
  [OpGetProfile; OpGetProfilePicture; OpUpdateNickname; OpUploadProfilePicture].

Lemma Verify_Err m token now e : Verify m token now = Err e → e = Sentinel ErrUnauthorized.
Proof.
  unfold Verify. destruct (split_byte x2e (bytes_of token)) as [|p [|sig [|]]]; try (by intros [= <-]).
  case_decide; [by intros [= <-]|]. destruct (b64_decode _ _); [|by intros [= <-]].
  destruct (unmarshal_claims _); [|by intros [= <-]]. destruct (_ || _); [|done]. by intros [= <-].
Qed.

Lemma Verify_no_panic m token now : Verify m token now ≠ Panic.
Proof.
  unfold Verify. destruct (split_byte x2e (bytes_of token)) as [|p [|sig [|]]]; try done.
  case_decide; [done|]. destruct (b64_decode _ _); [|done].
  destruct (unmarshal_claims _); [|done]. by destruct (_ || _).
Qed.

Section auth.
Context {W : Type} `{!Host W} (s : Service W).

(** A protected operation starts with [requireUser]; the rest runs as the user
    it returns. *)
Lemma Handle_protected req :
  req_Op req ∈ protected_ops →
  ∃ rest : Z → eff W error json, Handle s req = (userID ← requireUser s (req_Token req); rest userID).
Proof.
  destruct req as [version rid op token body]. cbn [req_Op req_Token].
  unfold protected_ops. rewrite !elem_of_cons, elem_of_nil.
  intros [->|[->|[->|[->|[]]]]]; unfold Handle; cbn [req_Op req_Token req_Body];
    repeat (first [rewrite decide_True by done | rewrite decide_False by done]); by eexists.
Qed.

Lemma requireUser_rejects token w :
  TrimSpace token = "" ∨ is_ok (Verify (tokens s) token (time_now w).1) = false →
  requireUser s token w =
    (Err (Sentinel ErrUnauthorized), if decide (TrimSpace token = "") then w else (time_now w).2).
Proof.
  intros Hbad. unfold requireUser. case_decide as Hblank; [done|].
  destruct Hbad as [?|Hbad]; [done|]. unfold mbind, eff_bind, time_Now, lift.
  destruct (time_now w) as [now w1]; cbn [fst snd] in *.
  pose proof (Verify_Err (tokens s) token now) as He.
  pose proof (Verify_no_panic (tokens s) token now).
  destruct (Verify (tokens s) token now) as [uid|e|]; [done| |done]. by rewrite (He e eq_refl).
Qed.

(** A protected request with a blank, malformed, forged or expired token
    is answered with [ErrUnauthorized] before any store, cache or file is
    touched: the world is left as reading the clock leaves it. *)
Lemma Handle_unauthenticated req w :
  req_Op req ∈ protected_ops →
  TrimSpace (req_Token req) = "" ∨
    is_ok (Verify (tokens s) (req_Token req) (time_now w).1) = false →
  Handle s req w =
    (Err (Sentinel ErrUnauthorized),
     if decide (TrimSpace (req_Token req) = "") then w else (time_now w).2).
Proof.
  intros Hop Hbad. destruct (Handle_protected req Hop) as [rest ->].
  unfold mbind, eff_bind. by rewrite requireUser_rejects.
Qed.

Lemma requireUser_Ok token w uid w' :
  requireUser s token w = (Ok uid, w') →
  Verify (tokens s) token (time_now w).1 = Ok uid ∧
  match sessions s with
  | Some ss => GetSession ss token (time_now w).2 = (Ok (uid, true), w')
  | None => w' = (time_now w).2
  end.
Proof.
  unfold requireUser. case_decide; [done|]. unfold mbind, eff_bind, time_Now, lift.
  destruct (time_now w) as [now w1]; cbn [fst snd].
  destruct (Verify (tokens s) token now) as [u|e|]; [|done..].
  destruct (sessions s) as [ss|]; [|by intros [= -> ->]].
  destruct (GetSession ss token w1) as [[[stored ok]|e|] w2]; [|done..].
  destruct ok; cbn [negb orb]; [|done].
  destruct (Z.eqb_spec stored u) as [->|]; cbn [negb]; [|done]. by intros [= -> ->].
Qed.

(** A protected request succeeds only for a token that [Verify] accepts
    at that time and, when sessions are kept, that the session store still
    has for the same user. *)
Lemma Handle_authenticated req w v w' :
  req_Op req ∈ protected_ops → Handle s req w = (Ok v, w') →
  ∃ uid, Verify (tokens s) (req_Token req) (time_now w).1 = Ok uid ∧
    ∀ ss, sessions s = Some ss →
      ∃ w1, GetSession ss (req_Token req) (time_now w).2 = (Ok (uid, true), w1).
Proof.
  intros Hop. destruct (Handle_protected req Hop) as [rest ->].
  intros (uid & w1 & Hreq & _)%eff_bind_run. destruct (requireUser_Ok _ _ _ _ Hreq) as [Hv Hss].
  exists uid. split; [done|]. intros ss Hs. rewrite Hs in Hss. eauto.
Qed.

(** C36: a login does not tell whether the user exists. A blank name or
    password, an unknown user and a wrong password all get the same error,
    and nothing has been changed by then. *)
Theorem Login_uniform_refusal body w :
  let name := TrimSpace (Protocol.Username body) in
  (name = "" ∨ Protocol.Password body = "" → Login s body w = (Err invalid_credentials, w)) ∧
  (name ≠ "" → Protocol.Password body ≠ "" →
   ∀ r w1, us_GetUserAuthByUsername (store s) name w = (r, w1) →
   match r with
   | Err e => errors_Is e store_ErrNotFound = true
   | Ok u => VerifyPassword (Protocol.Password body) (PasswordSalt u) (PasswordHash u)
               (PasswordIter u) = Ok false
   | Panic => False
   end → Login s body w = (Err invalid_credentials, w1)).
Proof.
  cbn zeta. unfold Login. split.
  - intros Hblank. by rewrite decide_True.
  - intros Hn Hp r w1 Hget Hr. rewrite decide_False by tauto.
    unfold mbind, eff_bind, on_not_found, lift. rewrite Hget.
    destruct r as [u|e|]; [by rewrite Hr|by rewrite Hr|done].
Qed.

(** What a successful login went through, step by step. *)
Lemma Login_Ok body w res w' :
  Login s body w = (Ok res, w') →
  ∃ user w1 now w2 nonce w3 token exp w4 profile,
    us_GetUserAuthByUsername (store s) (TrimSpace (Protocol.Username body)) w = (Ok user, w1) ∧
    VerifyPassword (Protocol.Password body) (PasswordSalt user) (PasswordHash user)
      (PasswordIter user) = Ok true ∧
    time_now w1 = (now, w2) ∧ rand_Read 16 w2 = (Ok nonce, w3) ∧
    Issue (tokens s) (ua_ID user) now (Ok nonce) = Ok (token, exp) ∧
    match sessions s with
    | Some ss => SaveSession ss token (ua_ID user) (exp * Second - (time_now w3).1)
                   (time_now w3).2 = (Ok tt, w4)
    | None => w4 = w3
    end ∧
    us_GetUserProfileByID (store s) (ua_ID user) w4 = (Ok profile, w') ∧
    res = {| lr_Token := token; lr_ExpiresAt := exp; lr_User := toProtocolProfile s profile |}.
Proof.
  unfold Login. case_decide as Hblank; [done|].
  intros (user & w1 & Hget & Hrun)%eff_bind_run.
  apply eff_bind_run in Hrun as (ok & w1' & [Hver ->]%lift_run & Hrun).
  destruct ok; cbn [negb] in Hrun; [|done].
  apply eff_bind_run in Hrun as (now & w2 & Hnow & Hrun).
  apply eff_bind_run in Hrun as (nonce & w3 & Hrand & Hrun).
  apply eff_bind_run in Hrun as ([token exp] & w3' & [Hissue ->]%lift_run & Hrun).
  apply eff_bind_run in Hrun as ([] & w4 & Hsave & Hrun).
  apply eff_bind_run in Hrun as (profile & w5 & Hprof & [= <- <-]).
  exists user, w1, now, w2, nonce, w3, token, exp, w4, profile.
  assert (Hget' : us_GetUserAuthByUsername (store s) (TrimSpace (Protocol.Username body)) w = (Ok user, w1)).
  { unfold on_not_found in Hget. by destruct (us_GetUserAuthByUsername _ _ w) as [[u|e|] ?]. }
  assert (Hnow' : time_now w1 = (now, w2)).
  { unfold time_Now in Hnow. destruct (time_now w1). congruence. }
  split_and!; try done.
  destruct (sessions s) as [ss|]; [|by injection Hsave].
  apply eff_bind_run in Hsave as (now2 & w3' & Hnow2 & Hsave). unfold time_Now in Hnow2.
  destruct (time_now w3) as [t w3'']. injection Hnow2 as <- <-. done.
Qed.

(** A successful login proves the password: the stored salt and hash of
    the user accept it. The token returned is accepted by [Verify] for that
    user until the returned expiry, which is one session lifetime away. *)
Lemma Login_sound body w res w' :
  Login s body w = (Ok res, w') →
  ∃ user w1 now w2,
    us_GetUserAuthByUsername (store s) (TrimSpace (Protocol.Username body)) w = (Ok user, w1) ∧
    VerifyPassword (Protocol.Password body) (PasswordSalt user) (PasswordHash user)
      (PasswordIter user) = Ok true ∧
    time_now w1 = (now, w2) ∧ lr_ExpiresAt res = Unix (now + ttl (tokens s)) ∧
    (0 < ua_ID user < 2 ^ 64 → - 2 ^ 63 ≤ lr_ExpiresAt res < 2 ^ 63 →
     ∀ later, Unix later < lr_ExpiresAt res →
       Verify (tokens s) (lr_Token res) later = Ok (ua_ID user)).
Proof.
  intros (user & w1 & now & w2 & nonce & w3 & token & exp & w4 & profile &
    Hget & Hver & Hnow & _ & Hissue & _ & _ & ->)%Login_Ok.
  exists user, w1, now, w2. cbn [lr_ExpiresAt lr_Token].
  destruct (issued_token _ _ _ _ _ _ Hissue) as [Hexp _].
  split_and!; [done..|]. intros Hid Hrange later Hlater.
  rewrite Hexp in Hrange. rewrite (issued_verifies _ _ _ _ _ _ _ Hid Hrange Hissue).
  by rewrite (proj2 (Z.ltb_lt _ _)).
Qed.
End auth.

(** ** Nicknames and uploads *)

Section updates.
Context {W : Type} `{!Host W} (s : Service W).

(** Only a proper nickname reaches the store. [UpdateNickname] either
    refuses with [invalid_nickname] and touches nothing, or the trimmed
    nickname is non-empty, valid UTF-8, within the length limit and free of
    surrounding white space, and it is exactly what the store is asked to
    save, for exactly this user. *)
Lemma UpdateNickname_validated uid nick w :
  let n := TrimSpace nick in
  UpdateNickname s uid nick w = (Err invalid_nickname, w) ∨
  n ≠ "" ∧ ValidString n = true ∧ slen n ≤ maxNicknameBytes s ∧ trimmed (bytes_of n) ∧
  UpdateNickname s uid nick w =
    (profile ← on_not_found (Sentinel ErrNotFound) (us_UpdateNickname (store s) uid n);
     mret (toProtocolProfile s profile)) w.
Proof.
  cbn zeta. unfold UpdateNickname. case_decide as Hbad; [by left|right].
  destruct (ValidString (TrimSpace nick)) eqn:Hv; [|naive_solver].
  split_and!; [naive_solver|done|lia| |done].
  unfold TrimSpace. rewrite bytes_of_string_of. apply trim_space_trimmed.
Qed.

(** What an upload must satisfy. *)
Definition acceptable (body : UploadProfilePictureBody) (data : bytes) : Prop :=
  b64_decode StdEncoding (bytes_of (DataBase64 body)) = Some data ∧
  Z.of_nat (length data) ≤ maxUploadBytes s ∧
  (media_type (ContentType body) (DetectContentType data) ∈ allowedMIMEs s) ∧
  (DetectContentType data = "application/octet-stream" ∨ DetectContentType data ∈ allowedMIMEs s).

(** An upload that is not base64, is too large, or is of a type that is
    not allowed (as declared or as detected from its bytes) is refused with
    the corresponding error before a row, a file or the cache is touched. *)
Lemma UploadProfilePicture_refuses uid body w :
  (∀ data, ¬ acceptable body data) →
  ∃ e, UploadProfilePicture s uid body w = (Err e, w) ∧
    (ErrorCode e).1 ∈ ["invalid_upload"; "payload_too_large"; "unsupported_media_type"].
Proof.
  intros Hno. unfold UploadProfilePicture.
  destruct (b64_decode StdEncoding _) as [data|] eqn:Hd; [|eexists; split; [done|set_solver]].
  destruct (Z.ltb_spec (maxUploadBytes s) (Z.of_nat (length data))) as [|Hlen];
    [eexists; split; [done|set_solver]|].
  case_decide as Hct; [eexists; split; [done|set_solver]|].
  case_decide as Hdt; [eexists; split; [done|set_solver]|].
  destruct (Hno data). split_and!; [done|done|done|].
  destruct (decide (DetectContentType data = "application/octet-stream")); [by left|right].
  apply dec_stable. tauto.
Qed.

(** The file of an upload is written at a path below the upload directory. *)
Lemma digits_plain n rest :
  (slash ∉ rest) → plain (format_int n ++ rest).
Proof.
  intros Hr.
  assert (Hhd : ∃ b t, format_int n = b :: t ∧ b ≠ x2e).
  { unfold format_int. destruct (n <? 0); [by eexists _, _|].
    destruct (format_uint_cons n) as (b & t & E & Hb). exists b, t. split; [done|].
    intros ->. by vm_compute in Hb. }
  destruct Hhd as (b & t & E & Hb). rewrite E. split_and!; [done|by intros [= ? _]..|].
  rewrite elem_of_app. intros [Hin|]; [|done]. rewrite <- E in Hin.
  unfold format_int in Hin.
  assert (Hd : ∀ m, slash ∉ format_uint m).
  { intros m Hm. pose proof (format_uint_digits m) as HF. rewrite Forall_forall in HF.
    by specialize (HF _ Hm). }
  destruct (n <? 0); [|by apply Hd in Hin].
  apply elem_of_cons in Hin as [?|Hin]; [done|]. by apply Hd in Hin.
Qed.

(** The extension of an upload contains no separator. *)
Lemma extension_no_slash ct fileName :
  (∀ exts e, ExtensionsByType (W := W) ct = Some exts → e ∈ exts → slash ∉ bytes_of e) →
  slash ∉ bytes_of (extensionFor (W := W) ct fileName).
Proof.
  intros Hext.
  assert (Hknown : Forall (λ e, slash ∉ bytes_of e)
    [".bin"; ".jpg"; ".jpeg"; ".png"; ".webp"; ".gif"]) by (decide_by_vm).
  rewrite Forall_forall in Hknown.
  assert (Hfall : slash ∉ bytes_of (let ext := ToLower (Ext fileName) in
    if decide (ext ∈ [".jpg"; ".jpeg"; ".png"; ".webp"; ".gif"]) then ext else ".bin")).
  { cbn zeta. apply Hknown. case_decide; [by right|by left]. }
  unfold extensionFor. destruct (ExtensionsByType ct) as [[|e exts]|] eqn:He;
    [done| |done]. apply (Hext (e :: exts)); [done|by left].
Qed.

Lemma uint_plain n : 0 ≤ n → plain (format_uint n).
Proof.
  intros Hn. pose proof (digits_plain n [] ltac:(set_solver)) as Hp. rewrite app_nil_r in Hp.
  unfold format_int in Hp. by rewrite (proj2 (Z.ltb_ge _ _)) in Hp by lia.
Qed.

(** The path kept in a row is clean. *)
Lemma upload_rel_path_clean uid now ext :
  0 ≤ uid → (slash ∉ bytes_of ext) →
  Clean (upload_rel_path uid now ext) = upload_rel_path uid now ext.
Proof.
  intros Hid Hext. unfold Clean, upload_rel_path, FormatUint, Itoa.
  rewrite !bytes_of_app, !bytes_of_string_of.
  change (bytes_of "/" ++ format_int now ++ bytes_of ext) with (slash :: (format_int now ++ bytes_of ext)).
  rewrite clean_two by (by apply uint_plain || by apply digits_plain).
  change (slash :: (format_int now ++ bytes_of ext)) with (bytes_of "/" ++ format_int now ++ bytes_of ext).
  by rewrite !string_of_app, !string_of_bytes_of.
Qed.

(** C37: the file of an upload lies below the upload directory. Whatever the
    user id, the time and the file name, the path written to is the cleaned
    upload directory followed by [<id>/<time><extension>]. *)
Theorem upload_path_contained uid now ct fileName :
  uploadDir s ≠ "" → 0 ≤ uid →
  (∀ exts e, ExtensionsByType (W := W) ct = Some exts → e ∈ exts → slash ∉ bytes_of e) →
  let rel := upload_rel_path uid now (extensionFor (W := W) ct fileName) in
  let dir := clean (bytes_of (uploadDir s)) in
  ∃ base, bytes_of (JoinPath (uploadDir s) rel) = base ++ bytes_of rel ∧
    (base = [] ∧ dir = dot ∨ base = [slash] ∧ dir = [slash] ∨ base = dir ++ [slash]).
Proof.
  intros Hdir Hid Hext. cbn zeta. unfold JoinPath. rewrite bytes_of_string_of.
  pose proof (extension_no_slash ct fileName Hext) as Hslash.
  set (ext := extensionFor ct fileName) in *.
  unfold upload_rel_path, FormatUint, Itoa.
  rewrite !bytes_of_app, !bytes_of_string_of.
  change (bytes_of "/" ++ format_int now ++ bytes_of ext) with (slash :: (format_int now ++ bytes_of ext)).
  apply join_below.
  - intros E. apply Hdir. by rewrite <- (string_of_bytes_of (uploadDir s)), E.
  - by apply uint_plain.
  - by apply digits_plain.
Qed.
End updates.

(** ** Sessions *)

(** What the service relies on of a session store: [sess w token] is the user of
    a session and the time it ends, if it ever does.  Whether other tokens share
    a slot with this one is left open. *)
Class SessionLaws {W : Type} `{!Host W} (ss : SessionStore W) (clock : W → Z)
    (sess : W → string → option (Z * option Z)) : Prop := {
  now_law w : (time_now w).1 = clock w ∧ clock w ≤ clock (time_now w).2 ∧
              sess (time_now w).2 = sess w;
  save_law token uid ttl w :
    uint64 uid →
    wp (SaveSession ss token uid ttl) (λ r w', r ≠ Panic ∧
      (r = Ok tt → ∃ d, sess w' token = Some (uid, Some d) ∧ clock w + ttl - Second < d)) w;
  get_law token w :
    wp (GetSession ss token) (λ r w', r ≠ Panic ∧ sess w' = sess w ∧
      ∀ uid ok, r = Ok (uid, ok) →
        if (ok : bool) then ∃ d, sess w token = Some (uid, d)
        else ∀ u d, sess w token = Some (u, d) → ∃ t, d = Some t ∧ t ≤ clock w') w;
  delete_law token w :
    wp (DeleteSession ss token) (λ r w', r ≠ Panic ∧ (r = Ok tt → sess w' token = None)) w;
}.

Section sessions.
Context {W : Type} `{!Host W} (s : Service W) (ss : SessionStore W) (clock : W → Z)
  (sess : W → string → option (Z * option Z)) `{!SessionLaws ss clock sess}.
Context (Hss : sessions s = Some ss).

(** Logging out revokes the token. After a logout with a token has
    succeeded, no request with that token is authenticated in any world in
    which no session was saved for it again, even though its signature is
    valid and it has not expired. *)
Lemma Logout_revokes token w w1 w2 r w3 :
  TrimSpace token ≠ "" → Logout s token w = (Ok tt, w1) →
  sess w2 token = sess w1 token →
  requireUser s token w2 = (r, w3) → is_ok r = false.
Proof.
  intros Hblank Hlogout Hsame Hreq. unfold Logout in Hlogout.
  rewrite Hss, decide_False in Hlogout by done.
  pose proof (wp_run _ _ _ _ _ (delete_law token w) Hlogout) as (_ & Hgone).
  rewrite (Hgone eq_refl) in Hsame. destruct r as [uid|e|]; [exfalso|done|done].
  apply requireUser_Ok in Hreq as [_ Hget]. rewrite Hss in Hget.
  pose proof (wp_run _ _ _ _ _ (get_law token (time_now w2).2) Hget) as (_ & _ & Hok).
  destruct (Hok uid true eq_refl) as [d Hd]. destruct (now_law w2) as (_ & _ & Hw).
  congruence.
Qed.

(** C9: a session works once it is made. After a successful login, a request
    with the token at least one second before its expiry is authenticated as
    the user who logged in, provided the session store answers and still has
    the session. *)
Theorem Login_then_authenticated body w res w' :
  Login s body w = (Ok res, w') →
  (∀ uid w, wp (us_GetUserProfileByID (store s) uid) (λ _ w', sess w' = sess w) w) →
  ∃ user w1,
    us_GetUserAuthByUsername (store s) (TrimSpace (Protocol.Username body)) w = (Ok user, w1) ∧
    (0 < ua_ID user < 2 ^ 64 → - 2 ^ 63 ≤ lr_ExpiresAt res < 2 ^ 63 →
     ∀ w2 p w3,
       (∀ d, sess w' (lr_Token res) = Some (ua_ID user, d) →
             sess w2 (lr_Token res) = Some (ua_ID user, d)) →
       GetSession ss (lr_Token res) (time_now w2).2 = (Ok p, w3) →
       Unix (clock w2) < lr_ExpiresAt res → clock w3 ≤ (lr_ExpiresAt res - 1) * Second →
       requireUser s (lr_Token res) w2 = (Ok (ua_ID user), w3)).
Proof.
  intros (user & w1 & now & wn & nonce & wr & token & exp & w4 & profile &
    Hget & Hver & Hnow & _ & Hissue & Hsave & Hprof & ->)%Login_Ok Hread.
  exists user, w1. split; [done|]. cbn [lr_Token lr_ExpiresAt].
  intros Huid Hexp w2 p w3 Hkeep Hsess Hlater Hearly.
  rewrite Hss in Hsave. pose proof (wp_run _ _ _ _ _ (save_law _ (ua_ID user) _ _ ltac:(split; lia)) Hsave) as (_ & Hsaved).
  destruct (Hsaved eq_refl) as (d & Hd & Hdl).
  destruct (now_law wr) as (Hc1 & Hc2 & _).
  pose proof (wp_run _ _ _ _ _ (Hread _ _) Hprof) as Hr. rewrite <- Hr in Hd.
  apply Hkeep in Hd. destruct (now_law w2) as (Hn1 & _ & Hn2).
  pose proof (wp_run _ _ _ _ _ (get_law token (time_now w2).2) Hsess) as (_ & _ & Hok).
  destruct p as [u ok]. specialize (Hok u ok eq_refl). rewrite Hn2 in Hok.
  assert (ok = true ∧ u = ua_ID user) as [-> ->].
  { destruct ok; [destruct Hok; split; congruence|]. destruct (Hok _ _ Hd) as (t & [= <-] & ?). lia. }
  destruct (issued_token _ _ _ _ _ _ Hissue) as [Hexp' Hdot].
  unfold requireUser. rewrite decide_False by (by apply TrimSpace_dot).
  unfold mbind, eff_bind, time_Now, lift. destruct (time_now w2) as [t2 w2'] eqn:Ht2; cbn [fst snd] in *.
  rewrite (issued_verifies _ (ua_ID user) now nonce token exp t2); [|lia|lia|done].
  rewrite (proj2 (Z.ltb_lt _ _)) by (rewrite Hn1; lia). rewrite Hss, Hsess.
  cbn [negb orb]. by rewrite Z.eqb_refl.
Qed.
End sessions.
