(* ===== verification/Memory.v ===== *)
(** * A host in memory

    Clock, random source, files, users, sessions and picture cache as plain
    maps: an implementation of the service's interfaces on which requests can
    be evaluated, and which satisfies the laws the theorems assume. *)

From S2P Require Import Prelude GoStrings GoEncoding GoCrypto GoPath Json Sniff Errors Token Password Protocol Store Service ServiceSpec.
From Stdlib Require Import Strings.Byte.

Record world := World {
  w_clock : Z;
  w_users : table;
  w_sessions : gmap string (Z * Z);
  w_cache : gmap (Z * Z) (string * bytes);
  w_files : gmap string bytes;
}.

Definition on_users {A} (m : eff table error A) : eff world error A := λ w,
  let (r, t) := m (w_users w) in
  (r, World (w_clock w) t (w_sessions w) (w_cache w) (w_files w)).
Definition on_sessions {A} (m : eff (gmap string (Z * Z)) error A) : eff world error A := λ w,
  let (r, t) := m (w_sessions w) in
  (r, World (w_clock w) (w_users w) t (w_cache w) (w_files w)).
Definition on_cache {A} (m : eff (gmap (Z * Z) (string * bytes)) error A) : eff world error A := λ w,
  let (r, t) := m (w_cache w) in
  (r, World (w_clock w) (w_users w) (w_sessions w) t (w_files w)).
Definition on_files {A} (m : eff (gmap string bytes) error A) : eff world error A := λ w,
  let (r, t) := m (w_files w) in
  (r, World (w_clock w) (w_users w) (w_sessions w) (w_cache w) t).

#[global] Instance memory_host : Host world := {|
  time_now w := (w_clock w, w);
  rand_Read n w := (Ok (replicate (Z.to_nat n) x2a), w);
  os_MkdirAll _ w := (Ok tt, w);
  os_WriteFile path data := on_files (λ t, (Ok tt, <[path := data]> t));
  os_Remove path := on_files (λ t, (Ok tt, delete path t));
  os_ReadFile path := on_files (λ t, (of_option (Sentinel os_ErrNotExist) (t !! path), t));
  ExtensionsByType ct := if decide (ct = "image/png") then Some [".png"] else None;
|}.

#[global] Instance memory_mysql : MySQL world := {|
  query_row q := on_users (query_row q);
  exec stmt := on_users (exec stmt);
  count_users := on_users count_users;
|}.

Definition memory_sessions : SessionStore world := {|
  SaveSession token uid ttl w :=
    if ttl <=? 0 then (Err (Plain "session ttl must be positive"), w)
    else on_sessions (λ t, (Ok tt, <[token := (uid, w_clock w + ttl)]> t)) w;
  GetSession token w :=
    (Ok (match w_sessions w !! token with
         | Some (uid, d) => if w_clock w <? d then (uid, true) else (0, false)
         | None => (0, false)
         end), w);
  DeleteSession token := on_sessions (λ t, (Ok tt, delete token t));
|}.

Definition memory_cache : PictureCache world := {|
  SaveProfilePicture uid version mime data :=
    on_cache (λ t, (Ok tt, <[(uid, version) := (mime, data)]> t));
  pc_GetProfilePicture uid version :=
    on_cache (λ t, (Ok (match t !! (uid, version) with
                        | Some (mime, data) => (mime, data, true)
                        | None => ("", [], false)
                        end), t));
  DeleteProfilePicture uid version := on_cache (λ t, (Ok tt, delete (uid, version) t));
|}.

Definition memory_sess (w : world) (token : string) : option (Z * option Z) :=
  prod_map (λ u, u) Some <$> w_sessions w !! token.

#[global] Instance memory_session_laws : SessionLaws memory_sessions w_clock memory_sess.
Proof.
  split.
  - intros w. split_and!; [done|cbn; lia|done].
  - intros token uid ttl w _. unfold wp, memory_sess. cbn. destruct (Z.leb_spec ttl 0); cbn; [done|].
    split; [done|]. intros _. exists (w_clock w + ttl). rewrite lookup_insert_eq. split; [done|].
    unfold Second. lia.
  - intros token w. unfold wp, memory_sess. cbn. split_and!; [done|done|].
    intros uid ok [= Hr]. destruct (w_sessions w !! token) as [[u d]|]; [|by simplify_eq].
    destruct (Z.ltb_spec (w_clock w) d); simplify_eq; [by eauto|].
    intros u' d' [= <- <-]. by eauto.
  - intros token w. unfold wp, memory_sess. cbn. split; [done|]. intros _. by rewrite lookup_delete_eq.
Qed.

(** ** A running service *)

Definition demo_password_row : user_row :=
  {| id := 7; username := "user00000007"; nickname := "User 00000007";
     password_salt := replicate 16 x07;
     password_hash :=
       match pbkdf2_Key (bytes_of "Password123!") (replicate 16 x07) 1 32 with
       | Ok k => k | _ => [] end;
     password_iter := 1; profile_picture_path := None; profile_picture_mime := None;
     profile_picture_size := 0; profile_picture_version := 0 |}.

Definition demo_service : Service world := {|
  store := mysql_store;
  sessions := Some memory_sessions;
  pictureCache := Some memory_cache;
  tokens := demo_manager;
  uploadDir := "/app/runtime/profile-pictures";
  allowedMIMEs := list_to_set ["image/jpeg"; "image/png"; "image/webp"; "image/gif"];
  maxUploadBytes := 2097152;
  profilePictureBaseURL := "/api/me/profile-picture";
  passwordIterations := 1;
  maxNicknameBytes := 764;
|}.

Definition w0 : world := World (1000 * Second) {[7 := demo_password_row]} ∅ ∅ ∅.

Definition login_request : LoginBody :=
  {| Protocol.Username := " user00000007 "; Protocol.Password := "Password123!" |}.

Definition logged_in : outcome error LoginResult * world :=
  Eval vm_compute in Login demo_service login_request w0.
Definition w1 : world := logged_in.2.
Definition demo_login : LoginResult :=
  match logged_in.1 with Ok r => r | _ => Build_LoginResult "" 0 UserProfile0 end.

Lemma login_runs : Login demo_service login_request w0 = (Ok demo_login, w1).
Proof. vm_compute. reflexivity. Qed.

Definition profile_request (token : string) : Request :=
  Build_Request 1 "1" OpGetProfile token None.

Lemma upload_path_contained_witness :
  ∃ base, bytes_of (JoinPath "/app/runtime/profile-pictures" (upload_rel_path 7 12 ".png")) =
          base ++ bytes_of "7/12.png".
Proof.
  destruct (upload_path_contained demo_service 7 12 "image/png" "../../etc/passwd") as (base & Hb & _).
  - discriminate.
  - lia.
  - intros exts e [= <-]. intros ->%list_elem_of_singleton. refine (bool_decide_unpack _ _).
    vm_compute. exact I.
  - exists base. exact Hb.
Defined.

Lemma Login_then_authenticated_witness :
  ∃ user wa, us_GetUserAuthByUsername mysql_store "user00000007" w0 = (Ok user, wa) ∧
    (ua_ID user = 7 →
     requireUser demo_service (lr_Token demo_login) w1 = (Ok (ua_ID user), w1)).
Proof.
  destruct (Login_then_authenticated demo_service memory_sessions w_clock memory_sess eq_refl
    login_request w0 demo_login w1 login_runs) as (user & wa & Hget & Hauth).
  - intros uid w. unfold wp. cbn. unfold GetUserProfileByID, mapNoRows, mbind, eff_bind. cbn.
    unfold on_users, memory_sess. cbn. by destruct (of_option _ _).
  - exists user, wa. split; [exact Hget|]. intros Hid.
    eapply (Hauth); [rewrite Hid; lia|vm_compute; split; congruence|done| | |].
    + reflexivity.
    + vm_compute. reflexivity.
    + vm_compute. discriminate.
Defined.
