(* ===== verification/Pictures.v ===== *)
(** * Profile pictures: rows, files and cache together
    ([UploadProfilePicture] and [GetProfilePicture] in
    [src/internal/service/service.go])

    A picture is a file that a row of the users table points to, with a version
    that grows with every upload; a cache holds copies by user and version.  The
    invariant is that a cached copy of a user's current version is the picture
    the row points to; operations that run one after the other keep it, whatever
    calls fail on the way, and two uploads of one user that overlap do not. *)

From S2P Require Import Prelude GoStrings GoEncoding GoPath Json Sniff Errors Token Protocol Store Service ServiceSpec Memory.
From stdpp Require Import relations.
From Stdlib Require Import Strings.Byte.
#[local] Open Scope Z_scope.

(** ** What the service relies on *)

(** A cache may forget entries at any time. *)
Definition shrinks {A : Type} (old new : option A) : Prop := new = old ∨ new = None.

(** [cached w uid version]: what the cache holds.  A save that reports an error
    may have been applied. *)
Class CacheLaws {W : Type} (pc : PictureCache W)
    (cached : W → Z → Z → option (string * bytes)) : Prop := {
  save_cached uid version mime data w :
    uint64 uid → uint64 version → text mime →
    wp (SaveProfilePicture pc uid version mime data) (λ r w', r ≠ Panic ∧
      ∀ u v, uint64 u → uint64 v →
        shrinks (cached w u v) (cached w' u v) ∨
        (u, v) = (uid, version) ∧ cached w' u v = Some (mime, data)) w;
  get_cached uid version w :
    wp (pc_GetProfilePicture pc uid version) (λ r w', r ≠ Panic ∧
      (∀ u v, uint64 u → uint64 v → shrinks (cached w u v) (cached w' u v)) ∧
      ∀ mime data, r = Ok (mime, data, true) → cached w uid version = Some (mime, data)) w;
  delete_cached uid version w :
    wp (DeleteProfilePicture pc uid version) (λ r w', r ≠ Panic ∧
      ∀ u v, uint64 u → uint64 v → shrinks (cached w u v) (cached w' u v)) w;
}.

(** The file system: an operation on a path changes no other file. *)
Class FileLaws (W : Type) `{!Host W} (files : W → gmap string bytes) : Prop := {
  mkdir_files dir w : wp (os_MkdirAll dir) (λ r w', r ≠ Panic ∧ files w' = files w) w;
  write_files path data w :
    wp (os_WriteFile path data) (λ r w', r ≠ Panic ∧
      (∀ p, p ≠ path → files w' !! p = files w !! p) ∧
      (r = Ok tt → files w' !! path = Some data)) w;
  remove_files path w :
    wp (os_Remove path) (λ r w', r ≠ Panic ∧ ∀ p, p ≠ path → files w' !! p = files w !! p) w;
  read_files path w :
    wp (os_ReadFile path) (λ r w', r ≠ Panic ∧ files w' = files w ∧
      ∀ data, r = Ok data → files w !! path = Some data) w;
  extensions_plain ct exts e :
    ExtensionsByType (W := W) ct = Some exts → e ∈ exts → slash ∉ bytes_of e;
}.

(** Table, files and cache are separate stores. *)
Class SeparateStores {W : Type} `{!Host W, !MySQL W} (pc : PictureCache W)
    (users : W → gmap Z user_row) (files : W → gmap string bytes)
    (cached : W → Z → Z → option (string * bytes)) : Prop := {
  clock_separate w :
    users (time_now w).2 = users w ∧ files (time_now w).2 = files w ∧
    cached (time_now w).2 = cached w;
  query_separate q : keeps (λ w, (files w, cached w)) (query_row q);
  exec_separate stmt : keeps (λ w, (files w, cached w)) (exec stmt);
  mkdir_separate dir : keeps (λ w, (users w, cached w)) (os_MkdirAll dir);
  write_separate path data : keeps (λ w, (users w, cached w)) (os_WriteFile path data);
  remove_separate path : keeps (λ w, (users w, cached w)) (os_Remove path);
  read_separate path : keeps (λ w, (users w, cached w)) (os_ReadFile path);
  save_separate uid version mime data :
    keeps (λ w, (users w, files w)) (SaveProfilePicture pc uid version mime data);
  get_separate uid version : keeps (λ w, (users w, files w)) (pc_GetProfilePicture pc uid version);
  delete_separate uid version :
    keeps (λ w, (users w, files w)) (DeleteProfilePicture pc uid version);
}.

Section pictures.
Context {W : Type} `{!Host W, !MySQL W} (s : Service W) (pc : PictureCache W).
Context (users : W → gmap Z user_row) (files : W → gmap string bytes)
  (cached : W → Z → Z → option (string * bytes)).
Context {same_name : string → string → Prop} {found_rows : bool}
  `{!MySQLLaws W users same_name found_rows, !FileLaws W files, !CacheLaws pc cached,
    !SeparateStores pc users files cached}.
Context (Hstore : store s = mysql_store) (Hcache : pictureCache s = Some pc)
  (Hmimes : ∀ m, m ∈ allowedMIMEs s → m ≠ "" ∧ text m).
Implicit Types (w : W) (row : user_row).

(** ** The invariant *)

(** Where [GetProfilePicture] looks for a file, and the type it reports. *)
Definition file_of (path : string) : string := JoinPath (uploadDir s) (Clean path).
Definition served_mime (m : option string) : string :=
  match m with
  | Some m => if decide (m = "") then "application/octet-stream" else m
  | None => "application/octet-stream"
  end.

(** The picture a row points to. *)
Definition stored (fs : gmap string bytes) row : option (string * bytes) :=
  path ← profile_picture_path row;
  if decide (path = "" ∨ profile_picture_version row = 0) then None
  else data ← fs !! file_of path; Some (served_mime (profile_picture_mime row), data).

Definition picture_of w (uid : Z) : option (string * bytes) := users w !! uid ≫= stored (files w).

Definition row_ok row : Prop :=
  uint64 (profile_picture_version row) ∧ text (served_mime (profile_picture_mime row)).

Definition coherent w : Prop :=
  map_Forall (λ _, row_ok) (users w) ∧
  ∀ uid v mime data, uint64 uid → uint64 v → cached w uid v = Some (mime, data) →
    ∃ row, users w !! uid = Some row ∧ v ≤ profile_picture_version row ∧
      (v = profile_picture_version row → stored (files w) row = Some (mime, data)).

Lemma coherent_shrinks w w' :
  users w' = users w → files w' = files w →
  (∀ u v, uint64 u → uint64 v → shrinks (cached w u v) (cached w' u v)) →
  coherent w → coherent w'.
Proof.
  intros Hu Hf Hc [Hrows Hco]. split; [by rewrite Hu|]. rewrite Hu, Hf.
  intros uid v mime data Huid Hv Hin. apply Hco; [done|done|].
  destruct (Hc uid v Huid Hv) as [E|E]; congruence.
Qed.

(** A file no row points to may change. *)
Definition unused w (path : string) : Prop :=
  ∀ uid row p, users w !! uid = Some row → profile_picture_path row = Some p → file_of p ≠ path.

Lemma stored_other fs fs' path row :
  (∀ p, p ≠ path → fs' !! p = fs !! p) →
  (∀ p, profile_picture_path row = Some p → file_of p ≠ path) →
  stored fs' row = stored fs row.
Proof.
  intros Hfs Hrow. unfold stored. destruct (profile_picture_path row) as [p|]; [cbn|done].
  case_decide; [done|]. by rewrite Hfs by auto.
Qed.

Lemma coherent_other_file path w w' :
  users w' = users w → cached w' = cached w → unused w path →
  (∀ p, p ≠ path → files w' !! p = files w !! p) →
  coherent w → coherent w'.
Proof.
  intros Hu Hc Hun Hf [Hrows Hco]. split; [by rewrite Hu|]. rewrite Hu, Hc.
  intros uid v mime data Huid Hv Hin.
  destruct (Hco uid v mime data Huid Hv Hin) as (row & Hrow & Hle & Hst).
  exists row. split_and!; [done|done|]. intros Heq. rewrite (stored_other _ _ path _ Hf); eauto.
Qed.

(** ** Rows and cache entries that are added *)

(** The version counter of the user is not exhausted. *)
Definition room w (uid : Z) : Prop :=
  ∀ row, users w !! uid = Some row → profile_picture_version row + 1 < 2 ^ 64.

(** A new row has a version no cache entry has. *)
Lemma coherent_new_row path uid rel ct size w w' :
  room w uid → ct ≠ "" → text ct → unused w path →
  (∀ p, p ≠ path → files w' !! p = files w !! p) → cached w' = cached w →
  users w' = users w ∨ users w' = updated_table (set_picture rel ct size) uid (users w) →
  coherent w → coherent w'.
Proof.
  intros Hroom Hne Htext Hun Hf Hc [Hu|Hu] Hco; [by eapply coherent_other_file|].
  unfold updated_table in Hu. destruct (users w !! uid) as [row|] eqn:Hrow;
    [|by eapply coherent_other_file].
  destruct Hco as [Hrows Hco]. pose proof (Hrows uid row Hrow) as [Hv _]. cbn beta in Hv.
  specialize (Hroom row Hrow). split; rewrite Hu.
  - apply map_Forall_insert_2; [|done]. split; cbn -[Z.pow].
    + unfold uint64 in *. lia.
    + by rewrite decide_False.
  - rewrite Hc. intros u v mime data Huid Hvu Hin.
    destruct (Hco u v mime data Huid Hvu Hin) as (row' & Hrow' & Hle & Hst).
    destruct (decide (u = uid)) as [->|Hneq].
    + exists (set_picture rel ct size row). rewrite lookup_insert_eq. replace row' with row in * by congruence.
      split_and!; [done|cbn; lia|cbn; lia].
    + exists row'. rewrite lookup_insert_ne by done. split_and!; [done|done|]. intros Heq.
      rewrite (stored_other (files w) _ path); eauto.
Qed.

(** A cache entry for the current version holds the picture of the row. *)
Lemma coherent_saved uid row mime data w w' :
  users w !! uid = Some row → stored (files w) row = Some (mime, data) →
  users w' = users w → files w' = files w →
  (∀ u v, uint64 u → uint64 v →
     shrinks (cached w u v) (cached w' u v) ∨
     (u, v) = (uid, profile_picture_version row) ∧ cached w' u v = Some (mime, data)) →
  coherent w → coherent w'.
Proof.
  intros Hrow Hst Hu Hf Hc [Hrows Hco]. split; [by rewrite Hu|]. rewrite Hu, Hf.
  intros u v m d Huid Hv Hin. destruct (Hc u v Huid Hv) as [[E|E]|[E1 E2]]; [|congruence|].
  - apply Hco; congruence.
  - simplify_eq. exists row. split_and!; [done|lia|]. congruence.
Qed.

(** ** Reading a picture *)

Definition same w w' : Prop := users w' = users w ∧ files w' = files w ∧ cached w' = cached w.

Lemma GetUserProfileByID_keeps uid : keeps (λ w, (files w, cached w)) (GetUserProfileByID uid).
Proof.
  intros w. pose proof (query_separate (WhereId uid) w) as Hq.
  unfold GetUserProfileByID, mapNoRows, mbind, eff_bind.
  by destruct (query_row (WhereId uid) w) as [[]].
Qed.

Lemma profile_read uid w :
  wp (us_GetUserProfileByID (store s) uid) (λ r w', r ≠ Panic ∧ same w w' ∧
    ∀ p, r = Ok p → ∃ row, users w !! uid = Some row ∧ p = profile_of row) w.
Proof.
  rewrite Hstore. pose proof (GetUserProfileByID_keeps uid w) as [= Hf Hc].
  destruct (GetUserProfileByID_spec (users := users) uid w) as (Hnp & Hu & Hok & _).
  exact (conj Hnp (conj (conj Hu (conj Hf Hc)) Hok)).
Qed.

Lemma on_not_found_read uid e w :
  wp (on_not_found e (us_GetUserProfileByID (store s) uid)) (λ r w', r ≠ Panic ∧ same w w' ∧
    ∀ p, r = Ok p → ∃ row, users w !! uid = Some row ∧ p = profile_of row) w.
Proof.
  pose proof (profile_read uid w) as H. unfold on_not_found, wp in *.
  destruct (us_GetUserProfileByID (store s) uid w) as [[p|err|] w']; [done| |done].
  destruct H as (_ & Hsame & _). done.
Qed.

Lemma save_ignored uid row mime data w :
  uint64 uid → text mime → users w !! uid = Some row →
  stored (files w) row = Some (mime, data) → coherent w →
  wp (ignore_error (SaveProfilePicture pc uid (profile_picture_version row) mime data))
    (λ r w', r = Ok tt ∧ coherent w' ∧ users w' = users w ∧ files w' = files w) w.
Proof.
  intros Huid Htext Hrow Hst Hco.
  assert (Hv : uint64 (profile_picture_version row)) by apply (proj1 Hco _ _ Hrow).
  pose proof (save_separate (pc := pc) uid (profile_picture_version row) mime data w) as [= Hu Hf].
  destruct (save_cached uid (profile_picture_version row) mime data w Huid Hv Htext) as [Hnp Hc].
  pose proof (coherent_saved _ _ _ _ _ _ Hrow Hst Hu Hf Hc Hco) as Hco'.
  unfold ignore_error, wp.
  destruct (SaveProfilePicture pc uid _ mime data w) as [[[]|e|] w']; cbn in *; done.
Qed.

(** The file is read, and its picture is put into the cache. *)
Lemma read_picture_spec uid row path w :
  uint64 uid → users w !! uid = Some row → profile_picture_path row = Some path →
  ¬ (path = "" ∨ profile_picture_version row = 0) → coherent w →
  wp (read_picture s uid (profile_of row) path) (λ r w', r ≠ Panic ∧ coherent w' ∧
    users w' = users w ∧ files w' = files w ∧
    ∀ p, r = Ok p → ∃ mime data, picture_of w uid = Some (mime, data) ∧
      p = picture_result mime data) w.
Proof.
  intros Huid Hrow Hpath Hvalid Hco. unfold read_picture. apply wp_bind.
  pose proof (read_separate (pc := pc) (files := files) (JoinPath (uploadDir s) (Clean path)) w) as [= Hu Hc].
  destruct (read_files (JoinPath (uploadDir s) (Clean path)) w) as (Hnp & Hf & Hread).
  unfold wp at 1. destruct (os_ReadFile _ w) as [r w1]. cbn [fst snd] in *.
  assert (Hco1 : coherent w1).
  { eapply coherent_shrinks; [done|done| |done]. intros. left. by rewrite Hc. }
  destruct r as [data|e|]; [cbn [fst snd]|by split_and!|done]. specialize (Hread data eq_refl).
  assert (Hst : stored (files w) row = Some (served_mime (profile_picture_mime row), data)).
  { unfold stored, file_of. rewrite Hpath. cbn. by rewrite decide_False, Hread by done. }
  cbn [profile_of ProfilePictureMIME ProfileVersion]. fold (served_mime (profile_picture_mime row)).
  rewrite Hcache. apply wp_bind. eapply wp_mono, (save_ignored uid row).
  - cbn beta. intros r w2 (-> & Hco2 & Hu2 & Hf2). apply wp_ret.
    split_and!; [done|done|by rewrite Hu2|by rewrite Hf2|]. intros p [= <-]. eexists _, data.
    split; [|done]. unfold picture_of. by rewrite Hrow.
  - done.
  - apply (proj1 Hco _ _ Hrow).
  - by rewrite Hu.
  - by rewrite Hf.
  - done.
Qed.

Lemma GetProfilePicture_spec uid w :
  uint64 uid → coherent w →
  wp (GetProfilePicture s uid) (λ r w', r ≠ Panic ∧ coherent w' ∧
    users w' = users w ∧ files w' = files w ∧
    ∀ p, r = Ok p → ∃ mime data, picture_of w uid = Some (mime, data) ∧
      p = picture_result mime data) w.
Proof.
  intros Huid Hco. unfold GetProfilePicture. apply wp_bind.
  eapply wp_mono, on_not_found_read. intros r w1 (Hnp & (Hu & Hf & Hc) & Hp).
  assert (Hco1 : coherent w1).
  { eapply coherent_shrinks; [done|done| |done]. intros. left. by rewrite Hc. }
  assert (Hpic : picture_of w1 uid = picture_of w uid) by (unfold picture_of; by rewrite Hu, Hf).
  destruct r as [p|e|]; [|by split_and!|done]. destruct (Hp p eq_refl) as (row & Hrow & ->). clear Hp.
  rewrite <- Hu in Hrow. rewrite <- Hu, <- Hf, <- Hpic. clear Hu Hf Hc Hpic Hco Hnp w.
  cbn [profile_of ProfilePicturePath ProfileVersion].
  destruct (profile_picture_path row) as [path|] eqn:Hpath; [|by unfold wp; split_and!].
  destruct (decide (path = "" ∨ profile_picture_version row = 0)) as [|Hvalid];
    [by unfold wp; split_and!|].
  rewrite Hcache. apply wp_bind. pose proof (get_separate (pc := pc) uid (profile_picture_version row) w1) as [= Hu Hf].
  pose proof (get_cached uid (profile_picture_version row) w1) as Hget. unfold wp in Hget |- * at 1.
  destruct (pc_GetProfilePicture pc uid (profile_picture_version row) w1) as [r w2].
  cbn [fst snd] in *. destruct Hget as (Hnp & Hsh & Hhit).
  pose proof (coherent_shrinks _ _ Hu Hf Hsh Hco1) as Hco2.
  destruct r as [[[mime data] ok]|e|]; [|by split_and!|done].
  assert (Hv : uint64 (profile_picture_version row)) by apply (proj1 Hco1 _ _ Hrow).
  destruct ok.
  - apply wp_ret. split_and!; [done|done|done|done|]. intros p [= <-]. exists mime, data.
    split; [|done]. unfold picture_of. rewrite Hrow. cbn.
    destruct (proj2 Hco1 uid _ mime data Huid Hv (Hhit mime data eq_refl)) as (row' & Hrow' & _ & Hst).
    replace row' with row in Hst by congruence. by apply Hst.
  - eapply wp_mono, (read_picture_spec uid row path); [|done|congruence|done|done|done].
    unfold picture_of. intros r w3 (? & ? & ? & ? & Hp). rewrite Hu, Hf in *.
    split_and!; [done|done|congruence|congruence|done].
Qed.

(** ** Uploading a picture *)

(** What is known after an update of a row, whatever became of it. *)
Lemma update_outcome stmt f uid w :
  updates_row users found_rows f uid (exec stmt) →
  wp (res ← exec stmt;
      if none_affected res then throw (Sentinel store_ErrNotFound) else GetUserProfileByID uid)
    (λ r w', r ≠ Panic ∧ files w' = files w ∧ cached w' = cached w ∧
      (users w' = users w ∨ users w' = updated_table f uid (users w)) ∧
      ∀ p, r = Ok p → ∃ row, users w !! uid = Some row ∧
        users w' = <[uid := f row]> (users w) ∧ p = profile_of (f row)) w.
Proof.
  intros Hlaw. destruct (update_spec stmt f uid w Hlaw) as (Hnp & _ & Hok & _).
  set (m := res ← exec stmt; _) in *.
  assert (Hk : keeps (λ w, (files w, cached w)) m).
  { apply keeps_bind; [apply exec_separate|]. intros res. destruct (none_affected res); [done|].
    apply GetUserProfileByID_keeps. }
  specialize (Hk w) as [= Hf Hc].
  assert (Hu : wp m (λ _ w', users w' = users w ∨ users w' = updated_table f uid (users w)) w).
  { apply wp_bind. eapply wp_mono, (Hlaw w).
    intros [res|e|] w1 (Hnp1 & Hres & Herr); [|by apply (Herr e)|done].
    destruct (Hres res eq_refl) as [<- _]. destruct (none_affected res); [by right|].
    eapply wp_mono, (GetUserProfileByID_spec (users := users) uid w1).
    intros r w2 (_ & -> & _). by right. }
  exact (conj Hnp (conj Hf (conj Hc (conj Hu Hok)))).
Qed.

(** Files, and nothing else, changed, and at most at [path]. *)
Definition only_file (path : string) w w' : Prop :=
  users w' = users w ∧ cached w' = cached w ∧ ∀ p, p ≠ path → files w' !! p = files w !! p.

Lemma only_file_trans path w1 w2 w3 :
  only_file path w1 w2 → only_file path w2 w3 → only_file path w1 w3.
Proof.
  intros (Hu & Hc & Hf) (Hu' & Hc' & Hf').
  split_and!; [by rewrite Hu'|by rewrite Hc'|]. intros p Hp. by rewrite Hf', Hf.
Qed.

Lemma same_only_file path w w' : same w w' → only_file path w w'.
Proof. intros (Hu & Hf & Hc). split_and!; [done|done|]. by rewrite Hf. Qed.

Lemma os_MkdirAll_spec path dir w :
  wp (os_MkdirAll dir) (λ r w', r ≠ Panic ∧ only_file path w w') w.
Proof.
  pose proof (mkdir_separate (pc := pc) (files := files) dir w) as [= Hu Hc].
  destruct (mkdir_files dir w) as [Hnp Hf]. split; [done|].
  split_and!; [done|done|]. intros p _. unfold wp in Hf. by rewrite Hf.
Qed.

Lemma os_WriteFile_spec path data w :
  wp (os_WriteFile path data) (λ r w', r ≠ Panic ∧ only_file path w w' ∧
    (r = Ok tt → files w' !! path = Some data)) w.
Proof.
  pose proof (write_separate (pc := pc) (files := files) path data w) as [= Hu Hc].
  destruct (write_files path data w) as (Hnp & Hf & Hok). split_and!; done.
Qed.

Lemma os_Remove_ignored path w :
  wp (ignore_error (os_Remove path)) (λ r w', r = Ok tt ∧ only_file path w w') w.
Proof.
  pose proof (remove_separate (pc := pc) (files := files) path w) as [= Hu Hc].
  destruct (remove_files path w) as [Hnp Hf]. unfold ignore_error, wp.
  destruct (os_Remove path w) as [[[]|e|] w']; cbn in *; done.
Qed.

Lemma old_profile_spec uid w :
  wp (old_profile s uid) (λ r w', same w w' ∧ ∃ p, r = Ok p) w.
Proof.
  pose proof (profile_read uid w) as H. unfold old_profile, wp in *.
  destruct (us_GetUserProfileByID (store s) uid w) as [[p|e|] w'];
    destruct H as (Hnp & Hsame & _); [eauto|eauto|done].
Qed.

Lemma picture_of_other path uid w w' :
  (∀ u, u ≠ uid → users w' !! u = users w !! u) →
  (∀ p, p ≠ path → files w' !! p = files w !! p) → unused w path →
  ∀ u, u ≠ uid → picture_of w' u = picture_of w u.
Proof.
  intros Hu Hf Hun u Hne. unfold picture_of. rewrite Hu by done.
  destruct (users w !! u) as [row|] eqn:Hrow; [cbn|done]. apply (stored_other _ _ path); eauto.
Qed.

Lemma update_picture_row_spec uid rel ct size path w :
  unused w path → room w uid → ct ≠ "" → text ct → coherent w →
  wp (update_picture_row s uid rel ct size path) (λ r w', r ≠ Panic ∧ coherent w' ∧
    (∀ u, u ≠ uid → picture_of w' u = picture_of w u) ∧
    ∀ p, r = Ok p → files w' = files w ∧
      ∃ row, users w' !! uid = Some (set_picture rel ct size row) ∧
        0 ≤ profile_picture_version row ∧ p = profile_of (set_picture rel ct size row)) w.
Proof.
  intros Hun Hroom Hne Htext Hco. unfold update_picture_row, wp. rewrite Hstore. cbn [mysql_store us_UpdateProfilePicture].
  pose proof (update_outcome _ _ uid w (set_picture_law (users := users) rel ct size uid)) as Hup.
  unfold wp in Hup. fold (Store.UpdateProfilePicture uid rel ct size) in Hup.
  destruct (Store.UpdateProfilePicture uid rel ct size w) as [r w1]. cbn [fst snd] in Hup.
  destruct Hup as (Hnp & Hf & Hc & Hu & Hok).
  assert (Hut : ∀ u, u ≠ uid → users w1 !! u = users w !! u).
  { intros u Hneq. destruct Hu as [-> | ->]; [done|by apply updated_table_ne]. }
  destruct r as [p|e|]; [| |done]; cbn [fst snd].
  - split_and!; [done| | |].
    + eapply coherent_new_row; eauto. intros. by rewrite Hf.
    + eapply (picture_of_other path); eauto. intros. by rewrite Hf.
    + intros p' [= <-]. split; [done|]. destruct (Hok p eq_refl) as (row & Hrow & Hw1 & ->).
      exists row. rewrite Hw1, lookup_insert_eq. split_and!; [done| |done].
      apply (proj1 Hco _ _ Hrow).
  - pose proof (os_Remove_ignored path w1) as Hrm. unfold wp in Hrm.
    unfold mbind, eff_bind. destruct (ignore_error (os_Remove path) w1) as [r w2].
    cbn [fst snd] in Hrm. destruct Hrm as (-> & Hu2 & Hc2 & Hf2). unfold throw; cbn [fst snd].
    assert (Hf' : ∀ p, p ≠ path → files w2 !! p = files w !! p).
    { intros p Hp. by rewrite Hf2, Hf. }
    split_and!; [done| | |done].
    + eapply (coherent_new_row path); eauto; [by rewrite Hc2|by rewrite Hu2].
    + apply (picture_of_other path); [|done|done]. intros u Hneq. rewrite Hu2. auto.
Qed.

(** The old version is dropped from the cache and the new one is put in. *)
Lemma cache_upload old uid row ct data w :
  uint64 uid → text ct → users w !! uid = Some row → stored (files w) row = Some (ct, data) →
  coherent w →
  wp (_ ← (if 0 <? old then ignore_error (DeleteProfilePicture pc uid old) else mret tt);
      ignore_error (SaveProfilePicture pc uid (profile_picture_version row) ct data))
    (λ r w', r = Ok tt ∧ coherent w' ∧ users w' = users w ∧ files w' = files w) w.
Proof.
  intros Huid Htext Hrow Hst Hco. apply wp_bind.
  assert (Hdel : wp (if 0 <? old then ignore_error (DeleteProfilePicture pc uid old) else mret tt)
    (λ r w', r = Ok tt ∧ coherent w' ∧ users w' = users w ∧ files w' = files w) w).
  { destruct (0 <? old); [|by apply wp_ret].
    pose proof (delete_separate (pc := pc) (users := users) (files := files) uid old w) as [= Hu Hf].
    destruct (delete_cached uid old w) as [Hnp Hc].
    pose proof (coherent_shrinks _ _ Hu Hf Hc Hco). unfold ignore_error, wp.
    destruct (DeleteProfilePicture pc uid old w) as [[[]|e|] w']; cbn in *; done. }
  eapply wp_mono, Hdel. intros r w1 (-> & Hco1 & Hu1 & Hf1).
  rewrite <- Hu1, <- Hf1 in *. by apply save_ignored.
Qed.

(** No row points to the file the clock names now. *)
Definition fresh_name w (uid : Z) (body : UploadProfilePictureBody) : Prop :=
  ∀ ct, unused w (JoinPath (uploadDir s)
    (upload_rel_path uid (time_now w).1 (extensionFor (W := W) ct (FileName body)))).

(** What a body asks to be stored. *)
Definition uploaded (body : UploadProfilePictureBody) (mime : string) (data : bytes) : Prop :=
  b64_decode StdEncoding (bytes_of (DataBase64 body)) = Some data ∧
  mime = media_type (ContentType body) (DetectContentType data).

(** From the update of the row on: the file has been written. *)
Lemma finish_upload old uid rel ct data path w :
  uint64 uid → room w uid → ct ≠ "" → text ct → unused w path → rel ≠ "" → file_of rel = path →
  files w !! path = Some data → coherent w →
  wp (profile ← update_picture_row s uid rel ct (Z.of_nat (length data)) path;
      _ ← match pictureCache s with
          | Some pc =>
              _ ← (if 0 <? old then ignore_error (DeleteProfilePicture pc uid old) else mret tt);
              ignore_error (SaveProfilePicture pc uid (ProfileVersion profile) ct data)
          | None => mret tt
          end;
      mret (toProtocolProfile s profile))
    (λ r w', r ≠ Panic ∧ coherent w' ∧ (∀ u, u ≠ uid → picture_of w' u = picture_of w u) ∧
      ∀ p, r = Ok p → picture_of w' uid = Some (ct, data)) w.
Proof.
  intros Huid Hroom Hne Htext Hun Hrel Hfile Hwritten Hco.
  apply wp_bind. eapply wp_mono, (update_picture_row_spec uid rel ct _ path); [|done..].
  intros r w1 (Hnp & Hco1 & Hpic & Hok). destruct r as [p|e|]; [|by split_and!|done].
  destruct (Hok p eq_refl) as (Hf & row & Hrow & Hv & ->). clear Hok.
  assert (Hst : stored (files w1) (set_picture rel ct (Z.of_nat (length data)) row) = Some (ct, data)).
  { unfold stored. cbn. rewrite decide_False by (intros [?|?]; [done|lia]).
    rewrite Hf, Hfile, Hwritten. cbn. by rewrite decide_False. }
  rewrite Hcache. apply wp_bind.
  eapply wp_mono, (cache_upload old uid _ ct data _ Huid Htext Hrow Hst Hco1).
  intros r w2 (-> & Hco2 & Hu2 & Hf2). apply wp_ret. split_and!; [done|done| |].
  - intros u Hneq. rewrite <- Hpic by done. unfold picture_of. by rewrite Hu2, Hf2.
  - intros q [= <-]. unfold picture_of. by rewrite Hu2, Hf2, Hrow.
Qed.

Lemma UploadProfilePicture_spec uid body w :
  uint64 uid → room w uid → fresh_name w uid body → coherent w →
  wp (UploadProfilePicture s uid body) (λ r w', r ≠ Panic ∧ coherent w' ∧
    (∀ u, u ≠ uid → picture_of w' u = picture_of w u) ∧
    ∀ p, r = Ok p → ∃ mime data, uploaded body mime data ∧
      picture_of w' uid = Some (mime, data)) w.
Proof.
  intros Huid Hroom Hfresh Hco. unfold UploadProfilePicture.
  destruct (b64_decode StdEncoding _) as [data|] eqn:Hdec; [|by unfold wp; split_and!].
  destruct (maxUploadBytes s <? _); [by unfold wp; split_and!|].
  set (ct := media_type (ContentType body) (DetectContentType data)).
  destruct (decide (ct ∉ allowedMIMEs s)) as [|Hct%dec_stable]; [by unfold wp; split_and!|].
  destruct (decide (_ ∧ _)) as [|_]; [by unfold wp; split_and!|].
  destruct (Hmimes ct Hct) as [Hne Htext].
  specialize (Hfresh ct). set (ext := extensionFor ct (FileName body)) in *.
  assert (Hext : slash ∉ bytes_of ext) by (apply extension_no_slash, extensions_plain).
  destruct (clock_separate (pc := pc) (users := users) (files := files) w) as (Hu0 & Hf0 & Hc0).
  unfold time_Now. apply wp_bind. unfold wp at 1. destruct (time_now w) as [now w0] eqn:Hnow.
  cbn [fst snd] in *.
  set (rel := upload_rel_path uid now ext) in *. set (path := JoinPath (uploadDir s) rel) in *.
  assert (H0 : only_file path w w0) by (by apply same_only_file).
  assert (Hrel : file_of rel = path).
  { unfold file_of, path, rel. rewrite upload_rel_path_clean; [done| |done]. unfold uint64 in Huid. lia. }
  assert (Hrel0 : rel ≠ "") by (unfold rel, upload_rel_path; by destruct (FormatUint uid)).
  apply wp_bind. eapply wp_mono, old_profile_spec.
  intros r w1 (H1%(same_only_file path) & old & ->). pose proof (only_file_trans _ _ _ _ H0 H1) as Hw1.
  clear H0 H1. apply wp_bind. eapply wp_mono, (os_MkdirAll_spec path).
  intros r w2 (Hnp2 & H2). pose proof (only_file_trans _ _ _ _ Hw1 H2) as Hw2. clear Hw1 H2.
  assert (Hstop : ∀ w', only_file path w w' → coherent w' ∧ (∀ u, picture_of w' u = picture_of w u)).
  { intros w' (Hu & Hc & Hf). split; [by eapply coherent_other_file|]. intros u.
    apply (picture_of_other path (u + 1)); [|done|done|lia]. intros v _. by rewrite Hu. }
  destruct r as [[]|e|]; [|by destruct (Hstop w2 Hw2); split_and!|done].
  apply wp_bind. eapply wp_mono, (os_WriteFile_spec path).
  intros r w3 (Hnp3 & H3 & Hwritten). pose proof (only_file_trans _ _ _ _ Hw2 H3) as Hw3. clear Hw2 H3.
  destruct (Hstop w3 Hw3) as [Hco3 Hpic3].
  destruct r as [[]|e|]; [|by split_and!|done]. specialize (Hwritten eq_refl).
  assert (Hun3 : unused w3 path) by (unfold unused; by rewrite (proj1 Hw3)).
  assert (Hroom3 : room w3 uid) by (unfold room; by rewrite (proj1 Hw3)).
  eapply wp_mono, (finish_upload (ProfileVersion old) uid rel ct data path); [|done..].
  intros r w4 (Hnp4 & Hco4 & Hpic4 & Hok4). split_and!; [done|done| |].
  - intros u Hneq. by rewrite Hpic4.
  - intros p ->. exists ct, data. split; [done|]. by apply (Hok4 p).
Qed.

(** ** One operation after the other *)

(** A new nickname leaves the pictures alone. *)
Lemma nickname_step uid nick w :
  coherent w →
  wp (Service.UpdateNickname s uid nick) (λ r w', r ≠ Panic ∧ coherent w' ∧
    ∀ u, picture_of w' u = picture_of w u) w.
Proof.
  intros Hco. unfold Service.UpdateNickname. case_decide; [done|].
  set (n := TrimSpace nick). apply wp_bind. unfold on_not_found, wp at 1. rewrite Hstore.
  cbn [mysql_store us_UpdateNickname].
  pose proof (update_outcome _ _ uid w (set_nickname_law (users := users) n uid)) as Hup.
  unfold wp in Hup. fold (Store.UpdateNickname uid n) in Hup.
  destruct (Store.UpdateNickname uid n w) as [r w1]. cbn [fst snd] in Hup.
  destruct Hup as (Hnp & Hf & Hc & Hu & _).
  assert (Hrows : ∀ u, users w1 !! u = users w !! u ∨
    ∃ row, users w !! u = Some row ∧ users w1 !! u = Some (set_nickname n row)).
  { intros u. destruct Hu as [-> | ->]; [by left|]. unfold updated_table.
    destruct (users w !! uid) as [row|] eqn:Hrow; [|by left].
    destruct (decide (u = uid)) as [->|]; [right|left; by rewrite lookup_insert_ne].
    exists row. by rewrite lookup_insert_eq. }
  assert (Hpic : ∀ u, picture_of w1 u = picture_of w u).
  { intros u. unfold picture_of. rewrite Hf. by destruct (Hrows u) as [-> | (row & -> & ->)]. }
  assert (Hco1 : coherent w1).
  { destruct Hco as [Hok Hco]. split.
    - intros u row1 Hrow1. destruct (Hrows u) as [E|(row & E1 & E2)]; [rewrite E in Hrow1; by apply (Hok u)|].
      replace row1 with (set_nickname n row) by congruence. exact (Hok u row E1).
    - rewrite Hc, Hf. intros u v mime data Hud Hv Hin.
      destruct (Hco u v mime data Hud Hv Hin) as (row & Hrow & Hle & Hst).
      destruct (Hrows u) as [E|(row' & E1 & E2)]; [exists row; by rewrite E|].
      exists (set_nickname n row'). replace row' with row by congruence. split_and!; [|done|done].
      congruence. }
  by destruct r as [p|e|].
Qed.

(** The operations that touch pictures, and anything that touches neither rows
    nor files and at most empties the cache: logins, logouts, the clock, entries
    that expire. *)
Inductive picture_step (who : option Z) w w' : Prop :=
  | step_upload uid body r :
      who = Some uid → uint64 uid → room w uid → fresh_name w uid body →
      UploadProfilePicture s uid body w = (r, w') → picture_step who w w'
  | step_get uid r : uint64 uid → GetProfilePicture s uid w = (r, w') → picture_step who w w'
  | step_nickname uid nick r :
      Service.UpdateNickname s uid nick w = (r, w') → picture_step who w w'
  | step_other :
      users w' = users w → files w' = files w →
      (∀ u v, uint64 u → uint64 v → shrinks (cached w u v) (cached w' u v)) →
      picture_step who w w'.

Lemma picture_step_spec who w w' :
  picture_step who w w' → coherent w →
  coherent w' ∧ ∀ u, who ≠ Some u → picture_of w' u = picture_of w u.
Proof.
  intros [uid body r -> Huid Hroom Hfresh Hrun|uid r Huid Hrun|uid nick r Hrun|Hu Hf Hc] Hco.
  - destruct (wp_run _ _ _ _ _ (UploadProfilePicture_spec uid body w Huid Hroom Hfresh Hco) Hrun)
      as (_ & Hco' & Hpic & _). split; [done|]. intros u Hne. apply Hpic. congruence.
  - destruct (wp_run _ _ _ _ _ (GetProfilePicture_spec uid w Huid Hco) Hrun)
      as (_ & Hco' & Hu & Hf & _). split; [done|]. intros u _. unfold picture_of. by rewrite Hu, Hf.
  - destruct (wp_run _ _ _ _ _ (nickname_step uid nick w Hco) Hrun) as (_ & Hco' & Hpic). done.
  - split; [by eapply coherent_shrinks|]. intros u _. unfold picture_of. by rewrite Hu, Hf.
Qed.

(** Operations of anybody, or of anybody but one user's uploads. *)
Definition any_step w w' : Prop := ∃ who, picture_step who w w'.
Definition step_without (uid : Z) w w' : Prop := ∃ who, who ≠ Some uid ∧ picture_step who w w'.

Lemma steps_without uid w w' :
  rtc (step_without uid) w w' → coherent w → coherent w' ∧ picture_of w' uid = picture_of w uid.
Proof.
  intros Hsteps. induction Hsteps as [|w1 w2 w3 (who & Hne & Hstep) _ IH]; [done|]. intros Hco1.
  destruct (picture_step_spec who w1 w2 Hstep Hco1) as [Hco2 Hpic].
  destruct (IH Hco2) as [Hco3 E]. split; [done|]. rewrite E. by apply Hpic.
Qed.

(** C15: cached pictures are the stored ones.  Starting from a coherent state,
    after any sequence of uploads, reads, nickname changes and other activity, one
    after the other, in which any call to the table, the file system or the cache
    may have failed, and in which no upload was given the name of a file that a
    row points to or the last version a counter can hold, the state is coherent, and [GetProfilePicture] serves, from the cache
    or not, exactly the picture the user's row points to. *)
Theorem cache_is_transparent w w' uid r w'' :
  coherent w → rtc any_step w w' → uint64 uid → GetProfilePicture s uid w' = (r, w'') →
  coherent w' ∧ r ≠ Panic ∧
  ∀ p, r = Ok p → ∃ mime data, picture_of w' uid = Some (mime, data) ∧ p = picture_result mime data.
Proof.
  intros Hco Hsteps Huid Hget. assert (Hco' : coherent w').
  { clear Hget. induction Hsteps as [|w1 w2 w3 [who Hstep] _ IH]; [done|].
    apply IH. by apply (picture_step_spec who w1). }
  destruct (wp_run _ _ _ _ _ (GetProfilePicture_spec uid w' Huid Hco') Hget) as (Hnp & _ & _ & _ & Hp).
  done.
Qed.

(** What was uploaded is what is shown.  After a successful upload, and after
    any further operations other than uploads of the same user,
    [GetProfilePicture] returns the uploaded bytes with the type of the upload, or
    an error. *)
Lemma uploaded_picture_served w uid body profile w1 w2 r w3 :
  coherent w → uint64 uid → room w uid → fresh_name w uid body →
  UploadProfilePicture s uid body w = (Ok profile, w1) → rtc (step_without uid) w1 w2 →
  GetProfilePicture s uid w2 = (r, w3) →
  (∃ e, r = Err e) ∨
  ∃ mime data, uploaded body mime data ∧ r = Ok (picture_result mime data).
Proof.
  intros Hco Huid Hroom Hfresh Hup Hsteps Hget.
  destruct (wp_run _ _ _ _ _ (UploadProfilePicture_spec uid body w Huid Hroom Hfresh Hco) Hup)
    as (_ & Hco1 & _ & Hok). destruct (Hok profile eq_refl) as (mime & data & Hbody & Hpic).
  destruct (steps_without uid w1 w2 Hsteps Hco1) as [Hco2 Hsame].
  destruct (wp_run _ _ _ _ _ (GetProfilePicture_spec uid w2 Huid Hco2) Hget) as (Hnp & _ & _ & _ & Hp).
  destruct r as [p|e|]; [right|by left; eauto|done].
  destruct (Hp p eq_refl) as (mime' & data' & Hpic2 & ->). exists mime, data. split; [done|].
  do 2 f_equal; congruence.
Qed.
End pictures.

(** ** The host in memory *)

Definition memory_users (w : world) : gmap Z user_row := table_users (w_users w).
Definition memory_cached (w : world) (uid version : Z) : option (string * bytes) :=
  w_cache w !! (uid, version).

#[global] Instance memory_mysql_laws : MySQLLaws world memory_users eq false.
Proof.
  split.
  - intros q w. exact (query_row_law (users := table_users) q (w_users w)).
  - intros nick uid w. exact (set_nickname_law (users := table_users) nick uid (w_users w)).
  - intros rel mime size uid w.
    exact (set_picture_law (users := table_users) rel mime size uid (w_users w)).
  - intros us w. exact (insert_users_law (users := table_users) us (w_users w)).
  - intros w uid row. exact (users_keyed (users := table_users) (w_users w) uid row).
Qed.

#[global] Instance memory_file_laws : FileLaws world w_files.
Proof.
  split.
  - done.
  - intros path data w. split_and!; [done| |].
    + intros p Hp. cbn. by rewrite lookup_insert_ne.
    + intros _. cbn. by rewrite lookup_insert_eq.
  - intros path w. split; [done|]. intros p Hp. cbn. by rewrite lookup_delete_ne.
  - intros path w. unfold wp. cbn. destruct (w_files w !! path) as [d|]; cbn;
      (split_and!; [done|done|]); [by intros data [= <-]|done].
  - intros ct exts e. cbn. case_decide; [|done]. intros [= <-] ->%list_elem_of_singleton.
    decide_by_vm.
Qed.

#[global] Instance memory_cache_laws : CacheLaws memory_cache memory_cached.
Proof.
  split.
  - intros uid version mime data w _ _ _. split; [done|]. intros u v _ _. unfold memory_cached. cbn.
    destruct (decide ((u, v) = (uid, version))) as [E|E]; [right|left; left].
    + rewrite E. by rewrite lookup_insert_eq.
    + by rewrite lookup_insert_ne.
  - intros uid version w. split_and!; [done|by left|]. unfold memory_cached. cbn.
    destruct (w_cache w !! (uid, version)) as [[m d]|]; [by intros ? ? [= <- <-]|done].
  - intros uid version w. split; [done|]. intros u v _ _. unfold memory_cached, shrinks. cbn.
    destruct (decide ((u, v) = (uid, version))) as [E|E]; [right|left].
    + rewrite E. by rewrite lookup_delete_eq.
    + by rewrite lookup_delete_ne.
Qed.

#[global] Instance memory_separate :
  SeparateStores memory_cache memory_users w_files memory_cached.
Proof.
  split; try done. by intros [].
Qed.

Lemma demo_mimes m : m ∈ allowedMIMEs demo_service → m ≠ "" ∧ text m.
Proof.
  unfold demo_service, allowedMIMEs. intros Hm%elem_of_list_to_set. revert m Hm.
  apply Forall_forall. decide_by_vm.
Qed.

(** A picture of eight bytes, and a smaller one. *)
Definition png : bytes := [x89; x50; x4e; x47; x0d; x0a; x1a; x0a].
Definition gif : bytes := bytes_of "GIF89a".
Definition upload_body (ct : string) (data : bytes) : UploadProfilePictureBody :=
  Build_UploadProfilePictureBody "me.png" ct (string_of (b64_encode StdEncoding data)).

Abbreviation demo_coherent := (coherent demo_service memory_users w_files memory_cached).

Lemma w0_rows uid row : memory_users w0 !! uid = Some row → row = set_id 7 demo_password_row.
Proof.
  unfold memory_users, w0, w_users. rewrite table_users_lookup.
  destruct (decide (uid = 7)) as [->|]; [rewrite lookup_singleton_eq|by rewrite lookup_singleton_ne].
  by intros [= <-].
Qed.

Lemma w0_coherent : demo_coherent w0.
Proof.
  split; [|done]. apply map_Forall_lookup_2. intros uid row ->%w0_rows.
  split; [split; vm_compute; congruence|reflexivity].
Qed.

Lemma w0_room uid : room memory_users w0 uid.
Proof. by intros row ->%w0_rows. Qed.

Lemma uint64_7 : uint64 7.
Proof. split; vm_compute; congruence. Qed.

Lemma w0_fresh uid body : fresh_name demo_service memory_users w0 uid body.
Proof. by intros ct u row p ->%w0_rows. Qed.

Definition demo_upload : outcome error Protocol.UserProfile * world :=
  Eval vm_compute in UploadProfilePicture demo_service 7 (upload_body "image/png" png) w0.
Definition w_uploaded : world := demo_upload.2.

Lemma demo_upload_runs :
  UploadProfilePicture demo_service 7 (upload_body "image/png" png) w0 =
    (Ok {| up_ID := 7; up_Username := "user00000007"; up_Nickname := "User 00000007";
           up_ProfilePictureURL := "/api/me/profile-picture?v=1" |}, w_uploaded).
Proof. vm_compute. reflexivity. Qed.

Definition demo_rename : outcome error Protocol.UserProfile * world :=
  Eval vm_compute in Service.UpdateNickname demo_service 7 "Ada" w_uploaded.
Definition w_renamed : world := demo_rename.2.
Definition shown (w : world) : outcome error ProfilePictureResult * world :=
  GetProfilePicture demo_service 7 w.

Lemma demo_rename_runs :
  Service.UpdateNickname demo_service 7 "Ada" w_uploaded = (demo_rename.1, w_renamed).
Proof. vm_compute. reflexivity. Qed.

Lemma renamed_step :
  step_without demo_service memory_users w_files memory_cached 7 w_uploaded w_renamed.
Proof. exists None. split; [done|]. exact (step_nickname _ _ _ _ _ _ _ _ _ _ demo_rename_runs). Qed.

Lemma uploaded_step :
  any_step demo_service memory_users w_files memory_cached w0 w_uploaded.
Proof.
  exists (Some 7). exact (step_upload _ _ _ _ _ _ _ 7 (upload_body "image/png" png) _
    eq_refl uint64_7 (w0_room 7) (w0_fresh 7 _) demo_upload_runs).
Qed.

Lemma cache_is_transparent_witness :
  ∃ mime data,
    picture_of demo_service memory_users w_files w_uploaded 7 = Some (mime, data) ∧
    (GetProfilePicture demo_service 7 w_uploaded).1 = Ok (picture_result mime data).
Proof.
  destruct (cache_is_transparent demo_service memory_cache memory_users w_files memory_cached
    eq_refl eq_refl demo_mimes w0 w_uploaded 7 (shown w_uploaded).1 (shown w_uploaded).2
    w0_coherent (rtc_once _ _ uploaded_step) uint64_7 (surjective_pairing _)) as (_ & _ & Hp).
  destruct (Hp (picture_result "image/png" png)) as (mime & data & Hpic & Hr).
  - vm_compute. reflexivity.
  - exists mime, data. split; [exact Hpic|]. rewrite <- Hr. vm_compute. reflexivity.
Defined.

(** ** Operations that overlap

    The host in memory, with something happening before each statement that is
    sent to MySQL: another request changes the world, or the statement fails. *)

Definition interference : Type := world → option error * world.
Definition calm : interference := λ w, (None, w).
Definition failing : interference := λ w, (Some (Plain "driver: bad connection"), w).

Definition disturbed (A : Type) (m : eff world error A) :
    eff (world * list interference) error A := λ '(w, todo),
  let (next, todo) := match todo with [] => (calm, []) | i :: todo => (i, todo) end in
  match next w with
  | (Some e, w) => (Err e, (w, todo))
  | (None, w) => let (r, w) := m w in (r, (w, todo))
  end.
Definition undisturbed (A : Type) (m : eff world error A) :
    eff (world * list interference) error A := λ '(w, todo), let (r, w) := m w in (r, (w, todo)).
Arguments disturbed {A}. Arguments undisturbed {A}.

#[global] Instance disturbed_mysql : MySQL (world * list interference) := {|
  query_row q := disturbed (query_row q);
  exec stmt := disturbed (exec stmt);
  count_users := disturbed count_users;
|}.

#[global] Instance undisturbed_host : Host (world * list interference) := {|
  time_now '(w, todo) := let (t, w) := time_now w in (t, (w, todo));
  rand_Read n := undisturbed (rand_Read n);
  os_MkdirAll dir := undisturbed (os_MkdirAll dir);
  os_WriteFile path data := undisturbed (os_WriteFile path data);
  os_Remove path := undisturbed (os_Remove path);
  os_ReadFile path := undisturbed (os_ReadFile path);
  ExtensionsByType := ExtensionsByType (W := world);
|}.

Definition undisturbed_cache : PictureCache (world * list interference) := {|
  SaveProfilePicture uid version mime data :=
    undisturbed (SaveProfilePicture memory_cache uid version mime data);
  pc_GetProfilePicture uid version := undisturbed (pc_GetProfilePicture memory_cache uid version);
  DeleteProfilePicture uid version := undisturbed (DeleteProfilePicture memory_cache uid version);
|}.

Definition disturbed_service : Service (world * list interference) := {|
  store := mysql_store;
  sessions := None;
  pictureCache := Some undisturbed_cache;
  tokens := demo_manager;
  uploadDir := uploadDir demo_service;
  allowedMIMEs := allowedMIMEs demo_service;
  maxUploadBytes := maxUploadBytes demo_service;
  profilePictureBaseURL := profilePictureBaseURL demo_service;
  passwordIterations := passwordIterations demo_service;
  maxNicknameBytes := maxNicknameBytes demo_service;
|}.

Definition tick (w : world) : world :=
  World (w_clock w + 1) (w_users w) (w_sessions w) (w_cache w) (w_files w).
Definition other_upload (data : bytes) : interference := λ w,
  (None, (UploadProfilePicture demo_service 7 (upload_body "image/gif" data) (tick w)).2).

(** One upload of user 7, of [data], with the given disturbances. *)
Definition upload_among (todo : list interference) (w : world) : bool * world :=
  let '(r, (w, _)) :=
    UploadProfilePicture disturbed_service 7 (upload_body "image/png" png) (tick w, todo) in
  (is_ok r, w).

(** Undisturbed, it is the upload above. *)
Example upload_among_calm :
  let '(ok, w) := upload_among [] w0 in
  ok = true ∧ picture_of demo_service memory_users w_files w 7 = Some ("image/png", png).
Proof. vm_compute. split; reflexivity. Qed.

(** A second upload of the same user runs between the UPDATE and the SELECT of
    the first: the first reads the version of the second and caches its own
    picture under it.  The row points to the second picture, and the first one is
    served. *)
Example overlapping_uploads_mix_pictures :
  let w := (upload_among [calm; calm; other_upload gif] w0).2 in
  picture_of demo_service memory_users w_files w 7 = Some ("image/gif", gif) ∧
  (GetProfilePicture demo_service 7 w).1 = Ok (picture_result "image/png" png).
Proof. vm_compute. split; reflexivity. Qed.

(** The SELECT after a successful UPDATE fails: the upload is reported as failed
    and its file is removed, but the row points to it, and the picture the user
    had is not shown any more. *)
Example failed_read_back_loses_picture :
  let '(ok, w) := upload_among [calm; calm; failing] w_uploaded in
  (GetProfilePicture demo_service 7 w_uploaded).1 = Ok (picture_result "image/png" png) ∧
  ok = false ∧ (GetProfilePicture demo_service 7 w).1 = Err (Sentinel ErrNotFound).
Proof. vm_compute. split_and!; reflexivity. Qed.
