(* ===== verification/Redis.v ===== *)
(** * The Redis store ([src/internal/store/redisstore/session.go])

    Every command opens a connection, sends RESP arrays of bulk strings and
    reads one reply for each.  The network is an interface: [conn_reader] is
    what the current connection has to read, as in [GoIO.v]. *)

From S2P Require Import Prelude GoIO GoStrings GoEncoding GoCrypto Json Errors Config Token Protocol Service.
From Stdlib Require Import Strings.Byte.

(** What [readReply] returns as [any]. *)
Inductive value := VString (s : bytes) | VInt (z : Z).

(** ** [bufio.Reader] *)

Definition ReadByte : eff reader io_error byte := λ r,
  match r_data r with
  | b :: rest => (Ok b, Reader rest (r_fin r))
  | [] => (Err (r_fin r), r)
  end.

(** The bytes up to and including the first newline, and the rest. *)
Fixpoint cut_line (s : bytes) : option (bytes * bytes) :=
  match s with
  | [] => None
  | b :: s =>
      if decide (b = x0a) then Some ([b], s)
      else '(l, r) ← cut_line s; Some (b :: l, r)
  end.

Definition ReadString : eff reader io_error bytes := λ r,
  match cut_line (r_data r) with
  | Some (l, rest) => (Ok l, Reader rest (r_fin r))
  | None => (Err (r_fin r), Reader [] (r_fin r))
  end.

Definition of_io (e : io_error) : error :=
  match e with
  | EOF => Plain "EOF"
  | ErrUnexpectedEOF => Plain "unexpected EOF"
  | IOOther msg => Plain msg
  end.

Definition rd {A} (m : eff reader io_error A) : eff reader error A := λ r,
  match m r with
  | (Ok a, r') => (Ok a, r')
  | (Err e, r') => (Err (of_io e), r')
  | (Panic, r') => (Panic, r')
  end.

(** [make([]byte, n)]: a negative length, or one beyond the address space, panics. *)
Definition make_bytes (n : Z) : outcome error unit :=
  if (n <? 0) || (2 ^ 48 <? n) then Panic else Ok tt.

(** [data[:n]]. *)
Definition slice_to (n : Z) (data : bytes) : outcome error bytes :=
  if (n <? 0) || (Z.of_nat (length data) <? n) then Panic else Ok (take (Z.to_nat n) data).

(** ** Replies *)

Definition readLine : eff reader error bytes :=
  line ← rd ReadString;
  mret (trim_suffix [x0d] (trim_suffix [x0a] line)).

Definition readReply : eff reader error value :=
  prefix ← rd ReadByte;
  line ← readLine;
  if decide (prefix = x2b) then mret (VString line)                       (* + *)
  else if decide (prefix = x2d) then throw (Plain (string_of line))       (* - *)
  else if decide (prefix = x3a) then                                      (* : *)
    z ← lift (of_option (Plain "strconv.ParseInt") (parse_int 64 line)); mret (VInt z)
  else if decide (prefix = x24) then                                      (* $ *)
    n ← lift (of_option (Plain "strconv.Atoi") (parse_int 64 line));
    if decide (n = -1) then throw (Sentinel redis_ErrMissing)
    else
      let size := wraps 64 (n + 2) in
      _ ← lift (make_bytes size);
      data ← rd (ReadFull size);
      s ← lift (slice_to n data);
      mret (VString s)
  else throw (Plain "unknown redis reply prefix").

(** ** Commands *)

Definition crlf : bytes := [x0d; x0a].

(** What each [fmt.Fprintf] writes. *)
Definition array_header (args : list bytes) : bytes :=
  x2a :: format_int (Z.of_nat (length args)) ++ crlf.
Definition bulk (arg : bytes) : bytes :=
  x24 :: format_int (Z.of_nat (length arg)) ++ crlf ++ arg ++ crlf.

Class RedisNet (W : Type) := {
  net_Dial : string → eff W error unit;
  conn_Write : bytes → eff W error unit;
  conn_reader : W → reader;
  conn_set_reader : reader → W → W;
}.

Section redis.
Context {W : Type} `{!RedisNet W} (cfg : RedisConfig).

Definition on_reader {A} (m : eff reader error A) : eff W error A := λ w,
  let (r, rd) := m (conn_reader w) in (r, conn_set_reader rd w).

Fixpoint write_bulks (args : list bytes) : eff W error unit :=
  match args with
  | [] => mret tt
  | arg :: args => _ ← conn_Write (bulk arg); write_bulks args
  end.

Definition writeCommand (args : list bytes) : eff W error unit :=
  _ ← conn_Write (array_header args); write_bulks args.

Definition command (args : list bytes) : eff W error value :=
  if decide (redis_Addr cfg = "") then throw (Plain "redis address is empty")
  else
    _ ← net_Dial (redis_Addr cfg);
    _ ← (if decide (redis_Password cfg = "") then mret tt
         else
           _ ← writeCommand [bytes_of "AUTH"; bytes_of (redis_Password cfg)];
           _ ← on_reader readReply; mret tt);
    _ ← (if 0 <? redis_DB cfg then
           _ ← writeCommand [bytes_of "SELECT"; format_int (redis_DB cfg)];
           _ ← on_reader readReply; mret tt
         else mret tt);
    _ ← writeCommand args;
    on_reader readReply.

Definition Ping : eff W error unit :=
  reply ← command [bytes_of "PING"];
  match reply with
  | VString v => if decide (v = bytes_of "PONG") then mret tt
                 else throw (Plain "unexpected redis ping reply")
  | VInt _ => throw (Plain "unexpected redis ping reply")
  end.

Definition key_prefix : string :=
  if decide (KeyPrefix cfg = "") then "go-entry-task" else KeyPrefix cfg.

Definition sessionKey (token : string) : bytes :=
  bytes_of key_prefix ++ bytes_of ":session:" ++ hex_encode (Sum256 (bytes_of token)).

Definition pictureKey (userID version : Z) : bytes :=
  bytes_of key_prefix ++ bytes_of ":profile-picture:" ++ format_uint userID ++ x3a :: format_uint version.

(** [int(ttl.Seconds())]: the whole seconds.  [Seconds] goes through a [float64];
    below 2^24 seconds (194 days) its resolution is finer than a nanosecond and
    the truncation is the quotient, above that it may be one second more. *)
Definition SaveSession (token : string) (userID ttl : Z) : eff W error unit :=
  let seconds := Z.quot ttl Second in
  if seconds <=? 0 then throw (Plain "session ttl must be positive")
  else
    _ ← command [bytes_of "SET"; sessionKey token; format_uint userID; bytes_of "EX";
                 format_int seconds];
    mret tt.

(** [if errors.Is(err, ErrMissing) { return missing, nil }] *)
Definition on_missing {A} (missing : A) (m : eff W error A) : eff W error A := λ w,
  match m w with
  | (Err e, w') => if errors_Is e redis_ErrMissing then (Ok missing, w') else (Err e, w')
  | r => r
  end.

Definition GetSession (token : string) : eff W error (Z * bool) :=
  reply ← on_missing (VString []) (command [bytes_of "GET"; sessionKey token]);
  match reply with
  | VInt _ | VString [] => mret (0, false)
  | VString v =>
      userID ← lift (of_option (Plain "strconv.ParseUint") (parse_uint 64 v));
      mret (userID, true)
  end.

Definition DeleteSession (token : string) : eff W error unit :=
  _ ← command [bytes_of "DEL"; sessionKey token]; mret tt.

Definition pictureValue_json (mimeType : string) (data : bytes) : json :=
  JObj [("content_type", JStr mimeType);
        ("data_base64", JStr (string_of (b64_encode StdEncoding data)))].

Definition SaveProfilePicture (userID version : Z) (mimeType : string) (data : bytes) :
    eff W error unit :=
  _ ← command [bytes_of "SET"; pictureKey userID version; encode (pictureValue_json mimeType data)];
  mret tt.

Definition GetProfilePicture (userID version : Z) : eff W error (string * bytes * bool) :=
  reply ← on_missing (VString []) (command [bytes_of "GET"; pictureKey userID version]);
  match reply with
  | VInt _ | VString [] => mret ("", [], false)
  | VString v =>
      cached ← lift (of_option (Plain "json: cannot unmarshal") (parse v ≫= ProfilePictureResult_of));
      data ← lift (of_option (Plain "illegal base64 data")
                     (b64_decode StdEncoding (bytes_of (pp_DataBase64 cached))));
      mret (pp_ContentType cached, data, true)
  end.

Definition DeleteProfilePicture (userID version : Z) : eff W error unit :=
  _ ← command [bytes_of "DEL"; pictureKey userID version]; mret tt.

(** The store as the service's session store and picture cache. *)
Definition redis_sessions : SessionStore W := {|
  Service.SaveSession := SaveSession;
  Service.GetSession := GetSession;
  Service.DeleteSession := DeleteSession;
|}.
Definition redis_pictures : PictureCache W := {|
  Service.SaveProfilePicture := SaveProfilePicture;
  pc_GetProfilePicture := GetProfilePicture;
  Service.DeleteProfilePicture := DeleteProfilePicture;
|}.
End redis.
