(* ===== verification/RedisSpec.v ===== *)
(** * The Redis store keeps sessions and pictures

    The reply reader and the command writer against RESP, and the store against
    the interfaces of the service, for every server that executes the commands
    as Redis documents them. *)

From S2P Require Import Prelude GoIO GoStrings GoEncoding GoCrypto Json Errors Config Token Protocol Service ServiceSpec Redis.
From Stdlib Require Import Strings.Byte.

(** ** RESP *)

Inductive reply :=
  | Simple (s : bytes)
  | Failure (s : bytes)
  | Integer (z : Z)
  | Bulk (s : bytes)
  | Null.

Definition line (prefix : byte) (s : bytes) : bytes := prefix :: s ++ crlf.

Definition reply_bytes (r : reply) : bytes :=
  match r with
  | Simple s => line x2b s
  | Failure s => line x2d s
  | Integer z => line x3a (format_int z)
  | Bulk s => line x24 (format_int (Z.of_nat (length s))) ++ s ++ crlf
  | Null => line x24 (bytes_of "-1")
  end.

(** What a server may send: lines are lines, integers and lengths are in range. *)
Definition reply_ok (r : reply) : Prop :=
  match r with
  | Simple s | Failure s => x0a ∉ s
  | Integer z => int64 z
  | Bulk s => Z.of_nat (length s) < 2 ^ 47
  | Null => True
  end.

(** What [readReply] makes of it. *)
Definition reply_result (r : reply) : outcome error value :=
  match r with
  | Simple s | Bulk s => Ok (VString s)
  | Failure s => Err (Plain (string_of s))
  | Integer z => Ok (VInt z)
  | Null => Err (Sentinel redis_ErrMissing)
  end.

Lemma trim_suffix_app suf s : trim_suffix suf (s ++ suf) = s.
Proof.
  unfold trim_suffix. rewrite rev_app_distr, strip_prefix_app. apply rev_involutive.
Qed.

Lemma cut_line_app s rest : (x0a ∉ s) → cut_line (s ++ x0a :: rest) = Some (s ++ [x0a], rest).
Proof.
  induction s as [|b s IH]; cbn; intros Hn; [done|].
  rewrite decide_False by set_solver. by rewrite IH by set_solver.
Qed.

Lemma cut_line_none s : (x0a ∉ s) → cut_line s = None.
Proof.
  induction s as [|b s IH]; cbn; intros Hn; [done|].
  rewrite decide_False by set_solver. by rewrite IH by set_solver.
Qed.

Lemma readLine_app s rest fin :
  (x0a ∉ s) → readLine (Reader (s ++ crlf ++ rest) fin) = (Ok s, Reader rest fin).
Proof.
  intros Hs. unfold readLine, mbind, eff_bind, rd, ReadString. cbn [r_data r_fin].
  replace (s ++ crlf ++ rest) with ((s ++ [x0d]) ++ x0a :: rest) by (by rewrite <- app_assoc).
  rewrite cut_line_app by set_solver. cbn [mret eff_ret].
  by rewrite !trim_suffix_app.
Qed.

Lemma format_int_no_newline z : x0a ∉ format_int z.
Proof.
  assert (Hd : ∀ n, x0a ∉ format_uint n).
  { intros n Hin. pose proof (format_uint_digits n) as HF. rewrite Forall_forall in HF.
    by specialize (HF _ Hin). }
  unfold format_int. destruct (z <? 0); [|done]. rewrite elem_of_cons. intros [?|Hin]; [done|].
  by apply Hd in Hin.
Qed.

Lemma readReply_line p s rest fin :
  (x0a ∉ s) →
  readReply (Reader (line p s ++ rest) fin) =
  (if decide (p = x2b) then mret (VString s)
   else if decide (p = x2d) then throw (Plain (string_of s))
   else if decide (p = x3a) then
     z ← lift (of_option (Plain "strconv.ParseInt") (parse_int 64 s)); mret (VInt z)
   else if decide (p = x24) then
     n ← lift (of_option (Plain "strconv.Atoi") (parse_int 64 s));
     if decide (n = -1) then throw (Sentinel redis_ErrMissing)
     else
       let size := wraps 64 (n + 2) in
       _ ← lift (make_bytes size); data ← rd (ReadFull size); s ← lift (slice_to n data);
       mret (VString s)
   else throw (Plain "unknown redis reply prefix")) (Reader rest fin).
Proof.
  intros Hs. unfold readReply, line. cbn [app]. rewrite <- app_assoc.
  run_step. by erewrite eff_bind_step by (by apply readLine_app).
Qed.

Lemma readReply_bulk s rest fin :
  Z.of_nat (length s) < 2 ^ 47 →
  readReply (Reader (line x24 (format_int (Z.of_nat (length s))) ++ s ++ crlf ++ rest) fin) =
    (Ok (VString s), Reader rest fin).
Proof.
  intros Hs. rewrite readReply_line by apply format_int_no_newline.
  rewrite !decide_False, decide_True by done.
  unfold lift at 1. rewrite parse_format_int by (split; lia). cbn [of_option].
  run_step. rewrite decide_False by lia. cbn zeta.
  rewrite wraps_id by lia. unfold lift, make_bytes.
  rewrite (proj2 (Z.ltb_ge _ _)), (proj2 (Z.ltb_ge _ _)) by lia. cbn [orb].
  run_step.
  assert (E : rd (ReadFull (Z.of_nat (length s) + 2)) (Reader (s ++ crlf ++ rest) fin) =
    (Ok (s ++ crlf), Reader rest fin)).
  { unfold rd. replace (s ++ crlf ++ rest) with ((s ++ crlf) ++ rest) by (by rewrite <- app_assoc).
    replace (Z.of_nat (length s) + 2) with (Z.of_nat (length (s ++ crlf)))
      by (rewrite length_app; cbn; lia).
    by rewrite ReadFull_app. }
  erewrite eff_bind_step by exact E. unfold slice_to.
  rewrite (proj2 (Z.ltb_ge _ _)), (proj2 (Z.ltb_ge _ _)) by (rewrite ?length_app; lia). cbn [orb].
  unfold mbind, eff_bind, mret, eff_ret. by rewrite Nat2Z.id, take_app_length.
Qed.

Lemma readReply_reply r rest fin :
  reply_ok r → readReply (Reader (reply_bytes r ++ rest) fin) = (reply_result r, Reader rest fin).
Proof.
  intros Hr. destruct r as [s|s|z|s|]; cbn [reply_bytes reply_result reply_ok] in *.
  - by rewrite readReply_line.
  - by rewrite readReply_line.
  - rewrite readReply_line by apply format_int_no_newline. rewrite !decide_False, decide_True by done.
    unfold mbind, eff_bind, lift. by rewrite parse_format_int.
  - rewrite <- !app_assoc. by apply readReply_bulk.
  - rewrite readReply_line by (decide_by_vm). reflexivity.
Qed.

(** [readReply] reads back every reply a server may send, byte for byte: a
    simple or a bulk string (with any bytes in it) as that string, an integer
    as that integer, an error as an error with its text, a null bulk as
    [ErrMissing]; it consumes exactly the reply. *)
Lemma readReply_round_trip r rest fin :
  reply_ok r → readReply (Reader (reply_bytes r ++ rest) fin) = (reply_result r, Reader rest fin).
Proof. apply readReply_reply. Qed.

(** A malformed bulk length crashes the caller. A reply [$n] with [n] below
    -1 that is a decimal [int] makes [readReply] panic, in [make] or in the
    slice expression, instead of returning an error. *)
Lemma readReply_negative_length n rest fin :
  - 2 ^ 63 ≤ n < -1 →
  (readReply (Reader (line x24 (format_int n) ++ rest) fin)).1 = Panic.
Proof.
  intros Hn. rewrite readReply_line by apply format_int_no_newline.
  rewrite !decide_False, decide_True by done.
  unfold lift at 1. rewrite parse_format_int by lia. cbn [of_option].
  run_step. rewrite decide_False by lia. cbn zeta.
  rewrite wraps_id by lia. unfold mbind, eff_bind, lift, make_bytes.
  destruct (Z.ltb_spec (n + 2) 0); [done|]. cbn [orb].
  assert (n = -2) as -> by lia. change (-2 + 2) with 0. unfold rd, ReadFull.
  by rewrite (proj2 (Z.leb_le 0 _)) by lia.
Qed.

Lemma readReply_negative_length_witness :
  (readReply (Reader (line x24 (format_int (-5))) EOF)).1 = Panic.
Proof.
  pose proof (readReply_negative_length (-5) [] EOF ltac:(lia)) as H.
  rewrite app_nil_r in H. exact H.
Defined.

(** ** Replies cut short *)

Lemma prefix_of_line l tail q :
  (x0a ∉ l) → q `prefix_of` l ++ x0a :: tail →
  (x0a ∉ q) ∨ ∃ t, q = l ++ x0a :: t ∧ t `prefix_of` tail.
Proof.
  revert q. induction l as [|b l IH]; intros [|c q] Hl Hq; cbn [app] in *; try (left; set_solver).
  - right. apply prefix_cons_inv_1 in Hq as Hc. apply prefix_cons_inv_2 in Hq. subst. eauto.
  - apply prefix_cons_inv_1 in Hq as Hc. apply prefix_cons_inv_2 in Hq. subst c.
    destruct (IH q ltac:(set_solver) Hq) as [?|(t & -> & ?)]; [left; set_solver|right; eauto].
Qed.

Lemma of_io_foreign e s : errors_Is (of_io e) s = false.
Proof. by destruct e. Qed.

Lemma readReply_no_line q fin :
  (x0a ∉ q) → ∃ e rd', readReply (Reader q fin) = (Err (of_io e), rd').
Proof.
  intros Hq. destruct q as [|b q]; [by eexists _, _|].
  exists fin, (Reader [] fin). unfold readReply. run_step.
  unfold mbind at 1, eff_bind at 1, readLine at 1. unfold mbind at 1, eff_bind at 1, rd, ReadString.
  cbn [r_data r_fin]. by rewrite cut_line_none by set_solver.
Qed.

Lemma readReply_short_bulk n t fin :
  0 ≤ n < 2 ^ 47 → Z.of_nat (length t) < n + 2 →
  ∃ e rd', readReply (Reader (line x24 (format_int n) ++ t) fin) = (Err (of_io e), rd').
Proof.
  intros Hn Ht. rewrite readReply_line by apply format_int_no_newline.
  rewrite !decide_False, decide_True by done.
  unfold lift at 1. rewrite parse_format_int by (split; lia). cbn [of_option].
  run_step. rewrite decide_False by lia. cbn zeta.
  rewrite wraps_id by lia. unfold lift, make_bytes.
  rewrite (proj2 (Z.ltb_ge _ _)), (proj2 (Z.ltb_ge _ _)) by lia. cbn [orb].
  run_step.
  destruct (ReadFull_short (n + 2) (Reader t fin) Ht) as (e & E & _).
  unfold mbind, eff_bind, rd. rewrite E. eauto.
Qed.

(** A reply that is cut short is an error, never a wrong value and no panic. *)
Lemma readReply_truncated r q fin :
  reply_ok r → q `prefix_of` reply_bytes r → q ≠ reply_bytes r →
  ∃ e rd', readReply (Reader q fin) = (Err (of_io e), rd').
Proof.
  intros Hr Hq Hne.
  assert (Hline : ∀ p s tail, p ≠ x0a → (x0a ∉ s) → q `prefix_of` line p s ++ tail →
    (∃ e rd', readReply (Reader q fin) = (Err (of_io e), rd')) ∨
    ∃ t, q = line p s ++ t ∧ t `prefix_of` tail).
  { intros p s tail Hp Hs Hpre. unfold line, crlf in *.
    replace ((p :: s ++ [x0d; x0a]) ++ tail) with ((p :: s ++ [x0d]) ++ x0a :: tail) in Hpre
      by (cbn; by rewrite <- !app_assoc).
    apply prefix_of_line in Hpre as [Hno|(t & -> & Ht)]; [left; by apply readReply_no_line| |set_solver].
    right. exists t. split; [cbn; by rewrite <- !app_assoc|done]. }
  assert (Hsimple : ∀ p s, p ≠ x0a → (x0a ∉ s) → reply_bytes r = line p s →
    ∃ e rd', readReply (Reader q fin) = (Err (of_io e), rd')).
  { intros p s Hp Hs E. rewrite E in *. destruct (Hline p s [] Hp Hs) as [?|(t & -> & Ht)]; [by rewrite app_nil_r|done|].
    apply prefix_nil_inv in Ht as ->. by rewrite app_nil_r in Hne. }
  destruct r as [s|s|z|s|]; cbn [reply_bytes reply_ok] in *.
  - by apply (Hsimple x2b s).
  - by apply (Hsimple x2d s).
  - apply (Hsimple x3a (format_int z)); [done|apply format_int_no_newline|done].
  - destruct (Hline x24 (format_int (Z.of_nat (length s))) (s ++ crlf)) as [?|(t & -> & Ht)];
      [done|apply format_int_no_newline|done|done|].
    apply readReply_short_bulk; [lia|]. apply prefix_length in Ht as Hlen.
    destruct (decide (length t = length (s ++ crlf))) as [E|]; [|rewrite length_app in *; cbn in *; lia].
    destruct Ht as [k Hk]. rewrite Hk, length_app in E. destruct k; [|cbn in E; lia].
    rewrite app_nil_r in Hk. congruence.
  - apply (Hsimple x24 (bytes_of "-1")); [done|decide_by_vm|done].
Qed.

(** ** Commands *)

Definition command_bytes (args : list bytes) : bytes := array_header args ++ concat (map bulk args).

(** How a server reads a command: every argument by its length. *)
Definition parse_length (line : bytes) : option Z :=
  match trim_suffix [x0d] (trim_suffix [x0a] line) with
  | [] => None
  | digits => parse_digits 0 digits
  end.

Definition parse_bulk (s : bytes) : option (bytes * bytes) :=
  match s with
  | x24 :: s =>
      '(l, rest) ← cut_line s;
      n ← parse_length l;
      if Z.of_nat (length rest) <? n + 2 then None
      else Some (take (Z.to_nat n) rest, drop (Z.to_nat n + 2) rest)
  | _ => None
  end.

Fixpoint parse_bulks (n : nat) (s : bytes) : option (list bytes * bytes) :=
  match n with
  | O => Some ([], s)
  | S n => '(a, s) ← parse_bulk s; '(l, s) ← parse_bulks n s; Some (a :: l, s)
  end.

Definition parse_command (s : bytes) : option (list bytes * bytes) :=
  match s with
  | x2a :: s =>
      '(l, rest) ← cut_line s;
      n ← parse_length l;
      parse_bulks (Z.to_nat n) rest
  | _ => None
  end.

Lemma cut_length n rest :
  0 ≤ n → ∃ l, cut_line (format_int n ++ crlf ++ rest) = Some (l, rest) ∧ parse_length l = Some n.
Proof.
  intros Hn. unfold crlf. exists ((format_int n ++ [x0d]) ++ [x0a]).
  replace (format_int n ++ [x0d; x0a] ++ rest) with ((format_int n ++ [x0d]) ++ x0a :: rest)
    by (by rewrite <- app_assoc).
  rewrite cut_line_app by (pose proof (format_int_no_newline n); set_solver).
  split; [done|]. unfold parse_length. rewrite !trim_suffix_app. unfold format_int.
  rewrite (proj2 (Z.ltb_ge _ _)) by lia. destruct (format_uint_cons n) as (b & r & E & _).
  rewrite E, <- E. by apply parse_digits_format.
Qed.

Lemma parse_bulk_bulk a rest : parse_bulk (bulk a ++ rest) = Some (a, rest).
Proof.
  unfold bulk. cbn [app]. rewrite <- !app_assoc. cbn [parse_bulk].
  destruct (cut_length (Z.of_nat (length a)) (a ++ crlf ++ rest) ltac:(lia)) as (l & -> & E).
  cbn [mbind option_bind]. rewrite E. cbn [mbind option_bind].
  rewrite (proj2 (Z.ltb_ge _ _)) by (rewrite !length_app; cbn; lia).
  rewrite Nat2Z.id, take_app_length.
  replace (length a + 2)%nat with (length (a ++ crlf)) by (rewrite length_app; done).
  rewrite (app_assoc a crlf rest), drop_app_length. done.
Qed.

Lemma parse_command_bytes args rest : parse_command (command_bytes args ++ rest) = Some (args, rest).
Proof.
  unfold command_bytes, array_header. cbn [app]. rewrite <- !app_assoc. cbn [parse_command].
  destruct (cut_length (Z.of_nat (length args)) (concat (map bulk args) ++ rest) ltac:(lia)) as (l & -> & E).
  cbn [mbind option_bind]. rewrite E. cbn [mbind option_bind]. rewrite Nat2Z.id. clear E.
  induction args as [|a args IH]; [done|]. cbn [map concat length parse_bulks].
  rewrite <- app_assoc, parse_bulk_bulk by done. cbn [mbind option_bind]. by rewrite IH.
Qed.

(** A network that only records what is written. *)
Definition recorder : RedisNet bytes := {|
  net_Dial _ w := (Ok tt, w);
  conn_Write b w := (Ok tt, w ++ b);
  conn_reader _ := Reader [] EOF;
  conn_set_reader _ w := w;
|}.

Lemma writeCommand_bytes args w :
  writeCommand (RedisNet0 := recorder) args w = (Ok tt, w ++ command_bytes args).
Proof.
  unfold writeCommand, command_bytes. run_step.
  rewrite (app_assoc w). generalize (w ++ array_header args) as v. clear w.
  induction args as [|a args IH]; intros v; cbn [map concat write_bulks]; [by rewrite app_nil_r|].
  run_step. by rewrite IH, <- app_assoc.
Qed.

(** Commands cannot be injected into. Whatever bytes the arguments hold
    (line breaks, dollar signs, whole commands), what [writeCommand] puts on
    the wire is read by a server as exactly these arguments, and nothing of
    them is taken for a further command. *)
Lemma writeCommand_unambiguous args rest :
  parse_command ((writeCommand (RedisNet0 := recorder) args []).2 ++ rest) = Some (args, rest).
Proof. rewrite writeCommand_bytes. apply parse_command_bytes. Qed.

(** ** A Redis server *)

(** Values with the time they expire, if they do. *)
Abbreviation redis_db := (gmap string (bytes * option Z)).

Definition live (t : Z) (e : bytes * option Z) : bool :=
  match e.2 with Some d => t <? d | None => true end.

(** The commands the store sends, at time [t]. *)
Definition redis_exec (t : Z) (args : list bytes) (db : redis_db) : reply * redis_db :=
  let failed := (Failure (bytes_of "ERR"), db) in
  match args with
  | [c] => if decide (c = bytes_of "PING") then (Simple (bytes_of "PONG"), db) else failed
  | [c; k] =>
      if decide (c = bytes_of "GET") then
        match db !! string_of k with
        | Some e => if live t e then (Bulk e.1, db) else (Null, db)
        | None => (Null, db)
        end
      else if decide (c = bytes_of "DEL") then
        (Integer (if decide (is_Some (db !! string_of k)) then 1 else 0), delete (string_of k) db)
      else if decide (c = bytes_of "AUTH" ∨ c = bytes_of "SELECT") then (Simple (bytes_of "OK"), db)
      else failed
  | [c; k; v] =>
      if decide (c = bytes_of "SET") then (Simple (bytes_of "OK"), <[string_of k := (v, None)]> db)
      else failed
  | [c; k; v; o; n] =>
      if decide (c = bytes_of "SET" ∧ o = bytes_of "EX") then
        match parse_int 64 n with
        | Some secs => (Simple (bytes_of "OK"),
                        <[string_of k := (v, Some (t + secs * Second))]> db)
        | None => failed
        end
      else failed
  | _ => failed
  end.

(** The server executes the command it is sent and replies, or refuses with an
    error line without executing it (wrong password, out of memory, loading, ...).
    The connection may break at any time: then the reply is cut short, and the
    command may or may not have been executed. *)
Class RedisLaws {W : Type} `{!RedisNet W, !Host W} (clock : W → Z) (db : W → redis_db) : Prop := {
  set_reader_law r w :
    conn_reader (conn_set_reader r w) = r ∧ db (conn_set_reader r w) = db w ∧
    clock (conn_set_reader r w) = clock w;
  host_now_law w :
    (time_now w).1 = clock w ∧ clock w ≤ clock (time_now w).2 ∧ db (time_now w).2 = db w;
  dial_law addr w :
    wp (net_Dial addr) (λ r w', r ≠ Panic ∧ clock w ≤ clock w' ∧ db w' = db w ∧
      (r = Ok tt → r_data (conn_reader w') = []) ∧
      (∀ e, r = Err e → errors_Is e redis_ErrMissing = false)) w;
  write_law args w :
    r_data (conn_reader w) = [] →
    wp (writeCommand args) (λ r w', r ≠ Panic ∧
      (∀ e, r = Err e → errors_Is e redis_ErrMissing = false) ∧
      ∃ t rep db', clock w ≤ t ≤ clock w' ∧
        reply_ok rep ∧
        (redis_exec t args (db w) = (rep, db') ∨ ∃ msg, rep = Failure msg ∧ db' = db w) ∧
        r_data (conn_reader w') `prefix_of` reply_bytes rep ∧
        (db w' = db w ∨ db w' = db') ∧
        (r = Ok tt → r_data (conn_reader w') = reply_bytes rep → db w' = db')) w;
}.

(** [parse_int] of what [format_int] wrote is that number or out of range. *)
Lemma parse_int_format n m : parse_int 64 (format_int n) = Some m → m = n.
Proof.
  assert (Hu : ∀ k j, 0 ≤ k → parse_uint 64 (format_uint k) = Some j → j = k).
  { intros k j Hk. unfold parse_uint. destruct (format_uint k) eqn:E; [done|].
    rewrite <- E, parse_digits_format by done. by destruct (k <? 2 ^ 64); intros [= <-]. }
  unfold parse_int, format_int. destruct (Z.ltb_spec n 0).
  - rewrite decide_False, decide_True by done. destruct (parse_uint 64 (format_uint (- n))) as [u|] eqn:E; [|done].
    apply Hu in E; [|lia]. destruct (2 ^ (64 - 1) <? u); [done|]. intros [= <-]. lia.
  - destruct (format_uint_cons n) as (b & r & E & Hd). rewrite E.
    apply digit_not_sign in Hd as [? ?]. rewrite !decide_False by done. rewrite <- E.
    destruct (parse_uint 64 (format_uint n)) as [u|] eqn:Eu; [|done].
    apply Hu in Eu; [|lia]. destruct (2 ^ (64 - 1) <=? u); [done|]. congruence.
Qed.

Section redis_store.
Context {W : Type} `{!RedisNet W, !Host W} (cfg : RedisConfig) (clock : W → Z) (db : W → redis_db)
  `{!RedisLaws clock db}.

(** One command and its reply on a fresh stretch of the connection. *)
Definition exchanged (args : list bytes) (w : W) (r : outcome error value) (w' : W) : Prop :=
  r ≠ Panic ∧ ∃ t rep db', clock w ≤ t ≤ clock w' ∧ redis_exec t args (db w) = (rep, db') ∧
    (db w' = db w ∨ db w' = db') ∧
    (r = reply_result rep ∧ db w' = db' ∧ r_data (conn_reader w') = [] ∨
     ∃ e, r = Err e ∧ errors_Is e redis_ErrMissing = false).

Lemma exchange_spec args w :
  r_data (conn_reader w) = [] →
  wp (_ ← writeCommand args; on_reader readReply) (exchanged args w) w.
Proof.
  intros Hempty. apply wp_bind. eapply wp_mono, (write_law args w Hempty).
  intros r1 w1 (Hnp & Hforeign & t & rep & db' & Ht & Hrep & Hexec & Hpre & Hcase & Hdone).
  destruct (redis_exec t args (db w)) as [rep0 db0] eqn:E0.
  assert (Hdb : db w1 = db w ∨ db w1 = db0).
  { destruct Hexec as [[= <- <-]|(msg & _ & ->)]; [done|tauto]. }
  destruct r1 as [[]|e|]; [| |done].
  2: { split; [done|]. exists t, rep0, db0. rewrite E0. split_and!; [lia|lia|done|done|]. right. eauto. }
  unfold wp, on_reader. pose proof (set_reader_law (clock := clock) (db := db)) as Hset.
  destruct (conn_reader w1) as [q fin] eqn:Hq. cbn [r_data] in *.
  destruct (decide (q = reply_bytes rep)) as [->|Hne].
  - pose proof (readReply_reply rep [] fin Hrep) as E. rewrite app_nil_r in E. rewrite E. clear E.
    cbn [fst snd]. destruct (Hset (Reader [] fin) w1) as (Hr & Hd & Hc).
    split; [by destruct rep|]. exists t, rep0, db0. rewrite E0, Hd, Hc, Hr.
    split_and!; [lia|lia|done|done|].
    destruct Hexec as [[= <- <-]|(msg & -> & ->)]; [left; split_and!; auto|].
    right. by eexists.
  - destruct (readReply_truncated rep q fin Hrep Hpre Hne) as (e & rd' & ->). cbn [fst snd].
    destruct (Hset rd' w1) as (_ & Hd & Hc). split; [done|].
    exists t, rep0, db0. rewrite E0, Hd, Hc. split_and!; [lia|lia|done|done|].
    right. eexists. split; [done|]. apply of_io_foreign.
Qed.

(** A whole command: dial, authenticate, select, execute. *)
Definition commanded (args : list bytes) (w : W) (r : outcome error value) (w' : W) : Prop :=
  r ≠ Panic ∧ clock w ≤ clock w' ∧ ∃ t rep db', clock w ≤ t ≤ clock w' ∧
    redis_exec t args (db w) = (rep, db') ∧
    (db w' = db w ∨ db w' = db') ∧
    (r = reply_result rep ∧ db w' = db' ∨
     ∃ e, r = Err e ∧ errors_Is e redis_ErrMissing = false).

Lemma commanded_error args w e w' :
  errors_Is e redis_ErrMissing = false → clock w ≤ clock w' → db w' = db w →
  commanded args w (Err e) w'.
Proof.
  intros He Hc Hd. split; [done|]. split; [done|].
  destruct (redis_exec (clock w) args (db w)) as [rep db'] eqn:E.
  exists (clock w), rep, db'. split_and!; [lia|lia|done|by left|]. right. by eexists.
Qed.

Lemma exchanged_commanded args w w1 r w' :
  clock w ≤ clock w1 → db w1 = db w → exchanged args w1 r w' → commanded args w r w'.
Proof.
  intros Hc Hd (Hnp & t & rep & db' & Ht & Hexec & Hdb & Hr). rewrite Hd in *.
  split; [done|]. split; [lia|]. exists t, rep, db'. split_and!; [lia|lia|done|done|]. tauto.
Qed.

(** AUTH and SELECT, which precede a command, leave the data alone. *)
Definition prepared (w : W) (r : outcome error unit) (w' : W) : Prop :=
  r ≠ Panic ∧ clock w ≤ clock w' ∧ db w' = db w ∧
  (r = Ok tt → r_data (conn_reader w') = []) ∧
  (∀ e, r = Err e → errors_Is e redis_ErrMissing = false).

Lemma prepare_spec c x w :
  c = bytes_of "AUTH" ∨ c = bytes_of "SELECT" → r_data (conn_reader w) = [] →
  wp (_ ← writeCommand [c; x]; _ ← on_reader readReply; mret tt) (prepared w) w.
Proof.
  intros Hc Hempty.
  assert (Hexec : ∀ t d, redis_exec t [c; x] d = (Simple (bytes_of "OK"), d)) by (intros t d; by destruct Hc as [-> | ->]).
  pose proof (exchange_spec [c; x] w Hempty) as H. unfold wp, mbind, eff_bind in *.
  destruct (writeCommand [c; x] w) as [[[]|e|] w1];
    [destruct (on_reader readReply w1) as [r2 w2]|..]; cbn [fst snd] in *;
    destruct H as (Hnp & t & rep & db' & Ht & Heq & Hdb & Hr); rewrite Hexec in Heq; simplify_eq.
  - unfold prepared. destruct Hr as [(-> & Hd & Hrd)|(e & -> & He)]; cbn;
      (split_and!; [done|lia|tauto|done|]); naive_solver.
  - unfold prepared. split_and!; [done|lia|tauto|done|]. intros e' [= <-].
    destruct Hr as [(? & ?)|(e' & [= <-] & He)]; done.
Qed.

Lemma prepared_skip w : r_data (conn_reader w) = [] → wp (mret tt) (prepared w) w.
Proof. intros H. apply wp_ret. unfold prepared. split_and!; [done|lia|done|done|done]. Qed.

Lemma prepared_trans w w1 r w2 :
  clock w ≤ clock w1 → db w1 = db w → prepared w1 r w2 → prepared w r w2.
Proof. intros Hc Hd (? & ? & ? & ? & ?). unfold prepared. split_and!; [done|lia|congruence|done|done]. Qed.

Lemma command_spec args w : wp (command cfg args) (commanded args w) w.
Proof.
  unfold command. destruct (decide (redis_Addr cfg = "")).
  { by apply commanded_error. }
  apply wp_bind. eapply wp_mono, (dial_law (redis_Addr cfg) w).
  intros [[]|e|] w1 (Hnp & Hc1 & Hd1 & Hr1 & He1); [|by apply commanded_error; auto|done].
  apply wp_bind. eapply wp_mono with (P := prepared w).
  - intros [[]|e|] w2 (Hnp2 & Hc2 & Hd2 & Hr2 & He2); [|by apply commanded_error; auto|done].
    apply wp_bind. eapply wp_mono with (P := prepared w).
    + intros [[]|e|] w3 (Hnp3 & Hc3 & Hd3 & Hr3 & He3); [|by apply commanded_error; auto|done].
      eapply wp_mono, exchange_spec; [|by auto]. intros r w'. by apply exchanged_commanded.
    + eapply wp_mono; [intros r w'; by apply prepared_trans|].
      destruct (0 <? redis_DB cfg); [apply prepare_spec|apply prepared_skip]; auto.
  - eapply wp_mono; [intros r w'; by apply prepared_trans|].
    destruct (decide (redis_Password cfg = "")); [apply prepared_skip|apply prepare_spec]; auto.
Qed.

(** ** The three commands on keys *)

Lemma get_command k w :
  wp (on_missing (VString []) (command cfg [bytes_of "GET"; k])) (λ r w',
    r ≠ Panic ∧ clock w ≤ clock w' ∧ db w' = db w ∧
    ∀ v, r = Ok v → ∃ t, clock w ≤ t ≤ clock w' ∧
      v = VString (match db w !! string_of k with
                   | Some e => if live t e then e.1 else []
                   | None => [] end)) w.
Proof.
  pose proof (command_spec [bytes_of "GET"; k] w) as H. unfold wp, on_missing in *.
  destruct (command cfg [bytes_of "GET"; k] w) as [r w']. cbn [fst snd] in H.
  destruct H as (Hnp & Hc & t & rep & db' & Ht & Hexec & Hdb & Hr).
  assert (Hrep : db' = db w ∧ rep = match db w !! string_of k with
    | Some e => if live t e then Bulk e.1 else Null | None => Null end).
  { unfold redis_exec in Hexec. rewrite decide_True in Hexec by done.
    destruct (db w !! string_of k) as [e|]; [destruct (live t e)|]; by simplify_eq. }
  destruct Hrep as [-> Hrep]. clear Hexec.
  destruct Hr as [(-> & Hd)|(e & -> & He)].
  - subst rep. destruct (db w !! string_of k) as [e|]; [destruct (live t e) eqn:Hl|]; cbn;
      (split; [done|]; split; [exact Hc|]; split; [done|]; intros v [= <-]; exists t; by rewrite ?Hl).
  - rewrite He. cbn. split; [done|]. split; [exact Hc|]. split; [tauto|done].
Qed.

(** Whatever comes of a command on the key [k], no other key changes. *)
Definition only_key (k : bytes) (w w' : W) : Prop :=
  ∀ k', k' ≠ string_of k → db w' !! k' = db w !! k'.

Lemma set_command k v w :
  wp (_ ← command cfg [bytes_of "SET"; k; v]; mret tt) (λ r w',
    r ≠ Panic ∧ only_key k w w' ∧ (r = Ok tt → db w' !! string_of k = Some (v, None)) ∧
    (db w' !! string_of k = db w !! string_of k ∨ db w' !! string_of k = Some (v, None))) w.
Proof.
  apply wp_bind. eapply wp_mono, (command_spec [bytes_of "SET"; k; v] w).
  intros r w' (Hnp & Hc & t & rep & db' & Ht & Hexec & Hdb & Hr).
  cbn [redis_exec] in Hexec. rewrite decide_True in Hexec by done. simplify_eq.
  assert (Hk : only_key k w w').
  { intros k' Hk. destruct Hdb as [-> | ->]; [done|]. by rewrite lookup_insert_ne. }
  assert (Hin : db w' !! string_of k = db w !! string_of k ∨ db w' !! string_of k = Some (v, None)).
  { destruct Hdb as [-> | ->]; [by left|]. rewrite lookup_insert_eq. by right. }
  destruct Hr as [(-> & Hd)|(e & -> & He)]; [apply wp_ret|done].
  split_and!; [done|done| |done]. intros _. by rewrite Hd, lookup_insert_eq.
Qed.

Lemma set_ex_command k v n w :
  wp (_ ← command cfg [bytes_of "SET"; k; v; bytes_of "EX"; format_int n]; mret tt) (λ r w',
    r ≠ Panic ∧ only_key k w w' ∧
    (r = Ok tt → ∃ t, clock w ≤ t ∧ db w' !! string_of k = Some (v, Some (t + n * Second)))) w.
Proof.
  apply wp_bind. eapply wp_mono, (command_spec _ w).
  intros r w' (Hnp & Hc & t & rep & db' & Ht & Hexec & Hdb & Hr).
  cbn [redis_exec] in Hexec. rewrite decide_True in Hexec by done.
  destruct (parse_int 64 (format_int n)) as [m|] eqn:Hm; simplify_eq.
  - apply parse_int_format in Hm as ->.
    assert (Hk : only_key k w w').
    { intros k' Hk. destruct Hdb as [-> | ->]; [done|]. by rewrite lookup_insert_ne. }
    destruct Hr as [(-> & Hd)|(e & -> & He)]; [apply wp_ret|done].
    split_and!; [done|done|]. intros _. exists t. split; [lia|]. by rewrite Hd, lookup_insert_eq.
  - assert (Hk : only_key k w w') by (intros k' Hk; by destruct Hdb as [-> | ->]).
    by destruct Hr as [(-> & Hd)|(e & -> & He)].
Qed.

Lemma del_command k w :
  wp (_ ← command cfg [bytes_of "DEL"; k]; mret tt) (λ r w',
    r ≠ Panic ∧ only_key k w w' ∧ (r = Ok tt → db w' !! string_of k = None) ∧
    (db w' !! string_of k = db w !! string_of k ∨ db w' !! string_of k = None)) w.
Proof.
  apply wp_bind. eapply wp_mono, (command_spec _ w).
  intros r w' (Hnp & Hc & t & rep & db' & Ht & Hexec & Hdb & Hr).
  cbn [redis_exec] in Hexec. rewrite decide_False, decide_True in Hexec by done. simplify_eq.
  assert (Hk : only_key k w w').
  { intros k' Hk. destruct Hdb as [-> | ->]; [done|]. by rewrite lookup_delete_ne. }
  assert (Hin : db w' !! string_of k = db w !! string_of k ∨ db w' !! string_of k = None).
  { destruct Hdb as [-> | ->]; [by left|]. rewrite lookup_delete_eq. by right. }
  destruct Hr as [(-> & Hd)|(e & -> & He)]; [apply wp_ret|done].
  split_and!; [done|done| |done]. intros _. by rewrite Hd, lookup_delete_eq.
Qed.

(** ** Sessions *)

(** The sessions a database holds: what [GetSession] can parse. *)
Definition redis_sess (w : W) (token : string) : option (Z * option Z) :=
  '(v, d) ← db w !! string_of (sessionKey cfg token);
  uid ← parse_uint 64 v;
  Some (uid, d).

Lemma GetSession_spec token w :
  wp (GetSession cfg token) (λ r w', r ≠ Panic ∧ db w' = db w ∧
    ∀ uid ok, r = Ok (uid, ok) →
      if (ok : bool) then ∃ d, redis_sess w token = Some (uid, d)
      else ∀ u d, redis_sess w token = Some (u, d) → ∃ t, d = Some t ∧ t ≤ clock w') w.
Proof.
  unfold GetSession, redis_sess. apply wp_bind.
  eapply wp_mono, (get_command (sessionKey cfg token) w).
  intros [v|e|] w' (Hnp & Hc & Hd & Hv); [|done|done].
  destruct (Hv v eq_refl) as (t & Ht & ->). clear Hv Hnp.
  destruct (db w !! string_of (sessionKey cfg token)) as [[val d]|]; cbn [mbind option_bind fst].
  2: { apply wp_ret. split_and!; [done|done|]. by intros uid ok [= <- <-]. }
  destruct (live t (val, d)) eqn:Hl.
  - destruct val as [|b val]; [apply wp_ret; split_and!; [done|done|]; by intros uid ok [= <- <-]|].
    unfold wp, mbind, eff_bind, lift.
    destruct (parse_uint 64 (b :: val)) as [u|]; cbn; [|done].
    split_and!; [done|done|]. intros uid ok [= <- <-]. eauto.
  - apply wp_ret. split_and!; [done|done|]. intros uid ok [= <- <-] u d' Hu.
    destruct (parse_uint 64 val); [|done]. cbn in Hu. simplify_eq.
    unfold live in Hl. cbn in Hl. destruct d' as [d'|]; [|done]. exists d'. split; [done|].
    apply Z.ltb_ge in Hl. lia.
Qed.

Lemma seconds_of ttl : 0 < Z.quot ttl Second → ttl - Second < Z.quot ttl Second * Second.
Proof.
  intros Hq. assert (0 < Second) by done.
  assert (0 ≤ ttl) by (destruct (Z.neg_nonneg_cases ttl) as [Hn|]; [|done];
    pose proof (Z.quot_le_mono ttl 0 Second ltac:(done) ltac:(lia)); rewrite Z.quot_0_l in *; lia).
  pose proof (Z.quot_rem' ttl Second). pose proof (Z.rem_bound_pos ttl Second ltac:(done) ltac:(done)). lia.
Qed.

Lemma SaveSession_spec token uid ttl w :
  uint64 uid →
  wp (SaveSession cfg token uid ttl) (λ r w', r ≠ Panic ∧ only_key (sessionKey cfg token) w w' ∧
    (r = Ok tt → ∃ d, redis_sess w' token = Some (uid, Some d) ∧ clock w + ttl - Second < d)) w.
Proof.
  intros Hu. unfold SaveSession. destruct (Z.leb_spec (Z.quot ttl Second) 0); [done|].
  eapply wp_mono, set_ex_command. intros r w' (Hnp & Hk & Hr). split_and!; [done|done|].
  intros Hok. destruct (Hr Hok) as (t & Ht & Hdb). eexists. unfold redis_sess. rewrite Hdb.
  cbn [mbind option_bind]. rewrite parse_format_uint by done. cbn [mbind option_bind].
  split; [done|]. pose proof (seconds_of ttl). lia.
Qed.

(** C13: the Redis store refines the session store the service is proved
    against. Whatever the server refuses and wherever connections break, a
    successful [SaveSession] leaves a session of that user that lives for at
    least the given time less a second; [GetSession] finds a session only if
    there is one, reports its user, and misses one only after it has expired;
    a successful [DeleteSession] removes it; nothing panics. *)
Theorem redis_refines_sessions : SessionLaws (redis_sessions cfg) clock redis_sess.
Proof.
  split.
  - intros w. destruct (host_now_law (db := db) w) as (? & ? & Hd). unfold redis_sess. by rewrite Hd.
  - intros token uid ttl w Hu. eapply wp_mono, SaveSession_spec; [|done]. by intros r w' (? & ? & ?).
  - intros token w. eapply wp_mono, GetSession_spec. intros r w' (? & Hd & ?).
    unfold redis_sess at 1 2. by rewrite Hd.
  - intros token w. eapply wp_mono, (del_command (sessionKey cfg token) w).
    intros r w' (Hnp & _ & Hr & _). split; [done|]. intros Hok. unfold redis_sess. by rewrite (Hr Hok).
Qed.

(** ** Keys *)

Lemma pictureKey_inj u1 v1 u2 v2 :
  0 ≤ u1 → 0 ≤ v1 → 0 ≤ u2 → 0 ≤ v2 → pictureKey cfg u1 v1 = pictureKey cfg u2 v2 → u1 = u2 ∧ v1 = v2.
Proof.
  intros ???? E. unfold pictureKey in E. do 2 apply app_inv_head in E.
  apply (f_equal (split_byte x3a)) in E.
  assert (Hno : ∀ n, x3a ∉ format_uint n).
  { intros n Hin. pose proof (format_uint_digits n) as HF. rewrite Forall_forall in HF.
    by specialize (HF _ Hin). }
  rewrite !split_byte_app, !split_byte_none in E by apply Hno. simplify_eq.
  split; by apply format_uint_inj.
Qed.

Lemma session_picture_keys token uid version : sessionKey cfg token ≠ pictureKey cfg uid version.
Proof. unfold sessionKey, pictureKey. intros E. by apply app_inv_head in E. Qed.

(** ** Pictures *)

Definition picture_entry (mimeType : string) (data : bytes) : bytes * option Z :=
  (encode (pictureValue_json mimeType data), None).

Lemma picture_entry_decodes mimeType data :
  text mimeType →
  parse (encode (pictureValue_json mimeType data)) ≫= ProfilePictureResult_of =
    Some (picture_result mimeType data).
Proof.
  intros Hm. pose proof (ProfilePictureResult_rt (picture_result mimeType data)) as H.
  change (pictureValue_json mimeType data) with (ProfilePictureResult_json (picture_result mimeType data)).
  destruct (JObj_ok [("content_type", JStr mimeType);
    ("data_base64", JStr (string_of (b64_encode StdEncoding data)))]) as [Hwf Hdepth].
  { apply Forall_cons_2; [by apply member_str|]. apply Forall_cons_2; [|by apply Forall_nil_2].
    apply member_str; [done|]. apply ValidString_ascii, b64_encode_ascii.
    decide_by_vm. }
  by rewrite parse_encode.
Qed.

Lemma GetProfilePicture_hit uid version mimeType data w :
  text mimeType →
  db w !! string_of (pictureKey cfg uid version) = Some (picture_entry mimeType data) →
  wp (GetProfilePicture cfg uid version) (λ r w', r ≠ Panic ∧
    ∀ v, r = Ok v → v = (mimeType, data, true)) w.
Proof.
  intros Hm Hdb. unfold GetProfilePicture. apply wp_bind.
  eapply wp_mono, (get_command (pictureKey cfg uid version) w).
  intros [v|e|] w' (Hnp & Hc & Hd & Hv); [|done|done].
  destruct (Hv v eq_refl) as (t & Ht & ->). rewrite Hdb. unfold picture_entry, live. cbn [fst snd].
  pose proof (picture_entry_decodes mimeType data Hm) as Hdec.
  destruct (encode (pictureValue_json mimeType data)) as [|b l]; [by vm_compute in Hdec|].
  unfold wp, mbind, eff_bind, lift. fold (mbind (M := option) ProfilePictureResult_of (parse (b :: l))).
  rewrite Hdec. cbn [of_option pp_DataBase64 picture_result pp_ContentType].
  rewrite bytes_of_string_of, b64_decode_encode by apply _. cbn. split; [done|]. by intros v [= <-].
Qed.

Lemma GetProfilePicture_reads uid version w : db (GetProfilePicture cfg uid version w).2 = db w.
Proof.
  assert (H : wp (GetProfilePicture cfg uid version) (λ _ w', db w' = db w) w); [|exact H].
  unfold GetProfilePicture. apply wp_bind. eapply wp_mono, (get_command _ w).
  intros [v|e|] w' (_ & _ & Hd & _); [|done|done]. destruct v as [[|b v]|z]; [done| |done].
  unfold wp, mbind, eff_bind, lift. by repeat case_match.
Qed.

(** Everything the store is asked to do. *)
Inductive store_op :=
  | DoPing
  | DoSaveSession (token : string) (userID ttl : Z)
  | DoGetSession (token : string)
  | DoDeleteSession (token : string)
  | DoSavePicture (userID version : Z) (mimeType : string) (data : bytes)
  | DoGetPicture (userID version : Z)
  | DoDeletePicture (userID version : Z).

Definition perform (w : W) (op : store_op) : W :=
  match op with
  | DoPing => (Ping cfg w).2
  | DoSaveSession token uid ttl => (SaveSession cfg token uid ttl w).2
  | DoGetSession token => (GetSession cfg token w).2
  | DoDeleteSession token => (DeleteSession cfg token w).2
  | DoSavePicture uid version mime data => (SaveProfilePicture cfg uid version mime data w).2
  | DoGetPicture uid version => (GetProfilePicture cfg uid version w).2
  | DoDeletePicture uid version => (DeleteProfilePicture cfg uid version w).2
  end.

(** The operation does not write the cache entry of [(uid, version)]. *)
Definition spares (uid version : Z) (op : store_op) : Prop :=
  match op with
  | DoSaveSession _ userID _ => uint64 userID
  | DoSavePicture u v _ _ | DoDeletePicture u v => uint64 u ∧ uint64 v ∧ (u, v) ≠ (uid, version)
  | _ => True
  end.

Lemma Ping_reads w : db (Ping cfg w).2 = db w.
Proof.
  assert (H : wp (Ping cfg) (λ _ w', db w' = db w) w); [|exact H].
  unfold Ping. apply wp_bind. eapply wp_mono, (command_spec [bytes_of "PING"] w).
  intros r w' (_ & _ & t & rep & db' & _ & Hexec & Hdb & _).
  cbn [redis_exec] in Hexec. rewrite decide_True in Hexec by done. simplify_eq.
  assert (db w' = db w) by tauto. destruct r as [[v|z]|e|]; try done. by destruct (decide _).
Qed.

Lemma perform_spares uid version w op :
  uint64 uid → uint64 version → spares uid version op →
  db (perform w op) !! string_of (pictureKey cfg uid version) =
  db w !! string_of (pictureKey cfg uid version).
Proof.
  intros [Hu _] [Hv _] Hop.
  assert (Hkey : ∀ k w', only_key k w w' → k ≠ pictureKey cfg uid version →
    db w' !! string_of (pictureKey cfg uid version) = db w !! string_of (pictureKey cfg uid version)).
  { intros k w' Hk Hne. apply Hk. intros E%string_of_inj. congruence. }
  assert (Hpic : ∀ u v, uint64 u → uint64 v → (u, v) ≠ (uid, version) →
    pictureKey cfg u v ≠ pictureKey cfg uid version).
  { intros u v [? _] [? _] Hne E%pictureKey_inj; [|done..]. destruct E. congruence. }
  destruct op as [|token u ttl|token|token|u v mime data|u v|u v]; cbn [perform spares] in *.
  - by rewrite Ping_reads.
  - pose proof (SaveSession_spec token u ttl w Hop) as (_ & Hk & _).
    eapply Hkey; [exact Hk|apply session_picture_keys].
  - pose proof (GetSession_spec token w) as (_ & Hd & _). by rewrite Hd.
  - pose proof (del_command (sessionKey cfg token) w) as (_ & Hk & _).
    eapply Hkey; [exact Hk|apply session_picture_keys].
  - destruct Hop as (? & ? & ?).
    pose proof (set_command (pictureKey cfg u v) (encode (pictureValue_json mime data)) w) as (_ & Hk & _).
    eapply Hkey; [exact Hk|by apply Hpic].
  - by rewrite GetProfilePicture_reads.
  - destruct Hop as (? & ? & ?). pose proof (del_command (pictureKey cfg u v) w) as (_ & Hk & _).
    eapply Hkey; [exact Hk|by apply Hpic].
Qed.

(** The operation does not save a session under the key of [token]. *)
Definition saves_other (token : string) (op : store_op) : Prop :=
  match op with DoSaveSession t _ _ => sessionKey cfg t ≠ sessionKey cfg token | _ => True end.

Lemma only_key_session k token w w' :
  only_key k w w' → k ≠ sessionKey cfg token → redis_sess w' token = redis_sess w token.
Proof. intros Hk Hne. unfold redis_sess. rewrite Hk; [done|]. intros E%string_of_inj. congruence. Qed.

(** What the interleaved service relies on for logout (the class
    [SessionsApart] of [ConcurrentSafety], with [sessionKey] as the key):
    whatever the store is asked and whatever fails, a session appears only by a
    [SaveSession] under its own key. *)
Lemma perform_signed_out token w op :
  saves_other token op → redis_sess w token = None → redis_sess (perform w op) token = None.
Proof.
  intros Hop Hnone.
  destruct op as [|t u ttl|t|t|u v mime data|u v|u v]; cbn [perform saves_other] in *.
  - unfold redis_sess. by rewrite Ping_reads.
  - unfold SaveSession. destruct (Z.leb_spec (Z.quot ttl Second) 0); [done|].
    destruct (set_ex_command (sessionKey cfg t) (format_uint u) (Z.quot ttl Second) w) as (_ & Hk & _).
    by rewrite (only_key_session _ _ _ _ Hk).
  - destruct (GetSession_spec t w) as (_ & Hd & _). unfold redis_sess. by rewrite Hd.
  - destruct (del_command (sessionKey cfg t) w) as (_ & Hk & _ & Hin).
    destruct (decide (sessionKey cfg t = sessionKey cfg token)) as [E|Hne];
      [|by rewrite (only_key_session _ _ _ _ Hk)].
    unfold redis_sess, DeleteSession in *. rewrite <- E in *. by destruct Hin as [-> | ->].
  - destruct (set_command (pictureKey cfg u v) (encode (pictureValue_json mime data)) w) as (_ & Hk & _).
    rewrite (only_key_session _ _ _ _ Hk); [done|]. apply not_eq_sym, session_picture_keys.
  - unfold redis_sess. by rewrite GetProfilePicture_reads.
  - destruct (del_command (pictureKey cfg u v) w) as (_ & Hk & _).
    rewrite (only_key_session _ _ _ _ Hk); [done|]. apply not_eq_sym, session_picture_keys.
Qed.

(** The picture cache serves what was put in. After a successful
    [SaveProfilePicture] of a user's picture at a version, and after any
    sequence of operations of the store (sessions saved and deleted, pictures
    of other users and of other versions saved and deleted, whatever their
    outcome), [GetProfilePicture] returns exactly that picture, type and bytes,
    or an error: never a miss, never another picture, and it does not panic. *)
Lemma picture_cache_serves uid version mimeType data ops w w1 r w2 :
  uint64 uid → uint64 version → text mimeType → Forall (spares uid version) ops →
  SaveProfilePicture cfg uid version mimeType data w = (Ok tt, w1) →
  GetProfilePicture cfg uid version (foldl perform w1 ops) = (r, w2) →
  r = Ok (mimeType, data, true) ∨ ∃ e, r = Err e.
Proof.
  intros Hu Hv Hm Hops Hsave Hget.
  pose proof (wp_run _ _ _ _ _ (set_command _ _ w) Hsave) as (_ & _ & Hdb & _).
  specialize (Hdb eq_refl). clear Hsave.
  assert (Hkept : db (foldl perform w1 ops) !! string_of (pictureKey cfg uid version) =
    Some (picture_entry mimeType data)).
  { clear Hget. revert w1 Hdb. induction Hops as [|op ops Hop _ IH]; intros w1 Hdb; [done|].
    cbn [foldl]. apply IH. by rewrite perform_spares. }
  destruct (wp_run _ _ _ _ _ (GetProfilePicture_hit uid version mimeType data _ Hm Hkept) Hget)
    as [Hnp Hr]. destruct r as [v|e|]; [left; f_equal; by apply Hr|right; eauto|done].
Qed.
End redis_store.

(** ** A server in memory

    A clock, a database, and a connection: what was written to it since its last
    reply, and what is left to read. *)

Record server := Server { sv_clock : Z; sv_db : redis_db; sv_in : bytes; sv_out : reader }.

Definition reply_okb (r : reply) : bool :=
  match r with
  | Simple s | Failure s => bool_decide (x0a ∉ s)
  | Integer z => (- 2 ^ 63 <=? z) && (z <? 2 ^ 63)
  | Bulk s => Z.of_nat (length s) <? 2 ^ 47
  | Null => true
  end.

(** The reply to the command received, and the database after it; a reply that
    RESP cannot carry is replaced by an error. *)
Definition answer (sv : server) : option (reply * redis_db) :=
  '(args, _) ← parse_command (sv_in sv);
  let (rep, d) := redis_exec (sv_clock sv) args (sv_db sv) in
  Some (if reply_okb rep then (rep, d) else (Failure (bytes_of "ERR"), sv_db sv)).

Definition server_db (sv : server) : redis_db :=
  match answer sv with Some (_, d) => d | None => sv_db sv end.
Definition server_reader (sv : server) : reader :=
  match answer sv with
  | Some (rep, _) => Reader (reply_bytes rep) EOF
  | None => if decide (sv_in sv = []) then sv_out sv
            else Reader (reply_bytes (Failure (bytes_of "ERR Protocol error"))) EOF
  end.

#[global] Instance server_net : RedisNet server := {|
  net_Dial _ sv := (Ok tt, Server (sv_clock sv) (server_db sv) [] (Reader [] EOF));
  conn_Write b sv := (Ok tt, Server (sv_clock sv) (sv_db sv) (sv_in sv ++ b) (sv_out sv));
  conn_reader := server_reader;
  conn_set_reader r sv := Server (sv_clock sv) (server_db sv) [] r;
|}.

#[global] Instance server_host : Host server := {|
  time_now sv := (sv_clock sv, sv);
  rand_Read n sv := (Ok (replicate (Z.to_nat n) x2a), sv);
  os_MkdirAll _ sv := (Ok tt, sv);
  os_WriteFile _ _ sv := (Ok tt, sv);
  os_Remove _ sv := (Ok tt, sv);
  os_ReadFile _ sv := (Err (Sentinel os_ErrNotExist), sv);
  ExtensionsByType _ := None;
|}.

Lemma server_writes args sv :
  writeCommand args sv =
    (Ok tt, Server (sv_clock sv) (sv_db sv) (sv_in sv ++ command_bytes args) (sv_out sv)).
Proof.
  unfold writeCommand, command_bytes. destruct sv as [t d i o]. cbn [sv_clock sv_db sv_in sv_out].
  run_step. cbn [sv_clock sv_db sv_in sv_out].
  rewrite (app_assoc i). generalize (i ++ array_header args) as v. clear i.
  induction args as [|a args IH]; intros v; cbn [map concat write_bulks]; [by rewrite app_nil_r|].
  run_step. cbn [sv_clock sv_db sv_in sv_out]. by rewrite IH, <- app_assoc.
Qed.

Lemma reply_okb_ok r : reply_okb r = true → reply_ok r.
Proof.
  destruct r; cbn; unfold int64; rewrite ?andb_true_iff, ?Z.leb_le, ?Z.ltb_lt; try done.
  all: by intros H%bool_decide_eq_true.
Qed.

Lemma reply_bytes_nonempty r : reply_bytes r ≠ [].
Proof. by destruct r. Qed.

#[global] Instance server_laws : RedisLaws sv_clock server_db.
Proof.
  split.
  - intros r sv. by destruct sv.
  - intros sv. split_and!; [done|cbn; lia|done].
  - intros addr sv. unfold wp. cbn. split_and!; [done|lia|by destruct sv|done|done].
  - intros args [t d i o] Hempty. cbn [conn_reader server_net] in Hempty. unfold server_reader in Hempty.
    destruct (answer _) as [[rep0 d0]|] eqn:Ha; [by apply reply_bytes_nonempty in Hempty|].
    cbn [sv_in sv_out] in Hempty.
    case_decide as Hi; [|done]. subst i.
    unfold wp. rewrite server_writes. cbn [fst snd sv_clock sv_db sv_in sv_out app].
    split; [done|]. split; [done|].
    assert (Hans : answer (Server t d (command_bytes args) o) =
      let (rep, d') := redis_exec t args d in
      Some (if reply_okb rep then (rep, d') else (Failure (bytes_of "ERR"), d))).
    { unfold answer. cbn [sv_in sv_clock sv_db].
      pose proof (parse_command_bytes args []) as E. rewrite app_nil_r in E. by rewrite E. }
    cbn [conn_reader server_net]. unfold server_reader, server_db. rewrite Hans, Ha. cbn [sv_db].
    destruct (redis_exec t args d) as [rep d'] eqn:He. destruct (reply_okb rep) eqn:Hok.
    + exists t, rep, d'. rewrite He. split; [lia|]. split; [by apply reply_okb_ok|]. split; [by left|].
      split; [done|]. split; [by right|done].
    + exists t, (Failure (bytes_of "ERR")), d. split; [lia|].
      split; [decide_by_vm|]. split; [by right; eexists|].
      split; [done|]. split; [by left|done].
Qed.

Definition demo_redis : RedisConfig :=
  {| redis_Addr := "redis:6379"; redis_Password := "secret"; redis_DB := 2;
     KeyPrefix := "go-entry-task";
     DialTimeout := 2 * Second; IOTimeout := 2 * Second |}.
Definition sv0 : server := Server (1000 * Second) ∅ [] (Reader [] EOF).

Lemma redis_refines_sessions_witness :
  SessionLaws (redis_sessions demo_redis) sv_clock (redis_sess demo_redis server_db).
Proof. exact (redis_refines_sessions demo_redis sv_clock server_db). Defined.


