(* ===== verification/RedisPictures.v ===== *)
(** * The Redis store is the picture cache the service relies on
    ([src/internal/store/redisstore/session.go])

    [CacheLaws], the interface against which [Pictures] proves that cached
    pictures are the stored ones, holds for the Redis store on every server that
    executes commands as Redis documents them. *)

From S2P Require Import Prelude GoStrings GoEncoding Json Errors Config Protocol Service ServiceSpec Memory Pictures Redis RedisSpec.
From Stdlib Require Import Strings.Byte.

Section redis_pictures.
Context {W : Type} `{!RedisNet W, !Host W} (cfg : RedisConfig) (clock : W → Z)
  (db : W → redis_db) `{!RedisLaws clock db}.

(** The picture in a database entry, as [GetProfilePicture] decodes it. *)
Definition decode_picture (v : bytes) : option (string * bytes) :=
  res ← parse v ≫= ProfilePictureResult_of;
  data ← b64_decode StdEncoding (bytes_of (pp_DataBase64 res));
  Some (pp_ContentType res, data).

Definition redis_cached (w : W) (uid version : Z) : option (string * bytes) :=
  e ← db w !! string_of (pictureKey cfg uid version); decode_picture e.1.

Lemma decode_picture_entry mime data :
  text mime → decode_picture (picture_entry mime data).1 = Some (mime, data).
Proof.
  intros Hm. unfold decode_picture, picture_entry. cbn [fst].
  rewrite (picture_entry_decodes mime data Hm).
  change (b64_decode StdEncoding (bytes_of (pp_DataBase64 (picture_result mime data))) ≫=
    (λ d, Some (mime, d)) = Some (mime, data)).
  unfold picture_result, pp_DataBase64. by rewrite bytes_of_string_of, b64_decode_encode by apply _.
Qed.

Lemma other_entry uid version u v w w' :
  uint64 uid → uint64 version → uint64 u → uint64 v → (u, v) ≠ (uid, version) →
  only_key db (pictureKey cfg uid version) w w' → redis_cached w' u v = redis_cached w u v.
Proof.
  intros [] [] [] [] Hne Hk. unfold redis_cached. rewrite Hk; [done|].
  intros E%(f_equal bytes_of). rewrite !bytes_of_string_of in E.
  apply pictureKey_inj in E as [-> ->]; done.
Qed.

Lemma get_decodes uid version w :
  wp (Redis.GetProfilePicture cfg uid version) (λ r w', r ≠ Panic ∧ db w' = db w ∧
    ∀ mime data, r = Ok (mime, data, true) → redis_cached w uid version = Some (mime, data)) w.
Proof.
  unfold Redis.GetProfilePicture. apply wp_bind.
  eapply wp_mono, (get_command cfg clock db (pictureKey cfg uid version) w).
  intros [v|e|] w' (Hnp & Hc & Hd & Hv); [|done|done].
  destruct (Hv v eq_refl) as (t & Ht & ->). clear Hv. unfold redis_cached.
  destruct (db w !! string_of (pictureKey cfg uid version)) as [e|]; [|by apply wp_ret; split_and!].
  destruct (live t e); [|by apply wp_ret; split_and!]. destruct e as [[|b val] d]; [by apply wp_ret; split_and!|]. cbn [fst].
  change (Some (b :: val, d) ≫= (λ e, decode_picture e.1)) with (decode_picture (b :: val)).
  unfold decode_picture. apply wp_bind. unfold wp at 1, lift at 1. cbn [fst snd].
  destruct (parse (b :: val) ≫= ProfilePictureResult_of) as [res|]; [|by split_and!].
  cbn [of_option]. apply wp_bind. unfold wp at 1, lift at 1. cbn [fst snd].
  change (Some res ≫= ?f) with (f res). cbn beta.
  destruct (b64_decode StdEncoding (bytes_of (pp_DataBase64 res))) as [data|]; [|by split_and!].
  cbn [of_option]. apply wp_ret. split_and!; [done|done|]. by intros mime data' [= <- <-].
Qed.

(** C16: the Redis store provides the picture cache the service relies on, on
    every server that executes commands as Redis documents them: a hit returns
    the picture that was saved under that user and version, and saving or deleting
    one entry, even with an error, creates and changes no other. *)
Theorem redis_refines_pictures : CacheLaws (redis_pictures cfg) redis_cached.
Proof.
  split.
  - intros uid version mime data w Huid Hv Hm.
    destruct (set_command cfg clock db (pictureKey cfg uid version)
      (picture_entry mime data).1 w) as (Hnp & Hk & _ & Hin).
    split; [exact Hnp|]. intros u v Hu' Hv'.
    destruct (decide ((u, v) = (uid, version))) as [[= -> ->]|Hne].
    + destruct Hin as [Hin|Hin]; [left; left|right; split; [done|]]; unfold redis_cached.
      * exact (f_equal (λ o, o ≫= _) Hin).
      * etrans; [exact (f_equal (λ o, o ≫= _) Hin)|]. by apply decode_picture_entry.
    + left. left. exact (other_entry uid version u v w _ Huid Hv Hu' Hv' Hne Hk).
  - intros uid version w. destruct (get_decodes uid version w) as (Hnp & Hd & Hr).
    split_and!; [exact Hnp| |exact Hr]. intros u v _ _. left. unfold redis_cached.
    exact (f_equal (λ d, d !! _ ≫= _) Hd).
  - intros uid version w.
    destruct (del_command cfg clock db (pictureKey cfg uid version) w) as (Hnp & Hk & _ & Hin).
    split; [exact Hnp|]. intros u v Hu' Hv'.
    unfold shrinks, redis_cached.
    destruct (decide (string_of (pictureKey cfg u v) = string_of (pictureKey cfg uid version)))
      as [->|Hne]; [|left; exact (f_equal (λ o, o ≫= _) (Hk _ Hne))].
    destruct Hin as [Hin|Hin]; [left|right]; exact (f_equal (λ o, o ≫= _) Hin).
Qed.
End redis_pictures.

Lemma redis_refines_pictures_witness :
  CacheLaws (redis_pictures demo_redis) (redis_cached demo_redis server_db).
Proof. exact (redis_refines_pictures demo_redis sv_clock server_db). Defined.
