(* ===== verification/TcpServer.v ===== *)
(** * The TCP backend ([src/internal/service/tcp_server.go])

    [ListenAndServe] starts a pool of workers and accepts connections; every
    connection has a goroutine that reads requests, puts them into a bounded
    queue and writes the responses.  The goroutines are a state machine: each
    rule of [step] is one communication (a channel operation, a read or a write
    of a frame), and the rules interleave in any order.  [handles req r] is what
    [Service.Handle] may return for [req] while other workers run. *)

From S2P Require Import Prelude GoIO GoStrings Json Frame Errors Config Protocol.
From stdpp Require Import relations.

#[local] Open Scope Z_scope.

(** ** Responses *)

Definition bad_request_response : Response :=
  {| resp_Version := Version; resp_RequestID := ""; resp_OK := false;
     resp_ErrorCode := "bad_request"; resp_Message := "Invalid JSON request."; resp_Body := None |}.

Definition busy_response (req : Request) : Response :=
  {| resp_Version := Version; resp_RequestID := req_RequestID req; resp_OK := false;
     resp_ErrorCode := "server_busy"; resp_Message := "Server is busy."; resp_Body := None |}.

(** The response a worker makes of what [Handle] returned. *)
Definition response_for (req : Request) (r : outcome error json) : option Response :=
  match r with
  | Ok body => Some {| resp_Version := Version; resp_RequestID := req_RequestID req;
                       resp_OK := true; resp_ErrorCode := ""; resp_Message := "";
                       resp_Body := Some body |}
  | Err err => Some {| resp_Version := Version; resp_RequestID := req_RequestID req;
                       resp_OK := false; resp_ErrorCode := (ErrorCode err).1;
                       resp_Message := (ErrorCode err).2; resp_Body := None |}
  | Panic => None
  end.

(** Errors of [WriteFrame] are logged. *)
Definition writeResponse (cfg : TCPConfig) (resp : Response) (w : writer) : writer :=
  (WriteFrame (encode (Response_json resp)) (MaxFrameBytes cfg) w).2.

(** ** State *)

(** Where the goroutine of a connection is: in [ReadFrame], in the [select] that
    queues its request, waiting for the response channel, in [writeResponse],
    or gone. *)
Inductive conn_state :=
  | Reading
  | Queueing (req : Request)
  | Waiting (respCh : nat)
  | Writing (resp : Response)
  | Returned.

(** A connection, with what it was when it was accepted. *)
Record conn := Conn {
  c_accepted : reader * writer;
  c_reader : reader;
  c_writer : writer;
  c_state : conn_state;
}.

Record tcpJob := Job { job_req : Request; job_resp : nat }.

Inductive worker_state :=
  | Selecting
  | Handling (job : tcpJob)
  | Replying (job : tcpJob) (resp : Response)
  | Exited.

(** Response channels have room for one response. *)
Record server_state := State {
  ctx_done : bool;
  closed : bool;                          (* close(s.jobs) *)
  crashed : bool;                         (* a goroutine has panicked *)
  jobs : list tcpJob;
  workers : list worker_state;
  conns : gmap nat conn;
  resp_chans : gmap nat (option Response);
}.

Definition set_jobs (q : list tcpJob) (s : server_state) : server_state :=
  State (ctx_done s) (closed s) (crashed s) q (workers s) (conns s) (resp_chans s).
Definition set_worker (i : nat) (ws : worker_state) (s : server_state) : server_state :=
  State (ctx_done s) (closed s) (crashed s) (jobs s) (<[i := ws]> (workers s)) (conns s) (resp_chans s).
Definition set_conn (c : nat) (cn : conn) (s : server_state) : server_state :=
  State (ctx_done s) (closed s) (crashed s) (jobs s) (workers s) (<[c := cn]> (conns s)) (resp_chans s).
Definition set_chan (ch : nat) (v : option Response) (s : server_state) : server_state :=
  State (ctx_done s) (closed s) (crashed s) (jobs s) (workers s) (conns s) (<[ch := v]> (resp_chans s)).
Definition crash (s : server_state) : server_state :=
  State (ctx_done s) (closed s) true (jobs s) (workers s) (conns s) (resp_chans s).

Definition goto (cn : conn) (st : conn_state) : conn :=
  Conn (c_accepted cn) (c_reader cn) (c_writer cn) st.

(** Compute the fields of an updated state. *)
Ltac fields :=
  cbn [ctx_done closed crashed jobs workers conns resp_chans set_jobs set_worker set_conn set_chan
       crash c_accepted c_reader c_writer c_state goto].

(** ** Steps *)

(** [NewTCPServer] and the start of the workers in [ListenAndServe]. *)
Definition NewTCPServer (cfg : TCPConfig) : outcome error server_state :=
  if QueueSize cfg <? 0 then Panic
  else
    let n := if WorkerCount cfg <=? 0 then 1 else WorkerCount cfg in
    Ok (State false false false [] (replicate (Z.to_nat n) Selecting) ∅ ∅).

Lemma NewTCPServer_workers cfg :
  0 ≤ QueueSize cfg → 0 < WorkerCount cfg →
  ∃ s, NewTCPServer cfg = Ok s ∧ Z.of_nat (length (workers s)) = WorkerCount cfg.
Proof.
  intros Hq Hw. unfold NewTCPServer.
  rewrite (proj2 (Z.ltb_ge _ _)), (proj2 (Z.leb_gt _ _)) by lia. eexists. split; [done|].
  cbn [workers]. rewrite length_replicate. lia.
Qed.

Section steps.
Context (cfg : TCPConfig) (handles : Request → outcome error json → Prop).

(** [worker]: one turn of its loop, short of shutting down. *)
Inductive worker_step (s : server_state) : server_state → Prop :=
  | worker_receives i j q :
      workers s !! i = Some Selecting → jobs s = j :: q →
      worker_step s (set_worker i (Handling j) (set_jobs q s))
  | worker_handles i j r resp :
      workers s !! i = Some (Handling j) → handles (job_req j) r →
      response_for (job_req j) r = Some resp →
      worker_step s (set_worker i (Replying j resp) s)
  | worker_panics i j :
      workers s !! i = Some (Handling j) → handles (job_req j) Panic →
      worker_step s (crash s)
  | worker_replies i j resp :
      workers s !! i = Some (Replying j resp) → resp_chans s !! job_resp j = Some None →
      worker_step s (set_worker i Selecting (set_chan (job_resp j) (Some resp) s)).

(** [handleConn]: one communication of its loop. *)
Inductive conn_step (s : server_state) : server_state → Prop :=
  | conn_reads c cn payload rd req :
      conns s !! c = Some cn → c_state cn = Reading →
      ReadFrame (MaxFrameBytes cfg) (c_reader cn) = (Ok payload, rd) →
      parse payload ≫= Request_of = Some req →
      conn_step s (set_conn c (Conn (c_accepted cn) rd (c_writer cn) (Queueing req)) s)
  | conn_reads_garbage c cn payload rd :
      conns s !! c = Some cn → c_state cn = Reading →
      ReadFrame (MaxFrameBytes cfg) (c_reader cn) = (Ok payload, rd) →
      parse payload ≫= Request_of = None →
      conn_step s (set_conn c (Conn (c_accepted cn) rd (c_writer cn) (Writing bad_request_response)) s)
  | conn_read_fails c cn e rd :
      conns s !! c = Some cn → c_state cn = Reading →
      ReadFrame (MaxFrameBytes cfg) (c_reader cn) = (Err e, rd) →
      conn_step s (set_conn c (Conn (c_accepted cn) rd (c_writer cn) Returned) s)
  | conn_deadline_fails c cn :               (* SetReadDeadline on a dead connection *)
      conns s !! c = Some cn → c_state cn = Reading →
      conn_step s (set_conn c (goto cn Returned) s)
  | conn_queues c cn req ch :
      conns s !! c = Some cn → c_state cn = Queueing req → closed s = false →
      Z.of_nat (length (jobs s)) < QueueSize cfg → resp_chans s !! ch = None →
      conn_step s (set_conn c (goto cn (Waiting ch)) (set_chan ch None
                     (set_jobs (jobs s ++ [Job req ch]) s)))
  | conn_hands_over c cn req ch i :          (* a worker is already receiving *)
      conns s !! c = Some cn → c_state cn = Queueing req → closed s = false →
      workers s !! i = Some Selecting → jobs s = [] → resp_chans s !! ch = None →
      conn_step s (set_conn c (goto cn (Waiting ch)) (set_chan ch None
                     (set_worker i (Handling (Job req ch)) s)))
  | conn_busy c cn req :                     (* default: no other case is ready *)
      conns s !! c = Some cn → c_state cn = Queueing req → closed s = false →
      ctx_done s = false → QueueSize cfg ≤ Z.of_nat (length (jobs s)) →
      conn_step s (set_conn c (goto cn (Writing (busy_response req))) s)
  | conn_panics c cn req :                   (* send on a closed channel *)
      conns s !! c = Some cn → c_state cn = Queueing req → closed s = true →
      conn_step s (crash s)
  | conn_receives c cn ch resp :
      conns s !! c = Some cn → c_state cn = Waiting ch → resp_chans s !! ch = Some (Some resp) →
      conn_step s (set_conn c (goto cn (Writing resp)) (set_chan ch None s))
  | conn_writes c cn resp :
      conns s !! c = Some cn → c_state cn = Writing resp →
      conn_step s (set_conn c (Conn (c_accepted cn) (c_reader cn)
                     (writeResponse cfg resp (c_writer cn)) Reading) s)
  | conn_cancelled c cn :
      conns s !! c = Some cn → ctx_done s = true →
      (∃ req, c_state cn = Queueing req) ∨ (∃ ch, c_state cn = Waiting ch) →
      conn_step s (set_conn c (goto cn Returned) s).

(** A process that has crashed takes no further steps. *)
Inductive step (s : server_state) : server_state → Prop :=
  | step_worker s' : crashed s = false → worker_step s s' → step s s'
  | step_conn s' : crashed s = false → conn_step s s' → step s s'
  | step_accept c rd wr :
      crashed s = false → closed s = false → conns s !! c = None →
      step s (set_conn c (Conn (rd, wr) rd wr Reading) s)
  | step_cancel :
      crashed s = false →
      step s (State true (closed s) (crashed s) (jobs s) (workers s) (conns s) (resp_chans s))
  | step_close :                             (* Accept fails: ListenAndServe returns *)
      crashed s = false → ctx_done s = true →
      step s (State (ctx_done s) true (crashed s) (jobs s) (workers s) (conns s) (resp_chans s))
  | step_worker_exits i j resp :
      crashed s = false →
      (workers s !! i = Some Selecting ∧ (ctx_done s = true ∨ closed s = true ∧ jobs s = [])) ∨
      (workers s !! i = Some (Replying j resp) ∧ ctx_done s = true) →
      step s (set_worker i Exited s).

Definition reachable (s : server_state) : Prop :=
  ∃ s0, NewTCPServer cfg = Ok s0 ∧ rtc step s0 s.
End steps.

(** ** What a connection has been answered *)

Section answers.
Context (cfg : TCPConfig) (handles : Request → outcome error json → Prop).

(** The response is one the server may give to this payload. *)
Definition answers (payload : bytes) (resp : Response) : Prop :=
  match parse payload ≫= Request_of with
  | None => resp = bad_request_response
  | Some req => resp = busy_response req ∨
                ∃ r, handles req r ∧ response_for req r = Some resp
  end.

(** What is on the connection after these responses. *)
Definition written (resps : list Response) (w : writer) : writer :=
  foldl (λ w resp, writeResponse cfg resp w) w resps.

(** Wherever the job with this channel is, it is this request's. *)
Definition tracks (s : server_state) (ch : nat) (p : bytes) (req : Request) : Prop :=
  (∀ j, j ∈ jobs s → job_resp j = ch → job_req j = req) ∧
  (∀ i j, workers s !! i = Some (Handling j) → job_resp j = ch → job_req j = req) ∧
  (∀ i j resp, workers s !! i = Some (Replying j resp) → job_resp j = ch → answers p resp) ∧
  (∀ resp, resp_chans s !! ch = Some (Some resp) → answers p resp).

(** The payload read last and not answered yet, by the state of the goroutine. *)
Definition pending (s : server_state) (st : conn_state) (todo : list bytes) : Prop :=
  match st with
  | Reading => todo = []
  | Queueing req => ∃ p, todo = [p] ∧ parse p ≫= Request_of = Some req
  | Waiting ch => ∃ p req, todo = [p] ∧ parse p ≫= Request_of = Some req ∧ tracks s ch p req
  | Writing resp => ∃ p, todo = [p] ∧ answers p resp
  | Returned => True
  end.

(** The requests read from the connection have been answered in order, except
    for the last one while it is in progress. *)
Definition conversation (s : server_state) (cn : conn) : Prop :=
  ∃ payloads resps todo,
    Forall2 answers payloads resps ∧ c_writer cn = written resps (c_accepted cn).2 ∧
    pending s (c_state cn) todo ∧
    match c_state cn with
    | Returned => ∃ rest, r_data (c_accepted cn).1 = concat (map frame_bytes payloads) ++ rest
    | _ => r_data (c_accepted cn).1 =
             concat (map frame_bytes (payloads ++ todo)) ++ r_data (c_reader cn)
    end.

(** ** Channels *)

Definition worker_chan (ws : worker_state) : option nat :=
  match ws with
  | Handling j | Replying j _ => Some (job_resp j)
  | _ => None
  end.

(** The response channels of the jobs in the queue and in the workers. *)
Definition job_chans (q : list tcpJob) (ws : list worker_state) : list nat :=
  map job_resp q ++ omap worker_chan ws.

Definition chans (s : server_state) : list nat := job_chans (jobs s) (workers s).

(** What changing one worker does to a list made of the queue and the workers. *)
Lemma omap_worker {A} (f : worker_state → option A) ws i old :
  ws !! i = Some old → ∃ rest,
    (∀ q, q ++ omap f ws ≡ₚ option_list (f old) ++ q ++ rest) ∧
    (∀ q new, q ++ omap f (<[i := new]> ws) ≡ₚ option_list (f new) ++ q ++ rest).
Proof.
  intros Hi. exists (omap f (take i ws) ++ omap f (drop (S i) ws)).
  assert (Hperm : ∀ q l1 l2 w, q ++ omap f (l1 ++ w :: l2) ≡ₚ
    option_list (f w) ++ q ++ omap f l1 ++ omap f l2).
  { intros q l1 l2 w. rewrite omap_app. cbn.
    destruct (f w) as [ch|]; cbn; [|done]. rewrite !app_assoc. by rewrite <- Permutation_middle. }
  split.
  - intros q. rewrite <- (take_drop_middle ws i old Hi) at 1. apply Hperm.
  - intros q new. rewrite insert_take_drop by (by eapply lookup_lt_Some). apply Hperm.
Qed.

Lemma job_chans_worker ws i old :
  ws !! i = Some old → ∃ rest,
    (∀ q, job_chans q ws ≡ₚ option_list (worker_chan old) ++ map job_resp q ++ rest) ∧
    (∀ q new, job_chans q (<[i := new]> ws) ≡ₚ
       option_list (worker_chan new) ++ map job_resp q ++ rest).
Proof.
  intros Hi. destruct (omap_worker worker_chan _ _ _ Hi) as (rest & H1 & H2). exists rest.
  split; intros; [apply H1|apply H2].
Qed.

(** Only the [watched] connections are known to be answered by [handles]. *)
Context (watched : nat → Prop).

Record Inv (s : server_state) : Prop := {
  inv_closed : closed s = true → ctx_done s = true;
  inv_queue : Z.of_nat (length (jobs s)) ≤ QueueSize cfg;
  inv_workers : workers s ≠ [];
  inv_exited : ctx_done s = false → Exited ∉ workers s;
  inv_nodup : NoDup (chans s);
  inv_empty ch : ch ∈ chans s → resp_chans s !! ch = Some None;
  inv_made c cn ch : conns s !! c = Some cn → c_state cn = Waiting ch → is_Some (resp_chans s !! ch);
  inv_own c1 cn1 c2 cn2 ch :
    conns s !! c1 = Some cn1 → conns s !! c2 = Some cn2 →
    c_state cn1 = Waiting ch → c_state cn2 = Waiting ch → c1 = c2;
  inv_live c cn ch :
    ctx_done s = false → conns s !! c = Some cn → c_state cn = Waiting ch →
    ch ∈ chans s ∨ ∃ resp, resp_chans s !! ch = Some (Some resp);
  inv_talk c cn : watched c → conns s !! c = Some cn → conversation s cn;
}.

(** ** Worker steps *)

Lemma tracks_worker_step s s' ch p req :
  worker_step handles s s' → parse p ≫= Request_of = Some req →
  tracks s ch p req → tracks s' ch p req.
Proof.
  intros Hstep Hp (Hq & Hh & Hr & Hc).
  assert (Hans : ∀ r resp, handles req r → response_for req r = Some resp → answers p resp).
  { intros r resp H1 H2. unfold answers. rewrite Hp. eauto. }
  destruct Hstep as [i j q Hi Hj|i j r resp Hi Hhan Hresp|i j Hi Hhan|i j resp Hi Hch];
    unfold tracks; fields; split_and!; eauto.
  - intros j' Hj' <-. apply Hq; [|done]. rewrite Hj. by right.
  - intros i' j'. rewrite list_lookup_insert_Some. intros [(_ & [= <-] & _)|[_ ?]]; [|by eauto].
    apply Hq. rewrite Hj. by left.
  - intros i' j' resp'. rewrite list_lookup_insert_Some. intros [(_ & ? & _)|[_ ?]]; [done|by eauto].
  - intros i' j'. rewrite list_lookup_insert_Some. intros [(_ & ? & _)|[_ ?]]; [done|by eauto].
  - intros i' j' resp'. rewrite list_lookup_insert_Some.
    intros [(_ & [= <- <-] & _)|[_ ?]] Hjch; [|by eauto].
    rewrite (Hh _ _ Hi Hjch) in *. by eauto.
  - intros i' j'. rewrite list_lookup_insert_Some. intros [(_ & ? & _)|[_ ?]]; [done|by eauto].
  - intros i' j' resp'. rewrite list_lookup_insert_Some. intros [(_ & ? & _)|[_ ?]]; [done|by eauto].
  - intros resp'. rewrite lookup_insert_Some. intros [[Hjch [= <-]]|[_ ?]]; by eauto.
Qed.

(** What a step of the workers does to the channels. *)
Lemma worker_step_chans s s' :
  worker_step handles s s' →
  (chans s' ≡ₚ chans s ∧ resp_chans s' = resp_chans s) ∨
  ∃ ch resp, chans s ≡ₚ ch :: chans s' ∧ resp_chans s' = <[ch := Some resp]> (resp_chans s).
Proof.
  unfold chans.
  intros [i j q Hi Hj|i j r resp Hi _ _|i j Hi _|i j resp Hi Hch]; fields; [left|left|by left|right].
  - destruct (job_chans_worker _ _ _ Hi) as (rest & Hold & Hnew). rewrite Hnew, Hold, Hj. done.
  - destruct (job_chans_worker _ _ _ Hi) as (rest & Hold & Hnew). by rewrite Hnew, Hold.
  - destruct (job_chans_worker _ _ _ Hi) as (rest & Hold & Hnew). exists (job_resp j), resp.
    by rewrite Hnew, Hold.
Qed.

Lemma worker_step_frame s s' :
  worker_step handles s s' →
  conns s' = conns s ∧ ctx_done s' = ctx_done s ∧ closed s' = closed s ∧
  (length (jobs s') ≤ length (jobs s))%nat ∧ length (workers s') = length (workers s) ∧
  (Exited ∈ workers s' → Exited ∈ workers s).
Proof.
  assert (Hex : ∀ i ws (l : list worker_state), Exited ∈ <[i := ws]> l → ws ≠ Exited → Exited ∈ l).
  { intros i ws l. rewrite !list_elem_of_lookup. intros [k Hk] Hne.
    apply list_lookup_insert_Some in Hk as [(_ & -> & _)|[_ ?]]; [done|eauto]. }
  intros [i j q Hi Hj|i j r resp Hi _ _|i j Hi _|i j resp Hi Hch]; fields;
    rewrite ?length_insert, ?Hj; cbn [length]; split_and!; try done; try lia; by intros ?%Hex.
Qed.

Lemma conversation_mono s s' cn :
  (∀ ch p req, c_state cn = Waiting ch → parse p ≫= Request_of = Some req →
     tracks s ch p req → tracks s' ch p req) →
  conversation s cn → conversation s' cn.
Proof.
  intros Hmono (ps & rs & todo & Hans & Hw & Hpend & Hdata). exists ps, rs, todo.
  split_and!; [done|done| |done]. destruct (c_state cn) as [|req|ch|resp|] eqn:Hst; try done.
  destruct Hpend as (p & req & -> & Hp & Ht). exists p, req. by eauto.
Qed.

Lemma Inv_worker_step s s' : worker_step handles s s' → Inv s → Inv s'.
Proof.
  intros Hstep Hinv. destruct (worker_step_frame _ _ Hstep) as (Ec & Ed & Ecl & Hlen & Hws & Hex).
  destruct (worker_step_chans _ _ Hstep) as [[Hp Hr]|(ch0 & resp0 & Hp & Hr)].
  - split; rewrite ?Ec, ?Ed, ?Ecl, ?Hr; try (by apply Hinv).
    + pose proof (inv_queue _ Hinv). lia.
    + pose proof (inv_workers _ Hinv). intros E. rewrite E in Hws. by destruct (workers s).
    + intros Hd ?%Hex. by eapply inv_exited.
    + rewrite Hp. by apply Hinv.
    + intros ch. rewrite Hp. by apply Hinv.
    + intros c cn ch. rewrite Hp. by apply Hinv.
    + intros c cn Hwatch Hc. eapply conversation_mono, inv_talk; [|done..].
      intros ch p req _. by apply tracks_worker_step.
  - assert (Hin : ch0 ∈ chans s) by (rewrite Hp; by left).
    pose proof (inv_nodup _ Hinv) as Hnd. rewrite Hp in Hnd. apply NoDup_cons in Hnd as [Hnin Hnd].
    split; rewrite ?Ec, ?Ed, ?Ecl, ?Hr; try (by apply Hinv).
    + pose proof (inv_queue _ Hinv). lia.
    + pose proof (inv_workers _ Hinv). intros E. rewrite E in Hws. by destruct (workers s).
    + intros Hd ?%Hex. by eapply inv_exited.
    + done.
    + intros ch Hch. rewrite lookup_insert_ne by congruence. apply Hinv. rewrite Hp. by right.
    + intros c cn ch Hc Hst. destruct (decide (ch0 = ch)) as [->|]; [by rewrite lookup_insert_eq|].
      rewrite lookup_insert_ne by done. by eapply inv_made.
    + intros c cn ch Hd Hc Hst. destruct (inv_live _ Hinv _ _ _ Hd Hc Hst) as [Hl|[resp Hl]].
      * rewrite Hp in Hl. apply elem_of_cons in Hl as [->|?]; [|by left].
        right. rewrite lookup_insert_eq. eauto.
      * right. exists resp. rewrite lookup_insert_ne; [done|]. intros ->.
        rewrite (inv_empty _ Hinv) in Hl by done. done.
    + intros c cn Hwatch Hc. eapply conversation_mono, inv_talk; [|done..].
      intros ch p req _. by apply tracks_worker_step.
Qed.

(** The job of a connection that is not watched may have any result. *)
Lemma Inv_handled s i j resp :
  Inv s → workers s !! i = Some (Handling j) →
  (∀ c cn, watched c → conns s !! c = Some cn → c_state cn ≠ Waiting (job_resp j)) →
  Inv (set_worker i (Replying j resp) s).
Proof.
  intros Hinv Hi Hnot. destruct (job_chans_worker _ _ _ Hi) as (rest & Hold & Hnew).
  assert (Hp : chans (set_worker i (Replying j resp) s) ≡ₚ chans s)
    by (unfold chans; fields; by rewrite Hold, Hnew).
  split; fields; try (by apply Hinv).
  - intros E%(f_equal length). rewrite length_insert in E. apply lookup_lt_Some in Hi. cbn in E. lia.
  - intros Hd [k Hk]%list_elem_of_lookup. apply (inv_exited _ Hinv Hd), list_elem_of_lookup.
    apply list_lookup_insert_Some in Hk as [(_ & ? & _)|[_ ?]]; [done|eauto].
  - rewrite Hp. by apply Hinv.
  - intros ch. rewrite Hp. by apply Hinv.
  - intros c cn ch. rewrite Hp. by apply Hinv.
  - intros c cn Hwatch Hc. eapply conversation_mono, inv_talk; [|done..].
    intros ch p req Hst _ (T1 & T2 & T3 & T4). split_and!; fields; try done.
    + intros k j'. rewrite list_lookup_insert_Some. intros [(_ & ? & _)|[_ ?]]; [done|eauto].
    + intros k j' resp'. rewrite list_lookup_insert_Some. intros [(_ & [= <- <-] & _)|[_ ?]]; [|by eauto].
      intros <-. by destruct (Hnot c cn Hwatch Hc).
Qed.

(** ** Connection steps *)

(** A connection that does not wait changes nothing for the others. *)
Lemma Inv_set_conn s c cn :
  Inv s → (∀ ch, c_state cn ≠ Waiting ch) → (watched c → conversation s cn) → Inv (set_conn c cn s).
Proof.
  intros Hinv Hst Htalk.
  assert (Hlook : ∀ c' cn' ch, <[c := cn]> (conns s) !! c' = Some cn' → c_state cn' = Waiting ch →
    conns s !! c' = Some cn').
  { intros c' cn' ch H1 H2. apply lookup_insert_Some in H1 as [[_ <-]|[_ ?]]; [|done].
    by apply Hst in H2. }
  split; try (by apply Hinv).
  - intros c' cn' ch H1 H2. exact (inv_made _ Hinv _ _ _ (Hlook _ _ _ H1 H2) H2).
  - intros c1 cn1 c2 cn2 ch H1 H2 H3 H4.
    exact (inv_own _ Hinv _ _ _ _ _ (Hlook _ _ _ H1 H3) (Hlook _ _ _ H2 H4) H3 H4).
  - intros c' cn' ch Hd H1 H2. exact (inv_live _ Hinv _ _ _ Hd (Hlook _ _ _ H1 H2) H2).
  - fields. intros c' cn' Hwatch H1. apply lookup_insert_Some in H1 as [[<- <-]|[_ H1]]; [auto|].
    exact (inv_talk _ Hinv _ _ Hwatch H1).
Qed.

Lemma chans_job s j : j ∈ jobs s → job_resp j ∈ chans s.
Proof.
  intros Hj. unfold chans, job_chans. apply elem_of_app. left. apply list_elem_of_fmap. eauto.
Qed.

Lemma chans_worker s i ws ch : workers s !! i = Some ws → worker_chan ws = Some ch → ch ∈ chans s.
Proof.
  intros Hi Hch. unfold chans, job_chans. apply elem_of_app. right. apply list_elem_of_omap.
  exists ws. split; [by eapply list_elem_of_lookup_2|done].
Qed.

Lemma fresh_chan s ch : Inv s → resp_chans s !! ch = None → ch ∉ chans s.
Proof. intros Hinv Hf Hin. rewrite (inv_empty _ Hinv) in Hf by done. done. Qed.

(** A new job, with a fresh response channel, put somewhere. *)
Lemma Inv_new_job s s' c cn req ch :
  Inv s → conns s !! c = Some cn → c_state cn = Queueing req → resp_chans s !! ch = None →
  conns s' = <[c := goto cn (Waiting ch)]> (conns s) → resp_chans s' = <[ch := None]> (resp_chans s) →
  chans s' ≡ₚ ch :: chans s → ctx_done s' = ctx_done s → closed s' = closed s →
  Z.of_nat (length (jobs s')) ≤ QueueSize cfg → workers s' ≠ [] →
  (Exited ∈ workers s' → Exited ∈ workers s) →
  (∀ ch' p r, ch' ≠ ch → tracks s ch' p r → tracks s' ch' p r) →
  (∀ p, tracks s' ch p req) → Inv s'.
Proof.
  intros Hinv Hc Hst Hf Ec Er Hp Ed Ecl Hq Hw Hex Hother Hown.
  pose proof (fresh_chan _ _ Hinv Hf) as Hnin.
  assert (Hlook : ∀ c' cn' ch', conns s' !! c' = Some cn' → c_state cn' = Waiting ch' →
    c' = c ∧ ch' = ch ∨ conns s !! c' = Some cn' ∧ ch' ≠ ch).
  { intros c' cn' ch' H1 H2. rewrite Ec in H1. apply lookup_insert_Some in H1 as [[<- <-]|[_ H1]].
    - cbn in H2. simplify_eq. by left.
    - right. split; [done|]. intros ->. destruct (inv_made _ Hinv _ _ _ H1 H2). congruence. }
  split; rewrite ?Er, ?Ed, ?Ecl; try done; try (by apply Hinv).
  - intros Hd ?%Hex. by eapply inv_exited.
  - rewrite Hp. apply NoDup_cons. split; [done|by apply Hinv].
  - intros ch'. rewrite Hp, elem_of_cons. intros [->|Hin]; [by rewrite lookup_insert_eq|].
    rewrite lookup_insert_ne by congruence. by apply Hinv.
  - intros c' cn' ch' H1 H2. destruct (Hlook _ _ _ H1 H2) as [[_ ->]|[H3 Hne]];
      [by rewrite lookup_insert_eq|rewrite lookup_insert_ne by done; by eapply inv_made].
  - intros c1 cn1 c2 cn2 ch' H1 H2 H3 H4.
    destruct (Hlook _ _ _ H1 H3) as [[-> ->]|[? ?]], (Hlook _ _ _ H2 H4) as [[-> ?]|[? ?]]; try done.
    by eapply inv_own; eauto.
  - intros c' cn' ch' Hd H1 H2. rewrite Hp, elem_of_cons.
    destruct (Hlook _ _ _ H1 H2) as [[_ ->]|[H3 Hne]]; [by left; left|].
    rewrite lookup_insert_ne by done. destruct (inv_live _ Hinv _ _ _ Hd H3 H2); tauto.
  - intros c' cn' Hwatch. rewrite Ec. intros [[<- <-]|[Hne H1]]%lookup_insert_Some.
    + destruct (inv_talk _ Hinv _ _ Hwatch Hc) as (ps & rs & todo & Hans & Hwr & Hpend & Hdata).
      rewrite Hst in Hpend, Hdata. destruct Hpend as (p & -> & Hparse).
      exists ps, rs, [p]. split_and!; [done|done| |done]. cbn. eauto.
    + eapply conversation_mono, inv_talk; [|done..]. intros ch' p r H2 _. apply Hother.
      intros ->. destruct (inv_made _ Hinv _ _ _ H1 H2). congruence.
Qed.

(** The next payload of a connection that reads. *)
Lemma conversation_reads s cn payload rd st :
  conversation s cn → c_state cn = Reading →
  ReadFrame (MaxFrameBytes cfg) (c_reader cn) = (Ok payload, rd) →
  pending s st [payload] → (∀ ch, st ≠ Waiting ch) → st ≠ Returned →
  conversation s (Conn (c_accepted cn) rd (c_writer cn) st).
Proof.
  intros (ps & rs & todo & Hans & Hw & Hpend & Hdata) Hst Hread Hnew Hnw Hnr.
  rewrite Hst in Hpend, Hdata. cbn in Hpend. subst todo. rewrite app_nil_r in Hdata.
  destruct (ReadFrame_inv _ _ _ _ Hread) as [_ Hfr]. destruct (Hfr payload eq_refl) as [_ Hd].
  exists ps, rs, [payload]. split_and!; [done|done|done|].
  assert (E : r_data (c_accepted cn).1 = concat (map frame_bytes (ps ++ [payload])) ++ r_data rd).
  { rewrite Hdata, Hd, map_app, concat_app. cbn [map concat]. by rewrite app_nil_r, app_assoc. }
  cbn. by destruct st.
Qed.

(** A connection may go away at any time. *)
Lemma conversation_returns s cn rd :
  conversation s cn → conversation s (Conn (c_accepted cn) rd (c_writer cn) Returned).
Proof.
  intros (ps & rs & todo & Hans & Hw & Hpend & Hdata). exists ps, rs, []. split_and!; [done|done|done|].
  cbn. destruct (c_state cn); [..|done]; exists (concat (map frame_bytes todo) ++ r_data (c_reader cn));
    by rewrite Hdata, map_app, concat_app, app_assoc.
Qed.

(** The pending request gets its answer. *)
Lemma conversation_answered s cn p resp :
  (∃ ps rs, Forall2 answers ps rs ∧ c_writer cn = written rs (c_accepted cn).2 ∧
    r_data (c_accepted cn).1 = concat (map frame_bytes (ps ++ [p])) ++ r_data (c_reader cn)) →
  answers p resp → conversation s (goto cn (Writing resp)).
Proof. intros (ps & rs & H1 & H2 & H3) Hp. exists ps, rs, [p]. cbn. eauto 10. Qed.

Lemma conversation_writes s cn resp :
  conversation s cn → c_state cn = Writing resp →
  conversation s (Conn (c_accepted cn) (c_reader cn) (writeResponse cfg resp (c_writer cn)) Reading).
Proof.
  intros (ps & rs & todo & Hans & Hw & Hpend & Hdata) Hst. rewrite Hst in Hpend, Hdata.
  destruct Hpend as (p & -> & Hp). exists (ps ++ [p]), (rs ++ [resp]), []. cbn. rewrite app_nil_r.
  split_and!; [by apply Forall2_app; [|constructor]| |done|done].
  unfold written. rewrite foldl_app, Hw. done.
Qed.

Lemma Inv_conn_receives s c cn ch resp :
  Inv s → conns s !! c = Some cn → c_state cn = Waiting ch → resp_chans s !! ch = Some (Some resp) →
  Inv (set_conn c (goto cn (Writing resp)) (set_chan ch None s)).
Proof.
  intros Hinv Hc Hst Hch.
  assert (Hinv' : Inv (set_conn c (goto cn (Writing resp)) s)).
  { apply Inv_set_conn; [done|done|]. intros Hwatch.
    destruct (inv_talk _ Hinv _ _ Hwatch Hc) as (ps & rs & todo & Hans & Hw & Hpend & Hdata).
    rewrite Hst in Hpend, Hdata. destruct Hpend as (p & req & -> & Hp & Ht).
    apply conversation_answered with p; [by exists ps, rs|]. apply Ht, Hch. }
  assert (Hother : ∀ c' cn' ch', <[c := goto cn (Writing resp)]> (conns s) !! c' = Some cn' →
    c_state cn' = Waiting ch' → ch' ≠ ch).
  { intros c' cn' ch' [[_ <-]|[Hne H1]]%lookup_insert_Some H2; [done|]. intros ->.
    by apply Hne, (inv_own _ Hinv _ _ _ _ _ Hc H1 Hst). }
  split; fields; try (by apply Hinv').
  - intros ch' Hin. destruct (decide (ch = ch')) as [->|]; [by rewrite lookup_insert_eq|].
    rewrite lookup_insert_ne by done. by apply (inv_empty _ Hinv).
  - intros c' cn' ch' H1 H2. rewrite lookup_insert_ne by (intros <-; by eapply Hother).
    by apply (inv_made _ Hinv' _ _ _ H1).
  - intros c' cn' ch' Hd H1 H2. rewrite lookup_insert_ne by (intros <-; by eapply Hother).
    by apply (inv_live _ Hinv' _ _ _ Hd H1).
  - intros c' cn' Hwatch H1. eapply conversation_mono, (inv_talk _ Hinv' _ _ Hwatch H1). intros ch' p' r' H2 _.
    pose proof (Hother _ _ _ H1 H2). intros (T1 & T2 & T3 & T4). split_and!; [done|done|done|].
    intros resp'. fields. rewrite lookup_insert_ne by done. apply T4.
Qed.

Lemma Inv_conn_queues s c cn req ch :
  Inv s → conns s !! c = Some cn → c_state cn = Queueing req →
  Z.of_nat (length (jobs s)) < QueueSize cfg → resp_chans s !! ch = None →
  Inv (set_conn c (goto cn (Waiting ch)) (set_chan ch None (set_jobs (jobs s ++ [Job req ch]) s))).
Proof.
  intros Hinv Hc Hst Hlen Hf. pose proof (fresh_chan _ _ Hinv Hf) as Hnin.
  eapply (Inv_new_job s _ c cn req ch); fields; try done.
  - unfold chans, job_chans. fields. rewrite map_app, <- app_assoc. cbn [map app job_resp].
    by rewrite Permutation_middle.
  - rewrite length_app. cbn [length]. lia.
  - by apply Hinv.
  - intros ch' p r Hne (T1 & T2 & T3 & T4). split_and!; fields; try done.
    + intros j [Hj| ->%list_elem_of_singleton]%elem_of_app; [by apply T1|]. by intros <-.
    + intros resp. rewrite lookup_insert_ne by done. apply T4.
  - intros p. split_and!; fields.
    + intros j [Hj| ->%list_elem_of_singleton]%elem_of_app; [|done]. intros <-. by apply chans_job in Hj.
    + intros i j Hi <-. by destruct Hnin; apply (chans_worker _ _ _ _ Hi).
    + intros i j resp Hi <-. by destruct Hnin; apply (chans_worker _ _ _ _ Hi).
    + intros resp. by rewrite lookup_insert_eq.
Qed.

Lemma Inv_conn_hands_over s c cn req ch i :
  Inv s → conns s !! c = Some cn → c_state cn = Queueing req →
  workers s !! i = Some Selecting → jobs s = [] → resp_chans s !! ch = None →
  Inv (set_conn c (goto cn (Waiting ch)) (set_chan ch None (set_worker i (Handling (Job req ch)) s))).
Proof.
  intros Hinv Hc Hst Hi Hq Hf. pose proof (fresh_chan _ _ Hinv Hf) as Hnin.
  eapply (Inv_new_job s _ c cn req ch); fields; try done.
  - unfold chans. fields. destruct (job_chans_worker _ _ _ Hi) as (rest & Hold & Hnew).
    rewrite Hnew, Hold. done.
  - by apply Hinv.
  - intros E%(f_equal length). rewrite length_insert in E. apply lookup_lt_Some in Hi. cbn in E. lia.
  - rewrite !list_elem_of_lookup. intros [k Hk].
    apply list_lookup_insert_Some in Hk as [(_ & ? & _)|[_ ?]]; [done|eauto].
  - intros ch' p r Hne (T1 & T2 & T3 & T4). split_and!; fields; try done.
    + intros k j. rewrite list_lookup_insert_Some. intros [(_ & [= <-] & _)|[_ ?]]; [by intros <-|eauto].
    + intros k j resp. rewrite list_lookup_insert_Some. intros [(_ & ? & _)|[_ ?]]; [done|eauto].
    + intros resp. rewrite lookup_insert_ne by done. apply T4.
  - intros p. split_and!; fields.
    + intros j Hj. by rewrite Hq in Hj; apply not_elem_of_nil in Hj.
    + intros k j. rewrite list_lookup_insert_Some. intros [(_ & [= <-] & _)|[_ Hk]]; [done|].
      intros <-. by destruct Hnin; apply (chans_worker _ _ _ _ Hk).
    + intros k j resp. rewrite list_lookup_insert_Some. intros [(_ & ? & _)|[_ Hk]]; [done|].
      intros <-. by destruct Hnin; apply (chans_worker _ _ _ _ Hk).
    + intros resp. by rewrite lookup_insert_eq.
Qed.

Lemma Inv_conn_step s s' : conn_step cfg s s' → Inv s → Inv s'.
Proof.
  intros Hstep Hinv. pose proof (inv_talk _ Hinv) as Htalk.
  destruct Hstep as [c cn p rd req Hc Hst Hr Hp|c cn p rd Hc Hst Hr Hp|c cn e rd Hc Hst Hr
    |c cn Hc Hst|c cn req ch Hc Hst _ Hlen Hf|c cn req ch i Hc Hst _ Hi Hq Hf|c cn req Hc Hst _ _ _
    |c cn req Hc Hst Hcl|c cn ch resp Hc Hst Hch|c cn resp Hc Hst|c cn Hc Hd Hst].
  - apply Inv_set_conn; [done|done|]. intros Hwatch. eapply conversation_reads; eauto; [|done..].
    by exists p.
  - apply Inv_set_conn; [done|done|]. intros Hwatch. eapply conversation_reads; eauto; [|done..].
    exists p. split; [done|]. unfold answers. by rewrite Hp.
  - apply Inv_set_conn; [done|done|]. intros Hwatch. by apply conversation_returns, (Htalk c).
  - apply Inv_set_conn; [done|done|]. intros Hwatch. by apply conversation_returns, (Htalk c).
  - by eapply Inv_conn_queues.
  - by eapply Inv_conn_hands_over.
  - apply Inv_set_conn; [done|done|]. intros Hwatch.
    destruct (Htalk c cn Hwatch Hc) as (ps & rs & todo & Hans & Hw & Hpend & Hdata).
    rewrite Hst in Hpend, Hdata. destruct Hpend as (p & -> & Hp).
    apply conversation_answered with p; [by exists ps, rs|]. unfold answers. rewrite Hp. by left.
  - destruct Hinv. by split.
  - by eapply Inv_conn_receives.
  - apply Inv_set_conn; [done|done|]. intros Hwatch. by eapply conversation_writes, Hst; apply (Htalk c).
  - apply Inv_set_conn; [done|done|]. intros Hwatch. by apply conversation_returns, (Htalk c).
Qed.

Lemma Inv_worker_exits s i ws :
  Inv s → workers s !! i = Some ws → ctx_done s = true → Inv (set_worker i Exited s).
Proof.
  intros Hinv Hi Hd. destruct (job_chans_worker _ _ _ Hi) as (rest & Hold & Hnew).
  assert (Hsub : ∃ l, chans s ≡ₚ l ++ chans (set_worker i Exited s)).
  { exists (option_list (worker_chan ws)). unfold chans. fields. by rewrite Hold, Hnew. }
  destruct Hsub as [l Hsub].
  split; fields; try (by apply Hinv).
  - intros E%(f_equal length). rewrite length_insert in E. apply lookup_lt_Some in Hi. cbn in E. lia.
  - congruence.
  - pose proof (inv_nodup _ Hinv) as Hnd. rewrite Hsub in Hnd. by apply NoDup_app in Hnd as (_ & _ & ?).
  - intros ch Hin. apply (inv_empty _ Hinv). rewrite Hsub. apply elem_of_app. by right.
  - congruence.
  - intros c cn Hwatch Hc. eapply conversation_mono, (inv_talk _ Hinv _ _ Hwatch Hc). intros ch p r _ _.
    intros (T1 & T2 & T3 & T4). split_and!; fields; try done.
    + intros k j. rewrite list_lookup_insert_Some. intros [(_ & ? & _)|[_ ?]]; [done|eauto].
    + intros k j resp. rewrite list_lookup_insert_Some. intros [(_ & ? & _)|[_ ?]]; [done|eauto].
Qed.

Lemma Inv_step s s' : step cfg handles s s' → Inv s → Inv s'.
Proof.
  intros [s2 _ Hs|s2 _ Hs|c rd wr _ _ _|_|_ Hd|i j resp _ Hw] Hinv.
  - by eapply Inv_worker_step.
  - by eapply Inv_conn_step.
  - apply Inv_set_conn; [done|done|]. intros _. by exists [], [], [].
  - destruct Hinv. by split.
  - destruct Hinv. by split.
  - assert (Hdone : ctx_done s = true).
    { pose proof (inv_closed _ Hinv). destruct Hw as [[_ [?|[? _]]]|[_ ?]]; auto. }
    destruct Hw as [[Hi _]|[Hi _]]; by eapply Inv_worker_exits.
Qed.

Lemma Inv_init s : NewTCPServer cfg = Ok s → Inv s.
Proof.
  unfold NewTCPServer. destruct (Z.ltb_spec (QueueSize cfg) 0); [done|]. intros [= <-].
  assert (Hch : ∀ n, omap worker_chan (replicate n Selecting) = []) by (by induction n).
  split; unfold chans, job_chans; fields; cbn [map app]; rewrite ?Hch; try done.
  - intros E%(f_equal length). rewrite length_replicate in E. cbn in E.
    destruct (Z.leb_spec (WorkerCount cfg) 0); lia.
  - intros _ [? _]%elem_of_replicate. done.
  - apply NoDup_nil_2.
  - by intros ch ?%not_elem_of_nil.
Qed.

Lemma Inv_steps s s' : rtc (step cfg handles) s s' → Inv s → Inv s'.
Proof. induction 1; eauto using Inv_step. Qed.

Lemma watched_answers s c cn :
  Inv s → watched c → conns s !! c = Some cn →
  ∃ payloads resps rest,
    r_data (c_accepted cn).1 = concat (map frame_bytes payloads) ++ rest ∧
    Forall2 answers payloads resps ∧
    c_writer cn = written resps (c_accepted cn).2.
Proof.
  intros Hs Hwatch Hc.
  destruct (inv_talk _ Hs _ _ Hwatch Hc) as (ps & rs & todo & Hans & Hw & _ & Hdata).
  destruct (c_state cn); try (exists ps, rs, (concat (map frame_bytes todo) ++ r_data (c_reader cn));
    rewrite Hdata, map_app, concat_app, app_assoc; done).
  destruct Hdata as [rest Hdata]. by exists ps, rs, rest.
Qed.
End answers.

Arguments inv_closed {cfg handles watched}.
Arguments inv_queue {cfg handles watched}.
Arguments inv_workers {cfg handles watched}.
Arguments inv_exited {cfg handles watched}.
Arguments inv_nodup {cfg handles watched}.
Arguments inv_empty {cfg handles watched}.
Arguments inv_made {cfg handles watched}.
Arguments inv_own {cfg handles watched}.
Arguments inv_live {cfg handles watched}.
Arguments inv_talk {cfg handles watched}.

(** ** In every state the server can reach *)

(** The invariant for a connection that is not there yet does not depend on
    earlier answers. *)
Lemma Inv_rebase cfg handles handles' watched s c :
  Inv cfg handles watched s → conns s !! c = None → Inv cfg handles' (λ c', c' = c) s.
Proof. intros [] Hc. split; try done. intros c' cn -> Hc'. congruence. Qed.

Section reached.
Context (cfg : TCPConfig) (handles : Request → outcome error json → Prop).
Abbreviation Inv := (Inv cfg handles (λ _, True)).

Lemma reachable_Inv s : reachable cfg handles s → Inv s.
Proof. intros (s0 & H0 & Hrun). eapply Inv_steps; [exact Hrun|]. by apply Inv_init. Qed.

(** C5: every connection is answered in order, and with its own answers. In
    every state the server can reach, with any number of connections and
    workers interleaving, what has been written to a connection is exactly one
    response to each of the first requests its client sent, in the order sent:
    what [Handle] returned for that very request with its request id, or
    [server_busy] with that id, or [bad_request] when it was not JSON; a response
    that is over the frame limit or cannot be written is dropped on the way. *)
Theorem responses_in_order s c cn :
  reachable cfg handles s → conns s !! c = Some cn →
  ∃ payloads resps rest,
    r_data (c_accepted cn).1 = concat (map frame_bytes payloads) ++ rest ∧
    Forall2 (answers handles) payloads resps ∧
    c_writer cn = written cfg resps (c_accepted cn).2.
Proof. intros Hs%reachable_Inv. by apply (watched_answers _ _ _ _ _ _ Hs). Qed.

(** ** Workers get the work done *)

Definition weight (ws : worker_state) : nat :=
  match ws with Handling _ => 2 | Replying _ _ => 1 | _ => 0 end.
Definition work (s : server_state) : nat :=
  (3 * length (jobs s) + sum_list_with weight (workers s))%nat.

Lemma sum_weight_insert ws i old new :
  ws !! i = Some old →
  (sum_list_with weight (<[i := new]> ws) + weight old = sum_list_with weight ws + weight new)%nat.
Proof.
  intros Hi. rewrite <- (take_drop_middle ws i old Hi) at 2.
  rewrite insert_take_drop by (by eapply lookup_lt_Some). rewrite !sum_list_with_app. cbn. lia.
Qed.

Context (Htotal : ∀ req, ∃ r, handles req r) (Hsafe : ∀ req, ¬ handles req Panic).

Lemma worker_step_work s s' : worker_step handles s s' → (work s' < work s)%nat.
Proof.
  intros [i j q Hi Hj|i j r resp Hi _ _|i j Hi Hp|i j resp Hi Hch]; [| |by apply Hsafe in Hp|];
    unfold work; fields; rewrite ?Hj; cbn [length].
  all: match goal with |- context [<[_ := ?ws]> _] => pose proof (sum_weight_insert _ _ _ ws Hi) as H end.
  all: cbn [weight] in H; lia.
Qed.

Lemma worker_steps_sn s : sn (worker_step handles) s.
Proof.
  induction (well_founded_ltof _ work s) as [s _ IH]. constructor. intros s' Hs. apply IH.
  by apply worker_step_work.
Qed.

(** When no worker can go on, every request that was queued has its response. *)
Lemma idle_answered s c cn ch :
  Inv s → ctx_done s = false → (∀ s', ¬ worker_step handles s s') →
  conns s !! c = Some cn → c_state cn = Waiting ch →
  ∃ resp, resp_chans s !! ch = Some (Some resp).
Proof.
  intros Hinv Hd Hidle Hc Hst.
  assert (Hsel : ∀ i ws, workers s !! i = Some ws → ws = Selecting).
  { intros i [|j|j resp|] Hi; [done|..].
    - destruct (Htotal (job_req j)) as [r Hr]. destruct (response_for (job_req j) r) as [resp|] eqn:E.
      + exfalso. eapply Hidle. by eapply worker_handles.
      + destruct r; [done|done|]. by apply Hsafe in Hr.
    - exfalso. eapply Hidle. eapply worker_replies; [done|]. apply (inv_empty _ Hinv).
      by eapply chans_worker.
    - apply list_elem_of_lookup_2 in Hi. by apply (inv_exited _ Hinv) in Hi. }
  assert (Hq : jobs s = []).
  { destruct (jobs s) as [|j q] eqn:Hq; [done|]. exfalso.
    destruct (workers s) as [|ws l] eqn:Hw; [by apply (inv_workers _ Hinv) in Hw|].
    assert (Hi : workers s !! 0%nat = Some ws) by (by rewrite Hw). rewrite <- Hw in Hsel.
    rewrite (Hsel _ _ Hi) in Hi. eapply Hidle. by eapply worker_receives. }
  destruct (inv_live _ Hinv _ _ _ Hd Hc Hst) as [Hin|?]; [|done].
  exfalso. unfold chans, job_chans in Hin. rewrite Hq in Hin. cbn in Hin.
  apply list_elem_of_omap in Hin as (ws & [i Hi]%list_elem_of_lookup & Hch).
  by rewrite (Hsel _ _ Hi) in Hch.
Qed.

Lemma rtc_worker_Inv s s' :
  rtc (worker_step handles) s s' → Inv s →
  Inv s' ∧ conns s' = conns s ∧ ctx_done s' = ctx_done s.
Proof.
  induction 1 as [|s1 s2 s3 Hstep _ IH]; [done|]. intros Hinv.
  destruct (worker_step_frame _ _ _ Hstep) as (Ec & Ed & _). rewrite <- Ec, <- Ed.
  apply IH. by eapply Inv_worker_step.
Qed.

(** C6: no request is lost, and nothing blocks. As long as the server is not
    being shut down, from every state it can reach the workers can take only
    finitely many steps on their own, and whenever they come to rest every
    connection that waits for a response has one in its channel (for handlers
    that return). *)
Theorem requests_answered s c cn ch :
  reachable cfg handles s → ctx_done s = false →
  conns s !! c = Some cn → c_state cn = Waiting ch →
  sn (worker_step handles) s ∧
  ∀ s', rtc (worker_step handles) s s' → (∀ s'', ¬ worker_step handles s' s'') →
    conns s' !! c = Some cn ∧ ∃ resp, resp_chans s' !! ch = Some (Some resp).
Proof.
  intros Hs%reachable_Inv Hd Hc Hst. split; [apply worker_steps_sn|]. intros s' Hrun Hidle.
  destruct (rtc_worker_Inv _ _ Hrun Hs) as (Hs' & Ec & Ed). rewrite Ec. split; [done|].
  eapply (idle_answered s' c cn); [done|congruence|done|congruence|done].
Qed.

Lemma crash_only_closed s s' :
  step cfg handles s s' → (crashed s = true → closed s = true) →
  crashed s' = true → closed s' = true.
Proof.
  intros [s2 Hn [|i j r resp|i j Hi Hp|]|s2 Hn []|c rd wr Hn _ _|Hn|Hn Hd|i j resp Hn Hw] IH; fields;
    try congruence; auto. by apply Hsafe in Hp.
Qed.

(** C31: the server does not panic while it serves, and the queue stays within
    its bound: in every reachable state in which shutdown has not begun, no
    goroutine has panicked and at most [QueueSize] jobs are queued (for
    handlers that do not panic). *)
Theorem serving_is_safe s :
  reachable cfg handles s → ctx_done s = false →
  crashed s = false ∧ Z.of_nat (length (jobs s)) ≤ QueueSize cfg.
Proof.
  intros Hr Hd. pose proof (reachable_Inv _ Hr) as Hinv. split; [|apply Hinv].
  destruct (crashed s) eqn:Hc; [|done]. exfalso.
  assert (Hcl : closed s = true).
  { destruct Hr as (s0 & H0 & Hrun). revert Hc. clear Hd Hinv.
    assert (H : crashed s0 = true → closed s0 = true).
    { unfold NewTCPServer in H0. by case_match; simplify_eq. }
    clear H0. induction Hrun as [|s1 s2 s3 Hstep _ IH]; [done|]. apply IH.
    by apply (crash_only_closed s1). }
  apply (inv_closed _ Hinv) in Hcl. congruence.
Qed.
End reached.

(** ** A run *)

Definition demo_tcp : TCPConfig :=
  {| tcp_Addr := "127.0.0.1:9000"; ReadTimeout := 5000000000; WriteTimeout := 5000000000;
     MaxFrameBytes := 1024; WorkerCount := 1; QueueSize := 1 |}.
Definition demo_handles (req : Request) (r : outcome error json) : Prop := r = Ok (JObj []).
Definition demo_req : Request := Build_Request Version "7" OpLogout "t" (Some (JObj [])).
Definition demo_payload : bytes := Eval vm_compute in encode (Request_json demo_req).
Definition demo_input : reader := Reader (frame_bytes demo_payload) EOF.
Definition demo_conn (rd : reader) (wr : writer) (st : conn_state) : conn :=
  Conn (demo_input, Writer [] None) rd wr st.

Definition demo_start : server_state := State false false false [] [Selecting] ∅ ∅.
Definition demo_read (d cl cr : bool) : server_state :=
  State d cl cr [] [Selecting] {[0%nat := demo_conn (Reader [] EOF) (Writer [] None) (Queueing demo_req)]} ∅.
Definition demo_waiting : server_state :=
  State false false false [Job demo_req 0] [Selecting]
    {[0%nat := demo_conn (Reader [] EOF) (Writer [] None) (Waiting 0)]} {[0%nat := None]}.
Definition demo_response : Response :=
  {| resp_Version := Version; resp_RequestID := "7"; resp_OK := true; resp_ErrorCode := "";
     resp_Message := ""; resp_Body := Some (JObj []) |}.
Definition demo_answered : server_state :=
  State false false false [] [Selecting]
    {[0%nat := demo_conn (Reader [] EOF) (writeResponse demo_tcp demo_response (Writer [] None)) Reading]}
    {[0%nat := None]}.

Lemma demo_reads handles : reachable demo_tcp handles (demo_read false false false).
Proof.
  exists demo_start. split; [reflexivity|].
  eapply rtc_l; [by apply (step_accept _ _ _ 0 demo_input (Writer [] None))|].
  eapply rtc_once, step_conn; [done|].
  refine (eq_rect _ _ (conn_reads _ _ 0 _ demo_payload (Reader [] EOF) demo_req _ _ _ _) _ _);
    [reflexivity|reflexivity|vm_compute; reflexivity|vm_compute; reflexivity|].
  vm_compute. reflexivity.
Qed.

Lemma demo_waits handles : reachable demo_tcp handles demo_waiting.
Proof.
  destruct (demo_reads handles) as (s0 & H0 & Hrun). exists s0. split; [done|].
  eapply rtc_r; [exact Hrun|]. apply step_conn; [done|].
  refine (eq_rect _ _ (conn_queues _ _ 0 _ demo_req 0 _ _ _ _ _) _ _);
    [reflexivity|reflexivity|reflexivity|done|reflexivity|].
  vm_compute. reflexivity.
Qed.

Lemma demo_answers : reachable demo_tcp demo_handles demo_answered.
Proof.
  destruct (demo_waits demo_handles) as (s0 & H0 & Hrun). exists s0. split; [done|].
  etrans; [exact Hrun|].
  eapply rtc_l; [apply step_worker; [done|]; by eapply (worker_receives _ _ 0)|].
  eapply rtc_l; [apply step_worker; [done|]; by eapply (worker_handles _ _ 0)|].
  eapply rtc_l; [apply step_worker; [done|]; by eapply (worker_replies _ _ 0)|].
  eapply rtc_l; [apply step_conn; [done|]; by eapply (conn_receives _ _ 0)|].
  eapply rtc_once, step_conn; [done|].
  refine (eq_rect _ _ (conn_writes _ _ 0 _ demo_response _ _) _ _);
    [reflexivity|reflexivity|]. vm_compute. reflexivity.
Qed.

Lemma responses_in_order_witness :
  ∃ payloads resps rest,
    frame_bytes demo_payload = concat (map frame_bytes payloads) ++ rest ∧
    Forall2 (answers demo_handles) payloads resps ∧
    writeResponse demo_tcp demo_response (Writer [] None) = written demo_tcp resps (Writer [] None).
Proof.
  exact (responses_in_order demo_tcp demo_handles demo_answered 0
    (demo_conn (Reader [] EOF) (writeResponse demo_tcp demo_response (Writer [] None)) Reading)
    demo_answers eq_refl).
Defined.

Lemma requests_answered_witness :
  sn (worker_step demo_handles) demo_waiting ∧
  ∀ s', rtc (worker_step demo_handles) demo_waiting s' → (∀ s'', ¬ worker_step demo_handles s' s'') →
    conns s' !! 0%nat = Some (demo_conn (Reader [] EOF) (Writer [] None) (Waiting 0)) ∧
    ∃ resp, resp_chans s' !! 0%nat = Some (Some resp).
Proof.
  exact (requests_answered demo_tcp demo_handles
    ltac:(intros req; exists (Ok (JObj [])); reflexivity) ltac:(intros req; discriminate)
    demo_waiting 0 (demo_conn (Reader [] EOF) (Writer [] None) (Waiting 0)) 0
    (demo_waits demo_handles) eq_refl eq_refl eq_refl).
Defined.

Lemma serving_is_safe_witness :
  crashed demo_waiting = false ∧ Z.of_nat (length (jobs demo_waiting)) ≤ 1.
Proof.
  exact (serving_is_safe demo_tcp demo_handles ltac:(intros req; discriminate) demo_waiting
    (demo_waits demo_handles) eq_refl).
Defined.

(** Shutting down can panic: a request that has been read but not queued when
    [ListenAndServe] closes the queue is sent on the closed channel. *)
Lemma shutdown_can_panic :
  ∃ s, reachable demo_tcp demo_handles s ∧ ctx_done s = true ∧ crashed s = true.
Proof.
  exists (demo_read true true true). split; [|done].
  destruct (demo_reads demo_handles) as (s0 & H0 & Hrun). exists s0. split; [done|].
  etrans; [exact Hrun|].
  eapply rtc_l; [by apply step_cancel|].
  eapply rtc_l; [by apply step_close|].
  eapply rtc_once, step_conn; [done|].
  refine (eq_rect _ _ (conn_panics _ _ 0 _ demo_req _ _ _) _ _); reflexivity.
Qed.
