(* ===== verification/Calls.v ===== *)
(** * The service, one call at a time

    [Service] runs a request in one go.  Here the same definitions are run on
    another world, a _script_: a list of answers to the calls the service makes of
    its stores, the clock, the random source and the file system.  A run that has
    used up its answers stops at its next call.  So the code of [Service.Handle]
    says which call a request makes next, given what it has been answered so far,
    and calls of different requests can be interleaved ([Concurrent]).

    A call of MySQL is one statement; a session or picture operation is one command
    of Redis. *)

From S2P Require Import Prelude GoStrings GoEncoding GoCrypto GoPath Json Sniff Errors Token Password Protocol Store Service ServiceSpec.

(** ** Calls and answers *)

Inductive call :=
  | CNow
  | CRand (n : Z)
  | CMkdirAll (dir : string)
  | CWriteFile (path : string) (data : bytes)
  | CRemove (path : string)
  | CReadFile (path : string)
  | CQuery (q : query)
  | CExec (stmt : statement)
  | CCount
  | CSaveSession (token : string) (uid ttl : Z)
  | CGetSession (token : string)
  | CDeleteSession (token : string)
  | CSavePicture (uid version : Z) (mime : string) (data : bytes)
  | CGetPicture (uid version : Z)
  | CDeletePicture (uid version : Z).

Inductive answer :=
  | ATime (t : Z)
  | ABytes (r : outcome error bytes)
  | ADone (r : outcome error unit)
  | ARow (r : outcome error user_row)
  | AResult (r : outcome error (outcome error Z))
  | ACount (r : outcome error Z)
  | ASession (r : outcome error (Z * bool))
  | APicture (r : outcome error (string * bytes * bool)).

(** What each kind of answer carries; [Panic] stands for an answer of the wrong
    kind, which no call gets. *)
Definition as_time (a : answer) : Z := match a with ATime t => t | _ => 0 end.
Definition as_bytes (a : answer) := match a with ABytes r => r | _ => Panic end.
Definition as_done (a : answer) := match a with ADone r => r | _ => Panic end.
Definition as_row (a : answer) := match a with ARow r => r | _ => Panic end.
Definition as_result (a : answer) := match a with AResult r => r | _ => Panic end.
Definition as_count (a : answer) := match a with ACount r => r | _ => Panic end.
Definition as_session (a : answer) := match a with ASession r => r | _ => Panic end.
Definition as_picture (a : answer) := match a with APicture r => r | _ => Panic end.

(** ** Performing a call *)

Section perform.
Context {X : Type} `{!Host X, !MySQL X} (s : Service X).

Definition performed {A} (wrap : outcome error A → answer) (m : eff X error A) (x : X) : answer * X :=
  let (r, x') := m x in (wrap r, x').

(** A method of a nil interface panics. *)
Definition via_sessions (m : SessionStore X → X → answer * X) (nil : answer) (x : X) : answer * X :=
  match sessions s with Some ss => m ss x | None => (nil, x) end.
Definition via_pictures (m : PictureCache X → X → answer * X) (nil : answer) (x : X) : answer * X :=
  match pictureCache s with Some pc => m pc x | None => (nil, x) end.

Definition perform (c : call) : X → answer * X :=
  match c with
  | CNow => λ x, let (t, x') := time_now x in (ATime t, x')
  | CRand n => performed ABytes (rand_Read n)
  | CMkdirAll dir => performed ADone (os_MkdirAll dir)
  | CWriteFile path data => performed ADone (os_WriteFile path data)
  | CRemove path => performed ADone (os_Remove path)
  | CReadFile path => performed ABytes (os_ReadFile path)
  | CQuery q => performed ARow (query_row q)
  | CExec stmt => performed AResult (exec stmt)
  | CCount => performed ACount count_users
  | CSaveSession token uid ttl =>
      via_sessions (λ ss, performed ADone (SaveSession ss token uid ttl)) (ADone Panic)
  | CGetSession token =>
      via_sessions (λ ss, performed ASession (GetSession ss token)) (ASession Panic)
  | CDeleteSession token =>
      via_sessions (λ ss, performed ADone (DeleteSession ss token)) (ADone Panic)
  | CSavePicture uid version mime data =>
      via_pictures (λ pc, performed ADone (SaveProfilePicture pc uid version mime data)) (ADone Panic)
  | CGetPicture uid version =>
      via_pictures (λ pc, performed APicture (pc_GetProfilePicture pc uid version)) (APicture Panic)
  | CDeletePicture uid version =>
      via_pictures (λ pc, performed ADone (DeleteProfilePicture pc uid version)) (ADone Panic)
  end.
End perform.

(** ** Scripts *)

(** The answers that are left, and the call a run has stopped at. *)
Record script (X : Type) := Script { sc_answers : list answer; sc_call : option call }.
Arguments Script {X}. Arguments sc_answers {X}. Arguments sc_call {X}.

Section script.
Context {X : Type}.

(** A run that has stopped makes no more calls. *)
Definition ask (c : call) (w : script X) : option answer * script X :=
  match sc_call w with
  | Some _ => (None, w)
  | None =>
      match sc_answers w with
      | [] => (None, Script [] (Some c))
      | a :: rest => (Some a, Script rest None)
      end
  end.

(** [Panic] ends a run that has stopped: no code handles it. *)
Definition asking {A} (get : answer → outcome error A) (c : call) : eff (script X) error A := λ w,
  match ask c w with
  | (Some a, w') => (get a, w')
  | (None, w') => (Panic, w')
  end.
End script.

#[global] Instance script_host {X} `{!Host X} : Host (script X) := {|
  time_now w := let (a, w') := ask CNow w in (from_option as_time 0 a, w');
  rand_Read n := asking as_bytes (CRand n);
  os_MkdirAll dir := asking as_done (CMkdirAll dir);
  os_WriteFile path data := asking as_done (CWriteFile path data);
  os_Remove path := asking as_done (CRemove path);
  os_ReadFile path := asking as_bytes (CReadFile path);
  ExtensionsByType := ExtensionsByType (W := X);
|}.

#[global] Instance script_mysql {X} : MySQL (script X) := {|
  query_row q := asking as_row (CQuery q);
  exec stmt := asking as_result (CExec stmt);
  count_users := asking as_count CCount;
|}.

Definition script_sessions {X} : SessionStore (script X) := {|
  SaveSession token uid ttl := asking as_done (CSaveSession token uid ttl);
  GetSession token := asking as_session (CGetSession token);
  DeleteSession token := asking as_done (CDeleteSession token);
|}.

Definition script_pictures {X} : PictureCache (script X) := {|
  SaveProfilePicture uid version mime data := asking as_done (CSavePicture uid version mime data);
  pc_GetProfilePicture uid version := asking as_picture (CGetPicture uid version);
  DeleteProfilePicture uid version := asking as_done (CDeletePicture uid version);
|}.

(** The service with its interfaces replaced by the script. *)
Definition scripted {X} (s : Service X) : Service (script X) := {|
  store := mysql_store;
  sessions := (λ _, script_sessions) <$> sessions s;
  pictureCache := (λ _, script_pictures) <$> pictureCache s;
  tokens := tokens s; uploadDir := uploadDir s; allowedMIMEs := allowedMIMEs s;
  maxUploadBytes := maxUploadBytes s; profilePictureBaseURL := profilePictureBaseURL s;
  passwordIterations := passwordIterations s; maxNicknameBytes := maxNicknameBytes s;
|}.

(** What a request does after these answers: its next call, or its result. *)
Inductive progress := Calling (c : call) | Done (r : outcome error json).

Definition next {X} `{!Host X} (s : Service X) (req : Request) (given : list answer) : progress :=
  let (r, w) := Handle (scripted s) req (Script given None) in
  match sc_call w with Some c => Calling c | None => Done r end.

(** ** Which calls a computation makes *)

Section calls.
Context {X : Type} `{!Host X}.
Abbreviation run A := (eff (script X) error A).
Implicit Types (P : call → Prop) (w : script X).

(** Every call at which [m] may stop satisfies [P]; a run that has stopped before
    [m] stays where it is. *)
Definition calls P {A} (m : run A) : Prop := ∀ w,
  (is_Some (sc_call w) → (m w).2 = w) ∧
  (sc_call w = None → ∀ c, sc_call (m w).2 = Some c → P c).

(** One computation after the other, whatever the first one returned. *)
Lemma calls_then P {A B} (m : run A) (k : outcome error A → run B) (n : run B) :
  (∀ w, n w = let (r, w') := m w in k r w') →
  calls P m → (∀ r, calls P (k r)) → calls P n.
Proof.
  intros Hn Hm Hk w. rewrite Hn. destruct (Hm w) as [Hstop Hcall].
  destruct (m w) as [r w1]; cbn [snd] in *. destruct (Hk r w1) as [Hstop1 Hcall1]. split.
  - intros Hw. rewrite Hstop in * by done. by apply Hstop1.
  - intros Hw c Hc. destruct (sc_call w1) as [c1|] eqn:E; [|by apply Hcall1].
    rewrite Hstop1 in Hc by eauto. rewrite E in Hc. injection Hc as <-. by apply Hcall.
Qed.

Lemma calls_lift P {A} (r : outcome error A) : calls P (lift r).
Proof. intros w. split; [done|]. cbn. congruence. Qed.
Lemma calls_ret P {A} (a : A) : calls P (mret a).
Proof. apply (calls_lift P (Ok a)). Qed.
Lemma calls_throw P {A} (e : error) : calls P (throw e : run A).
Proof. apply (calls_lift P (Err e)). Qed.

Lemma calls_bind P {A B} (m : run A) (f : A → run B) :
  calls P m → (∀ a, calls P (f a)) → calls P (m ≫= f).
Proof.
  intros Hm Hf. eapply (calls_then P m (λ r, match r with Ok a => f a | Err e => throw e | Panic => panic end));
    [|done|]; [intros w; unfold mbind, eff_bind; by destruct (m w) as [[]]|].
  intros [a|e|]; [apply Hf|apply calls_throw|apply (calls_lift P Panic)].
Qed.

Lemma calls_asking P {A} (get : answer → outcome error A) c : P c → calls P (asking get c).
Proof.
  intros Hc [given call]. unfold asking, ask. cbn. destruct call as [c'|]; cbn; [done|].
  split; [by intros []|]. intros _ c1. destruct given; cbn; [by intros [= <-]|done].
Qed.

Lemma calls_now P : P CNow → calls P (time_Now (W := script X)).
Proof.
  intros Hc [given call]. unfold time_Now. cbn. unfold ask. cbn. destruct call as [c'|]; cbn; [done|].
  split; [by intros []|]. intros _ c1. destruct given; cbn; [by intros [= <-]|done].
Qed.

(** Errors that are dropped or replaced. *)
Lemma calls_ignore P (m : run unit) : calls P m → calls P (ignore_error m).
Proof.
  intros Hm. eapply (calls_then P m (λ r, match r with Err _ => mret tt | _ => lift r end)); [|done|].
  - intros w. unfold ignore_error. by destruct (m w) as [[]].
  - intros []; (apply calls_ret || apply calls_lift).
Qed.

Lemma calls_map_error P {A} (m n : run A) (f : error → outcome error A) :
  (∀ w, n w = match m w with (Err e, w') => (f e, w') | r => r end) → calls P m → calls P n.
Proof.
  intros Hn Hm. eapply (calls_then P m (λ r, lift match r with Err e => f e | _ => r end)); [|done|].
  - intros w. rewrite Hn. by destruct (m w) as [[]].
  - intros r. apply calls_lift.
Qed.

Lemma calls_on_not_found P {A} e (m : run A) : calls P m → calls P (on_not_found e m).
Proof. by apply (calls_map_error P m _ (λ err, Err (if errors_Is err store_ErrNotFound then e else err))). Qed.

Lemma calls_mapNoRows P {A} (m : run A) : calls P m → calls P (mapNoRows m).
Proof. by apply (calls_map_error P m _ (λ e, Err (if errors_Is e sql_ErrNoRows then Sentinel store_ErrNotFound else e))). Qed.

Lemma calls_mono P Q {A} (m : run A) : (∀ c, P c → Q c) → calls P m → calls Q m.
Proof. intros HPQ Hm w. destruct (Hm w) as [? Hc]. eauto. Qed.
End calls.

(** Walk through the branches of a computation. *)
Ltac walk :=
  repeat (cbn beta iota zeta; match goal with
  | |- calls _ (if ?b then _ else _) => destruct b
  | |- calls _ (let (_, _) := ?p in _) => destruct p
  | |- calls _ (match ?x with _ => _ end) => destruct x
  | |- calls _ (mbind _ _) => apply calls_bind; [|intros]
  | |- calls _ (mret _) => apply calls_ret
  | |- calls _ (throw _) => apply calls_throw
  | |- calls _ (lift _) => apply calls_lift
  | |- calls _ time_Now => apply calls_now
  | |- calls _ (ignore_error _) => apply calls_ignore
  | |- calls _ (on_not_found _ _) => apply calls_on_not_found
  | |- calls _ (mapNoRows _) => apply calls_mapNoRows
  | |- calls _ (asking _ _) => apply calls_asking
  end).

(** ** What a request may do as a user *)

Section handle.
Context {X : Type} `{!Host X} (s : Service X).
Abbreviation S := (scripted s).

(** The files of a user. *)
Definition own_file (uid : Z) (path : string) : Prop :=
  ∃ nanos ct name, path = JoinPath (uploadDir s)
    (upload_rel_path uid nanos (extensionFor (W := X) ct name)).

(** The rows, cached pictures and files a request that runs as [uid] may touch. *)
Definition acts_for (uid : Z) (c : call) : Prop :=
  match c with
  | CNow | CReadFile _ => True
  | CMkdirAll dir => ∃ path, own_file uid path ∧ dir = Dir path
  | CWriteFile path _ | CRemove path => own_file uid path
  | CQuery (WhereId u) => u = uid
  | CExec (SetNickname _ u) | CExec (SetProfilePicture _ _ _ u) => u = uid
  | CSavePicture u _ _ _ | CGetPicture u _ | CDeletePicture u _ => u = uid
  | _ => False
  end.

Lemma profile_calls uid : calls (acts_for uid) (us_GetUserProfileByID (store S) uid).
Proof. apply calls_mapNoRows, calls_bind; [by apply calls_asking|intros; apply calls_ret]. Qed.

Lemma GetProfile_calls uid : calls (acts_for uid) (GetProfile S uid).
Proof. unfold GetProfile. walk. apply profile_calls. Qed.

Lemma UpdateNickname_calls uid nick : calls (acts_for uid) (UpdateNickname S uid nick).
Proof.
  unfold UpdateNickname. walk. apply calls_bind; [by apply calls_asking|intros res]. walk.
  apply profile_calls.
Qed.

Lemma picture_row_calls uid rel ct size path :
  own_file uid path → calls (acts_for uid) (update_picture_row S uid rel ct size path).
Proof.
  intros Hown. eapply (calls_then _ (us_UpdateProfilePicture (store S) uid rel ct size)
    (λ r, match r with
          | Err err => _ ← ignore_error (os_Remove path);
                       throw (if errors_Is err store_ErrNotFound then Sentinel ErrNotFound else err)
          | _ => lift r end)).
  - intros w. unfold update_picture_row. by destruct (us_UpdateProfilePicture _ _ _ _ _ w) as [[]].
  - apply calls_bind; [by apply calls_asking|intros res]. walk. apply profile_calls.
  - intros []; walk. by apply calls_asking.
Qed.

Lemma old_profile_calls uid : calls (acts_for uid) (old_profile S uid).
Proof.
  apply (calls_map_error _ (us_GetUserProfileByID (store S) uid) _ (λ _, Ok zero_profile));
    [done|apply profile_calls].
Qed.

Lemma own_path uid now ct name :
  own_file uid (JoinPath (uploadDir S) (upload_rel_path uid now (extensionFor (W := script X) ct name))).
Proof. by exists now, ct, name. Qed.

(** The cache is there or not. *)
Ltac cases_cache :=
  cbn [pictureCache scripted]; destruct (pictureCache s); cbn [fmap option_fmap option_map].

Lemma UploadProfilePicture_calls uid body : calls (acts_for uid) (UploadProfilePicture S uid body).
Proof.
  unfold UploadProfilePicture. cases_cache; destruct (b64_decode _ _) as [data|]; walk.
  all: first [exact I|apply old_profile_calls|apply picture_row_calls, own_path|apply calls_asking].
  all: first [done|apply own_path|eexists; split; [apply own_path|done]].
Qed.

Lemma read_picture_calls uid profile path : calls (acts_for uid) (read_picture S uid profile path).
Proof.
  unfold read_picture. cases_cache; walk; try (by apply calls_asking).
  all: apply (calls_map_error _ (os_ReadFile (JoinPath (uploadDir S) (Clean path))) _
      (λ err, Err (if errors_Is err os_ErrNotExist then Sentinel ErrNotFound else err))); [done|].
  all: by apply calls_asking.
Qed.

Lemma GetProfilePicture_calls uid : calls (acts_for uid) (GetProfilePicture S uid).
Proof.
  unfold GetProfilePicture. cases_cache;
    walk; first [apply read_picture_calls|apply profile_calls|by apply calls_asking].
Qed.
(** ** Authentication comes first *)

(** The answers begin with those that made [token] the token of [uid]: the time at
    which it was verified and, when sessions are kept, its session. *)
Definition admitted (token : string) (uid : Z) (given : list answer) : Prop :=
  ∃ a rest, Verify (tokens s) token (as_time a) = Ok uid ∧
    given = a :: match sessions s with
                 | Some _ => ASession (Ok (uid, true)) :: rest
                 | None => rest
                 end.

Lemma requireUser_script token given :
  let (r, w) := requireUser S token (Script given None) in
  match sc_call w with
  | Some c => c = CNow ∧ given = [] ∨ c = CGetSession token ∧ ∃ a, given = [a]
  | None => ∀ uid, r = Ok uid → admitted token uid given
  end.
Proof.
  unfold requireUser. case_decide; [done|].
  unfold mbind, eff_bind, time_Now, lift, admitted. cbn. destruct given as [|a given]; cbn.
  { destruct (Verify _ _ _); cbn; [|by left..]. cbn [scripted sessions].
    destruct (sessions s); cbn; by left. }
  destruct (Verify _ _ _) as [uid| |] eqn:Hv; cbn; [|done..].
  destruct (sessions s) as [ss|] eqn:Hss; cbn; [|intros ? [= <-]; by exists a, given].
  destruct given as [|b given]; cbn; [right; by eauto|].
  destruct b; cbn; try done. destruct r as [[u ok]| |]; cbn; [|done..].
  destruct ok; cbn; [|done]. destruct (Z.eqb_spec u uid) as [->|]; cbn; [|done].
  intros ? [= <-]. by exists a, given.
Qed.

(** The operations of a protected request run as the user of its token. *)
Lemma Handle_protected_calls req :
  req_Op req ∈ protected_ops →
  ∃ rest : Z → eff (script X) error json,
    Handle S req = (userID ← requireUser S (req_Token req); rest userID) ∧
    ∀ uid, calls (acts_for uid) (rest uid).
Proof.
  destruct req as [version rid op token body]. cbn [req_Op req_Token].
  unfold protected_ops. rewrite !elem_of_cons, elem_of_nil.
  intros [->|[->|[->|[->|[]]]]]; unfold Handle; cbn [req_Op req_Token req_Body];
    repeat (first [rewrite decide_True by done | rewrite decide_False by done]);
    eexists; (split; [reflexivity|]); intros uid; unfold marshal, decodeBody; walk.
  all: first [apply GetProfile_calls|apply GetProfilePicture_calls|apply UpdateNickname_calls
             |apply UploadProfilePicture_calls].
Qed.

Lemma next_protected req given :
  req_Op req ∈ protected_ops →
  match next s req given with
  | Calling c => c = CNow ∧ given = [] ∨ (c = CGetSession (req_Token req) ∧ ∃ a, given = [a]) ∨
      ∃ uid, admitted (req_Token req) uid given ∧ acts_for uid c
  | Done (Ok _) => ∃ uid, admitted (req_Token req) uid given
  | Done _ => True
  end.
Proof.
  intros Hop. unfold next. destruct (Handle_protected_calls req Hop) as (rest & -> & Hrest).
  unfold mbind, eff_bind. pose proof (requireUser_script (req_Token req) given) as Hreq.
  destruct (requireUser S (req_Token req) (Script given None)) as [[uid|e|] w].
  - destruct (Hrest uid w) as [Hstop Hcall]. destruct (rest uid w) as [r w']. cbn [snd] in *.
    destruct (sc_call w) as [c|] eqn:E.
    + rewrite Hstop, E by eauto. tauto.
    + specialize (Hreq uid eq_refl). destruct (sc_call w') as [c|]; [right; right; by eauto|].
      destruct r; eauto.
  - destruct (sc_call w); [tauto|done].
  - destruct (sc_call w); [tauto|done].
Qed.

(** ** Logging in and out *)

Definition login_call (c : call) : Prop :=
  match c with
  | CNow | CRand _ | CQuery _ | CSaveSession _ _ _ => True
  | _ => False
  end.

Lemma Login_calls body : calls login_call (Login S body).
Proof.
  unfold Login. cbn [sessions scripted]. destruct (sessions s); cbn [fmap option_fmap option_map]; walk.
  all: first [exact I|by apply calls_asking|apply calls_mapNoRows, calls_bind;
    [by apply calls_asking|intros; apply calls_ret]].
Qed.

Lemma calls_stop (P : call → Prop) (m : eff (script X) error json) given c :
  calls P m →
  (let (r, w) := m (Script given None) in
   match sc_call w with Some c => Calling c | None => Done r end) = Calling c → P c.
Proof.
  intros Hm. destruct (Hm (Script given None)) as [_ Hc]. destruct (m _) as [r w]. cbn in *.
  destruct (sc_call w); [|done]. intros [= <-]. by apply Hc.
Qed.

(** The calls of requests that need no session. *)
Lemma next_public req given c :
  (req_Op req ∉ protected_ops) → next s req given = Calling c →
  req_Op req = OpLogin ∧ login_call c ∨ req_Op req = OpLogout ∧ c = CDeleteSession (req_Token req).
Proof.
  intros Hop. unfold next, Handle. case_decide.
  { intros Hn. left. split; [done|]. revert Hn. apply calls_stop.
    unfold marshal, decodeBody. walk. apply Login_calls. }
  do 4 (case_decide; [by destruct Hop; unfold protected_ops; set_solver|]).
  case_decide; [|done]. intros Hn. right. split; [done|]. revert Hn.
  apply (calls_stop (λ c, c = CDeleteSession (req_Token req))). unfold Logout. cbn [sessions scripted].
  destruct (sessions s); cbn [fmap option_fmap option_map]; walk. by apply calls_asking.
Qed.

(** A logout that succeeds has deleted the session. *)
Lemma next_logout req given v :
  req_Op req = OpLogout → TrimSpace (req_Token req) ≠ "" → is_Some (sessions s) →
  next s req given = Done (Ok v) → ∃ rest, given = ADone (Ok tt) :: rest.
Proof.
  intros Hop Hblank [ss Hss]. unfold next, Handle.
  do 5 (rewrite decide_False by (rewrite Hop; discriminate)). rewrite decide_True by done.
  unfold Logout. cbn [sessions scripted]. rewrite Hss. cbn [fmap option_fmap option_map].
  rewrite decide_False by done. unfold mbind, eff_bind. cbn. unfold asking, ask. cbn.
  destruct given as [|a given]; [done|]. cbn. destruct a; cbn; try done.
  destruct r as [[]| |]; [by eauto|done..].
Qed.
End handle.
