(* ===== verification/CallsSpec.v ===== *)
(** * The suspended service is the service

    A request whose calls are performed one after the other, with nothing in
    between, makes the same changes and ends with the same result as
    [Service.Handle] ([undisturbed_is_Handle]): suspending the code at its calls
    adds interleavings and changes nothing else. *)

From S2P Require Import Prelude GoStrings GoEncoding GoCrypto GoPath Json Sniff Errors Token Password Protocol Store Service ServiceSpec Calls.

Section follows.
Context {X : Type} `{!Host X, !MySQL X} (s : Service X).
Abbreviation S := (scripted s).

(** The calls, performed in order, with their answers. *)
Inductive performs : X → list (call * answer) → X → Prop :=
  | performs_nil x : performs x [] x
  | performs_cons x c a x1 l x2 :
      perform s c x = (a, x1) → performs x1 l x2 → performs x ((c, a) :: l) x2.

Lemma performs_app x l1 x1 l2 x2 : performs x l1 x1 → performs x1 l2 x2 → performs x (l1 ++ l2) x2.
Proof. induction 1; cbn; [done|intros; by econstructor; eauto]. Qed.

(** [m] makes the calls that [m'] makes, stops at each of them until it is
    answered, and returns what [m'] returns. *)
Definition follows {A} (m : eff (script X) error A) (m' : eff X error A) : Prop :=
  (∀ w, is_Some (sc_call w) → (m w).2 = w) ∧
  ∀ x r x', m' x = (r, x') → ∃ l, performs x l x' ∧
    (∀ rest, m (Script (l.*2 ++ rest) None) = (r, Script rest None)) ∧
    (∀ i c a, l !! i = Some (c, a) → sc_call (m (Script (take i l).*2 None)).2 = Some c).

Lemma follows_then {A B} (m : eff (script X) error A) (m' : eff X error A)
    (k : outcome error A → eff (script X) error B) (k' : outcome error A → eff X error B) n n' :
  (∀ w, n w = let (r, w') := m w in k r w') → (∀ x, n' x = let (r, x') := m' x in k' r x') →
  follows m m' → (∀ r, follows (k r) (k' r)) → follows n n'.
Proof.
  intros Hn Hn' [Hstop Hm] Hk. split.
  - intros w Hw. rewrite Hn. pose proof (Hstop w Hw) as E. destruct (m w) as [r w1]. cbn in E. subst w1.
    by apply Hk.
  - intros x r2 x2 Hrun. rewrite Hn' in Hrun. destruct (m' x) as [r x1] eqn:Hx.
    destruct (Hm x r x1 Hx) as (l1 & Hp1 & Hr1 & Hc1). destruct (Hk r) as [Hstop2 Hk2].
    destruct (Hk2 x1 r2 x2 Hrun) as (l2 & Hp2 & Hr2 & Hc2). exists (l1 ++ l2).
    split; [by eapply performs_app|]. split.
    + intros rest. by rewrite Hn, fmap_app, <-app_assoc, Hr1, Hr2.
    + intros i c a. rewrite Hn. intros [Hi|[Hlen Hi]]%lookup_app_Some.
      * rewrite take_app_le by (apply lookup_lt_Some in Hi; lia). pose proof (Hc1 _ _ _ Hi) as Hc.
        destruct (m _) as [r1 w1]. cbn in Hc. destruct (Hk r1) as [Hst _]. by rewrite Hst by eauto.
      * rewrite take_app_ge, fmap_app, Hr1 by done. by eapply Hc2.
Qed.

Lemma follows_lift {A} (r : outcome error A) : follows (lift r) (lift r).
Proof.
  split; [done|]. intros x r' x' [= <- <-]. exists [].
  split; [constructor|]. split; [done|]. by intros i c a ?.
Qed.

Lemma follows_ret {A} (a : A) : follows (mret a) (mret a).
Proof. apply (follows_lift (Ok a)). Qed.
Lemma follows_throw {A} (e : error) : follows (throw e : eff (script X) error A) (throw e).
Proof. apply (follows_lift (Err e)). Qed.

Lemma follows_bind {A B} m m' (f : A → eff (script X) error B) (f' : A → eff X error B) :
  follows m m' → (∀ a, follows (f a) (f' a)) → follows (m ≫= f) (m' ≫= f').
Proof.
  intros Hm Hf. eapply (follows_then m m'
    (λ r, match r with Ok a => f a | Err e => throw e | Panic => lift Panic end)
    (λ r, match r with Ok a => f' a | Err e => throw e | Panic => lift Panic end)); [..|done|].
  - intros w. unfold mbind, eff_bind. by destruct (m w) as [[]].
  - intros x. unfold mbind, eff_bind. by destruct (m' x) as [[]].
  - intros []; [apply Hf|apply follows_throw|apply follows_lift].
Qed.

(** One call. *)
Lemma follows_call {A} (get : answer → A) (none : A) (m : script X → A * script X) (m' : X → A * X) c
    (wrap : A → answer) :
  (∀ w, m w = let (a, w') := ask c w in (from_option get none a, w')) →
  (∀ x, perform s c x = let (r, x') := m' x in (wrap r, x')) →
  (∀ x, get (wrap (m' x).1) = (m' x).1) →
  (∀ w, is_Some (sc_call w) → (m w).2 = w) ∧
  ∀ x r x', m' x = (r, x') → ∃ l, performs x l x' ∧
    (∀ rest, m (Script (l.*2 ++ rest) None) = (r, Script rest None)) ∧
    (∀ i c a, l !! i = Some (c, a) → sc_call (m (Script (take i l).*2 None)).2 = Some c).
Proof.
  intros Hm Hp Hg. split.
  - intros [given [c'|]]; [|by intros []]. rewrite Hm. done.
  - intros x r x' Hx. exists [(c, wrap r)]. split.
    + econstructor; [by rewrite Hp, Hx|constructor].
    + split; [intros rest; rewrite Hm; cbn; specialize (Hg x); rewrite Hx in Hg; cbn in Hg; by rewrite Hg|].
      intros [|i] c1 a1; [|done]. intros [= <- <-]. by rewrite Hm.
Qed.

Lemma follows_asking {A} (get : answer → outcome error A) c (m' : eff X error A) wrap :
  (∀ x, perform s c x = let (r, x') := m' x in (wrap r, x')) → (∀ r, get (wrap r) = r) →
  follows (asking get c) m'.
Proof.
  intros Hp Hg. apply (follows_call get Panic _ _ c wrap); [|done..].
  intros w. unfold asking. by destruct (ask c w) as [[]].
Qed.

Lemma follows_now : follows (time_Now (W := script X)) (time_Now (W := X)).
Proof.
  apply (follows_call (λ a, Ok (as_time a) : outcome error Z) (Ok 0) (time_Now (W := script X))
    (time_Now (W := X)) CNow (λ r, match r with Ok t => ATime t | _ => ATime 0 end)).
  - intros w. unfold time_Now. cbn. by destruct (ask CNow w) as [[]].
  - intros x. unfold time_Now. cbn. by destruct (time_now x).
  - intros x. unfold time_Now. by destruct (time_now x).
Qed.

(** Errors that are dropped or replaced. *)
Lemma follows_map_error {A} (m n : eff (script X) error A) (m' n' : eff X error A) (f : error → outcome error A) :
  (∀ w, n w = match m w with (Err e, w') => (f e, w') | r => r end) →
  (∀ x, n' x = match m' x with (Err e, x') => (f e, x') | r => r end) →
  follows m m' → follows n n'.
Proof.
  intros Hn Hn' Hm. eapply (follows_then m m' (λ r, lift match r with Err e => f e | _ => r end)
    (λ r, lift match r with Err e => f e | _ => r end)); [..|done|].
  - intros w. rewrite Hn. by destruct (m w) as [[]].
  - intros x. rewrite Hn'. by destruct (m' x) as [[]].
  - intros r. apply follows_lift.
Qed.

Lemma follows_ignore m m' : follows m m' → follows (ignore_error m) (ignore_error m').
Proof. by apply (follows_map_error m _ m' _ (λ _, Ok tt)). Qed.

Lemma follows_on_not_found {A} e (m : eff (script X) error A) m' :
  follows m m' → follows (on_not_found e m) (on_not_found e m').
Proof.
  by apply (follows_map_error m _ m' _ (λ err, Err (if errors_Is err store_ErrNotFound then e else err))).
Qed.

Lemma follows_mapNoRows {A} (m : eff (script X) error A) m' :
  follows m m' → follows (mapNoRows m) (mapNoRows m').
Proof.
  by apply (follows_map_error m _ m' _
    (λ e, Err (if errors_Is e sql_ErrNoRows then Sentinel store_ErrNotFound else e))).
Qed.
End follows.

(** The two runs take the same branches. *)
Ltac along :=
  repeat (cbn beta iota zeta; match goal with
  | |- follows _ (if ?b then _ else _) _ => destruct b
  | |- follows _ (let (_, _) := ?p in _) _ => destruct p
  | |- follows _ (match ?x with _ => _ end) _ => destruct x
  | |- follows _ (mret _) _ => apply follows_ret
  | |- follows _ (throw _) _ => apply follows_throw
  | |- follows _ (lift _) _ => apply follows_lift
  | |- follows _ time_Now _ => apply follows_now
  | |- follows _ (ignore_error _) _ => apply follows_ignore
  | |- follows _ (on_not_found _ _) _ => apply follows_on_not_found
  | |- follows _ (mapNoRows _) _ => apply follows_mapNoRows
  | |- follows _ (mbind _ _) _ => apply follows_bind; [|intros]
  end).

Section handle.
Context {X : Type} `{!Host X, !MySQL X} (s : Service X).
Context (Hstore : store s = mysql_store).
Abbreviation S := (scripted s).
#[local] Notation "m ~> m'" := (follows s m m') (at level 70).

Lemma follows_query q : query_row (W := script X) q ~> query_row q.
Proof. by apply (follows_asking s as_row (CQuery q) _ ARow). Qed.
Lemma follows_exec stmt : exec (W := script X) stmt ~> exec stmt.
Proof. by apply (follows_asking s as_result (CExec stmt) _ AResult). Qed.

Lemma follows_GetUserProfileByID uid : GetUserProfileByID (W := script X) uid ~> GetUserProfileByID uid.
Proof. unfold GetUserProfileByID. along. apply follows_query. Qed.

Lemma follows_profile uid : us_GetUserProfileByID (store S) uid ~> us_GetUserProfileByID (store s) uid.
Proof. rewrite Hstore. apply follows_GetUserProfileByID. Qed.

(** The service has the interface or not. *)
Ltac cases_of opt H :=
  cbn [sessions pictureCache scripted]; destruct opt eqn:H; cbn [fmap option_fmap option_map].

(** One call of an interface that the service has. *)
Ltac one_call get c wrap H :=
  apply (follows_asking s get c _ wrap); [|done];
  intros x; unfold perform, via_sessions, via_pictures; rewrite H; reflexivity.

Lemma follows_requireUser token : requireUser S token ~> requireUser s token.
Proof.
  unfold requireUser. cases_of (sessions s) Hss; along.
  one_call as_session (CGetSession token) ASession Hss.
Qed.

Lemma follows_Logout token : Logout S token ~> Logout s token.
Proof.
  unfold Logout. cases_of (sessions s) Hss; along.
  one_call as_done (CDeleteSession token) ADone Hss.
Qed.

Lemma follows_GetUserAuth name :
  us_GetUserAuthByUsername (store S) name ~> us_GetUserAuthByUsername (store s) name.
Proof.
  rewrite Hstore. apply follows_mapNoRows, follows_bind; [apply follows_query|intros row].
  apply follows_ret.
Qed.

Lemma follows_Login body : Login S body ~> Login s body.
Proof.
  assert (Hrand : rand_Read (W := script X) 16 ~> rand_Read 16)
    by (by apply (follows_asking s as_bytes (CRand 16) _ ABytes)).
  unfold Login. cases_of (sessions s) Hss; along;
    first [apply follows_GetUserAuth|apply follows_profile|exact Hrand|idtac].
  match goal with |- SaveSession _ ?t ?u ?d ~> _ => one_call as_done (CSaveSession t u d) ADone Hss end.
Qed.

Lemma follows_GetProfile uid : GetProfile S uid ~> GetProfile s uid.
Proof. unfold GetProfile. along. apply follows_profile. Qed.

Lemma follows_UpdateNickname uid nick : UpdateNickname S uid nick ~> UpdateNickname s uid nick.
Proof.
  unfold UpdateNickname. cbn [maxNicknameBytes scripted]. along. rewrite Hstore.
  apply follows_bind; [apply follows_exec|intros res]. along. apply follows_GetUserProfileByID.
Qed.

Lemma follows_picture_row uid rel ct size path :
  update_picture_row S uid rel ct size path ~> update_picture_row s uid rel ct size path.
Proof.
  eapply (follows_then s (us_UpdateProfilePicture (store S) uid rel ct size)
    (us_UpdateProfilePicture (store s) uid rel ct size)
    (λ r, match r with
          | Err err => _ ← ignore_error (os_Remove path);
                       throw (if errors_Is err store_ErrNotFound then Sentinel ErrNotFound else err)
          | _ => lift r end)
    (λ r, match r with
          | Err err => _ ← ignore_error (os_Remove path);
                       throw (if errors_Is err store_ErrNotFound then Sentinel ErrNotFound else err)
          | _ => lift r end)).
  - intros w. unfold update_picture_row. by destruct (us_UpdateProfilePicture _ _ _ _ _ w) as [[]].
  - intros w. unfold update_picture_row. by destruct (us_UpdateProfilePicture _ _ _ _ _ w) as [[]].
  - rewrite Hstore. apply follows_bind; [apply follows_exec|intros res]. along.
    apply follows_GetUserProfileByID.
  - intros []; along. by apply (follows_asking s as_done (CRemove path) _ ADone).
Qed.

Lemma follows_old_profile uid : old_profile S uid ~> old_profile s uid.
Proof.
  by apply (follows_map_error s (us_GetUserProfileByID (store S) uid) _
    (us_GetUserProfileByID (store s) uid) _ (λ _, Ok zero_profile)), follows_profile.
Qed.

Lemma follows_save_picture pc uid version mime data :
  pictureCache s = Some pc →
  SaveProfilePicture (script_pictures (X := X)) uid version mime data ~>
  SaveProfilePicture pc uid version mime data.
Proof. intros Hpc. one_call as_done (CSavePicture uid version mime data) ADone Hpc. Qed.

Lemma follows_UploadProfilePicture uid body : UploadProfilePicture S uid body ~> UploadProfilePicture s uid body.
Proof.
  unfold UploadProfilePicture. change (extensionFor (W := script X)) with (extensionFor (W := X)).
  cbn [maxUploadBytes allowedMIMEs uploadDir scripted].
  cases_of (pictureCache s) Hpc; along; try apply follows_old_profile; try apply follows_picture_row.
  all: try (by apply follows_save_picture).
  all: try match goal with
       | |- os_MkdirAll ?d ~> _ => by apply (follows_asking s as_done (CMkdirAll d) _ ADone)
       | |- os_WriteFile ?p ?d ~> _ => by apply (follows_asking s as_done (CWriteFile p d) _ ADone)
       end.
  match goal with |- DeleteProfilePicture _ ?u ?v ~> _ =>
    one_call as_done (CDeletePicture u v) ADone Hpc end.
Qed.

Lemma follows_read_picture uid profile path : read_picture S uid profile path ~> read_picture s uid profile path.
Proof.
  unfold read_picture. cbn [uploadDir scripted].
  cases_of (pictureCache s) Hpc; along; try (by apply follows_save_picture).
  all: eapply (follows_map_error s (os_ReadFile _) _ (os_ReadFile _) _
      (λ err, Err (if errors_Is err os_ErrNotExist then Sentinel ErrNotFound else err))); [done|done|].
  all: by apply (follows_asking s as_bytes (CReadFile _) _ ABytes).
Qed.

Lemma follows_GetProfilePicture uid : GetProfilePicture S uid ~> GetProfilePicture s uid.
Proof.
  unfold GetProfilePicture. cases_of (pictureCache s) Hpc; along;
    first [apply follows_profile|apply follows_read_picture|idtac].
  match goal with |- pc_GetProfilePicture _ ?u ?v ~> _ =>
    one_call as_picture (CGetPicture u v) APicture Hpc end.
Qed.

Lemma follows_Handle req : Handle S req ~> Handle s req.
Proof.
  unfold Handle, marshal, decodeBody. along;
    first [apply follows_Login|apply follows_requireUser|apply follows_Logout|apply follows_GetProfile
          |apply follows_GetProfilePicture|apply follows_UpdateNickname|apply follows_UploadProfilePicture].
Qed.

(** Suspending the service changes nothing but the interleavings.  If
    [Service.Handle] runs in one go and returns [r], then the calls that the code
    makes one at a time, each performed as soon as it is made, lead to the same
    world and the same result: after the answers to the calls so far the code asks
    for exactly the next of these calls, and after the last one it is done. *)
Lemma undisturbed_is_Handle req x r x' :
  Handle s req x = (r, x') →
  ∃ l, performs s x l x' ∧ next s req l.*2 = Done r ∧
    ∀ i c a, l !! i = Some (c, a) → next s req (take i l).*2 = Calling c.
Proof.
  intros Hrun. destruct (follows_Handle req) as [_ Hf].
  destruct (Hf _ _ _ Hrun) as (l & Hp & Hr & Hc). exists l. split; [done|]. unfold next. split.
  - specialize (Hr []). rewrite app_nil_r in Hr. by rewrite Hr.
  - intros i c a Hi. specialize (Hc _ _ _ Hi). destruct (Handle S req _) as [r1 w1]. cbn in Hc.
    by rewrite Hc.
Qed.
End handle.

(** ** Every request comes to an end *)

Section spends.
Context {X : Type} `{!Host X}.
Abbreviation run A := (eff (script X) error A).

(** [m] makes at most [n] calls. *)
Definition spends (n : nat) {A} (m : run A) : Prop := ∀ w,
  sc_call w = None → (n ≤ length (sc_answers w))%nat →
  sc_call (m w).2 = None ∧ (length (sc_answers w) ≤ n + length (sc_answers (m w).2))%nat.

Lemma spends_then n k {A B} (m : run A) (f : outcome error A → run B) (r : run B) :
  (∀ w, r w = let (a, w') := m w in f a w') →
  spends n m → (∀ a, spends k (f a)) → spends (n + k) r.
Proof.
  intros Hr Hm Hf w Hw Hlen. rewrite Hr. destruct (Hm w Hw ltac:(lia)) as [Hc Hl].
  destruct (m w) as [a w1]. cbn in *. destruct (Hf a w1 Hc ltac:(lia)). split; [done|lia].
Qed.

Lemma spends_mono n k {A} (m : run A) : (n ≤ k)%nat → spends n m → spends k m.
Proof. intros Hnk Hm w Hw Hlen. destruct (Hm w Hw ltac:(lia)). split; [done|lia]. Qed.

Lemma spends_lift {A} (r : outcome error A) : spends 0 (lift r).
Proof. intros w Hw _. cbn. split; [done|lia]. Qed.
Lemma spends_ret {A} (a : A) : spends 0 (mret a).
Proof. apply (spends_lift (Ok a)). Qed.
Lemma spends_throw {A} (e : error) : spends 0 (throw e : run A).
Proof. apply (spends_lift (Err e)). Qed.

Lemma spends_bind n k {A B} (m : run A) (f : A → run B) :
  spends n m → (∀ a, spends k (f a)) → spends (n + k) (m ≫= f).
Proof.
  intros Hm Hf. eapply (spends_then n k m (λ r, match r with Ok a => f a | Err e => throw e | Panic => lift Panic end));
    [|done|]; [intros w; unfold mbind, eff_bind; by destruct (m w) as [[]]|].
  intros [a|e|]; [apply Hf|eapply spends_mono, spends_throw; lia|eapply spends_mono, spends_lift; lia].
Qed.

Lemma spends_asking {A} (get : answer → outcome error A) c : spends 1 (asking get c).
Proof.
  intros [given call] Hw Hlen. cbn in *. subst call. destruct given as [|a given]; [cbn in Hlen; lia|].
  cbn. split; [done|lia].
Qed.

Lemma spends_now : spends 1 (time_Now (W := script X)).
Proof.
  intros [given call] Hw Hlen. cbn in *. subst call. destruct given as [|a given]; [cbn in Hlen; lia|].
  cbn. split; [done|lia].
Qed.

Lemma spends_map_error n {A} (m r : run A) (f : error → outcome error A) :
  (∀ w, r w = match m w with (Err e, w') => (f e, w') | r => r end) → spends n m → spends n r.
Proof.
  intros Hr Hm. replace n with (n + 0)%nat by lia.
  eapply (spends_then n 0 m (λ r, lift match r with Err e => f e | _ => r end)); [|done|].
  - intros w. rewrite Hr. by destruct (m w) as [[]].
  - intros r'. apply spends_lift.
Qed.
End spends.

(** Count the calls along the branches. *)
Ltac count_zero :=
  apply (spends_mono 0); [lia|first [apply spends_ret|apply spends_throw|apply spends_lift]].
Ltac count :=
  repeat (cbn beta iota zeta; match goal with
  | |- spends _ (if ?b then _ else _) => destruct b
  | |- spends _ (let (_, _) := ?p in _) => destruct p
  | |- spends _ (match ?x with _ => _ end) => destruct x
  | |- spends _ (mret _) => count_zero
  | |- spends _ (throw _) => count_zero
  | |- spends _ (lift _) => count_zero
  | |- spends ?n (mbind _ (lift _)) => apply (spends_bind 0 n); [apply spends_lift|intros]
  | |- spends (S ?n) (mbind _ time_Now) => apply (spends_bind 1 n); [apply spends_now|intros]
  | |- spends (S ?n) (mbind _ (asking _ _)) => apply (spends_bind 1 n); [apply spends_asking|intros]
  end).

Section bounded.
Context {X : Type} `{!Host X} (s : Service X).
Abbreviation S' := (scripted s).

Lemma spends_ignore n (m : eff (script X) error unit) : spends n m → spends n (ignore_error m).
Proof. by apply (spends_map_error n m _ (λ _, Ok tt)). Qed.
Lemma spends_not_found n {A} e (m : eff (script X) error A) : spends n m → spends n (on_not_found e m).
Proof.
  by apply (spends_map_error n m _ (λ err, Err (if errors_Is err store_ErrNotFound then e else err))).
Qed.

Lemma spends_query {A} q (f : user_row → A) :
  spends 1 (mapNoRows (r ← query_row (W := script X) q; mret (f r))).
Proof.
  apply (spends_map_error 1 (r ← query_row (W := script X) q; mret (f r)) _
    (λ e, Err (if errors_Is e sql_ErrNoRows then Sentinel store_ErrNotFound else e))); [done|].
  apply (spends_bind 1 0); [apply spends_asking|intros; apply spends_ret].
Qed.

Lemma spends_profile uid : spends 1 (us_GetUserProfileByID (store S') uid).
Proof. apply spends_query. Qed.

(** An [UPDATE] and the [SELECT] after it. *)
Lemma spends_update stmt uid :
  spends 2 (res ← exec (W := script X) stmt;
            if none_affected res then throw (Sentinel store_ErrNotFound) else GetUserProfileByID uid).
Proof.
  apply (spends_bind 1 1); [apply spends_asking|intros res]. count. apply spends_query.
Qed.

Lemma spends_requireUser token : spends 2 (requireUser S' token).
Proof.
  unfold requireUser. cbn [sessions scripted]. destruct (sessions s); cbn [fmap option_fmap option_map]; count.
  apply (spends_bind 1 0); [apply spends_asking|intros]. count.
Qed.

Lemma spends_Login body : spends 6 (Login S' body).
Proof.
  unfold Login. count.
  apply (spends_bind 1 5); [apply spends_not_found, spends_query|intros user]. count.
  apply (spends_bind 1 3); [apply spends_asking|intros nonce]. count.
  apply (spends_bind 2 1); [|intros _; apply (spends_bind 1 0); [apply spends_profile|intros; count]].
  cbn [sessions scripted]. destruct (sessions s); cbn [fmap option_fmap option_map]; count.
  apply spends_asking.
Qed.

Lemma spends_picture_row uid rel ct size path : spends 3 (update_picture_row S' uid rel ct size path).
Proof.
  eapply (spends_then 2 1 (us_UpdateProfilePicture (store S') uid rel ct size)
    (λ r, match r with
          | Err err => _ ← ignore_error (os_Remove path);
                       throw (if errors_Is err store_ErrNotFound then Sentinel ErrNotFound else err)
          | _ => lift r end)).
  - intros w. unfold update_picture_row. by destruct (us_UpdateProfilePicture _ _ _ _ _ w) as [[]].
  - apply spends_update.
  - intros []; count. apply (spends_bind 1 0); [apply spends_ignore, spends_asking|intros; count].
Qed.

Lemma spends_upload uid body : spends 9 (UploadProfilePicture S' uid body).
Proof.
  unfold UploadProfilePicture. count.
  apply (spends_bind 1 7); [|intros old].
  { by apply (spends_map_error 1 (us_GetUserProfileByID (store S') uid) _ (λ _, Ok zero_profile)), spends_profile. }
  apply (spends_bind 1 6); [apply spends_asking|intros]. apply (spends_bind 1 5); [apply spends_asking|intros].
  apply (spends_bind 3 2); [apply spends_picture_row|intros profile].
  apply (spends_bind 2 0); [|intros; count].
  cbn [pictureCache scripted]. destruct (pictureCache s); cbn [fmap option_fmap option_map]; [|count].
  apply (spends_bind 1 1); [count; apply spends_ignore, spends_asking|intros].
  apply spends_ignore, spends_asking.
Qed.

Lemma spends_read_picture uid profile path : spends 2 (read_picture S' uid profile path).
Proof.
  unfold read_picture. apply (spends_bind 1 1); [|intros data].
  { apply (spends_map_error 1 (os_ReadFile (JoinPath (uploadDir S') (Clean path))) _
      (λ err, Err (if errors_Is err os_ErrNotExist then Sentinel ErrNotFound else err))), spends_asking.
    done. }
  apply (spends_bind 1 0); [|intros; count].
  cbn [pictureCache scripted]. destruct (pictureCache s); cbn [fmap option_fmap option_map]; [|count].
  apply spends_ignore, spends_asking.
Qed.

Lemma spends_get_picture uid : spends 4 (GetProfilePicture S' uid).
Proof.
  unfold GetProfilePicture. apply (spends_bind 1 3); [apply spends_not_found, spends_profile|intros profile].
  cbn [pictureCache scripted]. destruct (pictureCache s); cbn [fmap option_fmap option_map]; count.
  - apply (spends_bind 1 2); [apply spends_asking|intros [[mime data] ok]]. count. apply spends_read_picture.
  - eapply spends_mono, spends_read_picture. lia.
Qed.

(** A protected operation: the session, then the operation. *)
Lemma spends_protected {A} token n (f : Z → eff (script X) error A) :
  (n ≤ 9)%nat → (∀ uid, spends n (f uid)) → spends 11 (userID ← requireUser S' token; f userID).
Proof.
  intros Hn Hf. apply (spends_bind 2 9); [apply spends_requireUser|]. intros uid. by eapply spends_mono.
Qed.

Lemma spends_Handle req : spends 11 (Handle S' req).
Proof.
  assert (Hbody : ∀ {A} n msg (dec : json → option A) raw (f : A → eff (script X) error json),
    (∀ b, spends n (f b)) → spends n (body ← decodeBody msg dec raw; f body)).
  { intros A n msg dec raw f Hf. apply (spends_bind 0 n); [|done]. unfold decodeBody. count. }
  assert (Hmarshal : ∀ {A} n (enc : A → json) (m : eff (script X) error A), spends n m → spends n (marshal enc m)).
  { intros A n enc m Hm. replace n with (n + 0)%nat by lia. apply spends_bind; [done|]. intros; count. }
  unfold Handle. count.
  - apply Hbody. intros b. apply Hmarshal. eapply spends_mono, spends_Login. lia.
  - eapply (spends_protected _ 1); [lia|]. intros uid. apply Hmarshal. unfold GetProfile.
    apply (spends_bind 1 0); [apply spends_not_found, spends_profile|intros; count].
  - eapply (spends_protected _ 4); [lia|]. intros uid. apply Hmarshal, spends_get_picture.
  - eapply (spends_protected _ 2); [lia|]. intros uid. apply Hbody. intros b. apply Hmarshal.
    unfold UpdateNickname. count. apply (spends_bind 2 0); [apply spends_not_found, spends_update|intros; count].
  - eapply (spends_protected _ 9); [lia|]. intros uid. apply Hbody. intros b. apply Hmarshal, spends_upload.
  - apply (spends_bind 1 10); [|intros; count]. unfold Logout. cbn [sessions scripted].
    destruct (sessions s); cbn [fmap option_fmap option_map]; count. apply spends_asking.
Qed.

(** A request is done after at most eleven calls, whatever it is answered. *)
Lemma next_done req given : (11 ≤ length given)%nat → ∃ r, next s req given = Done r.
Proof.
  intros Hlen. unfold next. destruct (spends_Handle req (Script given None) eq_refl Hlen) as [Hc _].
  destruct (Handle S' req _) as [r w]. cbn in Hc. rewrite Hc. eauto.
Qed.
End bounded.
