(* ===== verification/Concurrent.v ===== *)
(** * Requests that run at the same time
    ([worker] in [src/internal/service/tcp_server.go] calling [Service.Handle] in
    [src/internal/service/service.go])

    [TcpServer] knows of the service only what [Handle] may return.  Here its
    workers run [Handle] on one world that they share, and every call that the code
    of [Handle] makes of MySQL, Redis, the clock, the random source and the file
    system is a step of its own ([Calls]): anything may happen between two calls of
    a request.  The log says who called what and what was answered. *)

From S2P Require Import Prelude GoIO GoStrings Json Frame Errors Config Token Protocol Store Service ServiceSpec TcpServer Calls.
From stdpp Require Import relations.
#[local] Open Scope Z_scope.

(** ** Jobs *)

Section jobs.
Context (cfg : TCPConfig).

Definition handling (ws : worker_state) : option tcpJob :=
  match ws with Handling j => Some j | _ => None end.

(** The jobs that have not been handled. *)
Definition live (s : server_state) : list tcpJob := jobs s ++ omap handling (workers s).
Definition unhandled (s : server_state) : list nat := map job_resp (live s).

(** No job appears or is handled, or one appears on a fresh channel. *)
Definition mints (s s' : server_state) : Prop :=
  (∃ gone, live s ≡ₚ gone ++ live s') ∧
    (∀ ch, is_Some (resp_chans s !! ch) → is_Some (resp_chans s' !! ch)) ∨
  ∃ j, live s' ≡ₚ j :: live s ∧ resp_chans s !! job_resp j = None ∧
    (∀ ch, ch = job_resp j ∨ is_Some (resp_chans s !! ch) → is_Some (resp_chans s' !! ch)).

Lemma server_step_mints s s' : step cfg (λ _ _, False) s s' → mints s s'.
Proof.
  assert (Hsame : ∀ s', live s' = live s → resp_chans s' = resp_chans s → mints s s').
  { intros s2 E1 E2. left. rewrite E1, E2. split; [by exists []|done]. }
  assert (Hkeep : ∀ ch v (m : gmap nat (option Response)) ch', is_Some (m !! ch') → is_Some (<[ch:=v]> m !! ch')).
  { intros ch v m ch' Hs. destruct (decide (ch = ch')) as [->|]; [by rewrite lookup_insert_eq|].
    by rewrite lookup_insert_ne. }
  intros [s2 _ Hs|s2 _ Hs|c rd wr _ _ _|_|_ _|i j resp _ Hw]; try (by apply Hsame).
  - destruct Hs as [i j q Hi Hj|i j r resp _ []|i j _ []|i j resp Hi _]; left; unfold live; fields.
    + destruct (omap_worker handling _ _ _ Hi) as (rest & Hold & Hnew). split; [|done].
      exists []. by rewrite Hold, Hnew, Hj.
    + destruct (omap_worker handling _ _ _ Hi) as (rest & Hold & Hnew). split; [|by auto].
      exists []. by rewrite Hold, Hnew.
  - destruct Hs as [| | | |c cn req ch _ _ _ _ Hf|c cn req ch i _ _ _ Hi Hq Hf| | |c cn ch resp _ _ _| |];
      try (by apply Hsame).
    + right. exists (Job req ch). unfold live; fields. split_and!; [|done|].
      * rewrite <- app_assoc. symmetry. apply Permutation_middle.
      * intros ch' [->|?]; [by rewrite lookup_insert_eq|by apply Hkeep].
    + right. exists (Job req ch). unfold live; fields.
      destruct (omap_worker handling _ _ _ Hi) as (rest & Hold & Hnew). split_and!; [|done|].
      * by rewrite Hold, Hnew.
      * intros ch' [->|?]; [by rewrite lookup_insert_eq|by apply Hkeep].
    + left. split; [by exists []|]. intros ch'. apply Hkeep.
  - left. unfold live; fields. split; [|done].
    destruct Hw as [[Hi _]|[Hi _]];
      destruct (omap_worker handling _ _ _ Hi) as (rest & Hold & Hnew); exists [];
      by rewrite Hold, Hnew.
Qed.

(** A job that is handled leaves the list. *)
Lemma live_handled s i j resp :
  workers s !! i = Some (Handling j) → live s ≡ₚ j :: live (set_worker i (Replying j resp) s).
Proof.
  intros Hi. destruct (omap_worker handling _ _ _ Hi) as (rest & Hold & Hnew).
  unfold live. fields. by rewrite Hold, Hnew.
Qed.

(** A server whose handlers may return more. *)
Lemma step_mono (h h' : Request → outcome error json → Prop) s s' :
  (∀ req r, h req r → h' req r) → step cfg h s s' → step cfg h' s s'.
Proof.
  intros Hsub [s2 Hc Hs|s2 Hc Hs|c rd wr ? ? ?|?|? ?|i j resp ? ?]; [|by econstructor..].
  apply step_worker; [done|]. destruct Hs; econstructor; eauto.
Qed.

End jobs.

(** ** The machine *)

(** A call made by the request on a response channel, its end, or something
    outside the server. *)
Inductive cevent :=
  | Called (ch : nat) (req : Request) (c : call) (a : answer)
  | Finished (ch : nat) (req : Request) (r : outcome error json)
  | Elsewhere.

Definition event_of (e : cevent) : option (nat * Request) :=
  match e with
  | Called ch req _ _ | Finished ch req _ => Some (ch, req)
  | Elsewhere => None
  end.

(** The answers a request has been given so far. *)
Definition answer_to (ch : nat) (e : cevent) : option answer :=
  match e with
  | Called ch' _ _ a => if decide (ch' = ch) then Some a else None
  | _ => None
  end.
Definition answered (ch : nat) (evs : list cevent) : list answer := omap (answer_to ch) evs.

Record csystem (X : Type) := CSystem {
  cs_server : server_state;
  cs_world : X;
  cs_log : list cevent;
}.
Arguments CSystem {X}. Arguments cs_server {X}. Arguments cs_world {X}. Arguments cs_log {X}.

Section machine.
Context {X : Type} `{!Host X, !MySQL X} (s : Service X) (env : X → X → Prop) (cfg : TCPConfig).

Inductive cstep : csystem X → csystem X → Prop :=
  | c_server sv sv' x evs :                (* anything but the work of [Handle] *)
      step cfg (λ _ _, False) sv sv' → cstep (CSystem sv x evs) (CSystem sv' x evs)
  | c_calls sv i j c a x x' evs :
      crashed sv = false → workers sv !! i = Some (Handling j) →
      next s (job_req j) (answered (job_resp j) evs) = Calling c → perform s c x = (a, x') →
      cstep (CSystem sv x evs) (CSystem sv x' (evs ++ [Called (job_resp j) (job_req j) c a]))
  | c_finishes sv i j r resp x evs :
      crashed sv = false → workers sv !! i = Some (Handling j) →
      next s (job_req j) (answered (job_resp j) evs) = Done r → response_for (job_req j) r = Some resp →
      cstep (CSystem sv x evs)
        (CSystem (set_worker i (Replying j resp) sv) x (evs ++ [Finished (job_resp j) (job_req j) r]))
  | c_panics sv i j x evs :
      crashed sv = false → workers sv !! i = Some (Handling j) →
      next s (job_req j) (answered (job_resp j) evs) = Done Panic →
      cstep (CSystem sv x evs)
        (CSystem (crash sv) x (evs ++ [Finished (job_resp j) (job_req j) Panic]))
  | c_outside sv x x' evs :
      env x x' → cstep (CSystem sv x evs) (CSystem sv x' (evs ++ [Elsewhere])).

(** ** What the log says *)

(** The world evolves by the calls in the log. *)
Inductive chistory : X → list cevent → X → Prop :=
  | chistory_nil x : chistory x [] x
  | chistory_called x ch req c a x1 evs x2 :
      perform s c x = (a, x1) → chistory x1 evs x2 → chistory x (Called ch req c a :: evs) x2
  | chistory_finished x ch req r evs x2 :
      chistory x evs x2 → chistory x (Finished ch req r :: evs) x2
  | chistory_outside x x1 evs x2 :
      env x x1 → chistory x1 evs x2 → chistory x (Elsewhere :: evs) x2.

Lemma chistory_app x l1 l2 x2 :
  chistory x (l1 ++ l2) x2 ↔ ∃ x1, chistory x l1 x1 ∧ chistory x1 l2 x2.
Proof.
  split.
  - revert x. induction l1 as [|e l1 IH]; intros x; cbn; [intros; exists x; split; [constructor|done]|].
    intros H. inversion H; subst; destruct (IH _ ltac:(eassumption)) as (x1' & ? & ?);
      exists x1'; split; try done; by econstructor.
  - intros (x1 & H1 & H2). induction H1; cbn; [done|by econstructor; eauto..].
Qed.

(** Every event is what the code does next. *)
Definition event_ok (given : list answer) (e : cevent) : Prop :=
  match e with
  | Called _ req c _ => next s req given = Calling c
  | Finished _ req r => next s req given = Done r
  | Elsewhere => True
  end.
Definition traced (evs : list cevent) : Prop :=
  ∀ pre e post, evs = pre ++ e :: post →
    ∀ ch req, event_of e = Some (ch, req) → event_ok (answered ch pre) e.

Lemma traced_snoc evs e :
  traced evs → (∀ ch req, event_of e = Some (ch, req) → event_ok (answered ch evs) e) →
  traced (evs ++ [e]).
Proof.
  intros Ht He pre e' post E. destruct post as [|e2 post _] using rev_ind.
  - apply app_inj_tail in E as [-> ->]. done.
  - rewrite app_comm_cons, app_assoc in E. apply app_inj_tail in E as [-> _]. by eapply Ht.
Qed.

(** A response channel belongs to one request. *)
Record owned (sv : server_state) (evs : list cevent) : Prop := {
  owned_nodup : NoDup (unhandled sv);
  owned_live ch : ch ∈ unhandled sv → is_Some (resp_chans sv !! ch);
  owned_known e ch req : e ∈ evs → event_of e = Some (ch, req) → is_Some (resp_chans sv !! ch);
  owned_job e ch req j : e ∈ evs → event_of e = Some (ch, req) → j ∈ live sv → job_resp j = ch →
    job_req j = req;
  owned_one e e' ch req req' : e ∈ evs → e' ∈ evs → event_of e = Some (ch, req) →
    event_of e' = Some (ch, req') → req' = req;
}.

Lemma owned_mints sv sv' evs : mints sv sv' → owned sv evs → owned sv' evs.
Proof.
  intros Hm [Hnd Hlive Hknown Hjob Hone]. unfold unhandled in *.
  destruct Hm as [[[gone Hp] Hdom]|(j & Hp & Hfresh & Hdom)].
  - assert (Hsub : ∀ j, j ∈ live sv' → j ∈ live sv) by (intros j Hj; rewrite Hp; apply elem_of_app; auto).
    split; unfold unhandled; [..|by eauto].
    + rewrite Hp, map_app in Hnd. by apply NoDup_app in Hnd as (_ & _ & ?).
    + intros ch (j & -> & Hj)%list_elem_of_fmap. apply Hdom, Hlive, list_elem_of_fmap. eauto.
    + intros e ch req He Hev. eapply Hdom, Hknown; eauto.
    + intros e ch req j He Hev Hj. eapply Hjob; eauto.
  - split; unfold unhandled; [..|by eauto].
    + rewrite Hp. cbn. apply NoDup_cons. split; [|done]. intros Hin%Hlive. rewrite Hfresh in Hin.
      by destruct Hin.
    + intros ch. rewrite Hp. cbn. intros [->|Hin]%elem_of_cons; apply Hdom; auto.
    + intros e ch req He Hev. apply Hdom. right. by eapply Hknown.
    + intros e ch req j' He Hev. rewrite Hp. intros [->|Hj]%elem_of_cons Hch; [|by eapply Hjob].
      exfalso. destruct (Hknown _ _ _ He Hev) as [v Hv]. subst ch. congruence.
Qed.

(** A new event of a job that is being handled. *)
Lemma owned_event sv evs j e :
  j ∈ live sv → event_of e = Some (job_resp j, job_req j) → owned sv evs → owned sv (evs ++ [e]).
Proof.
  intros Hj He [Hnd Hlive Hknown Hjob Hone].
  assert (Hsame : ∀ j', j' ∈ live sv → job_resp j' = job_resp j → j' = j).
  { intros j' Hj' Heq. apply list_elem_of_lookup in Hj as [n Hn]. apply list_elem_of_lookup in Hj' as [n' Hn'].
    unfold unhandled in Hnd. assert (n' = n).
    { eapply (NoDup_lookup _ _ _ _ Hnd); rewrite list_lookup_fmap, ?Hn, ?Hn'; cbn; [reflexivity|by rewrite Heq]. }
    subst. congruence. }
  split; [done|done|..].
  - intros e' ch req [Hin| ->%list_elem_of_singleton]%elem_of_app Hev; [by eapply Hknown|].
    rewrite He in Hev. injection Hev as <- <-. apply Hlive, list_elem_of_fmap. eauto.
  - intros e' ch req j' [Hin| ->%list_elem_of_singleton]%elem_of_app Hev Hj' Hch; [by eapply Hjob|].
    rewrite He in Hev. injection Hev as <- <-. by rewrite (Hsame j').
  - intros e1 e2 ch req req' [H1| ->%list_elem_of_singleton]%elem_of_app
      [H2| ->%list_elem_of_singleton]%elem_of_app E1 E2; [by eapply (Hone e1 e2)|..|congruence].
    + rewrite He in E2. injection E2 as <- <-. by eapply (Hjob e1).
    + rewrite He in E1. injection E1 as <- <-. symmetry. by eapply (Hjob e2).
Qed.

Lemma live_handling sv i j : workers sv !! i = Some (Handling j) → j ∈ live sv.
Proof.
  intros Hi. unfold live. apply elem_of_app. right. apply list_elem_of_omap.
  exists (Handling j). split; [by eapply list_elem_of_lookup_2|done].
Qed.

Lemma owned_outside sv evs : owned sv evs → owned sv (evs ++ [Elsewhere]).
Proof.
  intros [Hnd Hlive Hknown Hjob Hone]. split; [done|done|..].
  - intros e ch req [Hin| ->%list_elem_of_singleton]%elem_of_app Hev; [by eapply Hknown|done].
  - intros e ch req j [Hin| ->%list_elem_of_singleton]%elem_of_app Hev; [by eapply Hjob|done].
  - intros e1 e2 ch req req' [H1| ->%list_elem_of_singleton]%elem_of_app
      [H2| ->%list_elem_of_singleton]%elem_of_app E1 E2; [by eapply (Hone e1 e2)|done..].
Qed.

(** ** Every run *)

Record coherent (x0 : X) (σ : csystem X) : Prop := {
  co_traced : traced (cs_log σ);
  co_owned : owned (cs_server σ) (cs_log σ);
  co_history : chistory x0 (cs_log σ) (cs_world σ);
}.

Lemma chistory_snoc x evs x1 e x2 : chistory x evs x1 → chistory x1 [e] x2 → chistory x (evs ++ [e]) x2.
Proof. intros H1 H2. apply chistory_app. eauto. Qed.

Lemma coherent_step x0 σ σ' : cstep σ σ' → coherent x0 σ → coherent x0 σ'.
Proof.
  intros [sv sv' x evs Hs|sv i j c a x x' evs Hc Hi Hn Hp|sv i j r resp x evs Hc Hi Hn Hr
         |sv i j x evs Hc Hi Hn|sv x x' evs He] [Ht Ho Hh]; cbn in *.
  - split; cbn; [done| |done]. eapply owned_mints, Ho. by eapply server_step_mints.
  - split; cbn.
    + apply traced_snoc; [done|]. by intros ? ? [= <- <-].
    + eapply owned_event; [by eapply live_handling|done|done].
    + eapply chistory_snoc; [done|]. econstructor; [done|constructor].
  - split; cbn.
    + apply traced_snoc; [done|]. by intros ? ? [= <- <-].
    + eapply (owned_mints sv); [|by eapply owned_event; [by eapply live_handling|..]].
      left. split; [|done]. exists [j]. by apply live_handled.
    + eapply chistory_snoc; [done|]. constructor. constructor.
  - split; cbn.
    + apply traced_snoc; [done|]. by intros ? ? [= <- <-].
    + eapply (owned_mints sv); [|by eapply owned_event; [by eapply live_handling|..]].
      left. split; [by exists []|done].
    + eapply chistory_snoc; [done|]. constructor. constructor.
  - split; cbn; [|by apply owned_outside|].
    + apply traced_snoc; [done|]. by intros ? ? [=].
    + eapply chistory_snoc; [done|]. econstructor; [done|constructor].
Qed.

Lemma coherent_init s0 x0 : NewTCPServer cfg = Ok s0 → coherent x0 (CSystem s0 x0 []).
Proof.
  intros Hinit. split; cbn; [by intros [] ? ? [=]| |constructor].
  unfold NewTCPServer in Hinit. destruct (QueueSize cfg <? 0); [done|]. injection Hinit as <-.
  assert (E : ∀ n, omap handling (replicate n Selecting) = []) by (by induction n).
  split; unfold unhandled, live; cbn; rewrite ?E; cbn; [apply NoDup_nil_2|..];
    intros; by match goal with H : _ ∈ [] |- _ => apply elem_of_nil in H end.
Qed.

Lemma coherent_run s0 x0 σ :
  NewTCPServer cfg = Ok s0 → rtc cstep (CSystem s0 x0 []) σ → coherent x0 σ.
Proof.
  intros Hinit%(coherent_init _ x0) Hrun. induction Hrun; [done|]. eauto using coherent_step.
Qed.

(** The log grows, and known channels stay known. *)
Lemma run_log σ σ' :
  rtc cstep σ σ' → ∃ evs, cs_log σ' = cs_log σ ++ evs ∧ chistory (cs_world σ) evs (cs_world σ').
Proof.
  revert σ'. apply rtc_ind_r; [exists []; rewrite app_nil_r; split; [done|constructor]|].
  intros σ1 σ2 _ Hstep (evs & El & Hh).
  assert (∃ es, cs_log σ2 = cs_log σ1 ++ es ∧ chistory (cs_world σ1) es (cs_world σ2)) as (es & El2 & Hh2).
  { destruct Hstep; cbn; [exists []; rewrite app_nil_r; split; [done|constructor]|..];
      eexists; (split; [reflexivity|]); repeat (econstructor; eauto). }
  exists (evs ++ es). rewrite El2, El, app_assoc. split; [done|]. apply chistory_app. eauto.
Qed.
(** ** Authentication in the log *)

Lemma answered_app ch l1 l2 : answered ch (l1 ++ l2) = answered ch l1 ++ answered ch l2.
Proof. apply omap_app. Qed.

Lemma answered_first ch evs a rest :
  answered ch evs = a :: rest →
  ∃ p1 req c p2, evs = p1 ++ Called ch req c a :: p2 ∧ answered ch p1 = [] ∧ answered ch p2 = rest.
Proof.
  induction evs as [|e evs IH]; [done|]. unfold answered in *. cbn.
  destruct (answer_to ch e) as [a'|] eqn:He.
  - intros [= -> <-]. destruct e as [ch' req c a'| |]; cbn in He; [|done..].
    case_decide; [|done]. injection He as ->. subst ch'. by exists [], req, c, evs.
  - intros H. destruct (IH H) as (p1 & req & c & p2 & -> & H1 & H2).
    exists (e :: p1), req, c, p2. cbn. by rewrite He.
Qed.

(** All that happens on this channel in [evs] is the run of [req] from its
    beginning: every event is what the code does next, after the answers so far. *)
Definition run_of (ch : nat) (req : Request) (evs : list cevent) : Prop :=
  ∀ pre e post req', evs = pre ++ e :: post → event_of e = Some (ch, req') →
    req' = req ∧ event_ok (answered ch pre) e.

Lemma run_of_app ch req l1 l2 : run_of ch req (l1 ++ l2) → run_of ch req l1.
Proof.
  intros Hrun pre e post req' -> He. apply (Hrun pre e (post ++ l2) req'); [|done].
  by rewrite <- app_assoc.
Qed.

Lemma run_of_log x0 σ e ch req :
  coherent x0 σ → e ∈ cs_log σ → event_of e = Some (ch, req) → run_of ch req (cs_log σ).
Proof.
  intros Hco He Hev pre e' post req' El He'. split.
  - eapply (owned_one _ _ (co_owned _ _ Hco) e e'); [done| |done..]. rewrite El. set_solver.
  - by eapply (co_traced _ _ Hco).
Qed.

(** Before the request made its other calls, its token was verified at a time
    read from the clock and, when sessions are kept, the session store had a session
    of [uid] for it. *)
Definition authenticated (evs : list cevent) (ch : nat) (req : Request) (uid : Z) : Prop :=
  ∃ p1 now p2,
    evs = p1 ++ Called ch req CNow (ATime now) :: p2 ∧
    Verify (tokens s) (req_Token req) now = Ok uid ∧
    (is_Some (sessions s) → ∃ q1 q2,
       p2 = q1 ++ Called ch req (CGetSession (req_Token req)) (ASession (Ok (uid, true))) :: q2).

Lemma CNow_answer x evs x' ch req a :
  chistory x evs x' → Called ch req CNow a ∈ evs → ∃ now, a = ATime now.
Proof.
  intros Hh (p1 & p2 & ->)%list_elem_of_split. apply chistory_app in Hh as (x1 & _ & Hh).
  inversion Hh as [|? ? ? ? ? ? ? ? Hp| |]; subst. unfold perform in Hp.
  destruct (time_now x1) as [now xn]. injection Hp as <- _. eauto.
Qed.

Lemma admitted_authenticated x evs x' ch req uid :
  chistory x evs x' → run_of ch req evs → req_Op req ∈ protected_ops →
  admitted s (req_Token req) uid (answered ch evs) → authenticated evs ch req uid.
Proof.
  intros Hh Hrun Hop (a & rest & Hv & Hgiven).
  destruct (answered_first _ _ _ _ Hgiven) as (p1 & req1 & c1 & p2 & E & Hp1 & Hp2).
  destruct (Hrun _ _ _ req1 E eq_refl) as [-> E1]. cbn in E1. rewrite Hp1 in E1.
  pose proof (next_protected s req [] Hop) as H1. rewrite E1 in H1.
  assert (c1 = CNow) as ->.
  { destruct H1 as [[? _]|[[_ [? ?]]|(u & (? & ? & _ & ?) & _)]]; [done|done|]. by destruct (sessions s). }
  destruct (CNow_answer _ _ _ ch req a Hh) as [now ->]; [rewrite E; set_solver|].
  exists p1, now, p2. split; [done|]. split; [done|]. intros [ss Hss]. rewrite Hss in Hp2.
  destruct (answered_first _ _ _ _ Hp2) as (q1 & req2 & c2 & q2 & -> & Hq1 & _). exists q1, q2.
  destruct (Hrun (p1 ++ Called ch req CNow (ATime now) :: q1) (Called ch req2 c2 (ASession (Ok (uid, true))))
    q2 req2) as [-> E2]; [by rewrite E, <- app_assoc|done|].
  cbn in E2. rewrite answered_app in E2. unfold answered in E2, Hp1, Hq1. cbn in E2.
  rewrite Hp1, Hq1, decide_True in E2 by done. cbn in E2.
  pose proof (next_protected s req [ATime now] Hop) as H2. rewrite E2 in H2.
  destruct H2 as [[_ ?]|[[-> _]|(u & (? & ? & _ & ?) & _)]]; [done|done|]. rewrite Hss in *. done.
Qed.

(** The same for the log of a run. *)
Lemma admitted_in_log x0 σ pre e post ch req uid :
  coherent x0 σ → cs_log σ = pre ++ e :: post →
  event_of e = Some (ch, req) → req_Op req ∈ protected_ops →
  admitted s (req_Token req) uid (answered ch pre) → authenticated pre ch req uid.
Proof.
  intros Hco El He Hop Hadm. pose proof (co_history _ _ Hco) as Hh. rewrite El in Hh.
  apply chistory_app in Hh as (x & Hx & _). eapply admitted_authenticated; [exact Hx| |done..].
  eapply (run_of_app _ _ pre (e :: post)). rewrite <- El. eapply run_of_log; [exact Hco| |exact He].
  rewrite El. set_solver.
Qed.

(** ** Rows change only for their users *)

(** The row a statement updates. *)
Definition row_of (stmt : statement) : option Z :=
  match stmt with
  | SetNickname _ uid | SetProfilePicture _ _ _ uid => Some uid
  | _ => None
  end.

Lemma protected_op_dec req : req_Op req ∈ protected_ops ∨ (req_Op req ∉ protected_ops).
Proof. destruct (decide (req_Op req ∈ protected_ops)); auto. Qed.

(** A statement that changes data is made by an authenticated request of the user
    whose row it updates. *)
Lemma exec_authenticated x0 σ pre ch req stmt a post :
  coherent x0 σ → cs_log σ = pre ++ Called ch req (CExec stmt) a :: post →
  ∃ uid, row_of stmt = Some uid ∧ req_Op req ∈ protected_ops ∧ authenticated pre ch req uid.
Proof.
  intros Hco El. pose proof (co_traced _ _ Hco _ _ _ El ch req eq_refl) as Hn. cbn in Hn.
  destruct (protected_op_dec req) as [Hop|Hop].
  - pose proof (next_protected s req (answered ch pre) Hop) as H. rewrite Hn in H.
    destruct H as [[? _]|[[? _]|(uid & Hadm & Hact)]]; [done|done|].
    exists uid. split; [|split; [done|by eapply admitted_in_log]].
    cbn in Hact. by destruct stmt; subst.
  - by destruct (next_public s _ _ _ Hop Hn) as [[_ ?]|[_ ?]].
Qed.
End machine.
