(* ===== verification/ConcurrentAnswers.v ===== *)
(** * Which answers the server gives while requests run at the same time

    [TcpServer] proves that every connection is answered in order, for whatever
    [Handle] may return; [Concurrent] runs [Handle] call by call on a shared world.
    Here the two meet: what is written on a connection are the results of its own
    requests, each run from its first call to its last after it was sent
    ([interleaved_answers]). *)

From S2P Require Import Prelude GoIO GoStrings Json Frame Errors Config Token Protocol Store Service ServiceSpec Memory Pictures TcpServer Calls CallsSpec Concurrent.
From stdpp Require Import relations.
#[local] Open Scope Z_scope.

Section answers.
Context {X : Type} `{!Host X, !MySQL X} (s : Service X) (env : X → X → Prop) (cfg : TCPConfig).
Abbreviation cstep := (cstep s env cfg).

(** ** Nothing is handled twice *)

(** After its end a request does nothing. *)
Definition ends_once (evs : list cevent) : Prop :=
  ∀ pre ch req r post e req', evs = pre ++ Finished ch req r :: post → e ∈ post →
    event_of e ≠ Some (ch, req').

Lemma ends_once_snoc evs e :
  ends_once evs →
  (∀ ch req req' r, event_of e = Some (ch, req) → Finished ch req' r ∉ evs) →
  ends_once (evs ++ [e]).
Proof.
  intros Hends Hnew pre ch req r post e' req' E Hin Hev.
  destruct post as [|e2 post _] using rev_ind; [by apply not_elem_of_nil in Hin|].
  rewrite app_comm_cons, app_assoc in E. apply app_inj_tail in E as [-> ->].
  apply elem_of_app in Hin as [Hin| ->%list_elem_of_singleton]; [by eapply Hends|].
  eapply Hnew; [exact Hev|]. apply elem_of_app. right. left.
Qed.

(** A worker that panicked keeps its job, but nothing is handled after that. *)
Definition settled (σ : csystem X) : Prop :=
  ends_once (cs_log σ) ∧
  (crashed (cs_server σ) = false → ∀ ch req r, Finished ch req r ∈ cs_log σ →
     ch ∉ unhandled (cs_server σ)).

Lemma handling_unhandled sv i j : workers sv !! i = Some (Handling j) → job_resp j ∈ unhandled sv.
Proof. intros Hi. apply list_elem_of_fmap. exists j. split; [done|by eapply live_handling]. Qed.

Lemma settled_step x0 σ σ' : cstep σ σ' → coherent s env x0 σ → settled σ → settled σ'.
Proof.
  intros Hstep Hco [Hends Hd]. pose proof (co_owned _ _ _ _ Hco) as Ho.
  destruct Hstep as [sv sv' x evs Hs|sv i j c a x x' evs Hc Hi Hn Hp|sv i j r resp x evs Hc Hi Hn Hr
    |sv i j x evs Hc Hi Hn|sv x x' evs He]; unfold settled; cbn in *.
  - split; [done|]. intros _ ch req r Hin Hch.
    assert (Hno : ch ∉ unhandled sv) by (eapply Hd; [by destruct Hs|done]).
    destruct (server_step_mints _ _ _ Hs) as [[[gone Hp] _]|(j & Hp & Hfresh & _)]; unfold unhandled in *.
    + apply Hno. rewrite Hp, map_app. apply elem_of_app. by right.
    + rewrite Hp in Hch. cbn in Hch. apply elem_of_cons in Hch as [->|?]; [|done].
      destruct (owned_known _ _ Ho _ _ _ Hin eq_refl) as [v Hv]. congruence.
  - assert (Hj := handling_unhandled _ _ _ Hi). split.
    + apply ends_once_snoc; [done|]. intros ch req req' r [= <- <-] Hin. by apply (Hd Hc) in Hin.
    + intros _ ch req r [Hin|?%list_elem_of_singleton]%elem_of_app; [by eapply Hd|done].
  - assert (Hj := handling_unhandled _ _ _ Hi). split.
    + apply ends_once_snoc; [done|]. intros ch req req' r' [= <- <-] Hin. by apply (Hd Hc) in Hin.
    + intros _ ch req r' Hin Hch. pose proof (live_handled _ _ _ resp Hi) as Hlive.
      pose proof (owned_nodup _ _ Ho) as Hnd. unfold unhandled in *. rewrite Hlive in Hnd. cbn in Hnd.
      apply NoDup_cons in Hnd as [Hnew _].
      apply elem_of_app in Hin as [Hin|[= -> _ _]%list_elem_of_singleton]; [|done].
      apply (Hd Hc _ _ _ Hin). rewrite Hlive. by right.
  - assert (Hj := handling_unhandled _ _ _ Hi). split; [|done].
    apply ends_once_snoc; [done|]. intros ch req req' r' [= <- <-] Hin. by apply (Hd Hc) in Hin.
  - split; [by apply ends_once_snoc|].
    intros Hc ch req r [Hin|?%list_elem_of_singleton]%elem_of_app; [by eapply Hd|done].
Qed.

Lemma settled_run s0 x0 σ :
  NewTCPServer cfg = Ok s0 → rtc cstep (CSystem s0 x0 []) σ → settled σ.
Proof.
  intros Hinit Hrun. pose proof (coherent_init s env cfg s0 x0 Hinit) as Hco.
  assert (Hs : settled (CSystem s0 x0 [])).
  { split; cbn; [by intros [] ? ? ? ? ? ? [=]|]. by intros _ ch req r ?%not_elem_of_nil. }
  revert Hco Hs. induction Hrun; [done|]. eauto using settled_step, coherent_step.
Qed.

(** ** The server in a run *)

(** No one has asked for this channel yet. *)
Definition new_chan (σ : csystem X) (ch : nat) : Prop := resp_chans (cs_server σ) !! ch = None.

Lemma step_waits h sv sv' c cn ch :
  step cfg h sv sv' → conns sv' !! c = Some cn → c_state cn = Waiting ch →
  (∃ cn', conns sv !! c = Some cn' ∧ c_state cn' = Waiting ch) ∨ resp_chans sv !! ch = None.
Proof.
  intros Hs Hc Hst.
  destruct Hs as [sv2 _ Hs|sv2 _ Hs|c' rd wr _ _ _|_|_ _|i j resp _ _]; [| | |by eauto..].
  - destruct Hs; cbn in Hc; eauto.
  - destruct Hs; cbn in Hc; try (by eauto);
      (apply lookup_insert_Some in Hc as [[_ <-]|[_ ?]]; [cbn in Hst|by eauto]); try done.
    all: injection Hst as <-; by right.
  - cbn in Hc. apply lookup_insert_Some in Hc as [[_ <-]|[_ ?]]; [done|by eauto].
Qed.

Lemma cstep_chans σ σ' ch :
  cstep σ σ' → is_Some (resp_chans (cs_server σ) !! ch) → is_Some (resp_chans (cs_server σ') !! ch).
Proof.
  intros [sv sv' x evs Hs| | | |] Hch; cbn in *; try done.
  destruct (server_step_mints _ _ _ Hs) as [[_ Hdom]|(j & _ & _ & Hdom)]; auto.
Qed.

Lemma run_chans σ σ' ch :
  rtc cstep σ σ' → is_Some (resp_chans (cs_server σ) !! ch) → is_Some (resp_chans (cs_server σ') !! ch).
Proof. induction 1; eauto using cstep_chans. Qed.

Lemma new_chan_back σ σ' ch : rtc cstep σ σ' → new_chan σ' ch → new_chan σ ch.
Proof.
  intros Hrun Hnew. unfold new_chan in *. destruct (resp_chans (cs_server σ) !! ch) eqn:E; [|done].
  destruct (run_chans _ _ ch Hrun) as [v Hv]; [by rewrite E|]. congruence.
Qed.

(** The invariant of the server, whatever is answered. *)
Abbreviation anything := (λ (_ : Request) (_ : outcome error json), True).

Lemma cstep_server σ σ' : cstep σ σ' → rtc (step cfg anything) (cs_server σ) (cs_server σ').
Proof.
  intros [sv sv' x evs Hs|sv i j c a x x' evs Hc Hi Hn Hp|sv i j r resp x evs Hc Hi Hn Hr
    |sv i j x evs Hc Hi Hn|sv x x' evs He]; cbn; [|done|..|done]; apply rtc_once.
  - by eapply step_mono, Hs.
  - apply step_worker; [done|]. by eapply worker_handles.
  - apply step_worker; [done|]. by eapply worker_panics.
Qed.

Lemma run_Inv s0 x0 σ :
  NewTCPServer cfg = Ok s0 → rtc cstep (CSystem s0 x0 []) σ →
  Inv cfg anything (λ _, True) (cs_server σ).
Proof.
  intros Hinit Hrun. apply reachable_Inv. exists s0. split; [done|].
  change s0 with (cs_server (CSystem s0 x0 [])). induction Hrun; [done|].
  etrans; [by apply cstep_server|done].
Qed.

(** ** A connection accepted after [σ1] *)

Section watch.
Context (σ1 : csystem X) (c : nat) (L : list cevent).
Context (Hinv1 : Inv cfg anything (λ _, True) (cs_server σ1)) (Hc1 : conns (cs_server σ1) !! c = None).

(** The result of a request on a new channel. *)
Definition ended (req : Request) (r : outcome error json) : Prop :=
  ∃ ch, new_chan σ1 ch ∧ Finished ch req r ∈ L.

Record watching (σ : csystem X) : Prop := {
  wa_run : rtc cstep σ1 σ;
  wa_inv : Inv cfg ended (λ c', c' = c) (cs_server σ);
  wa_new cn ch : conns (cs_server σ) !! c = Some cn → c_state cn = Waiting ch → new_chan σ1 ch;
}.

Lemma watching_step σ σ' :
  cstep σ σ' → (∀ e, e ∈ cs_log σ' → e ∈ L) → watching σ → watching σ'.
Proof.
  intros Hstep HL [Hrun Hinv Hnew].
  split; [by eapply rtc_r|..];
    destruct Hstep as [sv sv' x evs Hs|sv i j cl a x x' evs Hc Hi Hn Hp|sv i j r resp x evs Hc Hi Hn Hr
      |sv i j x evs Hc Hi Hn|sv x x' evs He]; cbn in *; try done.
  - eapply Inv_step, Hinv. by eapply step_mono, Hs.
  - destruct (resp_chans (cs_server σ1) !! job_resp j) as [v|] eqn:Hj.
    + apply Inv_handled; [done|done|]. intros c' cn -> Hc' Hst. apply (Hnew _ _ Hc') in Hst.
      unfold new_chan in Hst. congruence.
    + eapply Inv_worker_step, Hinv. eapply worker_handles; [done| |done].
      exists (job_resp j). split; [done|]. apply HL, elem_of_app. right. left.
  - destruct Hinv. by split.
  - intros cn ch Hcn Hst. destruct (step_waits _ _ _ _ _ _ Hs Hcn Hst) as [(cn' & H1 & H2)|Hch].
    + by eapply Hnew.
    + by eapply new_chan_back; [exact Hrun|].
Qed.

Lemma watching_run σ : rtc cstep σ1 σ → (∀ e, e ∈ cs_log σ → e ∈ L) → watching σ.
Proof.
  revert σ. apply (rtc_ind_r (λ σ, (∀ e, e ∈ cs_log σ → e ∈ L) → watching σ)).
  - intros _. split; [done|by eapply Inv_rebase|]. intros cn ch Hcn. congruence.
  - intros σ σ' Hrun Hstep IH HL. apply (watching_step _ _ Hstep HL), IH. intros e He. apply HL.
    destruct (run_log s env cfg σ σ') as (evs & -> & _); [by apply rtc_once|]. apply elem_of_app. by left.
Qed.
End watch.

(** ** What a connection is answered *)

(** [req] is run within [evs] from its first call to its end, with this result. *)
Definition handled_in (evs : list cevent) (req : Request) (r : outcome error json) : Prop :=
  ∃ ch, Finished ch req r ∈ evs ∧ run_of s ch req evs.

Lemma answered_unknown sv evs ch : owned sv evs → resp_chans sv !! ch = None → answered ch evs = [].
Proof.
  intros Ho Hnone. destruct (answered ch evs) as [|a rest] eqn:E; [done|].
  apply answered_first in E as (p1 & req & c & p2 & -> & _).
  destruct (owned_known _ _ Ho (Called ch req c a) ch req) as [v Hv]; [set_solver|done|]. congruence.
Qed.

Lemma ended_handled x0 σ1 σ2 evs req r :
  coherent s env x0 σ1 → coherent s env x0 σ2 → cs_log σ2 = cs_log σ1 ++ evs →
  ended σ1 (cs_log σ2) req r → handled_in evs req r.
Proof.
  intros Hco1 Hco2 El (ch & Hnew & Hin). pose proof (co_owned _ _ _ _ Hco1) as Ho1. exists ch.
  assert (Hin' : Finished ch req r ∈ evs).
  { rewrite El in Hin. apply elem_of_app in Hin as [Hin|?]; [|done].
    destruct (owned_known _ _ Ho1 _ _ _ Hin eq_refl) as [v Hv]. unfold new_chan in Hnew. congruence. }
  split; [done|]. intros pre e post req' -> He.
  rewrite app_assoc in El. split.
  - eapply (owned_one _ _ (co_owned _ _ _ _ Hco2) (Finished ch req r) e ch); [done| |done|done].
    rewrite El. apply elem_of_app. right. left.
  - pose proof (co_traced _ _ _ _ Hco2 _ _ _ El ch req' He) as Hok.
    by rewrite answered_app, (answered_unknown _ _ _ Ho1 Hnew) in Hok.
Qed.

Lemma answers_impl (h h' : Request → outcome error json → Prop) p resp :
  (∀ req r, h req r → h' req r) → answers h p resp → answers h' p resp.
Proof.
  intros Hsub. unfold answers. destruct (parse p ≫= Request_of); [|done].
  intros [?|(out & Hr & ?)]; [by left|right; eauto].
Qed.

(** Between two moments of a run. *)
Lemma run_answers s0 x0 σ1 σ2 c cn :
  NewTCPServer cfg = Ok s0 → rtc cstep (CSystem s0 x0 []) σ1 → rtc cstep σ1 σ2 →
  conns (cs_server σ1) !! c = None → conns (cs_server σ2) !! c = Some cn →
  ∃ evs payloads resps rest, cs_log σ2 = cs_log σ1 ++ evs ∧
    chistory s env (cs_world σ1) evs (cs_world σ2) ∧
    r_data (c_accepted cn).1 = concat (map frame_bytes payloads) ++ rest ∧
    Forall2 (answers (handled_in evs)) payloads resps ∧
    c_writer cn = written cfg resps (c_accepted cn).2.
Proof.
  intros Hinit Hrun1 Hrun2 Hc1 Hc2. destruct (run_log s env cfg _ _ Hrun2) as (evs & El & Hh).
  pose proof (watching_run σ1 c (cs_log σ2) (run_Inv s0 x0 σ1 Hinit Hrun1) Hc1 σ2 Hrun2 ltac:(done)) as Hw.
  destruct (watched_answers _ _ _ _ _ _ (wa_inv _ _ _ _ Hw) eq_refl Hc2) as (ps & rs & rest & Hd & Hans & Hwr).
  exists evs, ps, rs, rest. split_and!; try done. eapply Forall2_impl; [exact Hans|].
  intros p resp. apply answers_impl. intros req out. eapply (ended_handled x0 σ1 σ2); [..|done].
  - by eapply coherent_run.
  - eapply coherent_run; [done|by etrans].
Qed.

(** Connections stay. *)
Lemma step_conns h sv sv' c : step cfg h sv sv' → conns sv' !! c = None → conns sv !! c = None.
Proof.
  assert (Hins : ∀ c' cn (m : gmap nat conn), <[c' := cn]> m !! c = None → m !! c = None).
  { intros c' cn m. rewrite lookup_insert_None. tauto. }
  intros [sv2 _ Hs|sv2 _ Hs|c' rd wr _ _ _|_|_ _|i j resp _ _]; [| |by apply Hins|done..].
  - by destruct Hs.
  - destruct Hs; first [done|by apply Hins].
Qed.

Lemma run_conns σ σ' c :
  rtc cstep σ σ' → conns (cs_server σ') !! c = None → conns (cs_server σ) !! c = None.
Proof.
  induction 1 as [|σ σ2 σ3 Hstep _ IH]; [done|]. intros Hc%IH. destruct Hstep as [sv sv' x evs Hs| | | |]; try done.
  by eapply step_conns.
Qed.

(** What happens later does not change which requests were handled. *)
Lemma handled_in_later s0 x0 σ pre evs evs' req r :
  NewTCPServer cfg = Ok s0 → rtc cstep (CSystem s0 x0 []) σ → cs_log σ = pre ++ evs ++ evs' →
  handled_in evs req r → handled_in (evs ++ evs') req r.
Proof.
  intros Hinit Hrun El (ch & Hin & Hof). exists ch. split; [apply elem_of_app; by left|].
  destruct (settled_run s0 x0 σ Hinit Hrun) as [Hends _].
  intros p e q req' E He. apply app_eq_inv in E as [(m & -> & Eq)|(m & -> & ->)].
  - destruct m as [|e' m]; cbn in Eq.
    + subst evs'. rewrite app_nil_r in *. apply list_elem_of_split in Hin as (a & b & ->).
      exfalso. eapply (Hends (pre ++ a) ch req r (b ++ e :: q) e req'); [|set_solver|done].
      rewrite El, <- !app_assoc. done.
    + injection Eq as <- ->. by eapply Hof.
  - apply list_elem_of_split in Hin as (a & b & ->). exfalso.
    eapply (Hends (pre ++ a) ch req r (b ++ m ++ e :: q) e req'); [|set_solver|done].
    rewrite El, <- !app_assoc. done.
Qed.

(** ** Requests end *)

Lemma answered_last ch evs l a :
  answered ch evs = l ++ [a] →
  ∃ p1 req c p2, evs = p1 ++ Called ch req c a :: p2 ∧ answered ch p1 = l.
Proof.
  revert l. induction evs as [|e evs IH] using rev_ind; intros l; [by destruct l|].
  rewrite answered_app. unfold answered at 2. cbn.
  destruct (answer_to ch e) as [a'|] eqn:He.
  - intros [<- [= <-]]%app_inj_tail. destruct e as [ch' req c a2| |]; cbn in He; [|done..].
    case_decide; [|done]. injection He as ->. subst ch'. by exists evs, req, c, [].
  - rewrite app_nil_r. intros (p1 & req & c & p2 & -> & Hp)%IH. exists p1, req, c, (p2 ++ [e]).
    by rewrite <- app_assoc.
Qed.

(** In every run a request makes at most eleven calls. *)
Lemma calls_bounded x0 σ ch : coherent s env x0 σ → (length (answered ch (cs_log σ)) ≤ 11)%nat.
Proof.
  intros [Ht _ _].
  destruct (answered ch (cs_log σ)) as [|a l _] eqn:E using rev_ind; [cbn; lia|].
  apply answered_last in E as (p1 & req & c & p2 & El & Hl).
  specialize (Ht _ _ _ El ch req eq_refl). cbn in Ht. rewrite Hl in Ht.
  destruct (decide (11 ≤ length l)%nat) as [Hlen|]; [|rewrite length_app; cbn; lia].
  destruct (next_done s req l Hlen) as [out Hr]. congruence.
Qed.

(** C7: answers are right while requests run at the same time.  Let the workers run
    [Handle] for any number of requests side by side on one world, call by call and
    in any order, with other programs changing the world in between.  Between any
    two moments of a run the world changes only by the calls in the log and by those
    programs; a request makes at most eleven calls, ends at most once and does
    nothing after its end; and what has been written on a connection accepted
    between the two moments is one response to each of its first requests, in
    order: [server_busy], [bad_request] for what is not JSON, or the result of
    running [Handle] on that very request after it was sent, from its first call to
    its last, each call being the one the code makes after the answers that this
    run of the request got so far (a response that cannot be framed or written is
    dropped). *)
Theorem interleaved_answers s0 x0 σ1 σ2 :
  NewTCPServer cfg = Ok s0 → rtc cstep (CSystem s0 x0 []) σ1 → rtc cstep σ1 σ2 →
  ∃ evs, cs_log σ2 = cs_log σ1 ++ evs ∧ chistory s env (cs_world σ1) evs (cs_world σ2) ∧
  ends_once (cs_log σ2) ∧ (∀ ch, length (answered ch (cs_log σ2)) ≤ 11)%nat ∧
  ∀ c cn, conns (cs_server σ1) !! c = None → conns (cs_server σ2) !! c = Some cn →
    ∃ payloads resps rest,
      r_data (c_accepted cn).1 = concat (map frame_bytes payloads) ++ rest ∧
      Forall2 (answers (handled_in evs)) payloads resps ∧
      c_writer cn = written cfg resps (c_accepted cn).2.
Proof.
  intros Hinit Hrun1 Hrun2. destruct (run_log s env cfg _ _ Hrun2) as (evs & El & Hh).
  pose proof (transitivity Hrun1 Hrun2) as Hrun. exists evs. split_and!; [done|done|..].
  - by apply (settled_run s0 x0 σ2 Hinit).
  - intros ch. by eapply calls_bounded, coherent_run.
  - intros c cn Hc1 Hc2.
    destruct (run_answers s0 x0 σ1 σ2 c cn) as (evs' & ps & rs & rest & El' & _ & H); try done.
    rewrite El in El'. apply app_inv_head in El' as <-. eauto.
Qed.
End answers.

(** ** A request that is alone *)

Section alone.
Context {X : Type} `{!Host X, !MySQL X} (s : Service X) (env : X → X → Prop) (cfg : TCPConfig).

(** The calls of a request with nothing in between, and its result. *)
Fixpoint play (fuel : nat) (req : Request) (given : list answer) (x : X) :
    option (list (call * answer) * outcome error json * X) :=
  match next s req given with
  | Done r => Some ([], r, x)
  | Calling c =>
      match fuel with
      | O => None
      | S n => let (a, x1) := perform s c x in
               '(l, r, x2) ← play n req (given ++ [a]) x1; Some ((c, a) :: l, r, x2)
      end
  end.

Definition called (j : tcpJob) (l : list (call * answer)) : list cevent :=
  (λ ca, Called (job_resp j) (job_req j) ca.1 ca.2) <$> l.

Lemma answered_called j l : answered (job_resp j) (called j l) = l.*2.
Proof.
  unfold answered, called. induction l as [|[c a] l IH]; [done|]. cbn. by rewrite decide_True, IH.
Qed.

Lemma answered_other ch j l : ch ≠ job_resp j → answered ch (called j l) = [].
Proof.
  intros Hne. unfold answered, called. induction l as [|[c a] l IH]; [done|]. cbn.
  by rewrite decide_False, IH.
Qed.

(** A worker never waits for another one: whatever the others have done so far, it
    can finish its request by itself. *)
Lemma play_run fuel sv i j x evs l r x' :
  crashed sv = false → workers sv !! i = Some (Handling j) →
  play fuel (job_req j) (answered (job_resp j) evs) x = Some (l, r, x') →
  rtc (cstep s env cfg) (CSystem sv x evs) (CSystem sv x' (evs ++ called j l)) ∧
  next s (job_req j) (answered (job_resp j) (evs ++ called j l)) = Done r.
Proof.
  intros Hc Hi. revert x evs l. induction fuel as [|n IH]; intros x evs l; cbn [play];
    destruct (next s (job_req j) _) as [c|r1] eqn:Hn; try done.
  1, 3: intros [= <- <- <-]; by rewrite app_nil_r.
  destruct (perform s c x) as [a x1] eqn:Hp. intros (l' & H1 & H2)%bind_Some.
  destruct l' as [[l1 r2] x2]. injection H2 as <- <- <-.
  set (e := Called (job_resp j) (job_req j) c a).
  assert (Ha : answered (job_resp j) (evs ++ [e]) = answered (job_resp j) evs ++ [a]).
  { rewrite answered_app. unfold answered at 2. cbn. by rewrite decide_True. }
  rewrite <- Ha in H1. apply IH in H1 as [Hrun Hdone].
  change (called j ((c, a) :: l1)) with (e :: called j l1).
  rewrite <- app_assoc in Hrun, Hdone. split; [|exact Hdone].
  eapply rtc_l; [by eapply c_calls|exact Hrun].
Qed.

(** Eleven calls are enough. *)
Lemma play_total req given x :
  (length given ≤ 11)%nat → ∃ l r x', play (11 - length given) req given x = Some (l, r, x').
Proof.
  remember (11 - length given)%nat as n eqn:En. revert given x En.
  induction n as [|n IH]; intros given x En Hlen; cbn [play].
  - destruct (next_done s req given ltac:(lia)) as [r ->]. eauto.
  - destruct (next s req given) as [c|r]; [|eauto]. destruct (perform s c x) as [a x1].
    destruct (IH (given ++ [a]) x1) as (l & r & x' & ->); [rewrite length_app; cbn; lia..|]. cbn. eauto.
Qed.

(** And they do what [Handle] does. *)
Lemma play_Handle req x r x' :
  store s = mysql_store → Handle s req x = (r, x') → ∃ l, play 11 req [] x = Some (l, r, x').
Proof.
  intros Hstore (l & Hp & Hdone & Hnext)%(undisturbed_is_Handle s Hstore). exists l.
  assert (Hlen : (length l ≤ 11)%nat).
  { destruct (decide (length l ≤ 11)%nat) as [|Hlt]; [done|].
    destruct (lookup_lt_is_Some_2 l 11) as [[c a] Hc]; [lia|].
    destruct (next_done s req (take 11 l).*2) as [r' Hr']; [rewrite length_fmap, length_take; lia|].
    specialize (Hnext _ _ _ Hc). congruence. }
  enough (H : ∀ l2 l1 x1 n, l = l1 ++ l2 → performs s x1 l2 x' → (length l2 ≤ n)%nat →
    play n req l1.*2 x1 = Some (l2, r, x')) by (by apply (H l [] x)).
  intros l2. induction l2 as [|[c a] l2 IH]; intros l1 x1 n E Hperf Hn; inversion Hperf; subst.
  - rewrite app_nil_r in Hdone. destruct n; cbn [play]; by rewrite Hdone.
  - destruct n as [|n]; cbn in Hn; [lia|]. cbn [play].
    assert (Hl : (l1 ++ (c, a) :: l2) !! length l1 = Some (c, a)) by (by apply list_lookup_middle).
    pose proof (Hnext _ _ _ Hl) as Hc. rewrite take_app_length in Hc. rewrite Hc.
    match goal with H : perform s c x1 = _ |- _ => rewrite H end.
    change [a] with ([(c, a)].*2). rewrite <- fmap_app.
    erewrite (IH (l1 ++ [(c, a)])); [done|by rewrite <- app_assoc|done|lia].
Qed.

(** ** One request after the other *)

(** A worker waits, and nothing is queued. *)
Definition idle (sv : server_state) : Prop :=
  crashed sv = false ∧ closed sv = false ∧ jobs sv = [] ∧ workers sv !! 0%nat = Some Selecting.

Definition one_frame (payload : bytes) : reader := Reader (frame_bytes payload) EOF.
Definition served_conn (payload : bytes) (resp : Response) : conn :=
  Conn (one_frame payload, Writer [] None) (Reader [] EOF) (writeResponse cfg resp (Writer [] None)) Reading.

(** The server after a request came in on connection [c], was handled and was
    answered. *)
Definition served_server (c ch : nat) (payload : bytes) (resp : Response) (sv : server_state) : server_state :=
  State (ctx_done sv) (closed sv) (crashed sv) (jobs sv) (workers sv)
    (<[c := served_conn payload resp]> (conns sv)) (<[ch := None]> (resp_chans sv)).

Lemma serves_one sv x evs c ch payload req l r x' resp :
  idle sv → conns sv !! c = None → resp_chans sv !! ch = None → answered ch evs = [] →
  frameable (MaxFrameBytes cfg) payload → parse payload ≫= Request_of = Some req →
  play 11 req [] x = Some (l, r, x') → response_for req r = Some resp →
  rtc (cstep s env cfg) (CSystem sv x evs)
    (CSystem (served_server c ch payload resp sv) x' (evs ++ called (Job req ch) l ++ [Finished ch req r])).
Proof.
  intros (Hc & Hcl & Hq & Hw) Hconn Hch Hans Hframe Hparse Hplay Hresp.
  pose (in_ := one_frame payload). pose (out := Writer [] None).
  pose (sv1 := set_conn c (Conn (in_, out) in_ out Reading) sv).
  pose (cn2 := Conn (in_, out) (Reader [] EOF) out (Queueing req)). pose (sv2 := set_conn c cn2 sv1).
  pose (sv3 := set_conn c (goto cn2 (Waiting ch)) (set_chan ch None
    (set_worker 0 (Handling (Job req ch)) sv2))).
  assert (Hread : ReadFrame (MaxFrameBytes cfg) in_ = (Ok payload, Reader [] EOF)).
  { pose proof (ReadFrame_frame _ _ [] EOF Hframe) as E. by rewrite app_nil_r in E. }
  assert (Hquiet : ∀ sv sv' x evs, rtc (step cfg (λ _ _, False)) sv sv' →
    rtc (cstep s env cfg) (CSystem sv x evs) (CSystem sv' x evs)).
  { clear. intros sv sv' x evs. induction 1; [done|]. eapply rtc_l; [by apply c_server|done]. }
  assert (Hlt : (0 < length (workers sv))%nat) by (by eapply lookup_lt_Some).
  assert (Hw3 : workers sv3 !! 0%nat = Some (Handling (Job req ch))) by (by apply list_lookup_insert_eq).
  destruct (play_run 11 sv3 0 (Job req ch) x evs l r x' Hc Hw3) as [Hl Hdone]; [by cbn; rewrite Hans|].
  pose (sv4 := set_worker 0 (Replying (Job req ch) resp) sv3).
  pose (sv5 := set_worker 0 Selecting (set_chan ch (Some resp) sv4)).
  pose (sv6 := set_conn c (goto cn2 (Writing resp)) (set_chan ch None sv5)).
  etrans; [apply (Hquiet _ sv3)|etrans; [exact Hl|]].
  - eapply rtc_l; [by apply (step_accept _ _ _ c in_ out)|]. fold sv1.
    eapply rtc_l; [apply step_conn; [done|]; eapply (conn_reads _ _ c);
      [apply lookup_insert_eq|done|exact Hread|exact Hparse]|].
    fold sv2. apply rtc_once, step_conn; [done|].
    eapply (conn_hands_over _ _ c); [apply lookup_insert_eq|done..].
  - eapply rtc_l; [by eapply (c_finishes _ _ _ sv3 0)|]. fold sv4. rewrite <- app_assoc. apply Hquiet.
    eapply rtc_l; [apply step_worker; [done|]; apply (worker_replies _ sv4 0 (Job req ch) resp);
      [|apply lookup_insert_eq]|].
    { apply list_lookup_insert_eq. cbn. by rewrite length_insert. }
    fold sv5. eapply rtc_l; [apply step_conn; [done|]; eapply (conn_receives _ sv5 c);
      [apply lookup_insert_eq|done|apply lookup_insert_eq]|].
    apply rtc_once, step_conn; [done|].
    refine (eq_rect _ _ (conn_writes _ sv6 c (goto cn2 (Writing resp)) resp _ _) _ _);
      [apply lookup_insert_eq|done|].
    unfold served_server, set_conn. cbn. f_equal.
    + rewrite !list_insert_insert_eq. by apply list_insert_id.
    + by rewrite !insert_insert_eq.
    + by rewrite !insert_insert_eq.
Qed.

Lemma idle_served c ch payload resp sv : idle sv → idle (served_server c ch payload resp sv).
Proof. done. Qed.
End alone.

(** ** A run in memory *)

(** No other program. *)
Definition no_one (x x' : world) : Prop := False.

Definition demo_token : string := lr_Token demo_login.
Definition profile_request : Request := Build_Request Version "1" OpGetProfile demo_token None.
Definition profile_payload : bytes := Eval vm_compute in encode (Request_json profile_request).

Definition profile_played := Eval vm_compute in play demo_service 11 profile_request [] w1.
Definition profile_result : outcome error json :=
  match profile_played with Some (_, r, _) => r | None => Panic end.
Definition profile_response : Response :=
  Eval vm_compute in default bad_request_response (response_for profile_request profile_result).

Lemma profile_run : ∃ x evs, rtc (cstep demo_service no_one demo_tcp) (CSystem demo_start w1 [])
  (CSystem (served_server demo_tcp 0 0 profile_payload profile_response demo_start) x evs).
Proof.
  eexists _, _. eapply (serves_one demo_service no_one demo_tcp demo_start w1 [] 0 0 profile_payload).
  - done.
  - reflexivity.
  - reflexivity.
  - reflexivity.
  - by vm_compute.
  - vm_compute. reflexivity.
  - vm_compute. reflexivity.
  - vm_compute. reflexivity.
Qed.

Lemma interleaved_answers_witness :
  ∃ evs payloads resps rest,
    frame_bytes profile_payload = concat (map frame_bytes payloads) ++ rest ∧
    Forall2 (answers (handled_in demo_service evs)) payloads resps ∧
    writeResponse demo_tcp profile_response (Writer [] None) = written demo_tcp resps (Writer [] None).
Proof.
  destruct profile_run as (x & log & Hrun).
  destruct (interleaved_answers demo_service no_one demo_tcp demo_start w1 _ _ eq_refl (rtc_refl _ _) Hrun)
    as (evs & _ & _ & _ & _ & Hconn).
  exists evs. exact (Hconn 0%nat (served_conn demo_tcp profile_payload profile_response) eq_refl eq_refl).
Defined.
