(* ===== verification/ConcurrentSafety.v ===== *)
(** * What holds while requests run at the same time

    Theorems on [Concurrent], in every interleaving of the calls of all requests:
    the row of a user changes only by a request of that user, or by another program
    ([updates_authorized]); where sessions are kept, a token that was logged out gets
    a later request nothing ([logout_effective]).  The service also runs without a
    session store ([README.md], [cmd/tcpd/main.go]); then a token is good until it
    expires, logged out or not ([logout_without_sessions]). *)

From S2P Require Import Prelude GoIO GoStrings Json Frame Errors Config Token Protocol Store Service ServiceSpec Memory Pictures TcpServer Calls CallsSpec Concurrent ConcurrentAnswers.
From stdpp Require Import relations.
#[local] Open Scope Z_scope.

Section safety.
Context {X : Type} `{!Host X, !MySQL X} (s : Service X) (env : X → X → Prop) (cfg : TCPConfig).
Context (clock : X → Z) (sess : X → string → option (Z * option Z)).
(** The session store, where there is one, keeps sessions. *)
Context (Hsess : ∀ ss, sessions s = Some ss → SessionLaws ss clock sess).

(** A session that is read is there. *)
Lemma session_read token x uid x' :
  is_Some (sessions s) →
  perform s (CGetSession token) x = (ASession (Ok (uid, true)), x') → ∃ d, sess x token = Some (uid, d).
Proof.
  intros [ss Hss]. pose proof (Hsess ss Hss) as Hlaws.
  unfold perform, via_sessions, performed. rewrite Hss. pose proof (get_law token x) as Hget.
  unfold wp in Hget. destruct (GetSession ss token x) as [r x1]. intros [= -> <-].
  destruct Hget as (_ & _ & Hok). by apply (Hok uid true).
Qed.

(** ** Rows *)

Section rows.
Context (users : X → table) (same_name : string → string → Prop) (found_rows : bool)
  `{!MySQLLaws X users same_name found_rows}.

(** Only statements change the table of users. *)
Class UsersApart : Prop := {
  apart_call c x : (∀ q, c ≠ CQuery q) → (∀ stmt, c ≠ CExec stmt) → users (perform s c x).2 = users x;
}.
Context {users_apart : UsersApart}.

(** A statement leaves the rows of other users alone. *)
Lemma exec_other stmt u uid x :
  row_of stmt = Some u → u ≠ uid → users (perform s (CExec stmt) x).2 !! uid = users x !! uid.
Proof.
  intros Hrow Hne. unfold perform, performed.
  assert (Hupd : ∃ f, updates_row users found_rows f u (exec stmt)).
  { destruct stmt; cbn in Hrow; simplify_eq; eexists; [apply set_nickname_law|apply set_picture_law]. }
  destruct Hupd as [f Hf]. specialize (Hf x). unfold wp in Hf. destruct (exec stmt x) as [r x1]. cbn in *.
  assert (users x1 = users x ∨ users x1 = updated_table f u (users x)) as [-> | ->].
  { destruct r as [res|e|]; destruct Hf as (? & Hok & Herr); [right; by apply (Hok res)|by apply (Herr e)|done]. }
  - done.
  - by apply updated_table_ne.
Qed.

(** A call that changes the row of [uid] is an [UPDATE] of it. *)
Lemma call_changes c uid x :
  (∀ stmt, c = CExec stmt → is_Some (row_of stmt)) →
  users (perform s c x).2 !! uid ≠ users x !! uid → ∃ stmt, c = CExec stmt ∧ row_of stmt = Some uid.
Proof.
  intros Hrow Hne.
  assert ((∃ stmt, c = CExec stmt) ∨ (∃ q, c = CQuery q) ∨
    (∀ q, c ≠ CQuery q) ∧ (∀ stmt, c ≠ CExec stmt)) as [[stmt ->]|[[q ->]|[Hq Hc]]]
    by (destruct c; naive_solver).
  - destruct (Hrow stmt eq_refl) as [u Hu]. exists stmt. split; [done|].
    destruct (decide (u = uid)) as [->|]; [done|]. destruct Hne. by eapply exec_other.
  - destruct Hne. unfold perform, performed. pose proof (query_row_law (users := users) q x) as Hl.
    unfold wp in Hl. destruct (query_row q x) as [r xq]. cbn in *. by destruct Hl as (_ & -> & _).
  - destruct Hne. by rewrite apart_call.
Qed.

(** An event in [evs], starting from [x], changes the row: a step of another program
    or an [UPDATE]. *)
Definition changed_in (uid : Z) (x : X) (evs : list cevent) : Prop :=
  ∃ pre e post xa xb, evs = pre ++ e :: post ∧
    chistory s env x pre xa ∧ chistory s env xa [e] xb ∧ users xb !! uid ≠ users xa !! uid ∧
    (e = Elsewhere ∨ ∃ ch req stmt a, e = Called ch req (CExec stmt) a ∧ row_of stmt = Some uid).

Lemma changed_later uid x e x1 evs :
  chistory s env x [e] x1 → changed_in uid x1 evs → changed_in uid x (e :: evs).
Proof.
  intros H1 (pre & e' & post & xa & xb & -> & H2 & H3). exists (e :: pre), e', post, xa, xb.
  split; [done|]. split; [|done]. change (e :: pre) with ([e] ++ pre). apply chistory_app. eauto.
Qed.

Lemma row_changes uid x evs x' :
  chistory s env x evs x' →
  (∀ ch req stmt a, Called ch req (CExec stmt) a ∈ evs → is_Some (row_of stmt)) →
  users x' !! uid ≠ users x !! uid → changed_in uid x evs.
Proof.
  induction 1 as [x|x ch req c a x1 evs x2 Hp _ IH|x ch req r evs x2 _ IH|x x1 evs x2 He _ IH];
    intros Hrows Hne; [done|..].
  - assert (H1 : chistory s env x [Called ch req c a] x1) by (econstructor; [done|constructor]).
    destruct (decide (users x1 !! uid = users x !! uid)) as [Heq|Hdiff].
    + eapply changed_later; [exact H1|]. apply IH; [|congruence]. intros. eapply Hrows. by right.
    + exists [], (Called ch req c a), evs, x, x1. split_and!; [done|constructor|done|done|right].
      replace x1 with (perform s c x).2 in Hdiff by (by rewrite Hp).
      apply call_changes in Hdiff as (stmt & -> & Hrow); [by eauto 10|].
      intros stmt ->. eapply Hrows. by left.
  - eapply changed_later; [constructor; constructor|]. apply IH; [|done]. intros. eapply Hrows. by right.
  - assert (H1 : chistory s env x [Elsewhere] x1) by (econstructor; [done|constructor]).
    destruct (decide (users x1 !! uid = users x !! uid)) as [Heq|Hdiff].
    + eapply changed_later; [exact H1|]. apply IH; [|congruence]. intros. eapply Hrows. by right.
    + exists [], Elsewhere, evs, x, x1. split_and!; [done|constructor|done|done|by left].
Qed.

(** The request on [ch] runs as [uid] with good reason: its token was verified for
    [uid] at a time it read from the clock and, where sessions are kept, it found a
    session of [uid] for the token in the store, which was there. *)
Definition authorized (x0 : X) (evs : list cevent) (ch : nat) (req : Request) (uid : Z) : Prop :=
  ∃ p1 now p2, evs = p1 ++ Called ch req CNow (ATime now) :: p2 ∧
    Verify (tokens s) (req_Token req) now = Ok uid ∧
    (is_Some (sessions s) → ∃ q1 q2 x d,
       p2 = q1 ++ Called ch req (CGetSession (req_Token req)) (ASession (Ok (uid, true))) :: q2 ∧
       chistory s env x0 (p1 ++ Called ch req CNow (ATime now) :: q1) x ∧
       sess x (req_Token req) = Some (uid, d)).

Lemma authenticated_authorized x0 evs x ch req uid :
  chistory s env x0 evs x → authenticated s evs ch req uid → authorized x0 evs ch req uid.
Proof.
  intros Hh (p1 & now & p2 & -> & Hv & Hses). exists p1, now, p2. split; [done|]. split; [done|].
  intros Hss. destruct (Hses Hss) as (q1 & q2 & ->). rewrite app_comm_cons, app_assoc in Hh.
  apply chistory_app in Hh as (x1 & Hx1 & Hget). inversion Hget as [|? ? ? ? ? ? ? ? Hp| |]; subst.
  destruct (session_read _ _ _ _ Hss Hp) as [d Hd]. by exists q1, q2, x1, d.
Qed.

(** C8: a user's row changes only by the user's own requests, or not by this server
    at all, in every interleaving.  Let any number of requests run on the workers
    of the server, with other requests and other programs (the seeder, other
    replicas) at work between any two of their calls.  If the row of a user is not the same at
    two moments of a run, then there is an event between them at which it changed,
    and this is a step of another program, or an [UPDATE] of this very row by a
    request which before that had read the clock and had verified its token for this
    very user at that time and, when the server runs with a session store, had found
    a session of this user for the token in the store, which was there at that
    moment. (Without a session store, the reduced mode, the token alone decides.) *)
Theorem updates_authorized s0 x0 σ1 σ2 uid :
  NewTCPServer cfg = Ok s0 →
  rtc (cstep s env cfg) (CSystem s0 x0 []) σ1 → rtc (cstep s env cfg) σ1 σ2 →
  users (cs_world σ2) !! uid ≠ users (cs_world σ1) !! uid →
  ∃ between e post xa xb, cs_log σ2 = cs_log σ1 ++ between ++ e :: post ∧
    chistory s env (cs_world σ1) between xa ∧ chistory s env xa [e] xb ∧
    users xb !! uid ≠ users xa !! uid ∧
    (e = Elsewhere ∨
     ∃ ch req stmt a, e = Called ch req (CExec stmt) a ∧ row_of stmt = Some uid ∧
       authorized x0 (cs_log σ1 ++ between) ch req uid).
Proof.
  intros Hinit Hrun1 Hrun2 Hchanged.
  pose proof (coherent_run s env cfg s0 x0 σ1 Hinit Hrun1) as Hco1.
  pose proof (coherent_run s env cfg s0 x0 σ2 Hinit ltac:(by etrans)) as Hco.
  destruct (run_log s env cfg _ _ Hrun2) as (evs & El & Hh).
  destruct (row_changes uid _ _ _ Hh) as (between & e & post & xa & xb & -> & Ha & Hb & Hne & He); [|done|].
  { intros ch req stmt a (l1 & l2 & ->)%list_elem_of_split. rewrite app_assoc in El.
    destruct (exec_authenticated s env x0 σ2 _ _ _ _ _ _ Hco El) as (u & Hu & _). eauto. }
  exists between, e, post, xa, xb. split_and!; [done..|].
  destruct He as [->|(ch & req & stmt & a & -> & Hrow)]; [by left|right].
  exists ch, req, stmt, a. split; [done|]. split; [done|]. rewrite app_assoc in El.
  destruct (exec_authenticated s env x0 σ2 _ _ _ _ _ _ Hco El) as (u & Hu & _ & Hau).
  assert (u = uid) as -> by congruence. eapply authenticated_authorized; [|exact Hau].
  apply chistory_app. exists (cs_world σ1). split; [apply Hco1|exact Ha].
Qed.
End rows.

(** Only a login saves a session. *)
Lemma save_is_login x0 σ ch req t u d a :
  coherent s env x0 σ → Called ch req (CSaveSession t u d) a ∈ cs_log σ → req_Op req = OpLogin.
Proof.
  intros Hco (pre & post & El)%list_elem_of_split.
  pose proof (co_traced _ _ _ _ Hco _ _ _ El ch req eq_refl) as Hn. cbn in Hn.
  destruct (protected_op_dec req) as [Hop|Hop].
  - pose proof (next_protected s req (answered ch pre) Hop) as Hp. rewrite Hn in Hp.
    by destruct Hp as [[? _]|[[? _]|(uid & _ & ?)]].
  - by destruct (next_public s _ _ _ Hop Hn) as [[? _]|[_ ?]].
Qed.

(** ** Logging out *)

Section logout.
(** Sessions are kept under a key computed from the token. *)
Context {K : Type} (slot : string → K).

(** Only [SaveSession] makes a session, and only under its own key. *)
Class SessionsApart : Prop := {
  keep_none c x token :
    (∀ t u d, c ≠ CSaveSession t u d) → sess x token = None → sess (perform s c x).2 token = None;
  save_elsewhere t u d x token :
    slot t ≠ slot token → sess x token = None → sess (perform s (CSaveSession t u d) x).2 token = None;
  env_none x x' token : env x x' → sess x token = None → sess x' token = None;
}.
Context {sessions_apart : SessionsApart}.

Definition saves_elsewhere (token : string) (evs : list cevent) : Prop :=
  ∀ ch req t u d a, Called ch req (CSaveSession t u d) a ∈ evs → slot t ≠ slot token.

Lemma stays_out token x evs x' :
  chistory s env x evs x' → saves_elsewhere token evs → sess x token = None → sess x' token = None.
Proof.
  induction 1 as [x|x ch req c a x1 evs x2 Hp _ IH|x ch req r evs x2 _ IH|x x1 evs x2 He _ IH];
    intros Hsave Hnone; [done|apply IH..].
  - intros ch' req' t u d a' Hin. eapply Hsave. by right.
  - replace x1 with (perform s c x).2 by (by rewrite Hp).
    assert ((∃ t u d, c = CSaveSession t u d) ∨ ∀ t u d, c ≠ CSaveSession t u d)
      as [(t & u & d & ->)|Hc] by (destruct c; naive_solver).
    + apply save_elsewhere; [|done]. eapply (Hsave ch req t u d a). by left.
    + by apply keep_none.
  - intros ch' req' t u d a' Hin. eapply Hsave. by right.
  - done.
  - intros ch' req' t u d a' Hin. eapply Hsave. by right.
  - by eapply env_none.
Qed.

(** A logout that has finished has deleted its session. *)
Lemma logout_deleted x0 σ ch req v :
  coherent s env x0 σ → Finished ch req (Ok v) ∈ cs_log σ →
  req_Op req = OpLogout → TrimSpace (req_Token req) ≠ "" → is_Some (sessions s) →
  ∃ pre post, cs_log σ = pre ++ Called ch req (CDeleteSession (req_Token req)) (ADone (Ok tt)) :: post.
Proof.
  intros Hco Hin Hop Hblank Hss. pose proof Hin as (l1 & l2 & El)%list_elem_of_split.
  pose proof (co_traced _ _ _ _ Hco _ _ _ El ch req eq_refl) as Hdone. cbn in Hdone.
  apply next_logout in Hdone as [rest Hans]; [|done..].
  destruct (answered_first _ _ _ _ Hans) as (p1 & req1 & c1 & p2 & -> & Hp1 & _).
  rewrite <- app_assoc in El. cbn in El.
  assert (req1 = req) as ->.
  { eapply (owned_one _ _ (co_owned _ _ _ _ Hco) _ (Called ch req1 c1 (ADone (Ok tt))) ch); [done| |done..].
    rewrite El. set_solver. }
  pose proof (co_traced _ _ _ _ Hco _ _ _ El ch req eq_refl) as Hcall. cbn in Hcall.
  apply next_public in Hcall as [[E _]|[_ ->]].
  - rewrite Hop in E. discriminate E.
  - by exists p1, (p2 ++ Finished ch req (Ok v) :: l2).
  - rewrite Hop. unfold protected_ops. set_solver.
Qed.

Lemma app_split_new {A} (l1 l2 a b : list A) e :
  l1 ++ l2 = a ++ e :: b → e ∉ l1 → ∃ a', a = l1 ++ a'.
Proof.
  revert a. induction l1 as [|y l1 IH]; intros a E Hnew; [by exists a|].
  destruct a as [|z a]; cbn in E; injection E as -> E.
  - destruct Hnew. left.
  - destruct (IH a E) as [a' ->]; [set_solver|]. by exists a'.
Qed.

Section later.
Context (s0 : server_state) (x0 : X) (σ1 σ2 : csystem X) (chL : nat) (reqL : Request) (v : json).
Context (Hinit : NewTCPServer cfg = Ok s0).
Context (Hrun1 : rtc (cstep s env cfg) (CSystem s0 x0 []) σ1) (Hrun2 : rtc (cstep s env cfg) σ1 σ2).
Context (ss : SessionStore X) (Hss : sessions s = Some ss).
Context (Hop : req_Op reqL = OpLogout) (Hblank : TrimSpace (req_Token reqL) ≠ "").
Context (Hout : Finished chL reqL (Ok v) ∈ cs_log σ1).
Context (Hsaves : ∀ pre a post,
  cs_log σ2 = pre ++ Called chL reqL (CDeleteSession (req_Token reqL)) a :: post →
  saves_elsewhere (req_Token reqL) post).

(** A request that arrived after that does not get through. *)
Lemma never_admitted pre e post ch req uid :
  resp_chans (cs_server σ1) !! ch = None → req_Op req ∈ protected_ops → req_Token req = req_Token reqL →
  cs_log σ2 = pre ++ e :: post → event_of e = Some (ch, req) →
  ¬ admitted s (req_Token req) uid (answered ch pre).
Proof.
  intros Hfresh Hprot Htok El2 He Hadm.
  pose proof (coherent_run s env cfg s0 x0 σ1 Hinit Hrun1) as Hco1.
  pose proof (coherent_run s env cfg s0 x0 σ2 Hinit ltac:(by etrans)) as Hco2.
  destruct (run_log s env cfg _ _ Hrun2) as (evs & El & _).
  destruct (admitted_in_log s env x0 σ2 _ _ _ _ _ _ Hco2 El2 He Hprot Hadm)
    as (p1 & now & p23 & -> & _ & Hses). destruct (Hses ltac:(by exists ss)) as (p2 & p3 & ->).
  destruct (logout_deleted x0 σ1 chL reqL v Hco1 Hout Hop Hblank ltac:(by exists ss)) as (m1 & m2 & Em).
  rewrite Htok in *.
  set (get := Called ch req (CGetSession (req_Token reqL)) (ASession (Ok (uid, true)))) in *.
  set (a := p1 ++ Called ch req CNow (ATime now) :: p2) in *.
  assert (Ea : cs_log σ2 = a ++ get :: (p3 ++ e :: post)).
  { rewrite El2. subst a. rewrite <- !app_assoc. cbn. by rewrite <- app_assoc. }
  assert (Hnew : get ∉ cs_log σ1).
  { intros Hin. destruct (owned_known _ _ (co_owned _ _ _ _ Hco1) get ch req Hin eq_refl) as [? ?].
    congruence. }
  destruct (app_split_new (cs_log σ1) evs a (p3 ++ e :: post) get) as [a' Ea']; [by rewrite <- El|done|].
  clearbody a. subst a. rewrite Em in Ea. rewrite <- !app_assoc in Ea. cbn in Ea.
  pose proof (Hsaves _ _ _ Ea) as Helse.
  pose proof (co_history _ _ _ _ Hco2) as Hh. rewrite Ea in Hh.
  apply chistory_app in Hh as (xa & _ & Hh). inversion Hh as [|? ? ? ? ? xb ? ? Hdel Hrest| |]; subst.
  rewrite app_assoc in Hrest. apply chistory_app in Hrest as (xm & Hmid & Hget).
  inversion Hget as [|? ? ? ? ? ? ? ? Hp| |]; subst. destruct (session_read _ _ _ _ ltac:(by exists ss) Hp) as [d Hd].
  assert (Hgone : sess xb (req_Token reqL) = None).
  { unfold perform, via_sessions, performed in Hdel. rewrite Hss in Hdel.
    pose proof (Hsess ss Hss) as Hlaws. pose proof (delete_law (req_Token reqL) xa) as Hlaw. unfold wp in Hlaw.
    destruct (DeleteSession ss _ xa) as [r xd]. injection Hdel as -> ->. by apply Hlaw. }
  assert (sess xm (req_Token reqL) = None); [|congruence].
  eapply stays_out; [exact Hmid| |done]. intros ch' req' t u d' a'' Hin. eapply Helse.
  rewrite app_assoc. apply elem_of_app. left. exact Hin.
Qed.

(** Nothing it does goes beyond looking for the session. *)
Lemma logged_out_fails ch req :
  resp_chans (cs_server σ1) !! ch = None → req_Op req ∈ protected_ops → req_Token req = req_Token reqL →
  (∀ r, Finished ch req r ∈ cs_log σ2 → is_ok r = false) ∧
  (∀ c a, Called ch req c a ∈ cs_log σ2 → c = CNow ∨ c = CGetSession (req_Token req)).
Proof.
  intros Hfresh Hprot Htok.
  pose proof (coherent_run s env cfg s0 x0 σ2 Hinit ltac:(by etrans)) as Hco.
  assert (Hall : ∀ e, e ∈ cs_log σ2 → event_of e = Some (ch, req) →
    ∃ given, event_ok s given e ∧ ∀ uid, ¬ admitted s (req_Token req) uid given).
  { intros e (pre & post & El)%list_elem_of_split He. exists (answered ch pre). split.
    - by apply (co_traced _ _ _ _ Hco _ _ _ El ch req).
    - intros uid. by eapply never_admitted. }
  split.
  - intros r Hin. destruct (Hall _ Hin eq_refl) as (given & Hn & Hno). cbn in Hn.
    pose proof (next_protected s req given Hprot) as H. rewrite Hn in H.
    destruct r; [|done..]. destruct H as [uid Hadm]. by destruct (Hno uid).
  - intros c a Hin. destruct (Hall _ Hin eq_refl) as (given & Hn & Hno). cbn in Hn.
    pose proof (next_protected s req given Hprot) as H. rewrite Hn in H.
    destruct H as [[? _]|[[? _]|(uid & Hadm & _)]]; [by left|by right|by destruct (Hno uid)].
Qed.
End later.

End logout.
End safety.

(** ** A run in memory *)

#[global] Instance memory_users_apart : UsersApart demo_service memory_users.
Proof.
  split. intros c x Hq He.
  destruct c; first [by destruct (Hq _ eq_refl)|by destruct (He _ eq_refl)|reflexivity|idtac].
  unfold perform, via_sessions, performed. cbn. by destruct (ttl <=? 0).
Qed.

Lemma demo_sessions ss : sessions demo_service = Some ss → SessionLaws ss w_clock memory_sess.
Proof. intros [= <-]. apply _. Qed.

#[global] Instance memory_sessions_apart : SessionsApart demo_service no_one memory_sess (λ t, t).
Proof.
  split; [..|by intros x x' token []].
  - intros c x token Hc Hnone.
    destruct c; first [by destruct (Hc _ _ _ eq_refl)|exact Hnone|unfold memory_sess in *].
    + destruct stmt; exact Hnone.
    + cbn. destruct (decide (token0 = token)) as [->|]; [by rewrite lookup_delete_eq|].
      by rewrite lookup_delete_ne.
  - intros t u d x token Hne Hnone. unfold perform, via_sessions, performed. cbn.
    destruct (d <=? 0); [done|]. cbn. unfold memory_sess in *. cbn. by rewrite lookup_insert_ne.
Qed.

Definition nickname_request : Request :=
  Build_Request Version "1" OpUpdateNickname demo_token (Some (UpdateNicknameBody_json "Ada")).
Definition logout_request : Request := Build_Request Version "2" OpLogout demo_token (Some (JObj [])).
Definition late_request : Request := Build_Request Version "3" OpGetProfile demo_token None.

(** A request served alone, with the calls it makes. *)
Lemma demo_serves sv x evs c ch req r x' :
  idle sv → conns sv !! c = None → resp_chans sv !! ch = None → answered ch evs = [] →
  frameable 1024 (encode (Request_json req)) → parse (encode (Request_json req)) ≫= Request_of = Some req →
  Handle demo_service req x = (r, x') → is_Some (response_for req r) →
  ∃ l resp, rtc (cstep demo_service no_one demo_tcp) (CSystem sv x evs)
    (CSystem (served_server demo_tcp c ch (encode (Request_json req)) resp sv) x'
       (evs ++ called (Job req ch) l ++ [Finished ch req r])).
Proof.
  intros Hidle Hc Hch Hans Hf Hp Hrun [resp Hresp].
  destruct (play_Handle demo_service req x r x' eq_refl Hrun) as [l Hl].
  exists l, resp. by eapply serves_one.
Qed.

(** The user of the session changes the nickname. *)
Definition renamed : world := (Handle demo_service nickname_request w1).2.

Lemma nickname_run : ∃ sv log, rtc (cstep demo_service no_one demo_tcp)
  (CSystem demo_start w1 []) (CSystem sv renamed log).
Proof.
  destruct (demo_serves demo_start w1 [] 0 0 nickname_request (Handle demo_service nickname_request w1).1 renamed)
    as (l & resp & Hrun); [done|reflexivity..|by vm_compute|vm_compute; reflexivity
    |apply surjective_pairing|vm_compute; eauto|]. eauto.
Qed.

Lemma updates_authorized_witness :
  memory_users renamed !! 7 ≠ memory_users w1 !! 7 ∧
  ∃ ch req evs, authorized demo_service no_one memory_sess w1 evs ch req 7.
Proof.
  assert (Hne : memory_users renamed !! 7 ≠ memory_users w1 !! 7) by (vm_compute; discriminate).
  split; [exact Hne|]. destruct nickname_run as (sv & log & Hrun).
  destruct (updates_authorized demo_service no_one demo_tcp w_clock memory_sess demo_sessions
    memory_users eq false demo_start w1 _ _ 7 eq_refl (rtc_refl _ _) Hrun Hne)
    as (between & e & post & xa & xb & _ & _ & Hb & _ & [->|(ch & req & stmt & a & _ & _ & Hau)]).
  - exfalso. inversion Hb as [| | |? x1 ? ? Hno]; subst. destruct Hno.
  - exists ch, req, ([] ++ between). exact Hau.
Defined.

(** The user logs out, and then the token is used again. *)
Definition logged_out : world := (Handle demo_service logout_request w1).2.

Lemma logout_run : ∃ sv l1 sv' l2 r w',
  rtc (cstep demo_service no_one demo_tcp) (CSystem demo_start w1 [])
    (CSystem sv logged_out (called (Job logout_request 0) l1 ++ [Finished 0 logout_request (Ok (JObj []))])) ∧
  resp_chans sv !! 1%nat = None ∧
  rtc (cstep demo_service no_one demo_tcp)
    (CSystem sv logged_out (called (Job logout_request 0) l1 ++ [Finished 0 logout_request (Ok (JObj []))]))
    (CSystem sv' w' ((called (Job logout_request 0) l1 ++ [Finished 0 logout_request (Ok (JObj []))]) ++
       called (Job late_request 1) l2 ++ [Finished 1 late_request r])).
Proof.
  destruct (demo_serves demo_start w1 [] 0 0 logout_request (Ok (JObj [])) logged_out)
    as (l1 & resp1 & Hrun1);
    [done|reflexivity..|by vm_compute|vm_compute; reflexivity|vm_compute; reflexivity|vm_compute; eauto|].
  destruct (demo_serves (served_server demo_tcp 0 0 (encode (Request_json logout_request)) resp1 demo_start)
    logged_out (called (Job logout_request 0) l1 ++ [Finished 0 logout_request (Ok (JObj []))]) 1 1 late_request
    (Handle demo_service late_request logged_out).1 (Handle demo_service late_request logged_out).2)
    as (l2 & resp2 & Hrun2);
    [done|reflexivity|reflexivity| |by vm_compute|vm_compute; reflexivity|apply surjective_pairing|vm_compute; eauto|].
  { rewrite answered_app, answered_other by discriminate. reflexivity. }
  eexists _, l1, _, l2, _, _. split; [exact Hrun1|]. split; [reflexivity|exact Hrun2].
Qed.


(** Without a session store a logged out token still works. *)
Definition sessionless : Service world :=
  {| store := store demo_service; sessions := None; pictureCache := pictureCache demo_service;
     tokens := tokens demo_service; uploadDir := uploadDir demo_service;
     allowedMIMEs := allowedMIMEs demo_service; maxUploadBytes := maxUploadBytes demo_service;
     profilePictureBaseURL := profilePictureBaseURL demo_service;
     passwordIterations := passwordIterations demo_service;
     maxNicknameBytes := maxNicknameBytes demo_service |}.

Example logout_without_sessions :
  let (r, w) := Handle sessionless logout_request w1 in
  r = Ok (JObj []) ∧ is_ok (Handle sessionless late_request w).1 = true.
Proof. vm_compute. split; reflexivity. Qed.
