(* ===== verification/Startup.v ===== *)
(** * Starting the backend ([src/internal/service/service.go] [New],
    [src/cmd/tcpd/main.go])

    The backend loads its configuration, opens the database, uses Redis for
    sessions and pictures if it answers, builds the service and the server. *)

From S2P Require Import Prelude GoStrings GoPath Errors Config Token Store Service Redis TcpServer.
From Stdlib Require Import Strings.Byte.

(** A nil interface is [None]. *)
Record Options (W : Type) := {
  opt_Sessions : option (SessionStore W);
  opt_PictureCache : option (PictureCache W);
}.
Arguments opt_Sessions {W}. Arguments opt_PictureCache {W}.

Definition no_options {W : Type} : Options W := {| opt_Sessions := None; opt_PictureCache := None |}.

Section startup.
Context {W : Type}.

(** [service.New] uses the first of its options, if there is one; [wd] is what
    [os.Getwd] gave. *)
Definition New (st : UserStore W) (cfg : Config) (options : list (Options W))
    (wd : outcome error string) : outcome error (Service W) :=
  let opts := default no_options (head options) in
  tm ← NewTokenManager (TokenSecret (Security cfg)) (SessionTTL (Security cfg));
  dir ← ProfilePictureDirAbs cfg wd;
  Ok {| store := st; sessions := opt_Sessions opts; pictureCache := opt_PictureCache opts; tokens := tm; uploadDir := dir;
        allowedMIMEs := list_to_set (AllowedMIMETypes (Upload cfg));
        maxUploadBytes := MaxBytes (Upload cfg);
        profilePictureBaseURL := TrimRightByte x2f (Config.ProfilePictureBaseURL (HTTP cfg));
        passwordIterations := PasswordIterations (Security cfg);
        maxNicknameBytes := 191 * 4 |}.

Lemma New_Ok st cfg options wd tm :
  NewTokenManager (TokenSecret (Security cfg)) (SessionTTL (Security cfg)) = Ok tm →
  IsAbs (ProfilePictureDir (Upload cfg)) = true →
  ∃ svc, New st cfg options wd = Ok svc ∧ tokens svc = tm ∧
    uploadDir svc = ProfilePictureDir (Upload cfg) ∧ maxUploadBytes svc = MaxBytes (Upload cfg).
Proof.
  intros Htm Habs. unfold New, ProfilePictureDirAbs. rewrite Htm, Habs. eexists. split; [reflexivity|].
  split; [reflexivity|]. split; reflexivity.
Qed.

Context `{!MySQL W, !SqlDB W, !RedisNet W}.

(** Redis, unless it has no address or does not answer a ping. *)
Definition redis_options (cfg : RedisConfig) :
    eff W error (Options W) := λ w,
  if decide (redis_Addr cfg = "") then (Ok no_options, w)
  else
    match Ping cfg w with
    | (Ok _, w') =>
        (Ok {| opt_Sessions := Some (redis_sessions cfg);
               opt_PictureCache := Some (redis_pictures cfg) |}, w')
    | (Err _, w') => (Ok no_options, w')
    | (Panic, w') => (Panic, w')
    end.

(** [main] of [tcpd] up to serving; an error is a failed start. *)
Definition tcpd_main (file : option (outcome error bytes)) (env : environ) (wd : outcome error string) :
    eff W error (Service W * server_state) :=
  cfg ← lift (Load file env);
  _ ← Open (DSN (Database cfg)) (MaxOpenConns (Database cfg)) (MaxIdleConns (Database cfg))
        (ConnMaxLifetime (Database cfg));
  _ ← db_Ping;
  options ← redis_options (Config.Redis cfg);
  svc ← lift (New mysql_store cfg [options] wd);
  server ← lift (NewTCPServer (TCP cfg));
  mret (svc, server).
End startup.
