(* ===== verification/Deployment.v ===== *)
(** * The operator's pods run a valid configuration

    The ConfigMap the operator renders becomes the environment of the container
    it starts.  These theorems connect the two programs: with that environment
    the service loads its configuration, reaches the endpoints of the custom
    resource, and accepts the token secret. *)

From S2P Require Import Prelude GoStrings GoEncoding GoCrypto Json Kube Operator OperatorHash GoDuration Errors Config Token Store Service TcpServer Startup Cluster Demo.
From Stdlib Require Import Strings.Byte.

Section deployment.
Context {R : Type} (e : DbcpEntryService R).
Abbreviation spec := (spec_Config (e_spec e)).
Abbreviation env := (desiredConfigData e).

Lemma env_at i k v :
  config_entries spec (stableTokenSecret e) !! i = Some (k, v) → Getenv env k = v.
Proof. intros Hi. unfold Getenv, desiredConfigData. by rewrite (config_lookup _ _ i k v). Qed.

Lemma setString_at i k v dst :
  config_entries spec (stableTokenSecret e) !! i = Some (k, v) → v ≠ "" →
  setString env dst k = v.
Proof. intros Hi Hv. unfold setString. rewrite (env_at i k v Hi). by rewrite decide_False. Qed.

Lemma set_parsed_at parse i k v n dst :
  config_entries spec (stableTokenSecret e) !! i = Some (k, v) → v ≠ "" → parse v = Some n →
  set_parsed env parse dst k = n.
Proof.
  intros Hi Hv Hp. unfold set_parsed. rewrite (env_at i k v Hi). rewrite decide_False by done.
  by rewrite Hp.
Qed.

Lemma secret_nonempty : stableTokenSecret e ≠ "".
Proof.
  intros E. apply (f_equal (λ s, length (bytes_of s))) in E.
  unfold stableTokenSecret, stable_token_secret, hex_of in E.
  rewrite bytes_of_string_of, length_hex_encode, length_Sum256 in E. done.
Qed.

Lemma secret_accepted ttl :
  ∃ tm, NewTokenManager (stableTokenSecret e) ttl = Ok tm ∧
    length (secret tm) = 32%nat ∧ Token.ttl tm = ttl.
Proof.
  unfold NewTokenManager. rewrite decide_False by apply secret_nonempty.
  unfold stableTokenSecret, stable_token_secret, hex_of.
  rewrite bytes_of_string_of, hex_decode_encode, length_Sum256. cbn [Z.of_nat].
  eexists. split; [reflexivity|]. cbn [secret Token.ttl]. by rewrite length_Sum256.
Qed.

(** C29: the operator's pods start. For a resource with a database endpoint,
    whatever valid file the image contains, [Load] succeeds under the
    environment the operator renders; the service uses the database and Redis
    endpoints of the resource, the gateway dials the address the TCP backend
    listens on, and the rest of the start-up of [tcpd] cannot fail on the
    configuration: [New] accepts the derived token secret as a 32-byte key with
    sessions of a day, stores pictures of up to 2 MiB under the mounted
    directory, and the server has its 64 workers and 8 MiB frames. *)
Theorem operator_config_starts {W : Type} file c0 :
  Kube.TargetDB spec ≠ "" → file_config file = Ok c0 →
  ∃ c, Load file env = Ok c ∧
    DSN (Database c) = Kube.TargetDB spec ∧
    (Kube.TargetRedis spec ≠ "" → redis_Addr (Redis c) = Kube.TargetRedis spec) ∧
    TCPAddr (HTTP c) = tcp_Addr (TCP c) ∧ MaxFrameBytes (TCP c) = 8388608 ∧
    ∀ (st : UserStore W) options wd, ∃ svc server,
      New st c options wd = Ok svc ∧ NewTCPServer (TCP c) = Ok server ∧
      length (secret (tokens svc)) = 32%nat ∧ Token.ttl (tokens svc) = 86400 * Second ∧
      uploadDir svc = "/app/runtime/profile-pictures" ∧ maxUploadBytes svc = 2097152 ∧
      length (workers server) = 64%nat.
Proof.
  intros Hdb Hfile. set (c := applyEnv env (applyDBCP c0)).
  assert (Htcp : tcp_Addr (TCP c) = "127.0.0.1:9000") by (by apply (setString_at 3)).
  assert (Hhttp : http_Addr (HTTP c) = "127.0.0.1:8081") by (by apply (setString_at 4)).
  assert (Hback : TCPAddr (HTTP c) = "127.0.0.1:9000") by (by apply (setString_at 5)).
  assert (Hdir : ProfilePictureDir (Upload c) = "/app/runtime/profile-pictures") by (by apply (setString_at 6)).
  assert (Hsecret : TokenSecret (Security c) = stableTokenSecret e)
    by (apply (setString_at 9); [done|apply secret_nonempty]).
  assert (Hwork : WorkerCount (TCP c) = 64) by (eapply (set_parsed_at _ 12); [reflexivity|done|vm_compute; reflexivity]).
  assert (Hqueue : QueueSize (TCP c) = 2048) by (eapply (set_parsed_at _ 13); [reflexivity|done|vm_compute; reflexivity]).
  assert (Hframe : MaxFrameBytes (TCP c) = 8388608) by (eapply (set_parsed_at _ 14); [reflexivity|done|vm_compute; reflexivity]).
  assert (Hup : MaxBytes (Upload c) = 2097152) by (eapply (set_parsed_at _ 16); [reflexivity|done|vm_compute; reflexivity]).
  assert (Httl : SessionTTL (Security c) = 86400 * Second) by (eapply (set_parsed_at _ 17); [reflexivity|done|vm_compute; reflexivity]).
  assert (Hdsn : DSN (Database c) = Kube.TargetDB spec).
  { unfold c, applyEnv. cbn [applyDBCP env_fields DBCP Database DSN TargetDB].
    rewrite (setString_at 0 _ (Kube.TargetDB spec)) by done. by rewrite decide_False. }
  exists c. split; [|split; [done|split; [|split; [congruence|split; [done|]]]]].
  - apply Load_Ok. exists c0. split; [done|]. split; [done|]. apply Validate_Ok.
    clearbody c. rewrite missing_nil, Htcp, Hhttp, Hback, Hdsn, Hsecret, Hframe, Hup.
    pose proof secret_nonempty. split_and!; done.
  - intros Hredis. unfold c, applyEnv. cbn [applyDBCP env_fields DBCP Redis redis_Addr TargetRedis].
    rewrite (setString_at 1 _ (Kube.TargetRedis spec)) by done. by rewrite decide_False.
  - intros st options wd.
    destruct (secret_accepted (86400 * Second)) as (tm & Htm & Hlen & Ht).
    rewrite <- Hsecret, <- Httl in Htm.
    destruct (New_Ok st c options wd tm Htm) as (svc & Hnew & Htok & Hd & Hm); [rewrite Hdir; reflexivity|].
    destruct (NewTCPServer_workers (TCP c)) as (server & Hserver & Hlw); [lia|lia|].
    exists svc, server. rewrite Htok, Hd, Hm, Hdir, Hup. rewrite Hwork in Hlw.
    split; [exact Hnew|]. split; [exact Hserver|]. split; [exact Hlen|]. split; [exact Ht|].
    split; [done|]. split; [done|]. lia.
Qed.
End deployment.

Lemma operator_config_starts_witness :
  ∃ c, Load None (desiredConfigData (demo_entry [finalizer] None 3)) = Ok c ∧
    DSN (Database c) = "app:pw@tcp(mysql:3306)/entry_task".
Proof.
  destruct (operator_config_starts (W := unit) (demo_entry [finalizer] None 3) None Default)
    as (c & Hload & Hdsn & _).
  - discriminate.
  - reflexivity.
  - exists c. split; [exact Hload|exact Hdsn].
Defined.

(** ** The example configuration ([src/config/config.example.json]) *)

Definition example_dsn (host : string) : string :=
  "go_entry_app:<password>@tcp(" +:+ host +:+
  ")/go_entry_user_mgmt?charset=utf8mb4&parseTime=true&loc=Local".

Definition config_example : json := JObj
  [("dbcp", JObj [("target_db", JStr (example_dsn "mysql.example:3306"));
                  ("target_redis", JStr "redis.example:6379"); ("service_export_port", JInt 8080)]);
   ("tcp", JObj [("addr", JStr "127.0.0.1:9000"); ("read_timeout", JStr "5s"); ("write_timeout", JStr "5s");
                 ("max_frame_bytes", JInt 8388608); ("worker_count", JInt 64); ("queue_size", JInt 2048)]);
   ("http", JObj [("addr", JStr "127.0.0.1:8081"); ("tcp_addr", JStr "127.0.0.1:9000");
                  ("request_timeout", JStr "5s"); ("max_body_bytes", JInt 4194304);
                  ("cookie_name", JStr "session_token");
                  ("profile_picture_base_url", JStr "/api/me/profile-picture")]);
   ("database", JObj [("dsn", JStr (example_dsn "127.0.0.1:3306")); ("max_open_conns", JInt 128);
                      ("max_idle_conns", JInt 32); ("conn_max_lifetime", JStr "5m")]);
   ("redis", JObj [("addr", JStr ""); ("password", JStr ""); ("db", JInt 0);
                   ("key_prefix", JStr "go-entry-task"); ("dial_timeout", JStr "2s");
                   ("io_timeout", JStr "2s")]);
   ("security", JObj [("token_secret", JStr "<64-hex-chars>"); ("password_iterations", JInt 210000);
                      ("session_ttl", JStr "24h")]);
   ("upload", JObj [("profile_picture_dir", JStr "runtime/profile-pictures"); ("max_bytes", JInt 2097152);
                    ("allowed_mime_types",
                     JArr [JStr "image/jpeg"; JStr "image/png"; JStr "image/webp"; JStr "image/gif"])]);
   ("seed", JObj [("count", JInt 10000000); ("batch_size", JInt 1000); ("concurrency", JInt 4);
                  ("default_password", JStr "Password123!")])].

(** The file is accepted without any environment; it repeats the defaults but for
    the endpoints, the secret and the path of pictures, and the endpoints of
    [dbcp] win over those of [database] and [redis].  The secret is a placeholder:
    the backend does not start with it. *)
Lemma config_example_loads :
  ∃ c, Load (Some (Ok (encode config_example))) ∅ = Ok c ∧
    DSN (Database c) = example_dsn "mysql.example:3306" ∧ redis_Addr (Redis c) = "redis.example:6379" ∧
    TCP c = TCP Default ∧ Seed c = Seed Default ∧ Upload c = Upload Default ∧
    TCPAddr (HTTP c) = tcp_Addr (TCP c) ∧ is_ok (NewTokenManager (TokenSecret (Security c)) (SessionTTL (Security c))) = false.
Proof. eexists. split; [vm_compute; reflexivity|]. split_and!; vm_compute; reflexivity. Qed.
