(* ===== verification/TcpClient.v ===== *)
(** * The gateway's client ([src/internal/httpapi/tcp_client.go])

    One connection per call: a request frame out, a response frame in.  The
    network is an interface; [EndToEnd] puts the TCP server at its other end. *)

From S2P Require Import Prelude GoIO GoStrings GoEncoding Json Frame Errors Config Protocol.
From Stdlib Require Import Strings.Byte.

(** [*RemoteError], or an error of the transport or of decoding. *)
Inductive call_error := Remote (Code Message : string) | Local (msg : string).

(** The current connection: what can be read from it and what was written. *)
Class Net (W : Type) := {
  Dial : string → eff W call_error unit;
  SetDeadline : Z → W → W;
  conn_in : W → reader;
  conn_set_in : reader → W → W;
  conn_out : W → writer;
  conn_set_out : writer → W → W;
}.

Record TCPClient := { addr : string; timeout : Z; maxFrameBytes : Z }.

Definition NewTCPClient (cfg : Config) : TCPClient :=
  {| addr := TCPAddr (HTTP cfg); timeout := RequestTimeout (HTTP cfg);
     maxFrameBytes := MaxFrameBytes (TCP cfg) |}.

Definition of_frame {A} (r : outcome frame_error A) : outcome call_error A :=
  match r with
  | Ok a => Ok a
  | Err (FrameIO _) => Err (Local "io")
  | Err FrameEmpty => Err (Local "empty frame")
  | Err (ErrFrameTooLarge _) => Err (Local "frame too large")
  | Panic => Panic
  end.

(** The request counter is shared by all calls. *)
Class Counter (W : Type) := { nextID : W → Z; set_nextID : Z → W → W }.

Section client.
Context {W : Type} `{!Net W, !Counter W} (c : TCPClient).

Definition send_frame (payload : bytes) : eff W call_error unit := λ w,
  let (r, wr) := WriteFrame payload (maxFrameBytes c) (conn_out w) in
  (of_frame r, conn_set_out wr w).

Definition receive_frame : eff W call_error bytes := λ w,
  let (r, rd) := ReadFrame (maxFrameBytes c) (conn_in w) in
  (of_frame r, conn_set_in rd w).

(** [c.nextID.Add(1)] on an [atomic.Uint64]. *)
Definition next_id : eff W call_error Z := λ w,
  let n := wrapu 64 (nextID w + 1) in (Ok n, set_nextID n w).

Definition set_deadline (t : Z) : eff W call_error unit := λ w,
  (Ok tt, if 0 <? t then SetDeadline t w else w).

Definition request (id : Z) (op token : string) (body : option json) : Request :=
  {| req_Version := Version; req_RequestID := FormatUint id; req_Op := op; req_Token := token;
     req_Body := body |}.

(** [out] decodes into the result; [None] is a nil [out]. *)
Definition call {A} (op token : string) (body : option json) (out : option (json → option A))
    (zero : A) (timeout : Z) : eff W call_error A :=
  _ ← Dial (addr c);
  _ ← set_deadline timeout;
  id ← next_id;
  _ ← send_frame (encode (Request_json (request id op token body)));
  respData ← receive_frame;
  resp ← lift (of_option (Local "json: cannot unmarshal") (parse respData ≫= Response_of));
  if negb (resp_OK resp) then throw (Remote (resp_ErrorCode resp) (resp_Message resp))
  else
    match out, resp_Body resp with
    | Some decode, Some v => lift (of_option (Local "json: cannot unmarshal") (decode v))
    | _, _ => mret zero
    end.

(** [remaining] is the time left to the deadline of the context, if it has one. *)
Definition call_timeout (remaining : option Z) : Z :=
  match remaining with
  | Some r => if (0 <? r) && (r <? timeout c) then r else timeout c
  | None => timeout c
  end.

Definition Call {A} (op token : string) (body : option json) (out : option (json → option A))
    (zero : A) (remaining : option Z) : eff W call_error A :=
  call op token body out zero (call_timeout remaining).
End client.
