(* ===== verification/HttpApi.v ===== *)
(** * The HTTP gateway ([src/internal/httpapi/server.go])

    Every handler checks the request, makes at most one call to the TCP backend
    and writes one response.  [net/http] and [mime/multipart] are the library's:
    a request is what they hand to a handler, a response is what the handler
    writes. *)

From S2P Require Import Prelude GoIO GoStrings GoEncoding Json Sniff Frame Errors Config Protocol TcpClient.
From Stdlib Require Import Strings.Byte.

(** ** Requests and responses *)

Record http_request := {
  r_Cookies : list (string * string);
  r_Body : reader;
  r_Remaining : option Z;      (* time to the deadline of [r.Context()], if any *)
}.

(** An uploaded file as [r.FormFile] returns it. *)
Record form_file := { ff_Filename : string; ff_ContentType : string; ff_Data : reader }.

Record cookie := {
  ck_Name : string; ck_Value : string; ck_Path : string; ck_HttpOnly : bool; ck_SameSiteLax : bool;
  ck_Expires : option Z; ck_MaxAge : Z }.

Record http_response := {
  h_Status : Z;
  h_ContentType : string;
  h_CacheControl : option string;
  h_SetCookie : option cookie;
  h_Body : bytes;
}.

(** [json.Encoder.Encode] ends the value with a newline. *)
Definition writeJSON (set_cookie : option cookie) (status : Z) (v : json) : http_response :=
  {| h_Status := status; h_ContentType := "application/json; charset=utf-8"; h_CacheControl := None;
     h_SetCookie := set_cookie; h_Body := encode v ++ [x0a] |}.

Definition ErrorResponse_json (code message : string) : json :=
  JObj [("error", JObj [("code", JStr code); ("message", JStr message)])].

Definition writeProtocolError (status : Z) (code message : string) : http_response :=
  writeJSON None status (ErrorResponse_json code message).

Definition statusFor (code : string) : Z :=
  if decide (code ∈ ["unauthorized"; "invalid_credentials"]) then 401
  else if decide (code = "not_found") then 404
  else if decide (code = "payload_too_large") then 413
  else if decide (code = "unsupported_media_type") then 415
  else if decide (code = "server_busy") then 429
  else if decide (code ∈ ["bad_request"; "invalid_nickname"; "invalid_upload"; "unknown_operation"])
  then 400
  else 500.

Definition writeError (err : call_error) : http_response :=
  match err with
  | Remote code message => writeProtocolError (statusFor code) code message
  | Local _ =>
      writeProtocolError 502 "tcp_backend_unavailable" "Backend service is unavailable."
  end.

(** ** Request bodies *)

(** [json.Decoder.Decode] behind [http.MaxBytesReader]: the first value of the
    body, whatever follows it; a number, a string or a literal ends only at a
    following byte or at the end of the body. *)
Definition decode_value (maxBytes : Z) (body : reader) : option json :=
  let limit := Z.to_nat (Z.max 0 maxBytes) in
  let data := take limit (r_data body) in
  '(v, rest) ← parse_value (S (2 * length data)) 0 data;
  let at_end := match r_fin body with EOF => (length (r_data body) <=? limit)%nat | _ => false end in
  match v with
  | JObj _ | JArr _ => Some v
  | _ => if at_end || negb (bool_decide (rest = [])) then Some v else None
  end.

(** [DisallowUnknownFields]: every member must name a field. *)
Definition known_fields (fields : list string) (v : json) : bool :=
  match v with
  | JObj m => forallb (λ kv, existsb (λ f, key_is f kv.1) fields) m
  | _ => true
  end.

Definition decodeJSON {A} (fields : list string) (of_json : json → option A) (maxBytes : Z)
    (body : reader) : option A :=
  v ← decode_value maxBytes body;
  if known_fields fields v then of_json v else None.

(** ** Handlers *)

Section server.
Context {W : Type} `{!Net W, !Counter W} (cfg : Config).
(** [ParseMultipartForm] and [FormFile("picture")] under a limit: an error of
    the first, of the second, or the file. *)
Context (picture_form : Z → http_request → option (option form_file)).
Abbreviation handler := (http_request → eff W Empty_set http_response).
Abbreviation s_client := (NewTCPClient cfg).
Abbreviation MaxBody := (MaxBodyBytes (HTTP cfg)).
Abbreviation Cookie := (CookieName (HTTP cfg)).

(** [if err := s.client.Call(...); err != nil { s.writeError(w, err); return }] *)
Definition on_call {A} (m : eff W call_error A) (ok : A → http_response) :
    eff W Empty_set http_response := λ w,
  match m w with
  | (Ok a, w') => (Ok (ok a), w')
  | (Err e, w') => (Ok (writeError e), w')
  | (Panic, w') => (Panic, w')
  end.

(** [r.Cookie(name)]: the first cookie of that name. *)
Definition r_Cookie (r : http_request) : option string :=
  match list_find (λ kv, kv.1 = Cookie) (r_Cookies r) with Some (_, kv) => Some kv.2 | None => None end.

Definition unauthorized : http_response :=
  writeProtocolError 401 "unauthorized" "Authentication required.".

Definition tokenFromCookie (r : http_request) : option string :=
  match r_Cookie r with
  | Some value => if decide (TrimSpace value = "") then None else Some value
  | None => None
  end.

Definition health : handler := λ _, mret (writeJSON None 200 (JObj [("ok", JStr "true")])).

Definition session_cookie (result : LoginResult) : cookie :=
  {| ck_Name := Cookie; ck_Value := lr_Token result; ck_Path := "/"; ck_HttpOnly := true;
     ck_SameSiteLax := true; ck_Expires := Some (lr_ExpiresAt result); ck_MaxAge := 0 |}.

Definition login : handler := λ r,
  match decodeJSON ["username"; "password"] LoginBody_of MaxBody (r_Body r) with
  | None => mret (writeProtocolError 400 "bad_request" "Invalid JSON body.")
  | Some body =>
      on_call (Call s_client OpLogin "" (Some (LoginBody_json body)) (Some LoginResult_of)
                 (Build_LoginResult "" 0 UserProfile0) (r_Remaining r))
        (λ result, writeJSON (Some (session_cookie result)) 200 (LoginResult_json result))
  end.

Definition me : handler := λ r,
  match tokenFromCookie r with
  | None => mret unauthorized
  | Some token =>
      on_call (Call s_client OpGetProfile token None (Some UserProfile_of) UserProfile0 (r_Remaining r))
        (λ profile, writeJSON None 200 (UserProfile_json profile))
  end.

Definition updateNickname : handler := λ r,
  match tokenFromCookie r with
  | None => mret unauthorized
  | Some token =>
      match decodeJSON ["nickname"] UpdateNicknameBody_of MaxBody (r_Body r) with
      | None => mret (writeProtocolError 400 "bad_request" "Invalid JSON body.")
      | Some nickname =>
          on_call (Call s_client OpUpdateNickname token (Some (UpdateNicknameBody_json nickname))
                     (Some UserProfile_of) UserProfile0 (r_Remaining r))
            (λ profile, writeJSON None 200 (UserProfile_json profile))
      end
  end.

Definition picture_response (result : ProfilePictureResult) : http_response :=
  match b64_decode StdEncoding (bytes_of (pp_DataBase64 result)) with
  | None => writeProtocolError 500 "invalid_picture_cache" "Profile picture data is invalid."
  | Some data =>
      {| h_Status := 200; h_ContentType := pp_ContentType result;
         h_CacheControl := Some "private, max-age=300"; h_SetCookie := None; h_Body := data |}
  end.

Definition getProfilePicture : handler := λ r,
  match tokenFromCookie r with
  | None => mret unauthorized
  | Some token =>
      on_call (Call s_client OpGetProfilePicture token None (Some ProfilePictureResult_of)
                 (Build_ProfilePictureResult "" "") (r_Remaining r))
        picture_response
  end.

(** [io.ReadAll(io.LimitReader(r, n))]. *)
Definition ReadAllLimit (n : Z) (r : reader) : outcome call_error bytes :=
  if Z.of_nat (length (r_data r)) <? n then
    match r_fin r with
    | EOF => Ok (r_data r)
    | ErrUnexpectedEOF => Err (Local "unexpected EOF")
    | IOOther msg => Err (Local msg)
    end
  else Ok (take (Z.to_nat n) (r_data r)).

Definition uploadBody (file : form_file) : outcome call_error UploadProfilePictureBody :=
  data ← ReadAllLimit (wraps 64 (MaxBody + 1)) (ff_Data file);
  if MaxBody <? Z.of_nat (length data) then Err (Local "uploaded file is too large")
  else
    Ok {| FileName := ff_Filename file;
          ContentType := if decide (ff_ContentType file = "") then DetectContentType data
                         else ff_ContentType file;
          DataBase64 := string_of (b64_encode StdEncoding data) |}.

Definition uploadProfilePicture : handler := λ r,
  match tokenFromCookie r with
  | None => mret unauthorized
  | Some token =>
      match picture_form MaxBody r with
      | None => mret (writeProtocolError 400 "bad_request" "Invalid multipart upload.")
      | Some None => mret (writeProtocolError 400 "bad_request" "Missing picture file.")
      | Some (Some file) =>
          match uploadBody file with
          | Err (Local msg) | Err (Remote msg _) => mret (writeProtocolError 400 "bad_request" msg)
          | Panic => panic
          | Ok body =>
              on_call (Call s_client OpUploadProfilePicture token
                         (Some (UploadProfilePictureBody_json body)) (Some UserProfile_of) UserProfile0
                         (r_Remaining r))
                (λ profile, writeJSON None 200 (UserProfile_json profile))
          end
      end
  end.

Definition expired_cookie : cookie :=
  {| ck_Name := Cookie; ck_Value := ""; ck_Path := "/"; ck_HttpOnly := true; ck_SameSiteLax := true;
     ck_Expires := None; ck_MaxAge := -1 |}.

Definition logout : handler := λ r,
  let done := writeJSON (Some expired_cookie) 200 (JObj [("ok", JStr "true")]) in
  match r_Cookie r with
  | Some value =>
      if decide (value = "") then mret done
      else λ w,
        match Call s_client OpLogout value (Some (JObj [])) (None : option (json → option unit)) tt
                (r_Remaining r) w with
        | (Panic, w') => (Panic, w')
        | (_, w') => (Ok done, w')
        end
  | None => mret done
  end.

Definition routes : list (string * handler) :=
  [("GET /api/health", health); ("POST /api/login", login); ("GET /api/me", me);
   ("GET /api/me/profile-picture", getProfilePicture); ("PUT /api/me/nickname", updateNickname);
   ("POST /api/me/profile-picture", uploadProfilePicture); ("POST /api/logout", logout)].

(** ** Correctness *)

(** The handlers behind the session cookie. *)
Definition protected_routes : list handler :=
  [me; updateNickname; getProfilePicture; uploadProfilePicture].

(** The gateway does not bother the backend without a session. A request to
    a protected route whose session cookie is missing or blank is answered with
    401 and an error body, sets no cookie, and nothing else happens: no call,
    no reading of the body. *)
Lemma gateway_requires_cookie h r w :
  h ∈ protected_routes →
  (∀ value, r_Cookie r = Some value → TrimSpace value = "") →
  h r w = (Ok unauthorized, w) ∧ h_Status unauthorized = 401 ∧ h_SetCookie unauthorized = None.
Proof.
  intros Hh Hblank. split; [|done].
  assert (Htok : tokenFromCookie r = None).
  { unfold tokenFromCookie. destruct (r_Cookie r) as [v|]; [|done]. by rewrite decide_True by auto. }
  unfold protected_routes in Hh. rewrite !elem_of_cons in Hh.
  destruct Hh as [->|[->|[->|[->|Hh]]]]; [..|by apply not_elem_of_nil in Hh];
    unfold me, updateNickname, getProfilePicture, uploadProfilePicture; by rewrite Htok.
Qed.
End server.
