(* ===== verification/EndToEnd.v ===== *)
(** * From the browser to the stores

    The gateway ([httpapi/server.go], [httpapi/tcp_client.go]), the protocol, the
    TCP server and the service together.  The server at the other end of the network
    is the machine of [Concurrent], with all its connections, workers and stores; it
    runs on while the gateway works.  Of the network in between [Deployed] says that
    it carries bytes: the server gets a beginning of what the client wrote on a
    connection, and the client a beginning of what the server wrote on it.  A
    connection may be refused, break or time out at any point, and nothing is
    assumed of the texts that are sent or of their lengths. *)

From S2P Require Import Prelude GoIO GoStrings GoEncoding Json Sniff Frame Errors Config Token Protocol Store Service ServiceSpec Memory Pictures TcpServer Calls CallsSpec Concurrent ConcurrentAnswers TcpClient HttpApi.
From stdpp Require Import relations.
From Stdlib Require Import Strings.Byte.
#[local] Open Scope Z_scope.

(** ** Results of the service can be sent *)

Lemma UserProfile_out u : json_out (UserProfile_json u) ∧ jdepth (UserProfile_json u) ≤ 1.
Proof.
  split; [apply JObj_out, Forall_app_2; auto with wire|].
  unfold UserProfile_json, omit_empty. case_decide; done.
Qed.

Lemma LoginResult_out r : json_out (LoginResult_json r) ∧ jdepth (LoginResult_json r) ≤ 2.
Proof.
  destruct (UserProfile_out (lr_User r)) as [Ho Hd]. split.
  - apply JObj_out. repeat (apply Forall_cons_2; [auto with wire|]); [|by apply Forall_nil_2].
    split; [done|]. unfold max_depth. cbn [snd]. lia.
  - unfold LoginResult_json. cbn [jdepth foldr JInt]. lia.
Qed.

Lemma ProfilePictureResult_out r :
  json_out (ProfilePictureResult_json r) ∧ jdepth (ProfilePictureResult_json r) ≤ 1.
Proof. split; [apply JObj_out; auto with wire|done]. Qed.

Lemma marshal_Ok {W A} (to_json : A → json) (m : eff W error A) w v w' :
  marshal to_json m w = (Ok v, w') → ∃ a, v = to_json a.
Proof. unfold marshal. intros (a & w1 & _ & [= <- _])%eff_bind_run. eauto. Qed.

Lemma Handle_out {W} `{!Host W} (s : Service W) req w v w' :
  Handle s req w = (Ok v, w') → json_out v ∧ jdepth v ≤ 2.
Proof.
  assert (Hu : ∀ u, json_out (UserProfile_json u) ∧ jdepth (UserProfile_json u) ≤ 2).
  { intros u. destruct (UserProfile_out u). split; [done|lia]. }
  unfold Handle. intros Hrun. repeat case_decide.
  - apply eff_bind_run in Hrun as (b & w1 & _ & [a ->]%marshal_Ok). apply LoginResult_out.
  - apply eff_bind_run in Hrun as (b & w1 & _ & [a ->]%marshal_Ok). apply Hu.
  - apply eff_bind_run in Hrun as (b & w1 & _ & [a ->]%marshal_Ok).
    destruct (ProfilePictureResult_out a). split; [done|lia].
  - apply eff_bind_run in Hrun as (b & w1 & _ & (c & w2 & _ & [a ->]%marshal_Ok)%eff_bind_run). apply Hu.
  - apply eff_bind_run in Hrun as (b & w1 & _ & (c & w2 & _ & [a ->]%marshal_Ok)%eff_bind_run). apply Hu.
  - apply eff_bind_run in Hrun as (b & w1 & _ & [= <- _]). split; [by constructor|done].
  - done.
Qed.

(** A result of a run of [Handle]. *)
Lemma handled_out {X} `{!Host X} (s : Service X) req given v :
  next s req given = Done (Ok v) → json_out v ∧ jdepth v < max_depth.
Proof.
  unfold next. destruct (Handle (scripted s) req _) as [r w] eqn:Hrun.
  destruct (sc_call w); [done|]. intros [= ->]. apply Handle_out in Hrun as [? ?].
  unfold max_depth. split; [done|lia].
Qed.

(** ** A network with the server at its other end *)

Section deployed.
Context {W X : Type} `{!Net W, !Counter W, !Host X, !MySQL X} (s : Service X) (env : X → X → Prop)
  (cfg : Config) (sys : W → csystem X).
Abbreviation cstep := (cstep s env (TCP cfg)).

(** The server runs on. *)
Definition goes_on (w w' : W) : Prop := rtc cstep (sys w) (sys w').

(** The server has been started and is somewhere in a run. *)
Definition started (w : W) : Prop :=
  ∃ s0 x0, NewTCPServer (TCP cfg) = Ok s0 ∧ rtc cstep (CSystem s0 x0 []) (sys w).

Class Deployed : Prop := {
  dep_dial a w : wp (Dial a) (λ r w', goes_on w w' ∧
    match r with
    | Ok _ => w_out (conn_out w') = []
    | Err e => ∃ msg, e = Local msg
    | Panic => False
    end) w;
  dep_deadline t w : goes_on w (SetDeadline t w) ∧ conn_out (SetDeadline t w) = conn_out w;
  dep_counter n w : goes_on w (set_nextID n w) ∧ conn_out (set_nextID n w) = conn_out w;
  dep_receive rd w : goes_on w (conn_set_in rd w);
  dep_send wr w : goes_on w (conn_set_out wr w);
  (* Nothing comes back, or what comes back was written by the server on a
     connection it accepted for what the client wrote. *)
  dep_carries wr w :
    w_out (conn_out w) = [] →
    r_data (conn_in (conn_set_out wr w)) = [] ∨
    ∃ c cn i k, conns (cs_server (sys w)) !! c = None ∧
      conns (cs_server (sys (conn_set_out wr w))) !! c = Some cn ∧
      r_data (c_accepted cn).1 = take i (w_out wr) ∧ w_out (c_accepted cn).2 = [] ∧
      r_data (conn_in (conn_set_out wr w)) = take k (w_out (c_writer cn));
}.

Context `{!Deployed}.

Lemma goes_on_trans w1 w2 w3 : goes_on w1 w2 → goes_on w2 w3 → goes_on w1 w3.
Proof. unfold goes_on. by etrans. Qed.

Lemma started_on w w' : started w → goes_on w w' → started w'.
Proof. intros (s0 & x0 & Hinit & Hrun) Hw. exists s0, x0. split; [done|by etrans]. Qed.

(** From [w] to [w'] the server does what its log then says. *)
Definition runs_by (evs : list cevent) (w w' : W) : Prop :=
  cs_log (sys w') = cs_log (sys w) ++ evs ∧ chistory s env (cs_world (sys w)) evs (cs_world (sys w')).

Lemma goes_on_log w w' : goes_on w w' → ∃ evs, runs_by evs w w'.
Proof. intros (evs & El & Hh)%(run_log s env (TCP cfg)). by exists evs. Qed.

Lemma handled_later w w1 w' evs evs' req r :
  started w → goes_on w w1 → goes_on w1 w' → runs_by evs w w1 → runs_by evs' w w' →
  handled_in s evs req r → handled_in s evs' req r.
Proof.
  intros Hw H1 H2 [El1 _] [El2 _] Hin. destruct (goes_on_log _ _ H2) as (more & El3 & _).
  assert (evs' = evs ++ more) as ->.
  { rewrite El3, El1, <- app_assoc in El2. by apply app_inv_head in El2. }
  destruct (started_on _ _ (started_on _ _ Hw H1) H2) as (s0 & x0 & Hinit & Hrun).
  by eapply (handled_in_later s env (TCP cfg) s0 x0 (sys w') (cs_log (sys w))).
Qed.

(** ** A call *)

(** How a call of [req] can end when [evs] happens meanwhile. *)
Definition ends_with {A} (out : json → option A) (evs : list cevent) (req : Request)
    (res : outcome call_error A) : Prop :=
  (∃ msg, res = Err (Local msg)) ∨
  res = Err (Remote "server_busy" "Server is busy.") ∨
  (∃ v, handled_in s evs req (Ok v) ∧
     res = of_option (Local "json: cannot unmarshal") (out (jsent v))) ∨
  (∃ err, handled_in s evs req (Err err) ∧
     res = Err (Remote (sent (ErrorCode err).1) (sent (ErrorCode err).2))).

Abbreviation client := (NewTCPClient cfg).

(** The response to a request that was written, as far as it arrives. *)
Lemma carried payload wr w0 w :
  started w0 → goes_on w0 w → w_out (conn_out w) = [] → w_out wr = frame_bytes payload →
  frameable (MaxFrameBytes (TCP cfg)) payload →
  let w' := conn_set_out wr w in
  r_data (conn_in w') = [] ∨
  ∃ evs resp k, runs_by evs w0 w' ∧ answers (handled_in s evs) payload resp ∧
    frameable (MaxFrameBytes (TCP cfg)) (encode (Response_json resp)) ∧
    r_data (conn_in w') = take k (frame_bytes (encode (Response_json resp))).
Proof.
  intros (s0 & x0 & Hinit & Hrun0) Hw0 Ho Hwr Hf w'.
  destruct (dep_carries wr w Ho) as [?|(c & cn & i & k & Hc & Hc' & Hin & Hout & Hdata)]; [by left|].
  fold w' in Hc', Hdata. rewrite Hdata, Hwr in *.
  destruct (run_answers s env (TCP cfg) s0 x0 (sys w0) (sys w') c cn)
    as (evs & ps & rs & rest & El & Hh & Hd & Hans & Hwritten); [done|done| | |done|].
  { etrans; [exact Hw0|apply dep_send]. }
  { by eapply run_conns. }
  rewrite Hwritten. destruct Hans as [|p resp ps rs Hresp Hans].
  { left. cbn. by rewrite Hout, take_nil. }
  rewrite Hin in Hd. cbn in Hd. rewrite <- app_assoc in Hd.
  apply frame_bytes_begins in Hd as [-> [Hps ->]%app_eq_nil]; [|destruct Hf; lia].
  destruct ps as [|p2 ps]; [|by cbn in Hps; unfold frame_bytes in Hps]. inversion Hans; subst rs.
  cbn [written foldl]. unfold writeResponse.
  destruct (WriteFrame_begins (MaxFrameBytes (TCP cfg)) (encode (Response_json resp)) (c_accepted cn).2)
    as (n & En & Hn). rewrite En, Hout. cbn [app].
  destruct n as [|n]; [left; by rewrite take_0, take_nil|right].
  exists evs, resp, (k `min` S n)%nat. split_and!; [done|done|by apply Hn|by rewrite take_take].
Qed.

Lemma answers_sent evs payload req resp :
  parse payload ≫= Request_of = Some req → answers (handled_in s evs) payload resp →
  resp = busy_response req ∨ ∃ r, handled_in s evs req r ∧ response_for req r = Some resp.
Proof. unfold answers. by intros ->. Qed.

(** What the caller makes of a response. *)
Definition finish {A} (out : json → option A) (zero : A) (resp : Response) : outcome call_error A :=
  if negb (resp_OK resp) then Err (Remote (resp_ErrorCode resp) (resp_Message resp))
  else match resp_Body resp with
       | Some v => of_option (Local "json: cannot unmarshal") (out v)
       | None => Ok zero
       end.

Lemma finish_ends {A} (out : json → option A) zero evs req resp :
  resp = busy_response req ∨ (∃ r, handled_in s evs req r ∧ response_for req r = Some resp) →
  (int64 (resp_Version resp) ∧ raw_out (resp_Body resp)) ∧
  ends_with out evs req (finish out zero (Response_sent resp)).
Proof.
  intros [->|(r & Hin & Hr)].
  - split; [split; [by vm_compute|by intros v]|]. right. by left.
  - destruct r as [v|err|]; cbn in Hr; [..|done]; injection Hr as <-.
    + split; [split; [by vm_compute|]|right; right; left; by exists v].
      intros v' [= <-]. destruct Hin as (ch & (p1 & p2 & ->)%list_elem_of_split & Hof).
      destruct (Hof _ _ _ req eq_refl eq_refl) as [_ Hok]. by eapply handled_out.
    + split; [split; [by vm_compute|by intros v]|]. right. right. right. by exists err.
Qed.

(** From the response on, and from sending the request on. *)
Definition understand {A} (out : json → option A) (zero : A) (respData : bytes) : eff W call_error A :=
  resp ← lift (of_option (Local "json: cannot unmarshal") (parse respData ≫= Response_of));
  if negb (resp_OK resp) then throw (Remote (resp_ErrorCode resp) (resp_Message resp))
  else match resp_Body resp with
       | Some v => lift (of_option (Local "json: cannot unmarshal") (out v))
       | None => mret zero
       end.
Definition exchange {A} (req : Request) (out : json → option A) (zero : A) : eff W call_error A :=
  _ ← send_frame client (encode (Request_json req));
  respData ← receive_frame client;
  understand out zero respData.

(** The end of a call that began in [w0]. *)
Definition call_post {A} (out : json → option A) (req : Request) (w0 : W) (res : outcome call_error A)
    (w' : W) : Prop :=
  goes_on w0 w' ∧ ∃ evs, runs_by evs w0 w' ∧ ends_with out evs (Request_sent req) res.

Lemma local_post {A} (out : json → option A) req w0 msg w' :
  goes_on w0 w' → call_post out req w0 (Err (Local msg)) w'.
Proof. intros Hr. split; [done|]. destruct (goes_on_log _ _ Hr) as [evs ?]. exists evs. split; [done|]. left. eauto. Qed.

Lemma ends_later {A} (out : json → option A) w0 w1 w' evs evs' req res :
  started w0 → goes_on w0 w1 → goes_on w1 w' → runs_by evs w0 w1 → runs_by evs' w0 w' →
  ends_with out evs req res → ends_with out evs' req res.
Proof.
  intros Hw H1 H2 R1 R2 [?|[?|[(v & Hin & ?)|(e & Hin & ?)]]]; unfold ends_with;
    eauto 10 using handled_later.
Qed.

Lemma understood {A} (out : json → option A) zero resp w :
  int64 (resp_Version resp) → raw_out (resp_Body resp) →
  understand out zero (encode (Response_json resp)) w = (finish out zero (Response_sent resp), w).
Proof.
  intros Hv Hraw. unfold understand. rewrite Response_wire_sent by done.
  unfold finish, mbind, eff_bind, lift. cbn [of_option].
  destruct (negb (resp_OK (Response_sent resp))); [done|]. by destruct (resp_Body (Response_sent resp)).
Qed.

Lemma exchange_live {A} req (out : json → option A) zero w0 w :
  started w0 → goes_on w0 w →
  int64 (req_Version req) → raw_out (req_Body req) → w_out (conn_out w) = [] →
  wp (exchange req out zero) (call_post out req w0) w.
Proof.
  intros Hst Hw0 Hver Hbody Ho. apply wp_bind. unfold wp at 1, send_frame.
  cbn [NewTCPClient maxFrameBytes]. set (payload := encode (Request_json req)).
  destruct (WriteFrame payload (MaxFrameBytes (TCP cfg)) (conn_out w)) as [r wr] eqn:Hwrite.
  cbn [fst snd]. assert (Hsend : goes_on w0 (conn_set_out wr w)) by (by eapply goes_on_trans, dep_send).
  destruct r as [[]|e|].
  2: { destruct e; cbn; by apply local_post. }
  2: { by destruct (WriteFrame_no_panic (MaxFrameBytes (TCP cfg)) payload (conn_out w)); rewrite Hwrite. }
  apply WriteFrame_Ok in Hwrite as [Hf Hwr]. rewrite Ho in Hwr. cbn [app of_frame] in *.
  pose proof (carried payload wr w0 w Hst Hw0 Ho Hwr Hf) as Hans. cbv zeta in Hans.
  set (w1 := conn_set_out wr w) in *. clearbody w1.
  apply wp_bind. unfold wp at 1, receive_frame. cbn [NewTCPClient maxFrameBytes].
  destruct (ReadFrame (MaxFrameBytes (TCP cfg)) (conn_in w1)) as [r rd] eqn:Hread. cbn [fst snd].
  assert (Hrecv : goes_on w1 (conn_set_in rd w1)) by apply dep_receive.
  assert (Hall : goes_on w0 (conn_set_in rd w1)) by (by eapply goes_on_trans).
  destruct (ReadFrame_inv _ _ _ _ Hread) as [Hnp Hok].
  destruct r as [q|[]|]; cbn [of_frame]; [|by apply local_post..|done].
  destruct Hans as [Hnone|(evs & resp & k & Hby & Hans & Hfr & Hdata)].
  { destruct (Hok q eq_refl) as [_ Hd]. rewrite Hnone in Hd. done. }
  assert (q = encode (Response_json resp)) as ->.
  { eapply (ReadFrame_prefix _ _ k (r_fin (conn_in w1)) _ rd Hfr). rewrite <- Hdata, <- Hread. by destruct (conn_in w1). }
  apply answers_sent with (req := Request_sent req) in Hans; [|by apply Request_wire_sent].
  destruct (finish_ends out zero _ _ _ Hans) as [[Hv Hraw] Hend].
  unfold wp. rewrite understood by done. cbn [fst snd]. split; [done|].
  destruct (goes_on_log _ _ Hall) as [evs' Hby']. exists evs'. split; [done|].
  exact (ends_later _ _ _ _ _ _ _ _ Hst Hsend Hrecv Hby Hby' Hend).
Qed.

(** The world in which the request is written, and its number. *)
Definition call_id (t : Z) (w1 : W) : Z :=
  wrapu 64 (nextID (if 0 <? t then SetDeadline t w1 else w1) + 1).
Definition before_send (t : Z) (w1 : W) : W :=
  set_nextID (call_id t w1) (if 0 <? t then SetDeadline t w1 else w1).

(** What follows once the connection is made. *)
Definition on_conn {A} op token body (out : json → option A) (zero : A) (t : Z) : eff W call_error A := λ w1,
  exchange (request (call_id t w1) op token body) out zero (before_send t w1).

Lemma call_unfold {A} op token body (out : json → option A) zero t :
  call client op token body (Some out) zero t =
  (_ ← Dial (addr client); on_conn op token body out zero t).
Proof. reflexivity. Qed.

Lemma call_live {A} op token body (out : json → option A) zero t w :
  started w → raw_out body →
  wp (call client op token body (Some out) zero t) (λ res w', ∃ id,
    call_post out (request id op token body) w res w') w.
Proof.
  intros Hst Hbody. rewrite call_unfold. apply wp_bind.
  eapply wp_mono, dep_dial. intros r w1 [Hw1 Hr].
  destruct r as [[]|e|]; [|destruct Hr as [msg ->]; exists 0; by apply local_post|done].
  unfold wp, on_conn. set (w2 := if 0 <? t then SetDeadline t w1 else w1).
  assert (goes_on w w2 ∧ w_out (conn_out w2) = []) as [Hw2 Ho2].
  { unfold w2. destruct (0 <? t); [|done]. destruct (dep_deadline t w1) as [Hd E]. rewrite E.
    split; [by eapply goes_on_trans|done]. }
  unfold before_send. fold w2. destruct (dep_counter (call_id t w1) w2) as [Hc Eo]. rewrite <- Eo in Ho2.
  exists (call_id t w1). apply exchange_live; [done|by eapply goes_on_trans|by vm_compute|done|done].
Qed.

(** C14: a call returns the result of its own request, or an error.  Let the TCP
    server run as [Concurrent] says, behind a network that may refuse or break a
    connection at any point.  Whatever happens, a call of the gateway ends in an
    error of its own (no connection, a broken or timed out one, a frame over the
    limit, a body it cannot decode), in the remote error [server_busy], or as the
    handler did for this very request, which the server ran from its first call to
    its last while this call lasted: with its result, or with its error code and
    message as a remote error (strings as JSON carries them).  And when a
    connection is made, the request is written and the frame of a response arrives
    whole, the call ends as this response says. *)
Theorem call_end_to_end {A} op token body (out : json → option A) zero t w res w' :
  started w → raw_out body →
  call client op token body (Some out) zero t w = (res, w') →
  (∃ id evs, runs_by evs w w' ∧ ends_with out evs (Request_sent (request id op token body)) res) ∧
  ∀ w1 wr resp,
    Dial (addr client) w = (Ok tt, w1) →
    WriteFrame (encode (Request_json (request (call_id t w1) op token body))) (MaxFrameBytes (TCP cfg))
      (conn_out (before_send t w1)) = (Ok tt, wr) →
    int64 (resp_Version resp) → raw_out (resp_Body resp) →
    frameable (MaxFrameBytes (TCP cfg)) (encode (Response_json resp)) →
    r_data (conn_in (conn_set_out wr (before_send t w1))) = frame_bytes (encode (Response_json resp)) →
    res = finish out zero (Response_sent resp).
Proof.
  intros Hst Hbody Hcall. split.
  - pose proof (call_live op token body out zero t w Hst Hbody) as Hlive. unfold wp in Hlive.
    rewrite Hcall in Hlive. destruct Hlive as (id & _ & evs & Hevs). by exists id, evs.
  - intros w1 wr resp Hdial Hwrite Hv Hraw Hf Hdata. rewrite call_unfold in Hcall.
    rewrite (eff_bind_step _ _ _ _ _ Hdial) in Hcall. unfold on_conn, exchange in Hcall.
    rewrite (eff_bind_step (send_frame client _) _ _ tt (conn_set_out wr (before_send t w1))) in Hcall
      by (unfold send_frame; cbn [NewTCPClient maxFrameBytes]; by rewrite Hwrite).
    set (w3 := conn_set_out wr (before_send t w1)) in *.
    rewrite (eff_bind_step (receive_frame client) _ w3 (encode (Response_json resp))
      (conn_set_in (Reader [] (r_fin (conn_in w3))) w3)) in Hcall.
    + rewrite understood in Hcall by done. by injection Hcall.
    + unfold receive_frame. cbn [NewTCPClient maxFrameBytes].
      pose proof (ReadFrame_frame _ _ [] (r_fin (conn_in w3)) Hf) as E. rewrite app_nil_r, <- Hdata in E.
      replace (Reader (r_data (conn_in w3)) (r_fin (conn_in w3))) with (conn_in w3) in E
        by (by destruct (conn_in w3)). by rewrite E.
Qed.

(** ** A request to the gateway *)

Lemma statusFor_error code : statusFor code ≠ 200.
Proof. unfold statusFor. by repeat case_decide. Qed.

(** A response is made of a result of the handler, or it is an error. *)
Lemma on_call_live {A} op token body (out : json → option A) zero ok remaining w resp w' :
  started w → raw_out body →
  on_call (Call client op token body (Some out) zero remaining) ok w = (Ok resp, w') →
  goes_on w w' ∧
  ((∃ id evs v a, runs_by evs w w' ∧
     handled_in s evs (Request_sent (request id op token body)) (Ok v) ∧
     out (jsent v) = Some a ∧ resp = ok a) ∨
   h_Status resp ≠ 200 ∧ h_SetCookie resp = None).
Proof.
  intros Hst Hbody Hrun. unfold on_call, Call in Hrun.
  destruct (call client op token body (Some out) zero (call_timeout client remaining) w) as [res w1] eqn:Hcall.
  destruct (wp_run _ _ _ _ _ (call_live op token body out zero _ w Hst Hbody) Hcall)
    as (id & Hgo & evs & Hby & Hend).
  assert (w1 = w') as -> by (destruct res; by simplify_eq). split; [done|].
  destruct Hend as [[msg ->]|[->|[(v & Hin & ->)|(err & Hin & ->)]]]; cbn in Hrun; simplify_eq.
  - by right.
  - by right.
  - destruct (out (jsent v)) as [a|] eqn:Ha; cbn in Hrun; simplify_eq; [left|by right].
    by exists id, evs, v, a.
  - right. split; [apply statusFor_error|done].
Qed.
End deployed.

(** ** A deployment in memory

    The service of [Memory.v] behind the server, with a network that loses nothing. *)

Definition demo_cfg : Config := Default.

Record node := Node { n_in : reader; n_out : writer; n_next : Z; n_sys : csystem world }.

Definition ready (sv : server_state) : bool :=
  match jobs sv, workers sv with
  | [], Selecting :: _ => negb (crashed sv) && negb (closed sv)
  | _, _ => false
  end.

#[local] Instance frameable_dec n p : Decision (frameable n p).
Proof. unfold frameable. apply _. Defined.

(** The server gets these bytes on a new connection: its state after it has
    answered, and what it wrote. *)
Definition node_serve (sent : bytes) (σ : csystem world) : option (csystem world * bytes) :=
  let sv := cs_server σ in
  let c := fresh (dom (conns sv)) in
  let ch := fresh (dom (resp_chans sv)) in
  let payload := drop 4 sent in
  if ready sv && bool_decide (sent = frame_bytes payload)
       && bool_decide (frameable (MaxFrameBytes (TCP demo_cfg)) payload)
       && bool_decide (length (answered ch (cs_log σ)) = 0%nat)
  then
    req ← parse payload ≫= Request_of;
    '(l, r, x) ← play demo_service 11 req [] (cs_world σ);
    resp ← response_for req r;
    Some (CSystem (served_server (TCP demo_cfg) c ch payload resp sv) x
            (cs_log σ ++ called (Job req ch) l ++ [Finished ch req r]),
          w_out (writeResponse (TCP demo_cfg) resp (Writer [] None)))
  else None.

Abbreviation demo_step := (cstep demo_service no_one (TCP demo_cfg)).

Lemma ready_idle sv : ready sv = true → idle sv.
Proof.
  unfold ready, idle. destruct (jobs sv); [|done]. destruct (workers sv) as [|[] ws]; try done.
  intros [Hc Hd]%andb_prop. by destruct (crashed sv), (closed sv).
Qed.

Lemma node_serve_run sent σ σ' out :
  node_serve sent σ = Some (σ', out) →
  rtc demo_step σ σ' ∧ ∃ c cn, conns (cs_server σ) !! c = None ∧ conns (cs_server σ') !! c = Some cn ∧
    r_data (c_accepted cn).1 = sent ∧ w_out (c_accepted cn).2 = [] ∧ out = w_out (c_writer cn).
Proof.
  destruct σ as [sv x evs]. unfold node_serve. cbn [cs_server cs_world cs_log].
  set (c := fresh (dom (conns sv))). set (ch := fresh (dom (resp_chans sv))).
  assert (Hc : conns sv !! c = None) by (apply not_elem_of_dom, is_fresh).
  assert (Hch : resp_chans sv !! ch = None) by (apply not_elem_of_dom, is_fresh).
  clearbody c ch. set (payload := drop 4 sent). destruct (_ && _ && _ && _) eqn:E; [|done].
  apply andb_prop in E as [[[Hr Hs]%andb_prop Hf]%andb_prop Ha].
  apply ready_idle in Hr. apply bool_decide_eq_true in Hs, Hf, Ha. apply nil_length_inv in Ha.
  intros (req & Hreq & H)%bind_Some. apply bind_Some in H as ([[l r] x'] & Hplay & H).
  apply bind_Some in H as (resp & Hresp & [= <- <-]). split; [by eapply serves_one|].
  exists c, (served_conn (TCP demo_cfg) payload resp). split; [done|]. split; [apply lookup_insert_eq|]. done.
Qed.

Definition node_send (wr : writer) (n : node) : node :=
  match node_serve (w_out wr) (n_sys n) with
  | Some (σ, out) => Node (Reader out EOF) wr (n_next n) σ
  | None => Node (Reader [] EOF) wr (n_next n) (n_sys n)
  end.

#[global] Instance node_net : Net node := {|
  Dial _ n := (Ok tt, Node (Reader [] EOF) (Writer [] None) (n_next n) (n_sys n));
  SetDeadline _ n := n;
  conn_in := n_in;
  conn_set_in rd n := Node rd (n_out n) (n_next n) (n_sys n);
  conn_out := n_out;
  conn_set_out := node_send;
|}.
#[global] Instance node_counter : Counter node := {|
  nextID := n_next; set_nextID i n := Node (n_in n) (n_out n) i (n_sys n) |}.

#[global] Instance node_deployed : Deployed demo_service no_one demo_cfg n_sys.
Proof.
  split; unfold goes_on.
  - done.
  - done.
  - done.
  - done.
  - intros wr n. cbn [conn_set_out node_net]. unfold node_send.
    destruct (node_serve _ _) as [[σ out]|] eqn:E; [|done]. by apply node_serve_run in E as [? _].
  - intros wr n _. cbn [conn_set_out conn_in node_net]. unfold node_send.
    destruct (node_serve _ _) as [[σ out]|] eqn:E; [right|by left].
    apply node_serve_run in E as [_ (c & cn & Hc & Hc' & Hin & Ho & ->)].
    exists c, cn, (length (w_out wr)), (length (w_out (c_writer cn))). by rewrite !firstn_all.
Qed.

(** The server as it starts, with a session. *)
Definition demo_server : server_state :=
  match NewTCPServer (TCP demo_cfg) with Ok sv => sv | _ => demo_start end.
Definition node0 : node := Node (Reader [] EOF) (Writer [] None) 0 (CSystem demo_server w1 []).

Lemma node0_started : started demo_service no_one demo_cfg n_sys node0.
Proof. exists demo_server, w1. split; [vm_compute; reflexivity|done]. Qed.

Definition demo_called : outcome call_error json * node :=
  Eval vm_compute in call (NewTCPClient demo_cfg) OpGetProfile demo_token None (Some Some) JNull 0 node0.

Lemma demo_called_runs :
  call (NewTCPClient demo_cfg) OpGetProfile demo_token None (Some Some) JNull 0 node0 = demo_called.
Proof. vm_compute. reflexivity. Qed.

Lemma call_end_to_end_witness :
  ∃ id evs v, handled_in demo_service evs (Request_sent (request id OpGetProfile demo_token None)) (Ok v) ∧
    demo_called.1 = Ok (jsent v).
Proof.
  destruct (call_end_to_end demo_service no_one demo_cfg n_sys OpGetProfile demo_token None Some JNull 0
    node0 demo_called.1 demo_called.2 node0_started ltac:(by intros v) demo_called_runs)
    as [(id & evs & _ & [[msg E]|[E|[(v & Hin & E)|(err & _ & E)]]]) _]; [discriminate E|discriminate E| |discriminate E].
  exists id, evs, v. split; [exact Hin|exact E].
Defined.
