(* ===== verification/EndToEndAuth.v ===== *)
(** * Authentication from the browser to the stores

    The handlers of the gateway in front of the running server of [EndToEnd.v], with
    requests of other clients and other programs at work beside it: what a status of
    200 or a cookie in a response says about the session and the password. *)

From S2P Require Import Prelude GoIO GoStrings GoEncoding Json Frame Errors Config Token Password Protocol Store Service ServiceSpec Memory Pictures TcpServer Calls CallsSpec Concurrent ConcurrentAnswers ConcurrentSafety TcpClient HttpApi EndToEnd.
From Stdlib Require Import Strings.Byte.
#[local] Open Scope Z_scope.

(** An issued token is plain text. *)
Lemma Issue_text m uid now nonce token exp :
  Issue m uid now (Ok nonce) = Ok (token, exp) → text token.
Proof.
  unfold Issue. cbn [mbind outcome_bind]. set (claims := encode (claims_json _)). clearbody claims.
  intros E. injection E as <- _. apply ValidString_ascii.
  assert (H : Forall is_ascii (b64_alphabet RawURLEncoding)) by decide_by_vm.
  apply Forall_app_2; [by apply b64_encode_ascii|]. apply Forall_cons_2; [by vm_compute|].
  unfold sign. by apply b64_encode_ascii.
Qed.

(** The token of a login result that was sent. *)
Lemma LoginResult_sent r result :
  LoginResult_of (jsent (LoginResult_json r)) = Some result → lr_Token result = sent (lr_Token r).
Proof.
  unfold LoginResult_of, LoginResult_json. cbn [jsent map get_struct get_members].
  intros (st1 & H1 & H2)%bind_Some. apply bind_Some in H2 as (st2 & H2 & H3).
  apply bind_Some in H3 as (st3 & H3 & [= <-]).
  change (Some (Build_LoginResult (sent (lr_Token r)) 0 UserProfile0) = Some st1) in H1.
  injection H1 as <-.
  apply bind_Some in H2 as (exp & _ & [= <-]). by apply bind_Some in H3 as (user & _ & [= <-]).
Qed.

Lemma raw_none : raw_out None.
Proof. by intros v. Qed.
Lemma raw_obj m : Forall member_out m → jdepth (JObj m) < max_depth → raw_out (Some (JObj m)).
Proof. intros Hm Hd v [= <-]. split; [by apply JObj_out|done]. Qed.

Section auth.
Context {W X : Type} `{!Net W, !Counter W, !Host X, !MySQL X} (s : Service X) (env : X → X → Prop)
  (cfg : Config) (sys : W → csystem X) `{!Deployed s env cfg sys}.
Context (clock : X → Z) (sess : X → string → option (Z * option Z)).
Context (Hsess : ∀ ss, sessions s = Some ss → SessionLaws ss clock sess).
Context (picture_form : Z → http_request → option (option form_file)).
Abbreviation started := (started s env cfg sys).
Abbreviation runs_by := (runs_by s env sys).

(** While the server went from [w] to [w'] it ran a request with this token as
    [uid], and with good reason. *)
Definition served_as (uid : Z) (token : string) (w w' : W) : Prop :=
  ∃ evs post ch req, runs_by (evs ++ post) w w' ∧ req_Token req = token ∧
    authorized s env sess (cs_world (sys w)) evs ch req uid.

(** A protected request that succeeded. *)
Lemma protected_handled evs req v w w' :
  runs_by evs w w' → req_Op req ∈ protected_ops → handled_in s evs req (Ok v) →
  ∃ uid, served_as uid (req_Token req) w w'.
Proof.
  intros Hby Hop (ch & (pre & post & ->)%list_elem_of_split & Hof).
  destruct (Hof _ _ _ req eq_refl eq_refl) as [_ Hok]. cbn in Hok.
  pose proof (next_protected s req (answered ch pre) Hop) as Hn. rewrite Hok in Hn.
  destruct Hn as [uid Hadm]. exists uid, pre, (Finished ch req (Ok v) :: post), ch, req.
  split; [done|]. split; [done|]. destruct Hby as [_ (x & Hx & _)%chistory_app].
  eapply authenticated_authorized; [done|exact Hx|].
  eapply admitted_authenticated; [exact Hx|by eapply run_of_app|done|done].
Qed.

(** One protected handler: it asks for the cookie and makes one call. *)
Lemma protected_call {A} op token body (out : json → option A) zero ok remaining w resp w' :
  started w → op ∈ protected_ops → sent op = op → raw_out body →
  on_call (Call (NewTCPClient cfg) op token body (Some out) zero remaining) ok w = (Ok resp, w') →
  h_Status resp = 200 → ∃ uid, served_as uid (sent token) w w'.
Proof.
  intros Hst Hop Hsent Hbody Hrun Hstatus.
  apply (on_call_live s env cfg sys) in Hrun as [_ [(id & evs & v & a & Hby & Hin & _ & _)|[? _]]]; [|done..].
  change (sent token) with (req_Token (Request_sent (request id op token body))).
  eapply protected_handled; [exact Hby| |exact Hin]. change (sent op ∈ protected_ops). by rewrite Hsent.
Qed.

(** A request of a session is answered with 200 only when it was served as a user. *)
Definition needs_session (h : http_request → eff W Empty_set http_response) : Prop :=
  ∀ r token w resp w', started w → tokenFromCookie cfg r = Some token → h r w = (Ok resp, w') →
    h_Status resp = 200 → ∃ uid, served_as uid (sent token) w w'.

Lemma me_call : needs_session (me cfg).
Proof.
  intros r token w resp w' Hst Htok Hrun Hstatus. unfold me in Hrun. rewrite Htok in Hrun.
  refine (protected_call _ _ _ _ _ _ _ _ _ _ Hst _ _ _ Hrun Hstatus);
    [decide_by_vm|reflexivity|apply raw_none].
Qed.

Lemma picture_call : needs_session (getProfilePicture cfg).
Proof.
  intros r token w resp w' Hst Htok Hrun Hstatus. unfold getProfilePicture in Hrun. rewrite Htok in Hrun.
  refine (protected_call _ _ _ _ _ _ _ _ _ _ Hst _ _ _ Hrun Hstatus);
    [decide_by_vm|reflexivity|apply raw_none].
Qed.

Lemma nickname_call : needs_session (updateNickname cfg).
Proof.
  intros r token w resp w' Hst Htok Hrun Hstatus. unfold updateNickname in Hrun. rewrite Htok in Hrun.
  destruct (decodeJSON _ _ _ _) as [nick|]; [|injection Hrun as <- _; discriminate Hstatus].
  refine (protected_call _ _ _ _ _ _ _ _ _ _ Hst _ _ _ Hrun Hstatus);
    [decide_by_vm|reflexivity|apply raw_obj; [auto with wire|done]].
Qed.

Lemma upload_call : needs_session (uploadProfilePicture cfg picture_form).
Proof.
  intros r token w resp w' Hst Htok Hrun Hstatus. unfold uploadProfilePicture in Hrun. rewrite Htok in Hrun.
  destruct (picture_form _ r) as [[file|]|]; [|injection Hrun as <- _; discriminate Hstatus..].
  destruct (uploadBody cfg file) as [body|[code msg|msg]|];
    [|injection Hrun as <- _; discriminate Hstatus..|discriminate Hrun].
  refine (protected_call _ _ _ _ _ _ _ _ _ _ Hst _ _ _ Hrun Hstatus);
    [decide_by_vm|reflexivity|apply raw_obj; [auto with wire|done]].
Qed.

(** C12: a protected route answers with 200 only for a good token, through the
    whole stack.  Let the gateway talk over an unreliable network to the running TCP
    server, with requests of others and other programs at work between any two calls
    of the stores.  When it answers a request to a protected route (profile,
    nickname, picture, upload) with 200, the request had a session cookie, and while
    it was served the server ran a request with the token in it that read the clock
    and verified the token (signature and expiry) for some user at that time and, if
    the server runs with a session store, then found a session of the same user for
    the token in the store, which was there at that moment. (Without a session
    store, the reduced mode, no session is asked for. Answers with another status
    are not constrained.) *)
Theorem gateway_authenticates h r w resp w' :
  started w → h ∈ protected_routes cfg picture_form → h r w = (Ok resp, w') → h_Status resp = 200 →
  ∃ token uid, tokenFromCookie cfg r = Some token ∧
    ∃ evs post ch req, runs_by (evs ++ post) w w' ∧ req_Token req = sent token ∧
      authorized s env sess (cs_world (sys w)) evs ch req uid.
Proof.
  intros Hst Hh Hrun Hstatus. unfold protected_routes in Hh. rewrite !elem_of_cons in Hh.
  destruct (tokenFromCookie cfg r) as [token|] eqn:Htok.
  - exists token. cut (∃ uid, served_as uid (sent token) w w').
    { intros [uid Hs]. by exists uid. }
    destruct Hh as [->|[->|[->|[->|Hh]]]]; [..|by apply not_elem_of_nil in Hh].
    + by apply (me_call _ _ _ _ _ Hst Htok Hrun).
    + by apply (nickname_call _ _ _ _ _ Hst Htok Hrun).
    + by apply (picture_call _ _ _ _ _ Hst Htok Hrun).
    + by apply (upload_call _ _ _ _ _ Hst Htok Hrun).
  - exfalso. assert (resp = unauthorized) as ->; [|done].
    destruct Hh as [->|[->|[->|[->|Hh]]]]; [..|by apply not_elem_of_nil in Hh];
      unfold me, updateNickname, getProfilePicture, uploadProfilePicture in Hrun; rewrite Htok in Hrun;
      by injection Hrun.
Qed.

End auth.

(** ** Logging in *)

Section login.
Context {W X : Type} `{!Net W, !Counter W, !Host X, !MySQL X} (s : Service X) (env : X → X → Prop)
  (cfg : Config) (sys : W → csystem X) `{!Deployed s env cfg sys}.
Abbreviation started := (started s env cfg sys).
Abbreviation runs_by := (runs_by s env sys).

Definition sent_login (body : LoginBody) : LoginBody :=
  Build_LoginBody (sent (Protocol.Username body)) (sent (Protocol.Password body)).

(** A login request as it was sent. *)
Lemma Handle_login {Y} `{!Host Y} (s' : Service Y) id body :
  Handle s' (Request_sent (request id OpLogin "" (Some (LoginBody_json body)))) =
  marshal LoginResult_json (Login s' (sent_login body)).
Proof.
  unfold Handle. rewrite decide_True by reflexivity.
  change (req_Body (Request_sent (request id OpLogin "" (Some (LoginBody_json body))))) with
    (Some (LoginBody_json (sent_login body))).
  unfold decodeBody. by rewrite LoginBody_rt.
Qed.

(** The answers a login that succeeded was given: the row of the user, whose salt
    and hash accept the password, and the time the token was issued at. *)
Lemma Login_script body given res w :
  Login (scripted s) body (Script given None) = (Ok res, w) →
  ∃ row a rest, given = ARow (Ok row) :: a :: rest ∧ text (lr_Token res) ∧
    VerifyPassword (Protocol.Password body) (PasswordSalt (auth_of row)) (PasswordHash (auth_of row))
      (PasswordIter (auth_of row)) = Ok true ∧
    (0 < ua_ID (auth_of row) < 2 ^ 64 → - 2 ^ 63 ≤ Unix (as_time a + ttl (tokens s)) < 2 ^ 63 →
     ∀ later, Unix later < Unix (as_time a + ttl (tokens s)) →
       Verify (tokens s) (lr_Token res) later = Ok (ua_ID (auth_of row))).
Proof.
  intros (user & x1 & now & x2 & nonce & x3 & token & exp & x4 & profile &
    Hget & Hver & Hnow & Hrand & Hissue & _ & _ & ->)%Login_Ok. cbn [lr_Token].
  unfold us_GetUserAuthByUsername, scripted, mysql_store, GetUserAuthByUsername, mapNoRows, mbind, eff_bind in Hget.
  cbn in Hget. destruct given as [|a1 given]; [done|]. cbn in Hget.
  destruct a1 as [| | |[row|e|]| | | |]; cbn in Hget; try discriminate Hget; simplify_eq.
  destruct given as [|a given]; cbn in Hnow; [by injection Hnow as <- <-|]. injection Hnow as <- <-.
  exists row, a, given. split; [done|]. split; [by eapply Issue_text|]. split; [done|].
  destruct (issued_token _ _ _ _ _ _ Hissue) as [-> _]. intros Hid Hrange later Hlater.
  rewrite (issued_verifies _ _ _ _ _ _ _ Hid Hrange Hissue). by rewrite (proj2 (Z.ltb_lt _ _)).
Qed.

(** The first two calls of a login. *)
Lemma login_first_calls id body c :
  next s (Request_sent (request id OpLogin "" (Some (LoginBody_json body)))) [] = Calling c →
  c = CQuery (WhereUsername (TrimSpace (sent (Protocol.Username body)))).
Proof.
  unfold next. rewrite Handle_login. unfold marshal, Login. cbn [sent_login Protocol.Username Protocol.Password].
  case_decide; [done|]. unfold mbind at 1 2, eff_bind at 1 2, on_not_found.
  cbn. by intros [= <-].
Qed.

Lemma login_second_call id body row c :
  next s (Request_sent (request id OpLogin "" (Some (LoginBody_json body)))) [ARow (Ok row)] = Calling c →
  c = CNow.
Proof.
  unfold next. rewrite Handle_login. unfold marshal, Login. cbn [sent_login Protocol.Username Protocol.Password].
  case_decide; [done|]. unfold on_not_found, us_GetUserAuthByUsername, scripted, mysql_store,
    GetUserAuthByUsername, mapNoRows, mbind, eff_bind, lift. cbn.
  destruct (VerifyPassword _ _ _ _) as [[]| |]; cbn; try done. by intros [= <-].
Qed.

(** What the log of a login that succeeded says: MySQL answered the query for the
    name with [row], and then the clock said [now]. *)
Lemma login_handled id body evs v w w' :
  let req := Request_sent (request id OpLogin "" (Some (LoginBody_json body))) in
  runs_by evs w w' → handled_in s evs req (Ok v) →
  ∃ res p1 ch row p2 now p3, v = LoginResult_json res ∧
    evs = p1 ++ Called ch req (CQuery (WhereUsername (TrimSpace (sent (Protocol.Username body))))) (ARow (Ok row)) ::
          p2 ++ Called ch req CNow (ATime now) :: p3 ∧
    text (lr_Token res) ∧
    VerifyPassword (sent (Protocol.Password body)) (PasswordSalt (auth_of row)) (PasswordHash (auth_of row))
      (PasswordIter (auth_of row)) = Ok true ∧
    (0 < ua_ID (auth_of row) < 2 ^ 64 → - 2 ^ 63 ≤ Unix (now + ttl (tokens s)) < 2 ^ 63 →
     ∀ later, Unix later < Unix (now + ttl (tokens s)) →
       Verify (tokens s) (lr_Token res) later = Ok (ua_ID (auth_of row))).
Proof.
  intros req [_ Hh] (ch & (pre & post & Epre)%list_elem_of_split & Hof).
  destruct (Hof _ _ _ req Epre eq_refl) as [_ Hok]. cbn in Hok. unfold next in Hok.
  unfold req in Hok at 1. rewrite Handle_login in Hok.
  destruct (marshal _ _ _) as [r x] eqn:Hrun. destruct (sc_call x); [done|]. injection Hok as ->.
  unfold marshal in Hrun. apply eff_bind_run in Hrun as (res & x' & Hlogin & [= <- _]).
  apply Login_script in Hlogin as (row & a & rest & Hgiven & Htext & Hver & Htok).
  destruct (answered_first _ _ _ _ Hgiven) as (p1 & req1 & c1 & q & -> & Hp1 & Hq).
  destruct (answered_first _ _ _ _ Hq) as (p2 & req2 & c2 & p3 & -> & Hp2 & _).
  rewrite <- app_assoc in Epre. cbn in Epre. rewrite <- app_assoc in Epre. cbn in Epre.
  destruct (Hof _ _ _ req1 Epre eq_refl) as [-> E1]. cbn in E1. rewrite Hp1 in E1.
  apply login_first_calls in E1 as ->.
  set (query := CQuery _) in *.
  destruct (Hof (p1 ++ Called ch req query (ARow (Ok row)) :: p2) (Called ch req2 c2 a)
    (p3 ++ Finished ch req (Ok (LoginResult_json res)) :: post) req2) as [-> E2];
    [by rewrite Epre, <- app_assoc|done|].
  cbn in E2. rewrite answered_app in E2. unfold answered in E2, Hp1, Hp2. cbn in E2.
  rewrite Hp1, Hp2, decide_True in E2 by done. apply login_second_call in E2 as ->.
  destruct (CNow_answer s env _ _ _ ch req a Hh) as [now ->]; [rewrite Epre; set_solver|].
  exists res, p1, ch, row, p2, now, (p3 ++ Finished ch req (Ok (LoginResult_json res)) :: post). done.
Qed.

(** C11: a session cookie proves a password, through the whole stack.  Let the
    gateway talk over an unreliable network to the running TCP server, with requests
    of others and other programs at work between any two calls of the stores.  When
    the gateway answers a login without a cookie, the status is not 200.  When it
    sets a cookie, the status is 200, the cookie is the HTTP-only session cookie,
    and while the request was served MySQL answered the server's query for the name
    in the body with a row whose salt and hash accept the password in the body; the
    cookie's value is a token that is accepted for exactly the user of that row until
    it expires, counted from the time the server read from the clock after that. *)
Theorem login_end_to_end r w resp w' :
  started w → login cfg r w = (Ok resp, w') →
  match h_SetCookie resp with
  | None => h_Status resp ≠ 200
  | Some ck => h_Status resp = 200 ∧ ck_Name ck = CookieName (HTTP cfg) ∧ ck_HttpOnly ck = true ∧
      ∃ body p1 ch req row p2 now p3,
        decodeJSON ["username"; "password"] LoginBody_of (MaxBodyBytes (HTTP cfg)) (r_Body r) = Some body ∧
        runs_by (p1 ++
          Called ch req (CQuery (WhereUsername (TrimSpace (sent (Protocol.Username body))))) (ARow (Ok row)) ::
          p2 ++ Called ch req CNow (ATime now) :: p3) w w' ∧
        VerifyPassword (sent (Protocol.Password body)) (PasswordSalt (auth_of row)) (PasswordHash (auth_of row))
          (PasswordIter (auth_of row)) = Ok true ∧
        (0 < ua_ID (auth_of row) < 2 ^ 64 → - 2 ^ 63 ≤ Unix (now + ttl (tokens s)) < 2 ^ 63 →
         ∀ later, Unix later < Unix (now + ttl (tokens s)) →
           Verify (tokens s) (ck_Value ck) later = Ok (ua_ID (auth_of row)))
  end.
Proof.
  intros Hst. unfold login. destruct (decodeJSON _ _ _ _) as [body|] eqn:Hdec; [|by intros [= <- <-]].
  intros Hrun. apply (on_call_live s env cfg sys) in Hrun
    as [_ [(id & evs & v & result & Hby & Hin & Hres & ->)|[? ->]]];
    [|done|done|apply raw_obj; [auto with wire|done]].
  destruct (login_handled _ _ _ _ _ _ Hby Hin)
    as (res & p1 & ch & row & p2 & now & p3 & -> & -> & Htext & Hver & Htok).
  apply LoginResult_sent in Hres. rewrite (sent_valid _ Htext) in Hres. cbn [writeJSON h_SetCookie h_Status].
  split_and!; [done|done|done|]. eexists body, p1, ch, _, row, p2, now, p3. split_and!; [done|exact Hby|done|].
  unfold session_cookie. cbn [ck_Value]. by rewrite Hres.
Qed.
End login.

(** ** In memory *)

Definition session_request : http_request :=
  {| r_Cookies := [(CookieName (HTTP demo_cfg), demo_token)]; r_Body := Reader [] EOF; r_Remaining := None |}.
Definition no_form (_ : Z) (_ : http_request) : option (option form_file) := None.

Definition response_of (r : outcome Empty_set http_response) : http_response :=
  match r with Ok resp => resp | _ => unauthorized end.

Definition demo_me : outcome Empty_set http_response * node :=
  Eval vm_compute in me demo_cfg session_request node0.

Lemma demo_me_runs : me demo_cfg session_request node0 = (Ok (response_of demo_me.1), demo_me.2).
Proof. vm_compute. reflexivity. Qed.

Lemma gateway_authenticates_witness :
  ∃ token uid evs ch req, tokenFromCookie demo_cfg session_request = Some token ∧
    req_Token req = sent token ∧ authorized demo_service no_one memory_sess w1 evs ch req uid.
Proof.
  destruct (gateway_authenticates demo_service no_one demo_cfg n_sys w_clock memory_sess demo_sessions no_form
    (me demo_cfg) session_request node0 (response_of demo_me.1) demo_me.2 node0_started)
    as (token & uid & Htok & evs & post & ch & req & _ & Hreq & Hau).
  - left.
  - exact demo_me_runs.
  - vm_compute. reflexivity.
  - exists token, uid, evs, ch, req. split; [exact Htok|]. split; [exact Hreq|exact Hau].
Defined.

(** A login with the right password. *)
Definition right_login : http_request :=
  {| r_Cookies := [];
     r_Body := Reader (encode (LoginBody_json (Build_LoginBody "user00000007" "Password123!"))) EOF;
     r_Remaining := None |}.

Definition node_out : node := Node (Reader [] EOF) (Writer [] None) 0 (CSystem demo_server w0 []).
Lemma node_out_started : started demo_service no_one demo_cfg n_sys node_out.
Proof. exists demo_server, w0. split; [vm_compute; reflexivity|constructor]. Qed.

Definition demo_signed_in : outcome Empty_set http_response * node :=
  Eval vm_compute in login demo_cfg right_login node_out.

Lemma demo_signed_in_runs :
  login demo_cfg right_login node_out = (Ok (response_of demo_signed_in.1), demo_signed_in.2).
Proof. vm_compute. reflexivity. Qed.

(** The cookie it sets. *)
Definition demo_cookie : cookie :=
  session_cookie demo_cfg (Build_LoginResult demo_token (lr_ExpiresAt demo_login) UserProfile0).

Lemma demo_cookie_set : h_SetCookie (response_of demo_signed_in.1) = Some demo_cookie.
Proof. vm_compute. reflexivity. Qed.

Lemma login_end_to_end_witness :
  ∃ body row,
    decodeJSON ["username"; "password"] LoginBody_of (MaxBodyBytes (HTTP demo_cfg)) (r_Body right_login) = Some body ∧
    VerifyPassword (sent (Protocol.Password body)) (PasswordSalt (auth_of row)) (PasswordHash (auth_of row))
      (PasswordIter (auth_of row)) = Ok true.
Proof.
  pose proof (login_end_to_end demo_service no_one demo_cfg n_sys right_login node_out
    (response_of demo_signed_in.1) demo_signed_in.2 node_out_started demo_signed_in_runs) as H.
  rewrite demo_cookie_set in H.
  destruct H as (_ & _ & _ & body & p1 & ch & req & row & p2 & now & p3 & Hdec & _ & Hver & _).
  exists body, row. split; [exact Hdec|exact Hver].
Defined.
