(* ===== verification/OperatorMain.v ===== *)
(** * The operator's main program ([src/operator/cmd/main.go])

    [main] turns its flags into the options of two TLS servers, for metrics and
    for webhooks, creates the manager, registers the controller, the certificate
    watchers and the health checks, and starts the manager.  The TLS options of
    the two servers are Go slices that start as one slice and are appended to
    separately, so slices are modelled with their arrays and capacities:
    [append] writes into a shared array when there is room.

    controller-runtime is a parameter: a class with one operation per call. *)

From S2P Require Import Prelude GoStrings Kube GoPath Errors.

(** ** Slices *)

Section slices.
Context {A : Type}.

(** The arrays allocated so far; a cell that was not written is [None]. *)
Abbreviation arrays := (list (list (option A))).

Record slice := Slice { s_array : nat; s_len : nat; s_cap : nat }.
Definition nil_slice : slice := Slice 0 0 0.

Definition elements (h : arrays) (s : slice) : list (option A) :=
  take (s_len s) (default [] (h !! s_array s)).

(** The capacity the runtime gives to an array that replaces one of capacity
    [old] and has to hold [need] elements. *)
Context (grow : nat → nat → nat).

(** [append(s, a)] *)
Definition append_slice (s : slice) (a : A) (h : arrays) : slice * arrays :=
  if decide (s_len s < s_cap s)%nat then
    (Slice (s_array s) (S (s_len s)) (s_cap s), alter (<[s_len s := Some a]>) (s_array s) h)
  else
    let cap := grow (s_cap s) (S (s_len s)) in
    (Slice (length h) (S (s_len s)) cap,
     h ++ [elements h s ++ Some a :: replicate (cap - S (s_len s)) None]).
End slices.

(** ** TLS options and flags *)

Abbreviation arrays A := (list (list (option A))).

Section main.
(** Certificate watchers. *)
Context {T : Type}.

Record tls_config := { NextProtos : list string; GetCertificate : option T }.

(** The functions that are put into [TLSOpts]. *)
Inductive tls_option := disableHTTP2 | use_certificate (w : T).

Definition apply_option (c : tls_config) (o : tls_option) : tls_config :=
  match o with
  | disableHTTP2 => {| NextProtos := ["http/1.1"]; GetCertificate := GetCertificate c |}
  | use_certificate w => {| NextProtos := NextProtos c; GetCertificate := Some w |}
  end.

Record flags := {
  metricsAddr : string; metricsCertPath : string; metricsCertName : string;
  metricsCertKey : string; webhookCertPath : string; webhookCertName : string;
  webhookCertKey : string; enableLeaderElection : bool; probeAddr : string;
  secureMetrics : bool; enableHTTP2 : bool;
}.

(** The values without arguments on the command line. *)
Definition default_flags : flags :=
  {| metricsAddr := "0"; metricsCertPath := ""; metricsCertName := "tls.crt";
     metricsCertKey := "tls.key"; webhookCertPath := ""; webhookCertName := "tls.crt";
     webhookCertKey := "tls.key"; enableLeaderElection := false; probeAddr := ":8081";
     secureMetrics := true; enableHTTP2 := false |}.

(** What the manager is created with: [TLSOpts] of both servers as the manager
    finds them in memory. *)
Record manager_options := {
  BindAddress : string; SecureServing : bool; with_authentication : bool;
  metrics_TLSOpts : list (option tls_option); webhook_TLSOpts : list (option tls_option);
  HealthProbeBindAddress : string; LeaderElection : bool; LeaderElectionID : string;
}.

(** ** controller-runtime *)

Context {X : Type}.
Class Runtime := {
  add_to_scheme : string → eff X error unit;       (* AddToScheme *)
  new_watcher : string → string → eff X error T;   (* certwatcher.New *)
  get_config : eff X error unit;                   (* ctrl.GetConfigOrDie *)
  new_manager : manager_options → eff X error unit;
  build_controller : string → eff X error unit;    (* For, Named, Build *)
  go_full_sync : eff X error unit;                 (* go func() { ... }() *)
  watch_channel : eff X error unit;                (* c.Watch(source.Channel(...)) *)
  add_runnable : T → eff X error unit;             (* mgr.Add *)
  add_healthz : string → eff X error unit;
  add_readyz : string → eff X error unit;
  start_manager : eff X error unit;
}.
Context `{!Runtime} (grow : nat → nat → nat).

(** [utilruntime.Must] *)
Definition must (m : eff X error unit) : eff X error unit := λ x,
  match m x with (Err _, x') => (Panic, x') | r => r end.

Definition init : eff X error unit :=
  _ ← must (add_to_scheme "client-go");
  must (add_to_scheme (GroupVersion_String GroupVersion)).

Definition SetupWithManager : eff X error unit :=
  _ ← build_controller "dbcpentryservice";
  _ ← go_full_sync;
  watch_channel.

(** [if len(path) > 0 { watcher, err = certwatcher.New(...) }] *)
Definition open_watcher (path name key : string) : eff X error (option T) :=
  if decide (path = "") then mret None
  else w ← new_watcher (JoinPath path name) (JoinPath path key); mret (Some w).

(** From [NewManager] on. *)
Definition run_manager (opts : manager_options) (metrics webhook : option T) : eff X error unit :=
  _ ← get_config;
  _ ← new_manager opts;
  _ ← SetupWithManager;
  _ ← (match metrics with Some w => add_runnable w | None => mret tt end);
  _ ← (match webhook with Some w => add_runnable w | None => mret tt end);
  _ ← add_healthz "healthz";
  _ ← add_readyz "readyz";
  start_manager.

Definition options_of (f : flags) (metrics webhook : list (option tls_option)) :
    manager_options :=
  {| BindAddress := metricsAddr f; SecureServing := secureMetrics f;
     with_authentication := secureMetrics f;
     metrics_TLSOpts := metrics; webhook_TLSOpts := webhook;
     HealthProbeBindAddress := probeAddr f; LeaderElection := enableLeaderElection f;
     LeaderElectionID := "86dfc35e.shopee.io" |}.

(** [if watcher != nil { opts = append(opts, func ...) }] *)
Definition append_certificate (s : slice) (w : option T) (h : arrays tls_option) :
    slice * arrays tls_option :=
  match w with
  | Some w => append_slice grow s (use_certificate w) h
  | None => (s, h)
  end.

(** [tlsOpts] after [if !enableHTTP2]. *)
Definition shared_slice (f : flags) : slice * arrays tls_option :=
  if enableHTTP2 f then (nil_slice, []) else append_slice grow nil_slice disableHTTP2 [].

(** [main], with the arrays of its slices in memory; [os.Exit(1)] is an error. *)
Definition main (f : flags) : eff X error unit :=
  _ ← init;
  let '(tlsOpts, h) := shared_slice f in
  let webhookTLSOpts := tlsOpts in
  webhookCertWatcher ← open_watcher (webhookCertPath f) (webhookCertName f) (webhookCertKey f);
  let '(webhookTLSOpts, h) := append_certificate webhookTLSOpts webhookCertWatcher h in
  let metricsTLSOpts := tlsOpts in
  metricsCertWatcher ← open_watcher (metricsCertPath f) (metricsCertName f) (metricsCertKey f);
  let '(metricsTLSOpts, h) := append_certificate metricsTLSOpts metricsCertWatcher h in
  run_manager (options_of f (elements h metricsTLSOpts) (elements h webhookTLSOpts))
    metricsCertWatcher webhookCertWatcher.

(** ** What the servers get *)

(** The options of one server, as its flags ask for. *)
Definition wanted_options (f : flags) (w : option T) : list tls_option :=
  (if enableHTTP2 f then [] else [disableHTTP2]) ++
  match w with Some w => [use_certificate w] | None => [] end.

(** [main] with values instead of shared arrays. *)
Definition main_values (f : flags) : eff X error unit :=
  _ ← init;
  webhook ← open_watcher (webhookCertPath f) (webhookCertName f) (webhookCertKey f);
  metrics ← open_watcher (metricsCertPath f) (metricsCertName f) (metricsCertKey f);
  run_manager (options_of f (Some <$> wanted_options f metrics) (Some <$> wanted_options f webhook))
    metrics webhook.

Definition configure (opts : list tls_option) (c : tls_config) : tls_config :=
  foldl apply_option c opts.

Lemma configure_wanted f w c :
  configure (wanted_options f w) c =
    {| NextProtos := if enableHTTP2 f then NextProtos c else ["http/1.1"];
       GetCertificate := match w with Some w => Some w | None => GetCertificate c end |}.
Proof. destruct c; unfold wanted_options; by destruct (enableHTTP2 f), w. Qed.

Lemma append_certificates f w m s h sw hw sm hm :
  grow 0 1 = 1%nat → shared_slice f = (s, h) →
  append_certificate s w h = (sw, hw) → append_certificate s m hw = (sm, hm) →
  elements hm sm = Some <$> wanted_options f m ∧ elements hm sw = Some <$> wanted_options f w.
Proof.
  intros Hgrow. unfold shared_slice, append_certificate, wanted_options, append_slice.
  destruct (enableHTTP2 f); cbn; rewrite ?Hgrow; intros [= <- <-]; destruct w, m; cbn;
    repeat intros [= <- <-]; cbn; auto.
Qed.

Lemma main_as_values f x : grow 0 1 = 1%nat → main f x = main_values f x.
Proof.
  intros Hgrow. unfold main, main_values. apply bind_ext; [done|]. intros [] x1.
  destruct (shared_slice f) as [s h] eqn:Hs.
  apply bind_ext; [done|]. intros w x2. destruct (append_certificate s w h) as [sw hw] eqn:Hw.
  apply bind_ext; [done|]. intros m x3. destruct (append_certificate s m hw) as [sm hm] eqn:Hm.
  by destruct (append_certificates _ _ _ _ _ _ _ _ _ Hgrow Hs Hw Hm) as [-> ->].
Qed.

(** C27: the TLS options of the metrics server and of the webhook server start as
    one Go slice.  When the runtime gives an empty slice that grows by one a
    capacity of one, [main] nevertheless behaves, for all flags, as if each server
    had a list of its own: HTTP/2 is off on both unless [--enable-http2] is given,
    and a server whose certificate directory is given serves the certificate
    watched there, never the one of the other server. *)
Theorem main_separates_servers f x (c : tls_config) :
  grow 0 1 = 1%nat →
  main f x = main_values f x ∧
  ∀ w, configure (wanted_options f w) c =
    {| NextProtos := if enableHTTP2 f then NextProtos c else ["http/1.1"];
       GetCertificate := match w with Some w => Some w | None => GetCertificate c end |}.
Proof. intros Hgrow. split; [by apply main_as_values|]. intros w. apply configure_wanted. Qed.
End main.
Arguments Runtime : clear implicits.

(** ** Evaluation

    A runtime that records what it is asked to do; a watcher is the path of its
    certificate, and only certificates below [/certs] can be read. *)

Inductive request :=
  | Scheme (group : string) | Watcher (cert key : string) | GetConfig
  | Manager (opts : manager_options (T := string)) | Controller (name : string) | FullSync
  | WatchChannel | Runnable (w : string) | Healthz (name : string) | Readyz (name : string)
  | Started.

Definition record (r : request) : eff (list request) error unit := λ x, (Ok tt, x ++ [r]).

#[global] Instance recording : Runtime string (list request) := {|
  add_to_scheme g := record (Scheme g);
  new_watcher cert key :=
    if String.prefix "/certs" cert
    then _ ← record (Watcher cert key); mret cert
    else throw (Plain "no such file or directory");
  get_config := record GetConfig;
  new_manager opts := record (Manager opts);
  build_controller name := record (Controller name);
  go_full_sync := record FullSync;
  watch_channel := record WatchChannel;
  add_runnable w := record (Runnable w);
  add_healthz name := record (Healthz name);
  add_readyz name := record (Readyz name);
  start_manager := record Started;
|}.

Definition with_certs (metrics webhook : string) : flags :=
  {| metricsAddr := ":8443"; metricsCertPath := metrics; metricsCertName := "tls.crt";
     metricsCertKey := "tls.key"; webhookCertPath := webhook; webhookCertName := "tls.crt";
     webhookCertKey := "tls.key"; enableLeaderElection := true; probeAddr := ":8081";
     secureMetrics := true; enableHTTP2 := false |}.

Lemma main_separates_servers_witness :
  main (λ _ need, need) (with_certs "/certs/metrics" "/certs/webhook") [] =
    (Ok tt,
     [Scheme "client-go"; Scheme "dbcp.shopee.io/v1alpha1";
      Watcher "/certs/webhook/tls.crt" "/certs/webhook/tls.key";
      Watcher "/certs/metrics/tls.crt" "/certs/metrics/tls.key"; GetConfig;
      Manager
        {| BindAddress := ":8443"; SecureServing := true; with_authentication := true;
           metrics_TLSOpts := [Some disableHTTP2; Some (use_certificate "/certs/metrics/tls.crt")];
           webhook_TLSOpts := [Some disableHTTP2; Some (use_certificate "/certs/webhook/tls.crt")];
           HealthProbeBindAddress := ":8081"; LeaderElection := true;
           LeaderElectionID := "86dfc35e.shopee.io" |};
      Controller "dbcpentryservice"; FullSync; WatchChannel;
      Runnable "/certs/metrics/tls.crt"; Runnable "/certs/webhook/tls.crt";
      Healthz "healthz"; Readyz "readyz"; Started]).
Proof.
  rewrite (proj1 (main_separates_servers (λ _ need, need)
    (with_certs "/certs/metrics" "/certs/webhook") []
    {| NextProtos := []; GetCertificate := None |} eq_refl)).
  vm_compute. reflexivity.
Defined.

(** Without arguments both servers speak HTTP/1.1 and make up a certificate. *)
Example default_servers :
  Manager (options_of default_flags [Some disableHTTP2] [Some disableHTTP2])
  ∈ (main (λ _ need, need) default_flags []).2.
Proof. vm_compute. repeat constructor. Qed.

(** A certificate that cannot be read ends the program before a manager exists. *)
Example missing_certificate :
  (main (λ _ need, need) (with_certs "/nowhere" "") []).1 =
    Err (Plain "no such file or directory").
Proof. vm_compute. reflexivity. Qed.

(** With a roomier first array the two appends would write the same cell, and
    the webhook server would serve the certificate of the metrics server. *)
Example shared_array_mixes_certificates :
  Manager (options_of (with_certs "/certs/metrics" "/certs/webhook")
    [Some disableHTTP2; Some (use_certificate "/certs/metrics/tls.crt")]
    [Some disableHTTP2; Some (use_certificate "/certs/metrics/tls.crt")])
  ∈ (main (λ _ need, (4 * need)%nat) (with_certs "/certs/metrics" "/certs/webhook") []).2.
Proof. vm_compute. repeat constructor. Qed.
