(* ===== verification/Commands.v ===== *)
(** * The other commands ([src/cmd/httpd], [src/cmd/migrate], [src/cmd/seed],
    [src/cloud_native_entry_task/controllers/cmd/dbcp-controller])

    Each [main] loads its configuration, opens what it needs and runs its part of
    the program; [log.Fatal] and a non-zero exit are an error.  Flags, logging and
    signals are arguments. *)

From S2P Require Import Prelude GoStrings GoPath GoIO Errors Config Store Seed TcpClient HttpApi Kube KubeClient Legacy.

(** ** [httpd] *)

Section httpd.
Context {W : Type} `{!Net W, !Counter W}.
Context (picture_form : Z → http_request → option (option form_file)).
(** [http.Server.ListenAndServe] on an address, with a handler per route, until
    the server is shut down. *)
Context (http_serve : string → list (string * (http_request → eff W Empty_set http_response)) →
  eff W error unit).

(** [Server]: its configuration and the routes; the handlers reach the backend
    through a client of the same configuration, which [main] makes. *)
Record Server := {
  srv_cfg : Config;
  srv_mux : list (string * (http_request → eff W Empty_set http_response));
}.

Definition NewServer (cfg : Config) : Server :=
  {| srv_cfg := cfg; srv_mux := routes cfg picture_form |}.

Definition Handler (s : Server) : list (string * (http_request → eff W Empty_set http_response)) :=
  srv_mux s.

(** [ListenAndServe] takes a shutdown for success. *)
Definition ListenAndServe (s : Server) : eff W error unit := λ w,
  match http_serve (http_Addr (HTTP (srv_cfg s))) (Handler s) w with
  | (Err e, w') => (if errors_Is e http_ErrServerClosed then Ok tt else Err e, w')
  | r => r
  end.

Definition httpd_main (file : option (outcome error bytes)) (env : environ) : eff W error unit :=
  cfg ← lift (Load file env);
  ListenAndServe (NewServer cfg).

(** The gateway comes up on the configured address exactly when the
    configuration is complete; it is never started on a partial one. *)
Lemma httpd_main_serves file env cfg w :
  Load file env = Ok cfg → httpd_main file env w = ListenAndServe (NewServer cfg) w.
Proof. intros Hload. unfold httpd_main. by rewrite Hload. Qed.
End httpd.

(** ** [migrate] and [seed] *)

Section database.
Context {W : Type} `{!MySQL W, !SqlDB W}.

(** [mysqlstore.Open] with the settings of the configuration. *)
Definition db_Open (cfg : DatabaseConfig) : eff W error unit :=
  Open (DSN cfg) (MaxOpenConns cfg) (MaxIdleConns cfg) (ConnMaxLifetime cfg).

Definition migrate_main (file : option (outcome error bytes)) (env : environ)
    (schema : outcome error string) : eff W error unit :=
  cfg ← lift (Load file env);
  _ ← db_Open (Database cfg);
  _ ← db_Ping;
  Migrate schema.

(** The flag overrides the configured number if it is positive. *)
Definition seed_count (cfg : Config) (countFlag : Z) : Z :=
  if 0 <? countFlag then countFlag else Count (Config.Seed cfg).

(** [main] of [seed]: the number of users in the table is logged at the end. *)
Inductive seed_main (rand : Z → outcome error bytes) (file : option (outcome error bytes))
    (env : environ) (countFlag : Z) (w : W) : outcome error Z → W → Prop :=
  | seed_main_config e : Load file env = Err e → seed_main rand file env countFlag w (Err e) w
  | seed_main_open cfg e w1 :
      Load file env = Ok cfg → db_Open (Database cfg) w = (Err e, w1) →
      seed_main rand file env countFlag w (Err e) w1
  | seed_main_failed cfg e w1 w2 :
      Load file env = Ok cfg → db_Open (Database cfg) w = (Ok tt, w1) →
      seed rand cfg (seed_count cfg countFlag) w1 (Err e) w2 →
      seed_main rand file env countFlag w (Err e) w2
  | seed_main_done cfg w1 w2 r w3 :
      Load file env = Ok cfg → db_Open (Database cfg) w = (Ok tt, w1) →
      seed rand cfg (seed_count cfg countFlag) w1 (Ok tt) w2 → CountUsers w2 = (r, w3) →
      seed_main rand file env countFlag w r w3.
End database.

(** ** [dbcp-controller] *)

Section kubeconfig.
(** client-go and the operating system: a configuration from a file, the one a
    pod is given, the home directory, and whether a file exists. *)
Context {W C : Type} (BuildConfigFromFlags : string → eff W api_error C)
  (InClusterConfig : eff W api_error C) (UserHomeDir : eff W api_error string)
  (Stat : string → eff W api_error unit).

(** [if v, err := m(); err == nil { f(v) }], and [next] otherwise. *)
Definition if_ok {A B} (m : eff W api_error A) (f : A → eff W api_error B)
    (next : eff W api_error B) : eff W api_error B := λ w,
  match m w with
  | (Ok a, w) => f a w
  | (Err _, w) => next w
  | (Panic, w) => (Panic, w)
  end.

Definition buildKubeConfig (kubeconfig : string) : eff W api_error C :=
  if decide (kubeconfig ≠ "") then BuildConfigFromFlags kubeconfig
  else
    if_ok InClusterConfig mret
      (if_ok UserHomeDir
         (λ home,
            let defaultPath :=
              string_of (join [bytes_of home; bytes_of ".kube"; bytes_of "config"]) in
            if_ok (Stat defaultPath) (λ _, BuildConfigFromFlags defaultPath) InClusterConfig)
         InClusterConfig).

(** The flag comes first; a pod uses the configuration it is given, whatever lies
    in its home directory. *)
Lemma buildKubeConfig_precedence kubeconfig cfg w w' :
  (kubeconfig ≠ "" → buildKubeConfig kubeconfig w = BuildConfigFromFlags kubeconfig w) ∧
  (InClusterConfig w = (Ok cfg, w') → buildKubeConfig "" w = (Ok cfg, w')).
Proof.
  split.
  - intros Hk. unfold buildKubeConfig. by rewrite decide_True.
  - intros Hin. unfold buildKubeConfig, if_ok. by rewrite decide_False, Hin by auto.
Qed.
End kubeconfig.

Section controller.
Context {U Q W C : Type} `{!Unstructured U, !ParseQuantity Q, !MapRange, !SelectorSyntax}.
Abbreviation R := (ResourceRequirements Q).
Context `{!KubeAPI R W, !CoreClient W, !DynamicClient U W, !Operator.ResourceJSON R, !SortSlice}.
Context (BuildConfigFromFlags : string → eff W api_error C)
  (InClusterConfig : eff W api_error C) (UserHomeDir : eff W api_error string)
  (Stat : string → eff W api_error unit)
  (kubernetes_NewForConfig dynamic_NewForConfig : C → eff W api_error unit).

Definition context_Canceled : api_error := ApiOther "context canceled".

(** The controller runs until a signal cancels its context, which is no error. *)
Definition run_controller (opts : Legacy.Options) (ticks : nat) : api W unit := λ w,
  match Legacy.Run (U := U) (Q := Q) ticks (Legacy.opt_Namespace (Legacy.New opts)) context_Canceled w with
  | (Err e, w') => (if decide (e = context_Canceled) then Ok tt else Err e, w')
  | r => r
  end.

(** The flags with their defaults: [None] is a flag that is not given.  The
    namespace is taken from the environment then. *)
Definition controller_flags (env : environ) (kubeconfig namespace : option string) (resync : option Z) :
    string * Legacy.Options :=
  (default "" kubeconfig,
   {| Legacy.opt_Namespace := default (Getenv env "WATCH_NAMESPACE") namespace;
      Legacy.opt_Resync := default (5 * 1000000000) resync |}).

Definition controller_main (env : environ) (kubeconfig namespace : option string) (resync : option Z)
    (ticks : nat) : api W unit :=
  let '(kubeconfig, opts) := controller_flags env kubeconfig namespace resync in
  cfg ← buildKubeConfig BuildConfigFromFlags InClusterConfig UserHomeDir Stat kubeconfig;
  _ ← kubernetes_NewForConfig cfg;
  _ ← dynamic_NewForConfig cfg;
  run_controller opts ticks.

(** Without flags, the controller watches the namespace of its environment every
    five seconds; a resync that is not positive falls back to the default. *)
Lemma controller_flags_default env resync :
  Legacy.New (controller_flags env None None resync).2 =
  {| Legacy.opt_Namespace := Getenv env "WATCH_NAMESPACE";
     Legacy.opt_Resync := match resync with
                          | Some d => if d <=? 0 then Legacy.defaultSync else d
                          | None => 5 * 1000000000
                          end |}.
Proof. by destruct resync. Qed.

(** No error of the API ends the controller once it runs: it stops when it is
    told to, or it crashes. *)
Lemma run_controller_stops opts ticks (w : W) :
  (run_controller opts ticks w).1 = Ok tt ∨ (run_controller opts ticks w).1 = Panic.
Proof.
  unfold run_controller. generalize (Legacy.opt_Namespace (Legacy.New opts)) as ns. intros ns.
  revert w. induction ticks as [|ticks IH]; intros w; cbn [Legacy.Run];
    destruct (Legacy.reconcileAll ns w) as [[log|e|] w1]; cbn; auto;
    by rewrite decide_True; left.
Qed.
End controller.
