(* ===== verification/E2eUtils.v ===== *)
(** * The helpers of the operator's end-to-end tests
    ([src/operator/test/utils/utils.go])

    The helpers run [kubectl] and [kind] in the directory of the project and edit
    files of the scaffold.  The process, its environment, the files and the
    commands are a class [Host]; what is written to the log of the test runner is
    left out.  A [bytes.Buffer] never fails, so the branches for its errors do not
    exist here. *)

From S2P Require Import Prelude GoStrings Errors.
From Stdlib Require Import Strings.Byte.

(** ** Parts of [strings] and [bufio] *)

(** [strings.Index(s, sub)]; [None] is -1. *)
Fixpoint Index (s sub : bytes) : option nat :=
  match strip_prefix sub s with
  | Some _ => Some 0%nat
  | None => match s with [] => None | _ :: r => S <$> Index r sub end
  end.

Definition Contains (s sub : bytes) : bool := bool_decide (is_Some (Index s sub)).

(** [strings.ReplaceAll(s, old, new)] for a non-empty [old]; every round consumes
    input. *)
Fixpoint replace_all (fuel : nat) (old new s : bytes) : bytes :=
  match fuel, s with
  | O, _ | _, [] => s
  | S fuel, b :: r =>
      match strip_prefix old s with
      | Some rest => new ++ replace_all fuel old new rest
      | None => b :: replace_all fuel old new r
      end
  end.
Definition ReplaceAll (s old new : string) : string :=
  string_of (replace_all (String.length s) (bytes_of old) (bytes_of new) (bytes_of s)).

(** [strings.TrimPrefix(s, prefix)]. *)
Definition TrimPrefix (s prefix : bytes) : bytes := default s (strip_prefix prefix s).

(** [bufio.ScanLines] drops one carriage return at the end of a line. *)
Definition dropCR (l : bytes) : bytes := trim_suffix [x0d] l.

(** The last line need not end in a newline; an empty one is no line. *)
Fixpoint drop_last_empty (ls : list bytes) : list bytes :=
  match ls with
  | [] | [[]] => []
  | l :: ls => l :: drop_last_empty ls
  end.

(** [bufio.Scanner] stops at a line that does not fit its buffer of
    [MaxScanTokenSize]. *)
Definition MaxScanTokenSize : Z := 64 * 1024.
Fixpoint scan_tokens (ls : list bytes) : list bytes :=
  match ls with
  | l :: ls => if Z.of_nat (length l) <? MaxScanTokenSize then dropCR l :: scan_tokens ls else []
  | [] => []
  end.

(** What successive calls of [Scan] yield in [Text] until one returns false. *)
Definition scan_lines (s : bytes) : list bytes := scan_tokens (drop_last_empty (split_byte x0a s)).

(** ** The process and its commands *)

Record Cmd := { Args : list string; Dir : string; Env : list string }.

(** [exec.Command(name, arg...)]. *)
Definition Command (args : list string) : Cmd := {| Args := args; Dir := ""; Env := [] |}.

Class Host (W : Type) := {
  (** [os.Getwd] gives a directory beside its error. *)
  Getwd : W → string * option error;
  Chdir : string → eff W error unit;
  Environ : W → list string;
  LookupEnv : W → string → option string;
  (** [CombinedOutput] of a command: the output is there when the command fails, too. *)
  CombinedOutput : Cmd → W → string * option error * W;
  ReadFile : string → eff W error bytes;
  WriteFile : string → bytes → eff W error unit;
}.

(** The errors the helpers make with [fmt.Errorf]. *)
Inductive utils_error :=
  | GetwdFailed (err : error)
  | CommandFailed (command output : string) (err : error)
  | ReadFailed (filename : string) (err : error)
  | TargetMissing (target : bytes)
  | WriteFailed (filename : string) (err : error).

Definition prometheusOperatorVersion : string := "v0.77.1".
Definition prometheusOperatorURL (version : string) : string :=
  "https://github.com/prometheus-operator/prometheus-operator/" +:+
  "releases/download/" +:+ version +:+ "/bundle.yaml".
Definition certmanagerVersion : string := "v1.16.3".
Definition certmanagerURLTmpl (version : string) : string :=
  "https://github.com/cert-manager/cert-manager/releases/download/" +:+ version +:+
  "/cert-manager.yaml".

(** ** Lines of a command's output *)

Definition GetNonEmptyLines (output : string) : list bytes :=
  filter (λ element, element ≠ []) (split_byte x0a (bytes_of output)).

(** The nested loops of the two checks below. *)
Definition any_line_names (crds : list string) (crdList : list bytes) : bool :=
  existsb (λ crd, existsb (λ line, Contains line (bytes_of crd)) crdList) crds.

Section utils.
Context {W : Type} `{!Host W}.

Definition GetProjectDir (w : W) : string * option utils_error :=
  match Getwd w with
  | (wd, Some err) => (wd, Some (GetwdFailed err))
  | (wd, None) => (ReplaceAll wd "/test/e2e" "", None)
  end.

(** A directory that cannot be entered is logged, and the command is started
    with it all the same. *)
Definition Run (cmd : Cmd) (w : W) : string * option utils_error * W :=
  let dir := (GetProjectDir w).1 in
  let w := (Chdir dir w).2 in
  let cmd := {| Args := Args cmd; Dir := dir; Env := Environ w ++ ["GO111MODULE=on"] |} in
  let command := Join (Args cmd) " " in
  match CombinedOutput cmd w with
  | (output, Some err, w) => (output, Some (CommandFailed command output err), w)
  | (output, None, w) => (output, None, w)
  end.

(** [_, err := Run(cmd); return err]. *)
Definition run_command (args : list string) : eff W utils_error unit := λ w,
  match Run (Command args) w with
  | (_, Some err, w) => (Err err, w)
  | (_, None, w) => (Ok tt, w)
  end.

(** [if _, err := Run(cmd); err != nil { warnError(err) }]. *)
Definition run_or_warn (args : list string) : W → W := λ w, (Run (Command args) w).2.

Definition InstallPrometheusOperator : eff W utils_error unit :=
  run_command ["kubectl"; "create"; "-f"; prometheusOperatorURL prometheusOperatorVersion].

Definition UninstallPrometheusOperator : W → W :=
  run_or_warn ["kubectl"; "delete"; "-f"; prometheusOperatorURL prometheusOperatorVersion].

Definition prometheusCRDs : list string :=
  ["prometheuses.monitoring.coreos.com"; "prometheusrules.monitoring.coreos.com";
   "prometheusagents.monitoring.coreos.com"].

Definition IsPrometheusCRDsInstalled (w : W) : bool * W :=
  match Run (Command ["kubectl"; "get"; "crds"; "-o"; "custom-columns=NAME:.metadata.name"]) w with
  | (_, Some _, w) => (false, w)
  | (output, None, w) => (any_line_names prometheusCRDs (GetNonEmptyLines output), w)
  end.

Definition UninstallCertManager : W → W :=
  run_or_warn ["kubectl"; "delete"; "-f"; certmanagerURLTmpl certmanagerVersion].

Definition InstallCertManager : eff W utils_error unit :=
  _ ← run_command ["kubectl"; "apply"; "-f"; certmanagerURLTmpl certmanagerVersion];
  run_command ["kubectl"; "wait"; "deployment.apps/cert-manager-webhook";
               "--for"; "condition=Available"; "--namespace"; "cert-manager"; "--timeout"; "5m"].

Definition certManagerCRDs : list string :=
  ["certificates.cert-manager.io"; "issuers.cert-manager.io"; "clusterissuers.cert-manager.io";
   "certificaterequests.cert-manager.io"; "orders.acme.cert-manager.io";
   "challenges.acme.cert-manager.io"].

Definition IsCertManagerCRDsInstalled (w : W) : bool * W :=
  match Run (Command ["kubectl"; "get"; "crds"]) w with
  | (_, Some _, w) => (false, w)
  | (output, None, w) => (any_line_names certManagerCRDs (GetNonEmptyLines output), w)
  end.

Definition LoadImageToKindClusterWithName (name : string) : eff W utils_error unit := λ w,
  let cluster := default "kind" (LookupEnv w "KIND_CLUSTER") in
  run_command ["kind"; "load"; "docker-image"; name; "--name"; cluster] w.

(** ** Editing a file *)

(** The loop over the lines: a newline goes before every line but the first. *)
Fixpoint uncomment_lines (prefix : bytes) (lines : list bytes) : bytes :=
  match lines with
  | [] => []
  | [l] => TrimPrefix l prefix
  | l :: ls => TrimPrefix l prefix ++ x0a :: uncomment_lines prefix ls
  end.

(** [os.WriteFile] with its error wrapped. *)
Definition write_back (filename : string) (out : bytes) : eff W utils_error unit := λ w,
  match WriteFile filename out w with
  | (Ok tt, w) => (Ok tt, w)
  | (Err err, w) => (Err (WriteFailed filename err), w)
  | (Panic, w) => (Panic, w)
  end.

Definition UncommentCode (filename : string) (target prefix : bytes) : eff W utils_error unit := λ w,
  match ReadFile filename w with
  | (Panic, w) => (Panic, w)
  | (Err err, w) => (Err (ReadFailed filename err), w)
  | (Ok content, w) =>
      match Index content target with
      | None => (Err (TargetMissing target), w)
      | Some idx =>
          match scan_lines target with
          | [] => (Ok tt, w)
          | lines =>
              let out := take idx content ++ uncomment_lines prefix lines ++
                         drop (idx + length target) content in
              write_back filename out w
          end
      end
  end.

End utils.

(** ** Searching *)

Lemma Index_Some s sub i :
  Index s sub = Some i → s = take i s ++ sub ++ drop (i + length sub) s.
Proof.
  revert i. induction s as [|b s IH]; intros i; cbn [Index].
  - destruct (strip_prefix sub []) as [r|] eqn:E; [|done]. apply strip_prefix_Some in E.
    symmetry in E. apply app_eq_nil in E as [-> ->]. by intros [= <-].
  - destruct (strip_prefix sub (b :: s)) as [r|] eqn:E.
    + apply strip_prefix_Some in E. intros [= <-]. cbn [take app Nat.add]. rewrite E.
      by rewrite drop_app_length.
    + destruct (Index s sub) as [j|]; [|done]. intros [= <-]. cbn. f_equal. by apply IH.
Qed.

Lemma Index_app a sub b : is_Some (Index (a ++ sub ++ b) sub).
Proof.
  induction a as [|c a IH]; cbn [app].
  - destruct (sub ++ b) eqn:E; cbn [Index]; rewrite <-E, strip_prefix_app; eauto.
  - cbn [Index]. destruct (strip_prefix sub _); [eauto|]. destruct IH as [i ->]. eauto.
Qed.

Lemma Contains_spec s sub : Contains s sub = true ↔ ∃ a b, s = a ++ sub ++ b.
Proof.
  unfold Contains. rewrite bool_decide_eq_true. split.
  - intros [i Hi]. apply Index_Some in Hi. eauto.
  - intros (a & b & ->). apply Index_app.
Qed.

(** ** Lines *)

Lemma split_byte_prefix sep p s w ws :
  sep ∉ p → split_byte sep s = w :: ws → split_byte sep (p ++ s) = (p ++ w) :: ws.
Proof.
  induction p as [|b p IH]; intros Hp Hs; [done|]. apply not_elem_of_cons in Hp as [Hb Hp].
  cbn. rewrite decide_False by congruence. by rewrite IH.
Qed.

Lemma split_byte_infix sep s line : line ∈ split_byte sep s → ∃ a b, s = a ++ line ++ b.
Proof.
  enough (H : ∀ w ws, split_byte sep s = w :: ws →
    (∃ b, s = w ++ b) ∧ ∀ l, l ∈ ws → ∃ a b, s = a ++ l ++ b).
  { destruct (split_byte_cons sep s) as (w & ws & E). rewrite E. apply H in E as [[b Hb] Hws].
    intros [-> | Hl]%elem_of_cons; [|auto]. by exists [], b. }
  induction s as [|c s IH]; intros w ws; cbn; [intros [= <- <-]; split; [by exists []|by intros ? ?%elem_of_nil]|].
  destruct (split_byte_cons sep s) as (w' & ws' & E). rewrite E.
  destruct (IH _ _ E) as [[b Hb] Hws]. case_decide as Hc; intros [= <- <-].
  - split; [by exists (c :: s)|]. intros l [-> | Hl]%elem_of_cons.
    + exists [c], b. by rewrite Hb.
    + destruct (Hws _ Hl) as (a & b' & Ha). exists (c :: a), b'. by rewrite Ha.
  - split; [exists b; by rewrite Hb|]. intros l Hl.
    destruct (Hws _ Hl) as (a & b' & Ha). exists (c :: a), b'. by rewrite Ha.
Qed.

(** A text without the separator that occurs in [s] occurs in a piece of it. *)
Lemma split_byte_catches sep a sub b :
  sep ∉ sub → ∃ line x y, line ∈ split_byte sep (a ++ sub ++ b) ∧ line = x ++ sub ++ y.
Proof.
  intros Hsub. induction a as [|c a IH]; cbn [app].
  - destruct (split_byte_cons sep b) as (w & ws & E).
    exists (sub ++ w), [], w. rewrite (split_byte_prefix _ _ _ _ _ Hsub E). split; [left|done].
  - destruct IH as (line & x & y & Hin & Hline). cbn [split_byte].
    case_decide; [exists line, x, y; split; [by right|done]|].
    destruct (split_byte _ (a ++ _)) as [|w ws]; [by apply elem_of_nil in Hin|].
    apply elem_of_cons in Hin as [-> | Hin].
    + exists (c :: w), (c :: x), y. split; [left|by rewrite Hline].
    + exists line, x, y. split; [by right|done].
Qed.

(** Whether a line of the output names a CRD is whether the output does. *)
Lemma line_names_spec crd output :
  crd ≠ "" → x0a ∉ bytes_of crd →
  existsb (λ line, Contains line (bytes_of crd)) (GetNonEmptyLines output) =
  Contains (bytes_of output) (bytes_of crd).
Proof.
  intros Hne Hnl. apply eq_true_iff_eq. rewrite existsb_exists, Contains_spec.
  unfold GetNonEmptyLines. setoid_rewrite Contains_spec. setoid_rewrite <-list_elem_of_In.
  setoid_rewrite list_elem_of_filter. split.
  - intros (line & [_ Hin] & x & y & ->). apply split_byte_infix in Hin as (a & b & ->).
    exists (a ++ x), (y ++ b). by rewrite <-!app_assoc.
  - intros (a & b & ->). destruct (split_byte_catches x0a a _ b Hnl) as (line & x & y & Hin & Hl).
    exists line. split; [split; [|done]|eauto]. rewrite Hl. intros E.
    apply app_eq_nil in E as [_ [E _]%app_eq_nil]. apply Hne. by apply (inj bytes_of).
Qed.

Lemma any_line_names_spec crds output :
  forallb (λ crd, bool_decide (crd ≠ "" ∧ x0a ∉ bytes_of crd)) crds = true →
  any_line_names crds (GetNonEmptyLines output) =
  existsb (λ crd, Contains (bytes_of output) (bytes_of crd)) crds.
Proof.
  unfold any_line_names. induction crds as [|crd crds IH]; [done|]. cbn [forallb existsb].
  intros [[Hne Hnl]%bool_decide_eq_true Hcrds]%andb_true_iff.
  by rewrite line_names_spec, IH.
Qed.

(** ** Uncommenting *)

(** A line the scanner gives back as it is. *)
Definition plain_line (l : bytes) : Prop :=
  (x0a ∉ l) ∧ last l ≠ Some x0d ∧ Z.of_nat (length l) < MaxScanTokenSize.

#[global] Instance plain_line_dec l : Decision (plain_line l).
Proof. unfold plain_line. apply _. Defined.

Fixpoint join_lines (ls : list bytes) : bytes :=
  match ls with [] => [] | [l] => l | l :: ls => l ++ x0a :: join_lines ls end.

Lemma split_join_lines ls :
  ls ≠ [] → Forall plain_line ls → split_byte x0a (join_lines ls) = ls.
Proof.
  intros Hne Hls. induction Hls as [|l ls [Hl _] _ IH]; [done|].
  destruct ls as [|l' ls]; [by apply split_byte_none|].
  cbn [join_lines]. rewrite split_byte_app by done. f_equal. by apply IH.
Qed.

Lemma drop_last_empty_id ls : last ls ≠ Some [] → drop_last_empty ls = ls.
Proof.
  induction ls as [|l ls IH]; [done|]. destruct ls as [|l' ls]; [by destruct l|].
  intros H. destruct l; cbn [drop_last_empty]; f_equal; by apply IH.
Qed.

Lemma dropCR_plain l : last l ≠ Some x0d → dropCR l = l.
Proof.
  intros H. unfold dropCR, trim_suffix. cbn [rev app]. destruct l as [|x l _] using rev_ind; [done|].
  rewrite rev_app_distr. cbn. rewrite last_snoc in H. by rewrite decide_False by congruence.
Qed.

Lemma scan_tokens_plain ls : Forall plain_line ls → scan_tokens ls = ls.
Proof.
  induction 1 as [|l ls (_ & Hcr & Hlen) _ IH]; [done|]. cbn [scan_tokens].
  apply Z.ltb_lt in Hlen. by rewrite Hlen, dropCR_plain, IH.
Qed.

Lemma scan_lines_join ls :
  ls ≠ [] → Forall plain_line ls → last ls ≠ Some [] → scan_lines (join_lines ls) = ls.
Proof.
  intros Hne Hls Hlast. unfold scan_lines.
  by rewrite split_join_lines, drop_last_empty_id, scan_tokens_plain.
Qed.

Lemma TrimPrefix_app p s : TrimPrefix (p ++ s) p = s.
Proof. unfold TrimPrefix. by rewrite strip_prefix_app. Qed.

Lemma uncomment_lines_prefixed prefix ls :
  uncomment_lines prefix ((prefix ++.) <$> ls) = join_lines ls.
Proof.
  induction ls as [|l ls IH]; [done|]. destruct ls as [|l' ls]; [apply TrimPrefix_app|].
  cbn [fmap list_fmap uncomment_lines join_lines] in *. by rewrite TrimPrefix_app, IH.
Qed.

Section properties.
Context {W : Type} `{!Host W}.

(** The checks for CRDs answer whether the listing names one of them, and no
    when there is no listing. *)
Lemma IsCertManagerCRDsInstalled_spec (w : W) :
  IsCertManagerCRDsInstalled w =
  let '(output, err, w') := Run (Command ["kubectl"; "get"; "crds"]) w in
  (bool_decide (err = None) &&
   existsb (λ crd, Contains (bytes_of output) (bytes_of crd)) certManagerCRDs, w').
Proof.
  unfold IsCertManagerCRDsInstalled. destruct (Run _ w) as [[output [err|]] w']; [done|].
  by rewrite any_line_names_spec by (vm_compute; reflexivity).
Qed.

Lemma IsPrometheusCRDsInstalled_spec (w : W) :
  IsPrometheusCRDsInstalled w =
  let '(output, err, w') :=
    Run (Command ["kubectl"; "get"; "crds"; "-o"; "custom-columns=NAME:.metadata.name"]) w in
  (bool_decide (err = None) &&
   existsb (λ crd, Contains (bytes_of output) (bytes_of crd)) prometheusCRDs, w').
Proof.
  unfold IsPrometheusCRDsInstalled. destruct (Run _ w) as [[output [err|]] w']; [done|].
  by rewrite any_line_names_spec by (vm_compute; reflexivity).
Qed.

(** A file that does not hold the target is left alone. *)
Lemma UncommentCode_missing filename target prefix (w : W) w' content :
  ReadFile filename w = (Ok content, w') → Contains content target = false →
  UncommentCode filename target prefix w = (Err (TargetMissing target), w').
Proof.
  intros Hread Hc. unfold UncommentCode. rewrite Hread. unfold Contains in Hc.
  apply bool_decide_eq_false in Hc. destruct (Index content target); [|done]. destruct Hc. eauto.
Qed.

(** C39: [UncommentCode] undoes commenting.  When the first occurrence of the
    target in the file is a block of lines that each carry the prefix, the file is
    written with the prefix removed from exactly these lines; what is before and
    after the block is written as it was.  Lines are what the scanner gives back
    unchanged: no carriage return at the end, shorter than its buffer, and the last
    one not empty. *)
Theorem UncommentCode_undoes_comments filename prefix lines before after (w : W) w' :
  lines ≠ [] →
  Forall plain_line ((prefix ++.) <$> lines) →
  last ((prefix ++.) <$> lines) ≠ Some [] →
  let target := join_lines ((prefix ++.) <$> lines) in
  ReadFile filename w = (Ok (before ++ target ++ after), w') →
  Index (before ++ target ++ after) target = Some (length before) →
  UncommentCode filename target prefix w =
  write_back filename (before ++ join_lines lines ++ after) w'.
Proof.
  intros Hne Hplain Hlast target Hread Hidx. unfold UncommentCode. rewrite Hread, Hidx.
  subst target. rewrite scan_lines_join; [|by destruct lines|done..].
  rewrite <-(uncomment_lines_prefixed prefix lines), take_app_length.
  rewrite <-drop_drop, drop_app_length, drop_app_length. by destruct lines.
Qed.

End properties.

(** ** Files in memory *)

Record mem := { wd : string; vars : gmap string string; files : gmap string bytes }.

(** Commands print their arguments, except that [kubectl get] lists two CRDs. *)
#[global] Instance mem_Host : Host mem := {
  Getwd w := (wd w, None);
  Chdir d w := (Ok tt, {| wd := d; vars := vars w; files := files w |});
  Environ w := (λ '(k, v), k +:+ "=" +:+ v) <$> map_to_list (vars w);
  LookupEnv w k := vars w !! k;
  CombinedOutput cmd w :=
    match Args cmd with
    | "kubectl" :: "get" :: _ =>
        (string_of (bytes_of "NAME" ++ x0a :: bytes_of "orders.acme.cert-manager.io" ++ [x0a]), None, w)
    | "kubectl" :: "delete" :: _ => ("not found", Some (Plain "exit status 1"), w)
    | args => (Join args " ", None, w)
    end;
  ReadFile f w := (of_option (Sentinel os_ErrNotExist) (files w !! f), w);
  WriteFile f d w := (Ok tt, {| wd := wd w; vars := vars w; files := <[f := d]> (files w) |});
}.

Definition text (ls : list string) : bytes := join_lines (bytes_of <$> ls).

Definition kustomization : mem :=
  {| wd := "/src/operator/test/e2e"; vars := ∅;
     files := {[ "kustomization.yaml" := text ["resources:"; "- ../crd"; "#- ../webhook"; "#- ../prometheus"; ""] ]} |}.

Lemma UncommentCode_undoes_comments_witness :
  UncommentCode "kustomization.yaml" (text ["#- ../webhook"; "#- ../prometheus"]) (bytes_of "#")
    kustomization =
  (Ok tt, {| wd := wd kustomization; vars := ∅;
             files := {[ "kustomization.yaml" :=
               text ["resources:"; "- ../crd"; "- ../webhook"; "- ../prometheus"; ""] ]} |}).
Proof.
  rewrite (UncommentCode_undoes_comments "kustomization.yaml" (bytes_of "#")
    [bytes_of "- ../webhook"; bytes_of "- ../prometheus"]
    (text ["resources:"; "- ../crd"; ""]) [x0a] kustomization kustomization).
  - vm_compute. reflexivity.
  - discriminate.
  - apply (bool_decide_unpack (Forall plain_line _)). vm_compute. exact I.
  - vm_compute. discriminate.
  - vm_compute. reflexivity.
  - vm_compute. reflexivity.
Defined.

Example project_dir : (GetProjectDir kustomization).1 = "/src/operator".
Proof. vm_compute. reflexivity. Qed.
Example cert_manager_found : (IsCertManagerCRDsInstalled kustomization).1 = true.
Proof. vm_compute. reflexivity. Qed.
Example prometheus_not_found : (IsPrometheusCRDsInstalled kustomization).1 = false.
Proof. vm_compute. reflexivity. Qed.
Example uninstall_warns : wd (UninstallCertManager kustomization) = "/src/operator".
Proof. vm_compute. reflexivity. Qed.

(** A target that ends in a newline loses it: the block runs into the next line. *)
Example trailing_newline_lost :
  files (UncommentCode "kustomization.yaml" (text ["#- ../webhook"; ""]) (bytes_of "#") kustomization).2
    !! "kustomization.yaml" =
  Some (text ["resources:"; "- ../crd"; "- ../webhook#- ../prometheus"; ""]).
Proof. vm_compute. reflexivity. Qed.
